(* ===== verification/_CoqProject ===== *)
-Q . S2P
Prelude.v
GoStrings.v
GoPath.v
GoSort.v
Sha256.v
Names.v
ActionPolicy.v
OperationSteps.v
Credential.v
CredentialHeads.v
CredentialSync.v
LeaseData.v
LeaseStore.v
LeaseMachine.v
LeaseDurability.v
GoJson.v
GoJsonDecode.v
JournalV2.v
Transition.v
MigrationHistory.v
LedgerV2.v
GoNet.v
NetPolicy.v
NetPlanner.v
NetIsolation.v
Effects.v
NetService.v
NetServiceProofs.v
ProtectedStore.v
StoreProofs.v
Converge.v
ConvergeProofs.v
JournalDecode.v
JournalDurability.v
Rpc.v
RpcSession.v
RpcSessionProofs.v
ProjectState.v
ProjectNames.v
ProjectProofs.v
ProjectNamesProofs.v
