(* ===== verification/Prelude.v ===== *)
(** * Subyard: a verification library

    Subyard manages development yards (containers and virtual machines) for
    coding agents.  It is a Go program.  This library models the parts of it that
    decide: what may be done, by whom, in which order, and what a durable record
    proves.  The parts that only perform (processes, sockets, the Incus API, the
    command line) are left out.

    ** The parts of the program and the files of the library

    - internal/domain holds what every other part relies on.  [Names] models the
      safe identifiers, names, yard references and selectors (types.go,
      yard_identity.go); [ActionPolicy] the registry of actions, the assessment of
      a planned action and the confirmation it calls for (action_policy.go);
      [OperationSteps] the plan of an operation and the check that a re-planned
      operation stays within the approved one (operation_steps.go).
    - internal/credential/policy.go is a replicated, append-only ledger of
      credential revisions.  [Credential] models the validation of revisions and of
      the ledger they form, [CredentialHeads] heads, merge decisions, summaries and
      recipients, [CredentialSync] peers, exclusive access, assignments and the
      retry state of synchronisation.
    - internal/adapters/testvmsruntime/lease.go is the broker of test virtual
      machines: a pool of slots, leased under deadlines, kept in two files.
      [LeaseData] holds its records and text rules, [LeaseStore] every operation as
      a function from the files to a reply and new files, [LeaseMachine] the slot
      state machine and the refinement of it by the operations, [LeaseDurability]
      what survives on disk.
    - internal/releasetransition moves an installation from one release to another
      under a durable journal.  [JournalV2] models the frozen journal format
      (journal/v2), [Transition] the journal as the transition uses it, the
      conversion between both and the decision function [Evaluate] (model.go),
      [LedgerV2] the registry of migrations, the ledger of what was applied, its
      compact checkpoints and the traces that a journal pins (registry_v2.go,
      ledger_v2.go, ledger_checkpoint_v1.go, ledger_checkpoint_store.go,
      history_trace.go), [ProtectedStore] the files that hold the records
      (store_posix.go) over a directory with flushes, failing calls and crashes;
      [StoreProofs] proves what survives.  [Converge] models how a journal is carried
      out (the second half of [Converge] and [convergeStep] of transition_v2.go, with
      the recipes of work_v2.go) over a class of what it calls, [ConvergeProofs] proves
      the order in which that happens, for every such engine.  [JournalDecode] models the
      decoders of the records (journal/v2/codec.go, records.go, journal_codec.go) and
      proves that what is written is read back; [JournalDurability] puts store, text and
      order together.
    - internal/migrationhistory/history.go owns the semantics of migrations:
      epochs per domain, dependencies, frontiers, edges and traces.
      [MigrationHistory] models all of it; [LedgerV2] is its client.
    - internal/yardnetwork isolates yards from each other by packet rules on their
      interfaces.  [NetPolicy] models the saved policy, its normal form and its
      changes (policy.go, host.go), [NetPlanner] the plan that brings a host to a
      policy (planner.go, with what it reads of resource contracts and preview
      routes), [NetIsolation] proves what packets pass once a plan is applied,
      [NetService] models how a plan reaches the host through the interface of
      host.go (service.go), [NetServiceProofs] proves order, success and failure of
      that for every host.
    - internal/rpc carries the calls of clients.  [Rpc] models frames and the check of
      requests (protocol.go), [RpcSession] a session as the interleaved actions of its
      reader, writer and workers on what they share (session.go), [RpcSessionProofs]
      proves its invariant, order, completeness and termination.
    - internal/state keeps the projects of a yard: records, reservations of projects that
      are being added and the journal of a rename, each a file.  [ProjectState] models them
      with the operations of the store and of the service (store.go, admission.go,
      service.go, and the record of internal/domain/types.go), [ProjectNames] the rename of
      projects that share a name (migration.go), [ProjectProofs] and [ProjectNamesProofs]
      their properties.
    - The Go language and its packages are modelled as far as the sources use them:
      [GoStrings] (strings, UTF-8, unicode classes, strconv), [GoPath]
      (path/filepath), [GoSort] (sort, slices), [Sha256] (crypto/sha256,
      encoding/hex), [GoJson] and [GoJsonDecode] (the encoder and the decoder
      of encoding/json), [GoNet] (net/netip and
      net: IPv4 addresses, prefixes and hardware addresses), [Effects] (calls that
      change a world and may fail, with a Hoare logic that also covers failing
      runs).
    - [Prelude] holds structs, errors as values, loops, machine integers, the hint
      databases and the tactics that the files share.

    ** How code becomes definitions

    A Go function returning a value and an error is a function into [result], its
    early returns are [refuse], its loops are [for_range] over the elements with the
    variables that the loop changes as state.  A struct is a record, a map a [gmap],
    a map used as a set a [gset]; a pointer that can be nil is an [option]; where the
    identity of a pointer is compared ([MigrationHistory]) a pointer is an address
    with the data behind it.  Integers are [Z]; where the code can overflow, the
    wrap-around of 64 bits is written out ([i64]).  A range over a map has no order in
    Go: where the order can show in a result the order is an argument and the theorem
    holds for each of them, where it cannot the order is that of [map_to_list].
    Cryptography of third-party packages (the age payloads of credentials) is a
    parameter.  Each definition that translates code says which file and lines.

    ** What the theorems show

    - Leases: every successful operation of the broker moves every slot along the
      edges of an abstract slot machine (refinement); from the machine follow
      exclusion within a lease epoch and fencing of earlier ones.  What is written
      loads back; every operation but two keeps the files loadable, also when the
      write stops between the two files.
    - Credentials: the ledger validator accepts exactly the specified ledgers for
      every map order; replicas with the same revisions compute the same summary;
      merging is append-only; the decision on a set of heads is characterised for
      every input; the retry state stays valid under a monotone clock.
    - Journal: both validators accept exactly the specified journals, and the same
      ones; digests bind what they are meant to bind.  A binding is stated without
      assuming that SHA-256 has no collisions: either the bound values are equal or
      the two texts that were hashed are a collision.
    - Durable records: replacing one is atomic and durable, whatever call fails and
      whenever the machine crashes; immutable ones stay for ever; interrupted writes
      can be repeated, except with another text.
    - Convergence: whatever call fails, the journals that a run saves are a path of a
      state machine with the evidence of each step saved before; a resource changes
      only while its step is at captured evidence, the links switch only at the saved
      intent, and once the activation has begun no later run changes a resource.  The
      machine never goes back and stops after a bounded number of journals.
    - Text of records: every journal that can be written fits the size that store and
      decoder accept and decodes to itself, evidence too, and what was decoded can be
      written again.  With the two groups above: however often calls fail and the machine
      crashes, the journal record holds a valid journal that decodes and that the machine
      reaches from the first.
    - RPC: frames are read back whole and in order, also through partial writes; accepted
      requests are well-formed.  In every interleaving of a session one call runs per
      operation, only after negotiation; events are numbered upwards and nothing of a
      request follows its response; unless the session is stopped, every request gets
      exactly one response and no event is missing; and [Serve] returns when handlers do.
    - Projects: whatever operations are made and whichever calls fail, names stay unique
      without regard to case, against identifiers and reservations too; a reserved name can
      be used until it expires, whatever else is done; the preview of an admission says what
      the admission does; a rename gives every project a name of its own, and one that is
      interrupted at any call is resumed with the same result.
    - [Evaluate]: when it reports ready and when it lets a transition resume, for all
      facts.
    - Migrations: a ledger is accepted exactly when it is a dependency-closed
      frontier; from every frontier the canonical next step exists until nothing is
      pending (progress and termination); a trace is exactly a path of such steps and
      is reconstructed identically from every cut, so that recovery does not depend
      on where a transition was interrupted; the pins of a reconstructed journal are
      the fingerprints of the ledgers around each step; prefix digests bind the
      retired definitions and survive retirement; compaction loses nothing.
    - Network: once a plan is applied, one isolated yard reaches another exactly when
      the policy links them (outside approved public routes); identities never
      collide and are kept; applying reaches a fixed point; disabling isolation
      restores what was there; the address search ends and finds the least free
      address.  For every host and every failing call: settings change only under a
      saved intent and on stopped yards, a failed apply blocks every start until it
      is completed, a successful one leaves nothing behind.
    - Policies: assessments resolve to the confirmation their definition calls for;
      an accepted plan lists each step after its dependencies.
    - Some theorems show where the code does not do what it means to; they are named
      in the manifest as findings.

    ** Bounds and fuel

    The only recursions that are not structural are the walk over credential parents,
    UTF-8 segmentation, the decoder of JSON and the searches for a free address and a free
    name.  [Credential.visit] takes fuel; one more than the number of
    revisions is enough ([visit_fuel]: with it the walk never runs out, because a path
    that does not repeat a revision visits each at most once).  [GoStrings.segments]
    takes the length of the string, since every segment consumes a byte;
    [GoJsonDecode.read_value] takes twice the length of the text and one, since every call
    consumes a byte or is the second on the same text (that it is enough shows in the round
    trips), with the nesting depth of 10000 that the decoder of Go enforces as an argument
    of its own.  A session is assumed to take fewer than 2^64 actions, since its events are
    numbered by 64-bit integers.
    [NetPlanner.free_address] takes the bound of the loop in the code, 65536
    candidates ([free_address_least] states what the search returns, the case that
    all candidates are taken included).
    [ProjectState.next_available] takes one candidate more than there are names taken, since
    candidates of different suffixes differ ([next_available_total]).  The broker
    has at most 999 slots, as its configuration enforces; counters of slots are
    assumed below 2^63 - 1 where an operation increments them.  Registries are assumed
    to be what Go can represent: floors are 64-bit integers and the list of migrations
    is a slice.

    ** Not modelled

    Parsing of ledgers and validation of a checkpoint against its pinned projection; of
    internal/releasetransition the inspection of an installation and the authorization of a new journal
    (transition_v2.go), the checks that each kind of recipe makes (work_v2.go), the
    transaction graph, cleanup and lock of its store (store_posix.go), recovery receipts,
    settings and owner migrations; the semantic versions of the capability
    catalog (a third-party package); of internal/yardnetwork the fingerprint of a plan
    with the comparisons of Apply, Ensure and CheckApproved, the previews of resource
    ingress and the connection tracking at boot; of internal/rpc the JSON of requests and responses (times and raw messages) and the
    closing of the streams; of
    internal/state the resolver of selectors, the permissions of files and the lock; configuration, profiles and SSH files;
    everything that only performs I/O: internal/cli, internal/application, the other
    adapters, internal/ownerservice, internal/uninstall, test support.

    ** Order of further work

    Parsing of ledgers, then checkpoint validation and the checkpoint store; completion of
    a convergence when no call fails; plan fingerprints of the yard network; the decoder of
    the network policy; the resolver of project selectors. *)

From stdpp Require Export base tactics list gmap strings sorting pretty.
From Stdlib Require Export Ascii ZArith Lia.

#[global] Open Scope Z_scope.
#[global] Set Default Goal Selector "!".
#[global] Unset Mangle Names.

(** ** Structs

    A Go struct is a record; [r <| f := v |>] is the copy of [r] with field [f]
    assigned.  A record is updatable once it declares its fields in an [Eta]
    instance. *)

Class Eta (R : Type) := eta : R → R.

Class Setter {R E : Type} (field : R → E) := setter : E → R → R.

Definition set_field {R E} (field : R → E) {s : Setter field} (v : E) (r : R) : R := s v r.
Arguments set_field {_ _} _ {_} _ _ /.

Ltac solve_setter :=
  match goal with
  | |- @Setter ?R ?E ?field =>
      let inst := constr:(_ : Eta R) in
      let body := eval hnf in inst in
      match eval pattern field in body with
      | ?update _ =>
          let s := eval cbv beta in (λ (v : E), update (λ _ : R, v)) in exact s
      end
  end.

#[export] Hint Extern 1 (Setter _) => solve_setter : typeclass_instances.

Declare Scope record_scope.
#[global] Open Scope record_scope.
#[warnings="-postfix-notation-not-level-1"]
Notation "r <| field := v |>" := (set_field field v r)
  (at level 12, field at level 12, v at level 99, left associativity,
   format "r  <| field  :=  v |>") : record_scope.

(** ** Go errors as values

    A Go function returning [(T, error)] is a function into [result E T], where
    [E] enumerates the error returns of the component.  The bind of the monad is
    Go's [if err != nil { return err }]. *)

Inductive result (E A : Type) : Type :=
| Ok (a : A)
| Err (e : E).
Arguments Ok {E A} _.
Arguments Err {E A} _.

#[export] Instance result_eq_dec {E A} `{EqDecision E, EqDecision A} : EqDecision (result E A).
Proof. solve_decision. Defined.

#[export] Instance result_ret {E} : MRet (result E) := λ A a, Ok a.

#[export] Instance result_bind {E} : MBind (result E) := λ A B f m,
  match m with Ok a => f a | Err e => Err e end.

#[export] Instance result_fmap {E} : FMap (result E) := λ A B f m,
  match m with Ok a => Ok (f a) | Err e => Err e end.

(** [refuse bad e] is Go's [if bad { return e }]. *)
Definition refuse {E} (bad : bool) (e : E) : result E unit :=
  if bad then Err e else Ok tt.

(** [map_err f m] is [if err := m; err != nil { return f(err) }]. *)
Definition map_err {E E' A} (f : E → E') (m : result E A) : result E' A :=
  match m with Ok a => Ok a | Err e => Err (f e) end.

(** [expect o e] is [v, ok := o; if !ok { return e }]. *)
Definition expect {E A} (o : option A) (e : E) : result E A :=
  match o with Some a => Ok a | None => Err e end.

Definition is_ok {E A} (m : result E A) : bool :=
  match m with Ok _ => true | Err _ => false end.

(** A Go [for _, x := range l] whose body may return early with an error and
    updates the loop state [s]. *)
Fixpoint for_range {E A S} (body : S → A → result E S) (l : list A) (s : S) : result E S :=
  match l with
  | [] => Ok s
  | x :: l' => s' ← body s x; for_range body l' s'
  end.

(** The same loop with no state of its own. *)
Definition for_each {E A} (body : A → result E unit) (l : list A) : result E unit :=
  for_range (λ _, body) l tt.

(** The two-value map read [_, seen := m[k]] of a map used as a set. *)
Definition seen {A} `{Countable A} (k : A) (m : gset A) : bool := bool_decide (k ∈ m).

(** A map read with Go's zero value for a missing key. *)
Definition get_default {A} `{Countable K} (zero : A) (k : K) (m : gmap K A) : A :=
  default zero (m !! k).

(** ** Laws of the error monad *)

Section result_laws.
Context {E : Type}.

Lemma bind_Ok {A B} (m : result E A) (f : A → result E B) b :
  m ≫= f = Ok b ↔ ∃ a, m = Ok a ∧ f a = Ok b.
Proof. destruct m; simpl; naive_solver. Qed.

Lemma Ok_inj {A} (a b : A) : Ok (E:=E) a = Ok b → a = b.
Proof. congruence. Qed.

Lemma bind_Err {A B} (m : result E A) (f : A → result E B) e :
  m ≫= f = Err e ↔ m = Err e ∨ ∃ a, m = Ok a ∧ f a = Err e.
Proof. destruct m; simpl; naive_solver. Qed.

Lemma refuse_Ok b (e : E) u : refuse b e = Ok u ↔ b = false.
Proof. destruct b, u; naive_solver. Qed.

Lemma refuse_Err b (e e' : E) : refuse b e = Err e' ↔ b = true ∧ e = e'.
Proof. destruct b; naive_solver. Qed.

Lemma expect_Ok {A} (o : option A) (e : E) a : expect o e = Ok a ↔ o = Some a.
Proof. destruct o; naive_solver. Qed.

Lemma map_err_Ok {E' A} (f : E → E') (m : result E A) a : map_err f m = Ok a ↔ m = Ok a.
Proof. destruct m; naive_solver. Qed.

Lemma fmap_Ok {A B} (f : A → B) (m : result E A) b :
  f <$> m = Ok b ↔ ∃ a, m = Ok a ∧ b = f a.
Proof. destruct m; naive_solver. Qed.

Lemma is_ok_spec {A} (m : result E A) : is_ok m = true ↔ ∃ a, m = Ok a.
Proof. destruct m; naive_solver. Qed.

Lemma unit_Ok (m : result E unit) u : m = Ok u ↔ m = Ok tt.
Proof. by destruct u. Qed.
End result_laws.

(** ** Loop rules *)

Section loop_rules.
Context {E A S : Type}.
Implicit Types (body : S → A → result E S).

Lemma for_range_app body l1 l2 s :
  for_range body (l1 ++ l2) s = for_range body l1 s ≫= for_range body l2.
Proof.
  revert s. induction l1 as [|x l1 IH]; intros s; [done|].
  simpl. by destruct (body s x); simpl.
Qed.

(** The invariant rule: [I done s] relates the state to the prefix already
    traversed, and is established step by step by every successful iteration. *)
Lemma for_range_inv (I : list A → S → Prop) body l s s' :
  I [] s →
  (∀ pre x post t t', l = pre ++ x :: post → I pre t → body t x = Ok t' → I (pre ++ [x]) t') →
  for_range body l s = Ok s' → I l s'.
Proof.
  intros H0 Hstep. revert s' Hstep. pattern l. apply rev_ind; clear l.
  - intros s' _ [= <-]. done.
  - intros x l IH s' Hstep Hrun. rewrite for_range_app in Hrun.
    apply bind_Ok in Hrun as (t & Ht & Hx). simpl in Hx.
    apply bind_Ok in Hx as (t' & Hx & [= <-]).
    eapply Hstep; [done| |done].
    apply IH; [|done]. intros pre y post ?? ->. eapply Hstep. by rewrite <-(assoc_L (++)).
Qed.

(** The progress rule: a loop succeeds when every reachable iteration does. *)
Lemma for_range_total (I : list A → S → Prop) body l s :
  I [] s →
  (∀ pre x post t, l = pre ++ x :: post → I pre t → ∃ t', body t x = Ok t' ∧ I (pre ++ [x]) t') →
  ∃ s', for_range body l s = Ok s' ∧ I l s'.
Proof.
  intros H0. pattern l. apply rev_ind; clear l; [by eauto|].
  intros x l IH Hstep. destruct IH as (t & Ht & HI).
  { intros pre y post u ->. eapply Hstep. by rewrite <-(assoc_L (++)). }
  destruct (Hstep l x [] t eq_refl HI) as (t' & Hx & HI').
  exists t'. split; [|done]. rewrite for_range_app, Ht. simpl. by rewrite Hx.
Qed.

(** A loop that succeeds ran every iteration successfully. *)
Lemma for_range_elem body l s s' x :
  for_range body l s = Ok s' → x ∈ l → ∃ t t', body t x = Ok t'.
Proof.
  revert s. induction l as [|y l IH]; intros s H Hx; [by apply elem_of_nil in Hx|].
  simpl in H. apply bind_Ok in H as (t & Ht & H).
  apply elem_of_cons in Hx as [->|Hx]; [eauto|by eapply IH].
Qed.

(** A loop that fails failed in one of its iterations. *)
Lemma for_range_Err body l s e : for_range body l s = Err e → ∃ t x, x ∈ l ∧ body t x = Err e.
Proof.
  revert s. induction l as [|y l IH]; intros s H; [done|].
  simpl in H. apply bind_Err in H as [H|(t & _ & H)].
  - exists s, y. split; [by left|done].
  - destruct (IH t H) as (u & x & Hx & Hb). exists u, x. split; [by right|done].
Qed.
End loop_rules.

Lemma for_each_Ok {E A} (body : A → result E unit) l u :
  for_each body l = Ok u ↔ ∀ x, x ∈ l → body x = Ok tt.
Proof.
  unfold for_each. destruct u. induction l as [|x l IH]; simpl.
  { split; [intros _ ? []%elem_of_nil|done]. }
  rewrite bind_Ok. setoid_rewrite elem_of_cons. split.
  - intros ([] & ? & ?) y [->|?]; [done|]. by apply IH.
  - intros H. exists tt. split; [by apply H; left|]. apply IH. auto.
Qed.

Lemma for_each_total {E A} (body : A → result E unit) l :
  (∀ x, x ∈ l → body x = Ok tt) → for_each body l = Ok tt.
Proof. by rewrite for_each_Ok. Qed.

(** The loop that refuses a key it has seen: it succeeds on exactly the lists of
    good elements with distinct keys. *)
Lemma for_range_distinct {E A K} `{Countable K} (key : A → K) (good : A → Prop)
    (body : gset K → A → result E (gset K)) :
  (∀ ids x ids', body ids x = Ok ids' ↔ good x ∧ key x ∉ ids ∧ ids' = {[ key x ]} ∪ ids) →
  ∀ l ids, (∃ ids', for_range body l ids = Ok ids') ↔
    NoDup (key <$> l) ∧ (∀ x, x ∈ l → good x ∧ key x ∉ ids).
Proof.
  intros Hb l. induction l as [|x l IH]; intros ids; simpl.
  - split; [intros _; split; [constructor|by intros ??%elem_of_nil]|by eauto].
  - rewrite NoDup_cons. setoid_rewrite bind_Ok. setoid_rewrite elem_of_cons. split.
    + intros (ids' & t & (Hg & Hx & ->)%Hb & Hr).
      destruct (proj1 (IH _) (ex_intro _ _ Hr)) as [Hnd Hl].
      split_and!; [|done|intros y [->|Hy]; [done|]; destruct (Hl y Hy); set_solver].
      intros (y & E1 & Hy)%list_elem_of_fmap. destruct (Hl y Hy) as [_ Hn]. set_solver.
    + intros [[Hx Hnd] Hl]. destruct (Hl x (or_introl eq_refl)) as [Hg Hi].
      destruct (proj2 (IH ({[ key x ]} ∪ ids))) as [ids' Hr].
      { split; [done|]. intros y Hy. destruct (Hl y (or_intror Hy)) as [? ?]. split; [done|].
        apply not_elem_of_union. split; [|done]. rewrite elem_of_singleton. intros E1.
        apply Hx. rewrite <-E1. by apply list_elem_of_fmap_2. }
      exists ids', ({[ key x ]} ∪ ids). split; [by apply Hb|done].
Qed.

(** ** Lists *)

(** Elements of a list with distinct keys are equal when their keys are. *)
Lemma NoDup_key {A B} (key : A → B) (l : list A) x y :
  NoDup (key <$> l) → x ∈ l → y ∈ l → key x = key y → x = y.
Proof.
  induction l as [|z l IH]; [by intros _ ?%elem_of_nil|].
  intros [Hz Hnd]%NoDup_cons Hx Hy Hk.
  apply elem_of_cons in Hx as [->|Hx], Hy as [->|Hy]; [done| | |by apply IH].
  - destruct Hz. rewrite Hk. by apply list_elem_of_fmap_2.
  - destruct Hz. rewrite <-Hk. by apply list_elem_of_fmap_2.
Qed.

(** ** Relations *)

Lemma tc_inv_r {A} (R : relation A) x y : tc R x y → R x y ∨ ∃ z, tc R x z ∧ R z y.
Proof.
  induction 1 as [x y H|x y z H1 _ IH]; [by left|right].
  destruct IH as [IH|(w & IH & Hw)].
  - exists y. split; [by apply tc_once|done].
  - exists w. split; [by eapply tc_l|done].
Qed.

(** An accessible element is on no cycle. *)
Lemma Acc_no_cycle {A} (R : relation A) x : Acc R x → ¬ tc R x x.
Proof.
  induction 1 as [x _ IH]. intros Hx. apply tc_inv_r in Hx as Hz.
  destruct Hz as [H|(z & Htc & H)]; [by apply (IH x)|].
  apply (IH z H). eapply tc_l; done.
Qed.

(** ** Machine integers

    Go's [uint64] and [int64] are [Z] with their wrap-around written out. *)

Definition u64 (z : Z) : Z := z mod 2 ^ 64.
Definition i64 (z : Z) : Z := (z + 2 ^ 63) mod 2 ^ 64 - 2 ^ 63.

Definition max_u64 : Z := 2 ^ 64 - 1.
Definition max_i64 : Z := 2 ^ 63 - 1.
Definition min_i64 : Z := - 2 ^ 63.

Lemma u64_small z : 0 ≤ z ≤ max_u64 → u64 z = z.
Proof. intros H. apply Z.mod_small. unfold max_u64 in H. lia. Qed.

Lemma u64_range z : 0 ≤ u64 z ≤ max_u64.
Proof. unfold u64, max_u64. pose proof (Z.mod_pos_bound z (2 ^ 64)). lia. Qed.

Lemma i64_small z : min_i64 ≤ z ≤ max_i64 → i64 z = z.
Proof.
  unfold i64, min_i64, max_i64. intros H. rewrite Z.mod_small; lia.
Qed.

Lemma i64_range z : min_i64 ≤ i64 z ≤ max_i64.
Proof.
  unfold i64, min_i64, max_i64. pose proof (Z.mod_pos_bound (z + 2 ^ 63) (2 ^ 64)). lia.
Qed.

(** ** Automation *)

Create HintDb yard discriminated.
Create Rewrite HintDb yard_bool.

#[export] Hint Rewrite orb_false_iff orb_true_iff andb_true_iff andb_false_iff
  negb_true_iff negb_false_iff bool_decide_eq_true bool_decide_eq_false
  Z.ltb_lt Z.ltb_ge Z.leb_le Z.leb_gt Z.eqb_eq Z.eqb_neq
  Nat.ltb_lt Nat.ltb_ge Nat.leb_le Nat.leb_gt Nat.eqb_eq Nat.eqb_neq : yard_bool.

(** Turns boolean guards of the code into propositions. *)
Ltac bools :=
  repeat match goal with
  | H : context [?b = true] |- _ => progress autorewrite with yard_bool in H
  | H : context [?b = false] |- _ => progress autorewrite with yard_bool in H
  end;
  autorewrite with yard_bool; destruct_and?.

(** One inversion step on a successful run of the error monad. *)
Ltac ok_step :=
  match goal with
  | H : mbind _ _ = Ok _ |- _ =>
      let v := fresh "v" in let H' := fresh H in
      apply bind_Ok in H as (v & H' & H)
  | H : fmap _ _ = Ok _ |- _ =>
      let v := fresh "v" in let H' := fresh H in
      apply fmap_Ok in H as (v & H' & H)
  | H : refuse _ _ = Ok _ |- _ => apply refuse_Ok in H
  | H : expect _ _ = Ok _ |- _ => apply expect_Ok in H
  | H : map_err _ _ = Ok _ |- _ => apply map_err_Ok in H
  | H : Ok _ = Ok _ |- _ => apply Ok_inj in H
  | H : Err _ = Ok _ |- _ => discriminate H
  | H : Ok _ = Err _ |- _ => discriminate H
  | v : unit |- _ => destruct v
  end.

(** Inverts every successful run in the context. *)
Ltac ok_inv := repeat ok_step.

(** Inverts runs and normalises the guards that they passed. *)
Ltac ok_bools := ok_inv; bools; simplify_eq.

(** Case analysis on the [if]s of a step function, in the goal. *)
Ltac split_ifs :=
  repeat match goal with
  | |- context [if ?b then _ else _] => destruct b eqn:?
  end.

(** Proves a closed decidable proposition by evaluating its decision. *)
Ltac decide_now := apply (bool_decide_unpack _); by vm_compute.
