(* ===== verification/GoStrings.v ===== *)
(** * Go strings

    The parts of the Go language and of its packages [strings], [unicode],
    [unicode/utf8], [path/filepath] and [strconv] that the modelled sources use.
    A Go string is a sequence of bytes, here a [string] (a sequence of 8-bit
    [ascii]); [for _, c := range s] iterates over the runes that UTF-8 decoding
    yields, with [RuneError] for every byte that starts no valid encoding. *)

From S2P Require Import Prelude.

Definition byteZ (a : ascii) : Z := Z.of_N (N_of_ascii a).

(** The byte sequence of a string, and Go's [len]. *)
Fixpoint bytes (s : string) : list Z :=
  match s with
  | EmptyString => []
  | String a s' => byteZ a :: bytes s'
  end.

Definition len (s : string) : Z := Z.of_nat (String.length s).

(** ** UTF-8 *)

Definition RuneError : Z := 0xFFFD.

Definition between (lo x hi : Z) : bool := (lo <=? x) && (x <=? hi).

Lemma between_true lo x hi : between lo x hi = true ↔ lo ≤ x ≤ hi.
Proof. unfold between. bools. done. Qed.

Lemma between_false lo x hi : between lo x hi = false ↔ ¬ (lo ≤ x ≤ hi).
Proof. rewrite <-between_true. by destruct (between lo x hi). Qed.

#[export] Hint Rewrite between_true between_false : yard_bool.

(** [utf8.first] with its accept ranges: the encoded size and the bounds of the
    second byte, [None] for a byte that starts no encoding. *)
Definition first_info (b : Z) : option (nat * Z * Z) :=
  if between 0xC2 b 0xDF then Some (2%nat, 0x80, 0xBF)
  else if b =? 0xE0 then Some (3%nat, 0xA0, 0xBF)
  else if between 0xE1 b 0xEC then Some (3%nat, 0x80, 0xBF)
  else if b =? 0xED then Some (3%nat, 0x80, 0x9F)
  else if between 0xEE b 0xEF then Some (3%nat, 0x80, 0xBF)
  else if b =? 0xF0 then Some (4%nat, 0x90, 0xBF)
  else if between 0xF1 b 0xF3 then Some (4%nat, 0x80, 0xBF)
  else if b =? 0xF4 then Some (4%nat, 0x80, 0x8F)
  else None.

(** The continuation bits of a byte in 0x80..0xBF. *)
Definition cont (b : Z) : Z := b - 0x80.

Definition is_cont (b : Z) : bool := between 0x80 b 0xBF.

(** [utf8.DecodeRuneInString] on the bytes of a non-empty string: the rune and
    the number of bytes it takes. *)
Definition decode_rune (b0 : Z) (rest : list Z) : Z * nat :=
  if b0 <? 0x80 then (b0, 1%nat) else
  match first_info b0, rest with
  | Some (2%nat, lo, hi), b1 :: _ =>
      if between lo b1 hi then ((b0 - 0xC0) * 64 + cont b1, 2%nat) else (RuneError, 1%nat)
  | Some (3%nat, lo, hi), b1 :: b2 :: _ =>
      if between lo b1 hi && is_cont b2
      then ((b0 - 0xE0) * 4096 + cont b1 * 64 + cont b2, 3%nat) else (RuneError, 1%nat)
  | Some (4%nat, lo, hi), b1 :: b2 :: b3 :: _ =>
      if between lo b1 hi && is_cont b2 && is_cont b3
      then ((b0 - 0xF0) * 262144 + cont b1 * 4096 + cont b2 * 64 + cont b3, 4%nat)
      else (RuneError, 1%nat)
  | _, _ => (RuneError, 1%nat)
  end.

Fixpoint string_drop (n : nat) (s : string) : string :=
  match n, s with
  | S n', String _ s' => string_drop n' s'
  | _, _ => s
  end.

Fixpoint string_take (n : nat) (s : string) : string :=
  match n, s with
  | S n', String a s' => String a (string_take n' s')
  | _, _ => EmptyString
  end.

(** The successive encodings of a string, each with its rune.  A rune takes at
    least one byte, so [String.length s] is enough fuel. *)
Fixpoint segments_go (fuel : nat) (s : string) : list (Z * string) :=
  match fuel, s with
  | S fuel', String a s' =>
      let '(r, size) := decode_rune (byteZ a) (bytes s') in
      (r, string_take size s) :: segments_go fuel' (string_drop size s)
  | _, _ => []
  end.

Definition segments (s : string) : list (Z * string) := segments_go (String.length s) s.

(** The runes of [for _, c := range s]. *)
Definition runes (s : string) : list Z := (segments s).*1.

(** [utf8.ValidString]: no byte decodes to a one-byte [RuneError]. *)
Definition ValidString (s : string) : bool :=
  forallb (λ '(r, enc), negb ((r =? RuneError) && (String.length enc =? 1)%nat)) (segments s).

(** ** Package unicode *)

(** [unicode.IsControl]: category Cc, all of it in Latin-1. *)
Definition IsControl (r : Z) : bool := between 0 r 0x1F || between 0x7F r 0x9F.

(** [unicode.IsSpace]: White_Space. *)
Definition IsSpace (r : Z) : bool :=
  between 0x09 r 0x0D || (r =? 0x20) || (r =? 0x85) || (r =? 0xA0) || (r =? 0x1680) ||
  between 0x2000 r 0x200A || (r =? 0x2028) || (r =? 0x2029) || (r =? 0x202F) ||
  (r =? 0x205F) || (r =? 0x3000).

(** ** Package strings *)

Definition HasPrefix (s p : string) : bool := String.prefix p s.

Definition string_rev (s : string) : string := String.rev s.

Definition HasSuffix (s p : string) : bool := String.prefix (String.rev p) (String.rev s).

Definition ContainsFunc (s : string) (f : Z → bool) : bool := existsb f (runes s).

(** [strings.ContainsAny s chars] for a set [chars] of ASCII characters. *)
Definition ContainsAny (s chars : string) : bool :=
  existsb (λ b, existsb (Z.eqb b) (bytes chars)) (bytes s).

(** [strings.ContainsRune chars r] for a set [chars] of ASCII characters. *)
Definition ContainsRune (chars : string) (r : Z) : bool := existsb (Z.eqb r) (bytes chars).

Fixpoint Contains (s sub : string) : bool :=
  HasPrefix s sub || match s with EmptyString => false | String _ s' => Contains s' sub end.

Definition concat_segments (l : list (Z * string)) : string :=
  foldr (λ p acc, p.2 +:+ acc) "" l.

Fixpoint drop_while {A} (f : A → bool) (l : list A) : list A :=
  match l with
  | [] => []
  | x :: l' => if f x then drop_while f l' else l
  end.

(** [strings.TrimSpace].  The trailing runes are found by decoding backwards in
    Go; a valid multi-byte encoding holds one starting byte, so both directions
    cut a string into the same encodings. *)
Definition TrimSpace (s : string) : string :=
  let keep := drop_while (λ p, IsSpace p.1) (segments s) in
  concat_segments (rev (drop_while (λ p, IsSpace p.1) (rev keep))).

(** [strings.Split s sep] for a one-byte separator. *)
Fixpoint Split (s : string) (sep : ascii) : list string :=
  match s with
  | EmptyString => [""]
  | String a s' =>
      if bool_decide (a = sep) then "" :: Split s' sep
      else match Split s' sep with
           | [] => [String a ""]
           | p :: ps => String a p :: ps
           end
  end.

(** [strings.Join parts sep]. *)
Fixpoint Join (parts : list string) (sep : string) : string :=
  match parts with
  | [] => ""
  | [p] => p
  | p :: ps => p +:+ sep +:+ Join ps sep
  end.

(** [strings.Cut s sep] for a one-byte separator: the text before and after its
    first occurrence. *)
Fixpoint Cut (s : string) (sep : ascii) : option (string * string) :=
  match s with
  | EmptyString => None
  | String a s' =>
      if bool_decide (a = sep) then Some ("", s')
      else match Cut s' sep with
           | Some (before, after) => Some (String a before, after)
           | None => None
           end
  end.

Definition TrimPrefix (s p : string) : string :=
  if HasPrefix s p then string_drop (String.length p) s else s.

Definition CutPrefix (s p : string) : option string :=
  if HasPrefix s p then Some (string_drop (String.length p) s) else None.

(** [strings.Trim s cutset] for a cutset of ASCII characters. *)
Definition in_set (cutset : string) (a : ascii) : bool := ContainsRune cutset (byteZ a).

Definition Trim (s cutset : string) : string :=
  let drop := drop_while (in_set cutset) in
  String.string_of_list_ascii (rev (drop (rev (drop (String.list_ascii_of_string s))))).

(** [strings.LastIndex s sub] for a one-byte [sub], [-1] when it is absent. *)
Fixpoint LastIndex (s : string) (c : ascii) : Z :=
  match s with
  | EmptyString => -1
  | String a s' =>
      let i := LastIndex s' c in
      if 0 <=? i then i + 1 else if bool_decide (a = c) then 0 else -1
  end.

(** Go's slice expressions [s[lo:hi]] for bounds the caller keeps in range. *)
Definition slice (s : string) (lo hi : Z) : string :=
  string_take (Z.to_nat (hi - lo)) (string_drop (Z.to_nat lo) s).

Definition is_lower (c : Z) : bool := between 97 c 122.
Definition is_upper (c : Z) : bool := between 65 c 90.
Definition is_digit (c : Z) : bool := between 48 c 57.

(** [strings.ToLower] on a string of ASCII bytes. *)
Definition lower_ascii (a : ascii) : ascii :=
  if is_upper (byteZ a) then ascii_of_N (N_of_ascii a + 32) else a.

Fixpoint string_map (f : ascii → ascii) (s : string) : string :=
  match s with
  | EmptyString => EmptyString
  | String a s' => String (f a) (string_map f s')
  end.

Definition is_ascii (s : string) : bool := forallb (λ b, b <? 0x80) (bytes s).

(** [strings.ToLower]: the Unicode case tables ([unicode_lower]) are consulted
    only for a string with a non-ASCII byte. *)
Definition ToLower (unicode_lower : string → string) (s : string) : string :=
  if is_ascii s then string_map lower_ascii s else unicode_lower s.

(** ** Facts about bytes and runes *)

Lemma byteZ_range a : 0 ≤ byteZ a ≤ 255.
Proof. unfold byteZ. pose proof (N_ascii_bounded a). lia. Qed.

#[export] Instance byteZ_inj : Inj (=) (=) byteZ.
Proof.
  intros a b H. unfold byteZ in H. apply N2Z.inj in H.
  by rewrite <-(ascii_N_embedding a), <-(ascii_N_embedding b), H.
Qed.

Lemma length_bytes s : length (bytes s) = String.length s.
Proof. induction s; simpl; congruence. Qed.

Lemma string_app_cons a s t : String a s +:+ t = String a (s +:+ t).
Proof. done. Qed.

Lemma bytes_app s t : bytes (s +:+ t) = bytes s ++ bytes t.
Proof. induction s; simpl; [done|]. by f_equal. Qed.

#[export] Instance bytes_inj : Inj (=) (=) bytes.
Proof.
  intros s. induction s as [|a s IH]; intros [|b t]; simpl; try done.
  intros [= H1%(inj _) H2%IH]. congruence.
Qed.

Lemma len_app s t : len (s +:+ t) = len s + len t.
Proof.
  unfold len. rewrite <-!length_bytes, bytes_app, length_app. lia.
Qed.

Lemma string_app_nil_r s : s +:+ "" = s.
Proof. induction s; [done|]. rewrite string_app_cons. congruence. Qed.

Lemma string_app_assoc s t u : s +:+ (t +:+ u) = (s +:+ t) +:+ u.
Proof. induction s; [done|]. rewrite !string_app_cons. congruence. Qed.

Lemma length_string_drop n s : String.length (string_drop n s) = (String.length s - n)%nat.
Proof.
  revert n. induction s as [|a s IH]; intros [|n]; simpl; try lia. apply IH.
Qed.

Lemma decode_rune_size b0 rest : (1 ≤ (decode_rune b0 rest).2)%nat.
Proof. unfold decode_rune. repeat case_match; simpl; lia. Qed.

(** A byte of the non-ASCII half never starts the encoding of an ASCII rune. *)
Lemma decode_rune_high b0 rest : 0x80 ≤ b0 → 0x80 ≤ (decode_rune b0 rest).1.
Proof.
  intros H. unfold decode_rune, first_info, is_cont, cont, RuneError in *.
  repeat case_match; simplify_eq; simpl in *; bools; lia.
Qed.

Lemma decode_rune_low b0 rest : b0 < 0x80 → decode_rune b0 rest = (b0, 1%nat).
Proof. intros H. unfold decode_rune. by rewrite (proj2 (Z.ltb_lt _ _) H). Qed.

(** A test that rejects every non-ASCII rune may be made byte by byte: this is
    how the character loops of the sources are reasoned about. *)
Lemma runes_ascii_forall (P : Z → bool) s :
  (∀ r, 0x80 ≤ r → P r = false) → forallb P (runes s) = forallb P (bytes s).
Proof.
  intros HP. unfold runes, segments.
  cut (∀ n t, (String.length t ≤ n)%nat → forallb P (segments_go n t).*1 = forallb P (bytes t)).
  { intros Hn. by apply Hn. }
  induction n as [|n IH]; intros [|a t] Hlen; simpl in *; try done; [lia|].
  destruct (decide (byteZ a < 0x80)) as [Ha|Ha].
  - rewrite decode_rune_low by done. simpl. f_equal. apply IH. lia.
  - pose proof (decode_rune_high (byteZ a) (bytes t)) as Hh.
    destruct (decode_rune _ _) as [r k]; simpl in *.
    rewrite (HP r), (HP (byteZ a)) by lia. done.
Qed.

(** ** Facts about prefixes, cuts and splits *)

Lemma HasPrefix_app p r : HasPrefix (p +:+ r) p = true.
Proof.
  unfold HasPrefix. induction p as [|a p IH]; [by destruct r|].
  simpl. destruct (ascii_dec a a); [done|congruence].
Qed.

Lemma HasPrefix_spec s p : HasPrefix s p = true ↔ ∃ r, s = p +:+ r.
Proof.
  split; [|intros [r ->]; apply HasPrefix_app].
  unfold HasPrefix. revert s. induction p as [|a p IH]; intros s H; [by exists s|].
  destruct s as [|b s]; simpl in H; [done|].
  destruct (ascii_dec a b) as [->|]; [|done].
  destruct (IH s H) as [r ->]. by exists r.
Qed.

Lemma string_drop_app p r : string_drop (String.length p) (p +:+ r) = r.
Proof. induction p; simpl; [by destruct r|done]. Qed.

Lemma string_take_app p r : string_take (String.length p) (p +:+ r) = p.
Proof.
  induction p; [by destruct r|]. rewrite string_app_cons. simpl. congruence.
Qed.

Lemma CutPrefix_spec s p r : CutPrefix s p = Some r ↔ s = p +:+ r.
Proof.
  unfold CutPrefix. case_match eqn:Hp.
  - apply HasPrefix_spec in Hp as [r' ->]. rewrite string_drop_app.
    split; [congruence|]. intros H%(inj _). congruence.
  - split; [done|]. intros ->. by rewrite HasPrefix_app in Hp.
Qed.

(** A separator byte absent from a string. *)
Definition free_of (sep : ascii) (s : string) : Prop := byteZ sep ∉ bytes s.

#[export] Instance free_of_dec sep s : Decision (free_of sep s).
Proof. unfold free_of. apply _. Defined.

Lemma free_of_cons sep a s : free_of sep (String a s) ↔ a ≠ sep ∧ free_of sep s.
Proof.
  unfold free_of. simpl. rewrite not_elem_of_cons. split.
  - intros [H1 H2]. split; [congruence|done].
  - intros [H1 H2]. split; [|done]. intros H%(inj _). congruence.
Qed.

Lemma Cut_Some s sep before after :
  Cut s sep = Some (before, after) ↔ s = before +:+ String sep after ∧ free_of sep before.
Proof.
  revert before after. induction s as [|a s IH]; intros before after; simpl.
  { split; [done|]. intros [H _]. by destruct before. }
  split.
  - case_bool_decide as Ha.
    + intros [= <- <-]. subst. split; [done|]. apply not_elem_of_nil.
    + intros H. destruct (Cut s sep) as [[x y]|]; [|done].
      destruct (proj1 (IH x y) eq_refl) as [-> Hx]. injection H as <- <-.
      split; [done|]. by apply free_of_cons.
  - intros [H Hf]. destruct before as [|b before].
    + injection H as -> ->. by rewrite bool_decide_eq_true_2.
    + rewrite string_app_cons in H. injection H as -> H.
      apply free_of_cons in Hf as [Hb Hf]. rewrite bool_decide_eq_false_2 by done.
      by rewrite (proj2 (IH before after)).
Qed.

Lemma Split_ne s sep : Split s sep ≠ [].
Proof. destruct s; simpl; [done|]. repeat case_match; done. Qed.

Lemma Split_free s sep : free_of sep s → Split s sep = [s].
Proof.
  induction s as [|a s IH]; simpl; [done|]. intros [Ha Hs]%free_of_cons.
  rewrite bool_decide_eq_false_2 by done. by rewrite IH.
Qed.

Lemma Split_app p r sep : free_of sep p → Split (p +:+ String sep r) sep = p :: Split r sep.
Proof.
  induction p as [|a p IH]; simpl; [by rewrite bool_decide_eq_true_2|].
  intros [Ha Hp]%free_of_cons. rewrite bool_decide_eq_false_2 by done. by rewrite IH.
Qed.

(** Splitting undoes joining when no part holds the separator. *)
Lemma Split_Join parts sep :
  parts ≠ [] → Forall (free_of sep) parts → Split (Join parts (String sep "")) sep = parts.
Proof.
  induction parts as [|p parts IH]; [done|]. intros _ [Hp Hps]%Forall_cons.
  destruct parts as [|q parts].
  - simpl. by apply Split_free.
  - change (Join _ _) with (p +:+ (String sep (Join (q :: parts) (String sep "")))).
    rewrite Split_app by done. by rewrite IH.
Qed.

(** Joining undoes splitting. *)
Lemma Join_Split s sep : Join (Split s sep) (String sep "") = s.
Proof.
  induction s as [|a s IH]; [done|]. simpl. pose proof (Split_ne s sep).
  case_bool_decide as Ha; [subst|]; destruct (Split s sep) as [|p ps]; simpl in *; try done.
  - by rewrite IH.
  - rewrite <-IH. by destruct ps.
Qed.

Lemma Split_parts_free s sep : Forall (free_of sep) (Split s sep).
Proof.
  induction s as [|a s IH]; simpl.
  { repeat constructor. apply not_elem_of_nil. }
  case_bool_decide as Ha.
  - constructor; [apply not_elem_of_nil|done].
  - destruct (Split s sep) as [|p ps]; simpl.
    + repeat constructor. apply free_of_cons. split; [done|apply not_elem_of_nil].
    + apply Forall_cons in IH as [Hp Hps]. constructor; [|done]. by apply free_of_cons.
Qed.

(** ** ASCII strings *)

Lemma is_ascii_cons a s : is_ascii (String a s) = true ↔ byteZ a < 0x80 ∧ is_ascii s = true.
Proof. unfold is_ascii. simpl. bools. done. Qed.

Lemma concat_segments_app l k :
  concat_segments (l ++ k) = concat_segments l +:+ concat_segments k.
Proof.
  induction l as [|[r e] l IH]; [done|]. simpl. by rewrite IH, string_app_assoc.
Qed.

Lemma segments_ascii s :
  is_ascii s = true →
  segments s = (λ a, (byteZ a, String a "")) <$> String.list_ascii_of_string s.
Proof.
  unfold segments. induction s as [|a s IH]; [done|].
  intros [Ha Hs]%is_ascii_cons. simpl.
  rewrite decode_rune_low by done. simpl. f_equal. by apply IH.
Qed.

Lemma runes_ascii s : is_ascii s = true → runes s = bytes s.
Proof.
  intros Hs. unfold runes. rewrite segments_ascii by done. clear Hs.
  induction s as [|a s IH]; [done|]. csimpl. by f_equal.
Qed.

Lemma drop_while_id {A} (f : A → bool) l : forallb (λ x, negb (f x)) l = true → drop_while f l = l.
Proof. destruct l as [|x l]; [done|]. simpl. intros [H _]%andb_true_iff. by destruct (f x). Qed.

(** A string of ASCII bytes none of which is a space is already trimmed. *)
Lemma TrimSpace_id s :
  is_ascii s = true → forallb (λ b, negb (IsSpace b)) (bytes s) = true → TrimSpace s = s.
Proof.
  intros Ha Hs. unfold TrimSpace. rewrite segments_ascii by done.
  assert (∀ l, forallb (λ b, negb (IsSpace b)) (byteZ <$> l) = true →
    forallb (λ p : Z * string, negb (IsSpace p.1)) ((λ a, (byteZ a, String a "")) <$> l) = true) as Hf.
  { intros l. induction l; simpl; [done|]. bools. intros [??]. auto. }
  assert (bytes s = byteZ <$> String.list_ascii_of_string s) as Hb.
  { clear. induction s as [|a s IH]; [done|]. csimpl. by f_equal. }
  rewrite Hb in Hs. apply Hf in Hs. rewrite (drop_while_id _ (_ <$> _)) by done.
  rewrite drop_while_id; [rewrite rev_involutive|].
  - clear. induction s as [|a s IH]; [done|]. csimpl.
    change (String a s) with (String a "" +:+ s). by rewrite <-IH at 2.
  - rewrite forallb_forall in *. intros x Hx. apply Hs. by apply in_rev.
Qed.

(** ** Decoding is stable under cutting at encodings

    The encodings of a contiguous run of the encodings of a string are the run
    itself: trimming, cutting and re-scanning agree about where runes start. *)

Lemma decode_rune_prefix b0 r1 r2 :
  ((decode_rune b0 (r1 ++ r2)).2 ≤ S (length r1))%nat →
  decode_rune b0 r1 = decode_rune b0 (r1 ++ r2).
Proof.
  unfold decode_rune. case_match; [done|].
  destruct (first_info b0) as [[[[|[|[|[|[|k]]]]] lo] hi]|]; try done.
  - destruct r1 as [|b1 r1]; [|done]. simpl. destruct r2 as [|b1 r2]; [done|].
    case_match; simpl; [lia|done].
  - destruct r1 as [|b1 [|b2 r1]]; [| |done]; simpl.
    + destruct r2 as [|b1 [|b2 r2]]; [done..|]. case_match; simpl; [lia|done].
    + destruct r2 as [|b2 r2]; [done|]. case_match; simpl; [lia|done].
  - destruct r1 as [|b1 [|b2 [|b3 r1]]]; [| | |done]; simpl.
    + destruct r2 as [|b1 [|b2 [|b3 r2]]]; [done..|]. case_match; simpl; [lia|done].
    + destruct r2 as [|b2 [|b3 r2]]; [done..|]. case_match; simpl; [lia|done].
    + destruct r2 as [|b3 r2]; [done|]. case_match; simpl; [lia|done].
Qed.

Lemma decode_rune_fits b0 rest : ((decode_rune b0 rest).2 ≤ S (length rest))%nat.
Proof. unfold decode_rune. repeat case_match; simpl; lia. Qed.

Lemma string_take_drop n s : string_take n s +:+ string_drop n s = s.
Proof.
  revert n. induction s as [|a s IH]; intros [|n]; try done. simpl. rewrite string_app_cons.
  by rewrite IH.
Qed.

Lemma length_string_take n s : (n ≤ String.length s)%nat → String.length (string_take n s) = n.
Proof.
  revert n. induction s as [|a s IH]; intros [|n]; simpl; try lia.
  intros H. by rewrite IH by lia.
Qed.

(** The segmentation does not depend on the fuel once it covers the string. *)
Lemma segments_go_fuel n m s :
  (String.length s ≤ n)%nat → (String.length s ≤ m)%nat → segments_go n s = segments_go m s.
Proof.
  revert m s. induction n as [|n IH]; intros [|m] [|a s] Hn Hm; simpl in *; try done; try lia.
  pose proof (decode_rune_size (byteZ a) (bytes s)) as Hk.
  destruct (decode_rune _ _) as [r [|k]]; simpl in *; [lia|].
  f_equal. apply IH; rewrite length_string_drop; lia.
Qed.

Lemma segments_cons a s :
  segments (String a s) =
  let '(r, size) := decode_rune (byteZ a) (bytes s) in
  (r, string_take size (String a s)) :: segments (string_drop size (String a s)).
Proof.
  unfold segments. simpl.
  pose proof (decode_rune_size (byteZ a) (bytes s)) as Hk.
  destruct (decode_rune _ _) as [r [|k]]; simpl in *; [lia|].
  f_equal. apply segments_go_fuel; rewrite ?length_string_drop; lia.
Qed.

(** Induction along the encodings of a string. *)
Lemma segments_ind (P : string → list (Z * string) → Prop) :
  P "" [] →
  (∀ a s r k, decode_rune (byteZ a) (bytes s) = (r, S k) →
     P (string_drop k s) (segments (string_drop k s)) →
     P (String a s) ((r, String a (string_take k s)) :: segments (string_drop k s))) →
  ∀ s, P s (segments s).
Proof.
  intros H0 Hs s. remember (String.length s) as n eqn:Hn.
  revert s Hn. induction (lt_wf n) as [n _ IH]. intros [|a s] ->; [done|].
  rewrite segments_cons. pose proof (decode_rune_size (byteZ a) (bytes s)) as Hk.
  destruct (decode_rune _ _) as [r [|k]] eqn:Hd; simpl in *; [lia|].
  apply Hs; [done|]. eapply IH; [|done]. rewrite length_string_drop. lia.
Qed.

Lemma concat_segments_id s : concat_segments (segments s) = s.
Proof.
  apply (segments_ind (λ s l, concat_segments l = s)); [done|].
  intros a t r k _ IH. simpl. rewrite IH, string_app_cons. by rewrite string_take_drop.
Qed.

(** Keeping the first encodings of a string keeps their segmentation. *)
Lemma segments_concat_prefix s l1 l2 :
  segments s = l1 ++ l2 → segments (concat_segments l1) = l1.
Proof.
  revert l1 l2. apply (segments_ind (λ s l, ∀ l1 l2, l = l1 ++ l2 → segments (concat_segments l1) = l1)).
  { intros l1 l2 Hl. symmetry in Hl. by apply app_eq_nil in Hl as [-> ->]. }
  intros a t r k Hd IH [|p l1] l2 Hl; [done|]. simpl in Hl. injection Hl as <- Hl.
  pose proof (decode_rune_fits (byteZ a) (bytes t)) as Hfit.
  rewrite Hd, length_bytes in Hfit; simpl in Hfit.
  assert (String.length (string_take k t) = k) as Hk by (apply length_string_take; lia).
  simpl. rewrite string_app_cons, segments_cons.
  assert (concat_segments l1 +:+ concat_segments l2 = string_drop k t) as Hcat.
  { by rewrite <-concat_segments_app, <-Hl, concat_segments_id. }
  assert (bytes t = bytes (string_take k t +:+ concat_segments l1) ++ bytes (concat_segments l2)) as Hb.
  { by rewrite <-bytes_app, <-string_app_assoc, Hcat, string_take_drop. }
  rewrite (decode_rune_prefix _ _ (bytes (concat_segments l2))).
  - rewrite <-Hb, Hd. simpl. specialize (IH _ _ Hl). clear -Hk IH. revert Hk.
    generalize (string_take k t). intros tk <-.
    by rewrite string_take_app, string_drop_app, IH.
  - rewrite <-Hb, Hd. simpl. rewrite bytes_app, length_app, !length_bytes. lia.
Qed.

Lemma segments_concat_suffix s l1 l2 :
  segments s = l1 ++ l2 → segments (concat_segments l2) = l2.
Proof.
  revert l1 l2. apply (segments_ind (λ s l, ∀ l1 l2, l = l1 ++ l2 → segments (concat_segments l2) = l2)).
  { intros l1 l2 Hl. symmetry in Hl. by apply app_eq_nil in Hl as [-> ->]. }
  intros a t r k Hd IH [|p l1] l2 Hl.
  - simpl in Hl. rewrite <-Hl. simpl. rewrite concat_segments_id, string_app_cons, string_take_drop.
    rewrite segments_cons, Hd. done.
  - simpl in Hl. injection Hl as _ Hl. by eapply IH.
Qed.

Lemma drop_while_suffix {A} (f : A → bool) l : ∃ pre, l = pre ++ drop_while f l.
Proof.
  induction l as [|x l [pre IH]]; simpl; [by exists []|].
  destruct (f x); [|by exists []]. exists (x :: pre). by f_equal/=.
Qed.

(** The runes that remain after trimming. *)
Lemma TrimSpace_segments s :
  ∃ pre post, segments s = pre ++ segments (TrimSpace s) ++ post ∧
    segments (TrimSpace s) =
      rev (drop_while (λ p, IsSpace p.1) (rev (drop_while (λ p, IsSpace p.1) (segments s)))).
Proof.
  unfold TrimSpace. set (f := λ p : Z * string, IsSpace p.1).
  destruct (drop_while_suffix f (segments s)) as [pre Hpre].
  set (keep := drop_while f (segments s)) in *.
  destruct (drop_while_suffix f (rev keep)) as [post Hpost].
  set (mid := drop_while f (rev keep)) in *.
  assert (keep = rev mid ++ rev post) as Hkeep.
  { by rewrite <-rev_app_distr, <-Hpost, rev_involutive. }
  assert (segments (concat_segments (rev mid)) = rev mid) as Hmid.
  { apply (segments_concat_prefix (concat_segments keep) _ (rev post)).
    rewrite <-Hkeep. by eapply segments_concat_suffix. }
  exists pre, (rev post). rewrite Hmid. split; [|done]. by rewrite <-Hkeep.
Qed.

Lemma drop_while_idemp {A} (f : A → bool) l : drop_while f (drop_while f l) = drop_while f l.
Proof. induction l as [|x l IH]; simpl; [done|]. destruct (f x) eqn:Hx; [done|]. simpl. by rewrite Hx. Qed.

Lemma drop_while_head {A} (f : A → bool) l x k : drop_while f l = x :: k → f x = false.
Proof. induction l as [|y l IH]; simpl; [done|]. destruct (f y) eqn:Hy; [done|]. by intros [= <- _]. Qed.

Lemma drop_while_rev_idemp {A} (f : A → bool) l :
  drop_while f (rev (drop_while f (rev (drop_while f l)))) =
  rev (drop_while f (rev (drop_while f l))).
Proof.
  destruct (drop_while f l) as [|x k] eqn:Hk; [done|].
  apply drop_while_head in Hk as Hx.
  simpl. assert (∀ m : list A, ∃ m', drop_while f (m ++ [x]) = m' ++ [x]) as Hlast.
  { induction m as [|y m IH]; simpl; [rewrite Hx; by exists []|].
    destruct (f y); [done|]. by exists (y :: m). }
  destruct (Hlast (rev k)) as [m' ->]. rewrite rev_app_distr. simpl. by rewrite Hx.
Qed.

(** [strings.TrimSpace] is idempotent. *)
Lemma TrimSpace_TrimSpace s : TrimSpace (TrimSpace s) = TrimSpace s.
Proof.
  destruct (TrimSpace_segments s) as (pre & post & _ & Hseg).
  unfold TrimSpace at 1. rewrite Hseg. cbv zeta.
  by rewrite drop_while_rev_idemp, rev_involutive, drop_while_rev_idemp.
Qed.

(** Trimming keeps a subset of the runes. *)
Lemma runes_TrimSpace s r : r ∈ runes (TrimSpace s) → r ∈ runes s.
Proof.
  destruct (TrimSpace_segments s) as (pre & post & Hs & _). unfold runes. rewrite Hs.
  rewrite !fmap_app. set_solver.
Qed.

(** ** Text that is valid UTF-8

    [encoding/json] and [strings.Map] replace every byte that starts no encoding
    by the encoding of U+FFFD. *)

Definition bad_segment (seg : Z * string) : bool :=
  (seg.1 =? RuneError) && (String.length seg.2 =? 1)%nat.

Definition replacement : string := String "239" (String "191" (String "189" "")).

Definition repair_segment (seg : Z * string) : string :=
  if bad_segment seg then replacement else seg.2.

Definition ToValidText (s : string) : string :=
  foldr (λ seg acc, repair_segment seg +:+ acc) "" (segments s).

Lemma ToValidText_id s : ValidString s = true → ToValidText s = s.
Proof.
  unfold ValidString, ToValidText. intros H. rewrite <-(concat_segments_id s) at 2.
  unfold concat_segments. induction (segments s) as [|[r enc] l IH]; [done|]. simpl in H |- *.
  bools. rewrite IH by done. f_equal. unfold repair_segment, bad_segment. simpl.
  destruct ((r =? RuneError) && _) eqn:Hb; [|done]. bools. naive_solver lia.
Qed.

(** ** Numbers as text *)

(** [fmt.Sprintf] with a verb such as "%012d": the decimal digits, padded with
    zeros to [width] characters, the sign included. *)
Definition zeros (n : nat) : string := String.concat "" (replicate n "0").

Definition pad_decimal (width : nat) (n : Z) : string :=
  let digits := pretty (Z.abs_N n) in
  if n <? 0 then "-" +:+ zeros (width - 1 - String.length digits) +:+ digits
  else zeros (width - String.length digits) +:+ digits.

(** The value of a run of decimal digits. *)
Definition decimal_value (s : string) : Z := foldl (λ acc b, acc * 10 + (b - 48)) 0 (bytes s).

(** [strconv.Atoi]: an optional sign, decimal digits, the range of [int]. *)
Definition Atoi (s : string) : option Z :=
  let '(neg, digits) :=
    match s with
    | String a rest => if bool_decide (a = "-"%char) then (true, rest)
                       else if bool_decide (a = "+"%char) then (false, rest) else (false, s)
    | EmptyString => (false, s)
    end in
  if bool_decide (digits = "") || negb (forallb is_digit (bytes digits)) then None
  else
    let v := if (neg : bool) then - decimal_value digits else decimal_value digits in
    if between min_i64 v max_i64 then Some v else None.
