(* ===== verification/GoPath.v ===== *)
(** * Go slash paths

    [filepath.IsAbs], [filepath.Clean] and [filepath.Join] on Unix, in the
    component form of their documentation: repeated separators and "." elements
    vanish, ".." removes the element before it, a leading ".." survives only in a
    relative path and is dropped at the root. *)

From S2P Require Import Prelude GoStrings.

Definition slash : ascii := "/".

Definition IsAbs (path : string) : bool := HasPrefix path "/".

(** One element of [filepath.Clean]; the stack holds the kept elements, last
    first. *)
Definition clean_step (rooted : bool) (stack : list string) (part : string) : list string :=
  if bool_decide (part = "") || bool_decide (part = ".") then stack
  else if bool_decide (part = "..") then
    match stack with
    | [] => if rooted then [] else [".."]
    | top :: rest => if bool_decide (top = "..") then ".." :: stack else rest
    end
  else part :: stack.

Definition clean_parts (rooted : bool) (parts : list string) : list string :=
  foldl (clean_step rooted) [] parts.

Definition render_path (rooted : bool) (parts : list string) : string :=
  let body := Join parts "/" in
  if rooted then "/" +:+ body
  else if bool_decide (body = "") then "." else body.

Definition Clean (path : string) : string :=
  if bool_decide (path = "") then "." else
  let rooted := IsAbs path in
  render_path rooted (rev (clean_parts rooted (Split path slash))).

(** [filepath.Join]: the elements from the first non-empty one, joined and
    cleaned. *)
Definition PathJoin (elems : list string) : string :=
  let elems := drop_while (λ e, bool_decide (e = "")) elems in
  if decide (elems = []) then "" else Clean (Join elems "/").

(** ** Normal forms *)

(** An element that [Clean] keeps as it is. *)
Definition plain_part (p : string) : Prop :=
  p ≠ "" ∧ p ≠ "." ∧ p ≠ ".." ∧ free_of slash p.

(** The stacks that [Clean] can build. *)
Inductive normal_stack (rooted : bool) : list string → Prop :=
| normal_nil : normal_stack rooted []
| normal_plain p st : plain_part p → normal_stack rooted st → normal_stack rooted (p :: st)
| normal_up st : rooted = false → Forall (λ p, p = "..") st → normal_stack rooted (".." :: st).

#[export] Hint Constructors normal_stack : yard.

Lemma normal_ups rooted st :
  rooted = false → Forall (λ p, p = "..") st → normal_stack rooted st.
Proof. intros -> H. destruct H as [|? ? -> ?]; auto with yard. Qed.

Lemma clean_step_normal rooted st p :
  free_of slash p → normal_stack rooted st → normal_stack rooted (clean_step rooted st p).
Proof.
  intros Hf Hst. unfold clean_step.
  destruct (_ || _) eqn:Hb; bools; [done|].
  case_bool_decide as Hup; [|by constructor; [repeat split|]].
  destruct Hst as [|q st (?&?&Hq&?) Hst|st -> Hst].
  - destruct rooted; auto with yard.
  - by rewrite bool_decide_eq_false_2.
  - rewrite bool_decide_eq_true_2 by done. by constructor; [done|constructor].
Qed.

Lemma clean_parts_normal rooted parts :
  Forall (free_of slash) parts → normal_stack rooted (clean_parts rooted parts).
Proof.
  unfold clean_parts. cut (∀ st, normal_stack rooted st → Forall (free_of slash) parts →
    normal_stack rooted (foldl (clean_step rooted) st parts)); [eauto with yard|].
  induction parts as [|p parts IH]; intros st Hst Hf; simpl; [done|].
  apply Forall_cons in Hf as [Hp Hf]. apply IH; [|done]. by apply clean_step_normal.
Qed.

Lemma normal_stack_free rooted st : normal_stack rooted st → Forall (free_of slash) st.
Proof.
  induction 1 as [|p st (?&?&?&?) ? IH|st _ Hst]; [done|by constructor|].
  assert (free_of slash "..") by by apply (bool_decide_unpack _).
  constructor; [done|]. eapply Forall_impl; [done|]. by intros ? ->.
Qed.

(** Cleaning the elements of a normal stack rebuilds it. *)
Lemma clean_parts_rev rooted st :
  normal_stack rooted st → clean_parts rooted (rev st) = st.
Proof.
  unfold clean_parts. induction 1 as [|p st (?&?&?&?) ? IH|st -> Hst]; [done| |].
  - simpl. rewrite foldl_app, IH. simpl. unfold clean_step.
    by rewrite !bool_decide_eq_false_2.
  - simpl. rewrite foldl_app. simpl.
    assert (foldl (clean_step false) [] (rev st) = st) as ->.
    { induction Hst as [|q st -> Hst IH]; [done|]. simpl. rewrite foldl_app, IH. simpl.
      by destruct Hst as [|? ? -> ?]. }
    by destruct Hst as [|? ? -> ?].
Qed.

(** Empty elements are skipped. *)
Lemma clean_parts_skip rooted parts : clean_parts rooted ("" :: parts) = clean_parts rooted parts.
Proof. done. Qed.

Lemma Join_eq_empty parts :
  Forall (λ p, p ≠ "") parts → Join parts "/" = "" → parts = [].
Proof.
  destruct parts as [|p [|q ps]]; [done| |]; intros [Hp _]%Forall_cons; simpl.
  - intros ->. done.
  - by destruct p.
Qed.

Lemma normal_stack_nonempty rooted st : normal_stack rooted st → Forall (λ p, p ≠ "") st.
Proof.
  induction 1 as [|p st (?&?&?&?) ? IH|st _ Hst]; [done|by constructor|].
  constructor; [done|]. eapply Forall_impl; [done|]. by intros ? ->.
Qed.

Lemma IsAbs_render rooted st :
  normal_stack rooted st → IsAbs (render_path rooted (rev st)) = rooted.
Proof.
  intros Hst. pose proof (normal_stack_free _ _ Hst) as Hf%Forall_rev.
  pose proof (normal_stack_nonempty _ _ Hst) as Hne%Forall_rev.
  unfold render_path. destruct rooted; [apply HasPrefix_app|].
  case_bool_decide as Hb; [done|].
  apply not_true_is_false. intros [r Hr]%HasPrefix_spec.
  destruct (rev st) as [|p ps] eqn:Hs; [done|]. apply Forall_cons in Hne as [Hne _].
  apply Forall_cons in Hf as [Hpf _]. destruct p as [|a p]; [done|].
  apply free_of_cons in Hpf as [Ha _].
  destruct ps; simpl in Hr; injection Hr as -> _; done.
Qed.

Lemma clean_parts_render rooted st :
  normal_stack rooted st →
  clean_parts rooted (Split (render_path rooted (rev st)) slash) = st.
Proof.
  intros Hst. pose proof (normal_stack_free _ _ Hst) as Hf%Forall_rev.
  pose proof (normal_stack_nonempty _ _ Hst) as Hne%Forall_rev.
  rewrite <-(clean_parts_rev _ _ Hst) at 2. unfold render_path.
  destruct (decide (rev st = [])) as [->|Hs]; [by destruct rooted|].
  destruct rooted.
  - change ("/" +:+ ?x) with (String slash x). change (Split (String slash ?x) slash) with ("" :: Split x slash).
    by rewrite clean_parts_skip, Split_Join.
  - rewrite bool_decide_eq_false_2 by (intros H%Join_eq_empty; done). by rewrite Split_Join.
Qed.

Lemma render_path_ne rooted st :
  normal_stack rooted st → render_path rooted (rev st) ≠ "".
Proof.
  unfold render_path. destruct rooted; [done|]. by case_bool_decide.
Qed.

Lemma Clean_normal path :
  path ≠ "" → ∃ st, normal_stack (IsAbs path) st ∧ Clean path = render_path (IsAbs path) (rev st).
Proof.
  intros Hp. exists (clean_parts (IsAbs path) (Split path slash)). split.
  - apply clean_parts_normal, Split_parts_free.
  - unfold Clean. by rewrite bool_decide_eq_false_2.
Qed.

(** The clean path is absolute exactly when the path was. *)
Lemma IsAbs_Clean path : IsAbs (Clean path) = IsAbs path.
Proof.
  destruct (decide (path = "")) as [->|Hp]; [done|].
  destruct (Clean_normal path Hp) as (st & Hst & ->). by apply IsAbs_render.
Qed.

(** [filepath.Clean] is idempotent. *)
Lemma Clean_Clean path : Clean (Clean path) = Clean path.
Proof.
  destruct (decide (path = "")) as [->|Hp]; [done|].
  destruct (Clean_normal path Hp) as (st & Hst & ->).
  unfold Clean. rewrite bool_decide_eq_false_2 by by apply render_path_ne.
  by rewrite IsAbs_render, clean_parts_render.
Qed.

(** A clean absolute path other than the root is the elements of a stack of
    plain names. *)
Lemma Clean_abs_parts path :
  IsAbs path = true → Clean path = path →
  ∃ parts, path = "/" +:+ Join parts "/" ∧ Forall plain_part parts.
Proof.
  intros Habs Hclean. destruct (decide (path = "")) as [->|Hp]; [done|].
  destruct (Clean_normal path Hp) as (st & Hst & Heq). rewrite Habs in *.
  exists (rev st). rewrite <-Hclean, Heq. split; [done|]. apply Forall_rev.
  clear -Hst. by induction Hst; [|constructor|].
Qed.
