(* ===== verification/GoSort.v ===== *)
(** * Go sorting

    [sort.Strings], [slices.Sort], [sort.Slice] and [slices.Compact].  The sorts
    of the sources are modelled by a merge sort for the order that the Go
    comparison induces; [sort_unique] shows that when the sort keys are distinct
    every sorting algorithm, stable or not, gives this result. *)

From S2P Require Import Prelude GoStrings.

(** Go's [<] on strings is the byte-wise lexicographic order. *)
Definition string_lt (s t : string) : bool := String.ltb s t.

Lemma string_lt_false s t : string_lt t s = false ↔ String.le s t.
Proof.
  unfold string_lt, String.ltb, String.le, String.leb. rewrite (String.compare_antisym t s).
  by destruct (String.compare s t); simpl; split.
Qed.

Lemma string_lt_true s t : string_lt s t = true ↔ String.le s t ∧ s ≠ t.
Proof.
  rewrite <-string_lt_false. unfold string_lt, String.ltb. rewrite (String.compare_antisym t s).
  destruct (String.compare s t) eqn:Hc; simpl; [|split; [|done]|naive_solver].
  - apply String.compare_eq_iff in Hc. naive_solver.
  - intros _. split; [done|]. intros ->.
    pose proof (String.compare_antisym t t) as Ht. by rewrite Hc in Ht.
Qed.

Section sort.
Context {A : Type} (le : relation A) `{!RelDecision le, !Transitive le, !Total le}.

Definition sort_by (l : list A) : list A := merge_sort le l.

Lemma sort_by_sorted l : Sorted le (sort_by l).
Proof. apply Sorted_merge_sort, _. Qed.

Lemma sort_by_strongly_sorted l : StronglySorted le (sort_by l).
Proof. apply Sorted_StronglySorted, sort_by_sorted. done. Qed.

Lemma sort_by_perm l : sort_by l ≡ₚ l.
Proof. apply merge_sort_Permutation. Qed.

Lemma elem_of_sort_by x l : x ∈ sort_by l ↔ x ∈ l.
Proof. by rewrite sort_by_perm. Qed.

Lemma length_sort_by l : length (sort_by l) = length l.
Proof. by rewrite sort_by_perm. Qed.

(** On lists whose elements the order tells apart, sorting is a function of the
    multiset: any sorted permutation is the result. *)
Lemma sort_unique l l' :
  (∀ x y, x ∈ l → y ∈ l → le x y → le y x → x = y) →
  Sorted le l' → l' ≡ₚ l → l' = sort_by l.
Proof.
  intros Hanti Hs Hp. eapply Sorted_unique_strong; [done| |done|apply sort_by_sorted|].
  - intros x y Hx Hy. rewrite Hp in Hx. rewrite elem_of_sort_by in Hy. by apply Hanti.
  - by rewrite sort_by_perm.
Qed.

Lemma sort_by_id l : AntiSymm (=) le → Sorted le l → sort_by l = l.
Proof. intros Ha Hs. symmetry. apply sort_unique; [|done..]. intros ????. apply (anti_symm le). Qed.

Lemma sort_by_Permutation l l' : AntiSymm (=) le → l ≡ₚ l' → sort_by l = sort_by l'.
Proof.
  intros Ha Hp. apply sort_unique; [intros ????; apply (anti_symm le)|apply sort_by_sorted|].
  by rewrite sort_by_perm.
Qed.
End sort.

(** [sort.Strings] and [slices.Sort] on strings. *)
Definition sort_strings (l : list string) : list string := sort_by String.le l.

(** [sort.Slice] with a string key. *)
Definition key_le {A} (key : A → string) : relation A := λ x y, String.le (key x) (key y).

#[export] Instance key_le_dec {A} (key : A → string) : RelDecision (key_le key).
Proof. intros x y. unfold key_le. apply _. Defined.

#[export] Instance key_le_trans {A} (key : A → string) : Transitive (key_le key).
Proof. intros x y z. unfold key_le. by etrans. Qed.

#[export] Instance key_le_total {A} (key : A → string) : Total (key_le key).
Proof. intros x y. unfold key_le. apply (total String.le). Qed.

Definition sort_by_key {A} (key : A → string) (l : list A) : list A := sort_by (key_le key) l.

(** Elements with distinct keys are told apart by the order of the keys. *)
Lemma key_le_distinct {A} (key : A → string) (l : list A) x y :
  NoDup (key <$> l) → x ∈ l → y ∈ l → key_le key x y → key_le key y x → x = y.
Proof.
  intros Hnd Hx Hy H1 H2. assert (key x = key y) as Hk by by apply (anti_symm String.le).
  by apply (NoDup_key key l).
Qed.

(** ** slices.Compact *)

Fixpoint Compact {A} `{EqDecision A} (l : list A) : list A :=
  match l with
  | x :: ((y :: _) as l') => if bool_decide (x = y) then Compact l' else x :: Compact l'
  | _ => l
  end.

Section compact.
Context {A : Type} `{EqDecision A}.

Lemma elem_of_Compact x (l : list A) : x ∈ Compact l ↔ x ∈ l.
Proof.
  induction l as [|y l IH]; [done|]. destruct l as [|z l]; [done|].
  simpl in *. case_bool_decide as H.
  - subst. rewrite IH. set_solver.
  - rewrite !elem_of_cons in *. rewrite IH. done.
Qed.

Lemma Compact_NoDup (l : list A) : NoDup l → Compact l = l.
Proof.
  induction l as [|x l IH]; [done|]. destruct l as [|y l]; [done|].
  intros [Hx Hl]%NoDup_cons. simpl. rewrite bool_decide_eq_false_2.
  - f_equal. by apply IH.
  - intros ->. destruct Hx. by left.
Qed.

Context (le : relation A) `{!Transitive le, !AntiSymm (=) le}.

Lemma Compact_sorted (l : list A) :
  StronglySorted le l → StronglySorted le (Compact l) ∧ NoDup (Compact l).
Proof.
  induction 1 as [|x l Hl IH Hx]; [by split; constructor|].
  destruct l as [|y l]; [split; [by repeat constructor|apply NoDup_singleton]|].
  destruct IH as [IH1 IH2]. simpl in *. case_bool_decide as Heq; [done|].
  change (match l with [] => _ | _ :: _ => _ end) with (Compact (y :: l)) in *.
  assert (Forall (le x) (Compact (y :: l))) as Hr.
  { apply Forall_forall. intros z Hz. rewrite elem_of_Compact in Hz.
    rewrite Forall_forall in Hx. by apply Hx. }
  split; [by constructor|]. apply NoDup_cons. split; [|done]. intros Hin.
  rewrite elem_of_Compact in Hin. apply elem_of_cons in Hin as [->|Hin]; [done|].
  destruct Heq. apply (anti_symm le).
  - apply Forall_cons in Hx. apply Hx.
  - inversion Hl as [|? ? ? Hy]; subst. rewrite Forall_forall in Hy. by apply Hy.
Qed.
End compact.

(** [slices.Compact] after [slices.Sort]: the canonical, duplicate-free form. *)
Definition sort_compact (l : list string) : list string := Compact (sort_strings l).

Lemma sort_compact_elem x l : x ∈ sort_compact l ↔ x ∈ l.
Proof. unfold sort_compact, sort_strings. by rewrite elem_of_Compact, elem_of_sort_by. Qed.

Lemma sort_compact_canonical l : StronglySorted String.le (sort_compact l) ∧ NoDup (sort_compact l).
Proof. apply Compact_sorted; [apply _..|]. apply sort_by_strongly_sorted; apply _. Qed.

Lemma sort_compact_idemp l : sort_compact (sort_compact l) = sort_compact l.
Proof.
  destruct (sort_compact_canonical l) as [Hs Hn]. unfold sort_compact at 1, sort_strings.
  rewrite (sort_by_id String.le _ _) by by apply StronglySorted_Sorted.
  by apply Compact_NoDup.
Qed.

(** Two lists with the same elements have the same canonical form. *)
Lemma sort_compact_ext l l' : (∀ x, x ∈ l ↔ x ∈ l') → sort_compact l = sort_compact l'.
Proof.
  intros Heq. destruct (sort_compact_canonical l) as [Hs Hn].
  destruct (sort_compact_canonical l') as [Hs' Hn'].
  apply (StronglySorted_unique String.le); [done..|].
  apply NoDup_Permutation; [done..|]. intros x. by rewrite !sort_compact_elem.
Qed.
