(* ===== verification/Sha256.v ===== *)
(** * SHA-256 and hexadecimal

    crypto/sha256.Sum256 and encoding/hex.EncodeToString on byte strings, as the
    sources use them for digests.  Words are [Z] in 0..2^32-1. *)

From S2P Require Import Prelude GoStrings.

Definition w32 (z : Z) : Z := z mod 2 ^ 32.

Definition rotr (x n : Z) : Z := Z.lor (Z.shiftr x n) (w32 (Z.shiftl x (32 - n))).

(** The constants of FIPS 180-4 come from the fractional parts of roots of the
    first primes, and are computed from that definition. *)
Definition is_prime (n : nat) : bool :=
  (2 <=? n)%nat && forallb (λ d, negb (n mod d =? 0)%nat) (seq 2 (n - 2)).

Definition first_primes (count : nat) : list Z :=
  Z.of_nat <$> take count (filter (λ n, is_prime n = true) (seq 0 400)).

(** The integer cube root, bit by bit from the highest of [bits]. *)
Fixpoint icbrt (bits : nat) (z acc : Z) : Z :=
  match bits with
  | O => acc
  | S b => let next := acc + 2 ^ Z.of_nat b in
           icbrt b z (if next * next * next <=? z then next else acc)
  end.

Definition sha_k : list Z :=
  Eval vm_compute in (λ p, w32 (icbrt 40 (p * 2 ^ 96) 0)) <$> first_primes 64.

Definition sha_init : list Z :=
  Eval vm_compute in (λ p, w32 (Z.sqrt (p * 2 ^ 64))) <$> first_primes 8.

(** [n] big-endian bytes of a number. *)
Fixpoint be_bytes (n : nat) (z : Z) : list Z :=
  match n with
  | O => []
  | S n' => Z.shiftr z (8 * Z.of_nat n') mod 256 :: be_bytes n' z
  end.

Fixpoint be_words (bs : list Z) : list Z :=
  match bs with
  | a :: b :: c :: d :: bs' => a * 2 ^ 24 + b * 2 ^ 16 + c * 2 ^ 8 + d :: be_words bs'
  | _ => []
  end.

Definition sha_pad (bs : list Z) : list Z :=
  let n := length bs in
  let zeros := ((119 - n mod 64) mod 64)%nat in
  bs ++ 0x80 :: replicate zeros 0 ++ be_bytes 8 (8 * Z.of_nat n).

(** The message schedule, kept newest first. *)
Fixpoint sha_schedule (n : nat) (ws : list Z) : list Z :=
  match n with
  | O => ws
  | S n' =>
      let w2 := nth 1 ws 0 in let w7 := nth 6 ws 0 in
      let w15 := nth 14 ws 0 in let w16 := nth 15 ws 0 in
      let s0 := Z.lxor (Z.lxor (rotr w15 7) (rotr w15 18)) (Z.shiftr w15 3) in
      let s1 := Z.lxor (Z.lxor (rotr w2 17) (rotr w2 19)) (Z.shiftr w2 10) in
      sha_schedule n' (w32 (w16 + s0 + w7 + s1) :: ws)
  end.

Definition sha_round (st : list Z) (kw : Z * Z) : list Z :=
  match st with
  | [a; b; c; d; e; f; g; h] =>
      let s1 := Z.lxor (Z.lxor (rotr e 6) (rotr e 11)) (rotr e 25) in
      let ch := Z.lxor (Z.land e f) (Z.land (Z.lxor e (2 ^ 32 - 1)) g) in
      let t1 := h + s1 + ch + kw.1 + kw.2 in
      let s0 := Z.lxor (Z.lxor (rotr a 2) (rotr a 13)) (rotr a 22) in
      let maj := Z.lxor (Z.lxor (Z.land a b) (Z.land a c)) (Z.land b c) in
      [w32 (t1 + s0 + maj); a; b; c; w32 (d + t1); e; f; g]
  | _ => st
  end.

Definition sha_block (st block : list Z) : list Z :=
  let ws := reverse (sha_schedule 48 (reverse (be_words block))) in
  zip_with (λ x y, w32 (x + y)) st (foldl sha_round st (zip sha_k ws)).

Fixpoint sha_blocks (fuel : nat) (st bs : list Z) : list Z :=
  match fuel, bs with
  | S fuel', _ :: _ => sha_blocks fuel' (sha_block st (take 64 bs)) (drop 64 bs)
  | _, _ => st
  end.

(** [sha256.Sum256]: the digest as 32 bytes. *)
Definition Sum256 (s : string) : list Z :=
  let bs := sha_pad (bytes s) in
  sha_blocks (length bs) sha_init bs ≫= be_bytes 4.

Definition hex_digit (d : Z) : ascii :=
  ascii_of_N (Z.to_N (if d <? 10 then 48 + d else 87 + d)).

(** [hex.EncodeToString]. *)
Fixpoint EncodeToString (bs : list Z) : string :=
  match bs with
  | [] => ""
  | b :: bs' => String (hex_digit (b / 16)) (String (hex_digit (b mod 16)) (EncodeToString bs'))
  end.

(** Published test vectors. *)
Example Sum256_abc :
  EncodeToString (Sum256 "abc") = "ba7816bf8f01cfea414140de5dae2223b00361a396177a9cb410ff61f20015ad".
Proof. by vm_compute. Qed.

Example Sum256_empty :
  EncodeToString (Sum256 "") = "e3b0c44298fc1c149afbf4c8996fb92427ae41e4649b934ca495991b7852b855".
Proof. by vm_compute. Qed.

Example Sum256_two_blocks :
  EncodeToString (Sum256 "abcdbcdecdefdefgefghfghighijhijkijkljklmklmnlmnomnopnopq") =
  "248d6a61d20638b8e5c026930c3e6039a33ce45964ff2167f6ecedd419db06c1".
Proof. by vm_compute. Qed.

Lemma length_EncodeToString bs : String.length (EncodeToString bs) = (2 * length bs)%nat.
Proof. induction bs as [|b bs IH]; [done|]. simpl. rewrite IH. lia. Qed.

(** A digest has 32 bytes. *)
Lemma length_sha_round st kw : length (sha_round st kw) = length st.
Proof. unfold sha_round. repeat (case_match; try done). Qed.

Lemma length_sha_block st block : length (sha_block st block) = length st.
Proof.
  unfold sha_block. rewrite length_zip_with.
  assert (∀ l st', length (foldl sha_round st' l) = length st') as ->; [|lia].
  induction l as [|kw l IH]; intros st'; [done|]. simpl. by rewrite IH, length_sha_round.
Qed.

Lemma length_Sum256 s : length (Sum256 s) = 32%nat.
Proof.
  unfold Sum256. assert (∀ n st bs, length (sha_blocks n st bs) = length st) as Hb.
  { induction n as [|n IH]; intros st bs; [done|]. simpl. destruct bs; [done|].
    by rewrite IH, length_sha_block. }
  assert (∀ n z, length (be_bytes n z) = n) as Hbe by (induction n; simpl; congruence).
  set (ws := sha_blocks _ _ _). assert (length ws = 8%nat) as Hws by apply Hb. clearbody ws.
  change 32%nat with (4 * 8)%nat. rewrite <-Hws. clear Hws.
  induction ws as [|w ws IH]; [done|]. change (length (be_bytes 4 w ++ (ws ≫= be_bytes 4)) = 4 * S (length ws))%nat.
  rewrite length_app, Hbe, IH. lia.
Qed.

(** The bytes of a digest are bytes, and its text is lowercase hexadecimal. *)
Lemma Sum256_bytes s : Forall (λ b, 0 ≤ b < 256) (Sum256 s).
Proof.
  unfold Sum256. apply Forall_bind, Forall_true. intros w.
  assert (∀ n, Forall (λ b, 0 ≤ b < 256) (be_bytes n w)) as H; [|apply H].
  induction n as [|n IH]; constructor; [apply Z.mod_pos_bound; lia|done].
Qed.

Lemma hex_digit_range d : 0 ≤ d < 16 → between 48 (byteZ (hex_digit d)) 57 || between 97 (byteZ (hex_digit d)) 102 = true.
Proof.
  intros H. unfold hex_digit, byteZ.
  rewrite N_ascii_embedding by (destruct (d <? 10); lia).
  destruct (Z.ltb_spec d 10); rewrite Z2N.id by lia; unfold between; bools; lia.
Qed.

Lemma EncodeToString_hex bs :
  Forall (λ b, 0 ≤ b < 256) bs →
  forallb (λ c, between 48 c 57 || between 97 c 102) (bytes (EncodeToString bs)) = true.
Proof.
  induction 1 as [|b bs Hb _ IH]; [done|].
  assert (0 ≤ b / 16 < 16) by (split; [apply Z.div_pos; lia|apply Z.div_lt_upper_bound; lia]).
  pose proof (Z.mod_pos_bound b 16 ltac:(lia)).
  cbn [EncodeToString bytes forallb]. by rewrite !hex_digit_range, IH.
Qed.
