(* ===== verification/Names.v ===== *)
(** * Names and identities of the domain

    The character classes that every other component relies on
    (internal/domain/types.go) and the yard references and selectors of
    internal/domain/yard_identity.go. *)

From S2P Require Import Prelude GoStrings.

(** ** Character classes *)

Definition safe_id_rune (char : Z) : bool :=
  is_lower char || is_upper char || is_digit char ||
  (char =? 46) || (char =? 95) || (char =? 45).

(** internal/domain/types.go:289-300 [SafeID] *)
Definition SafeID (value : string) : bool :=
  negb (bool_decide (value = "") || bool_decide (value = ".") || bool_decide (value = "..") ||
        HasPrefix value "-") &&
  forallb safe_id_rune (runes value).

(** internal/domain/types.go:302-304 [SafeProjectName] *)
Definition SafeProjectName (value : string) : bool := (len value <=? 50) && SafeID value.

(** internal/domain/types.go:306-308 [ProjectNameKey] *)
Definition ProjectNameKey (unicode_lower : string → string) (value : string) : string :=
  ToLower unicode_lower value.

(** internal/domain/types.go:310-312 [ProjectNamesEqual] *)
Definition ProjectNamesEqual (unicode_lower : string → string) (left right : string) : bool :=
  bool_decide (ProjectNameKey unicode_lower left = ProjectNameKey unicode_lower right).

Definition safe_name_rune (char : Z) : bool :=
  is_lower char || is_digit char || (char =? 95) || (char =? 45).

(** internal/domain/types.go:314-324 [SafeName] *)
Definition SafeName (value : string) : bool :=
  match value with
  | EmptyString => false
  | String c0 _ =>
      (is_lower (byteZ c0) || is_digit (byteZ c0)) && forallb safe_name_rune (runes value)
  end.

Definition safe_ssh_rune (char : Z) : bool :=
  is_lower char || is_upper char || is_digit char || ContainsRune "_.@:[]+-" char.

(** internal/domain/types.go:326-331 [SafeSSHTarget] *)
Definition SafeSSHTarget (value : string) : bool :=
  match value with
  | EmptyString => false
  | String c0 _ => negb (byteZ c0 =? 45) && forallb safe_ssh_rune (runes value)
  end.

(** ** Yard references and selectors *)

(** internal/domain/yard_identity.go:9-12 [YardRef] *)
Record YardRef := mkYardRef { ref_HostID : string; ref_YardName : string }.

(** internal/domain/yard_identity.go:28-31 [YardSelector] *)
Record YardSelector := mkYardSelector { sel_HostID : string; sel_YardName : string }.

Inductive name_error :=
| InvalidHostID (host : string)
| InvalidYardName (yard : string)
| SelectorRequired
| InvalidSelector (value : string)
| InvalidSelectorBecause (value : string) (cause : name_error).

(** internal/domain/yard_identity.go:14-22 [YardRef.Validate] *)
Definition YardRef_Validate (ref : YardRef) : result name_error unit :=
  refuse (negb (SafeID (ref_HostID ref)) || ContainsAny (ref_HostID ref) "/\")
    (InvalidHostID (ref_HostID ref));;
  refuse (negb (SafeName (ref_YardName ref))) (InvalidYardName (ref_YardName ref)).

(** internal/domain/yard_identity.go:24-26 [YardRef.String] *)
Definition YardRef_String (ref : YardRef) : string :=
  ref_HostID ref +:+ "/" +:+ ref_YardName ref.

(** internal/domain/yard_identity.go:33-54 [ParseYardSelector] *)
Definition ParseYardSelector (value : string) : result name_error YardSelector :=
  let value := TrimSpace value in
  refuse (bool_decide (value = "")) SelectorRequired;;
  match Split value "/" with
  | [p] =>
      refuse (negb (SafeName p)) (InvalidSelector value);;
      Ok (mkYardSelector "" p)
  | [h; y] =>
      let ref := mkYardRef h y in
      map_err (InvalidSelectorBecause value) (YardRef_Validate ref);;
      Ok (mkYardSelector h y)
  | _ => Err (InvalidSelector value)
  end.

(** ** The classes are ASCII and exclude separators *)

Lemma is_lower_true c : is_lower c = true ↔ 97 ≤ c ≤ 122.
Proof. apply between_true. Qed.
Lemma is_upper_true c : is_upper c = true ↔ 65 ≤ c ≤ 90.
Proof. apply between_true. Qed.
Lemma is_digit_true c : is_digit c = true ↔ 48 ≤ c ≤ 57.
Proof. apply between_true. Qed.
#[export] Hint Rewrite is_lower_true is_upper_true is_digit_true : yard_bool.

Lemma safe_id_rune_true c :
  safe_id_rune c = true ↔
  97 ≤ c ≤ 122 ∨ 65 ≤ c ≤ 90 ∨ 48 ≤ c ≤ 57 ∨ c = 46 ∨ c = 95 ∨ c = 45.
Proof. unfold safe_id_rune. bools. tauto. Qed.

Lemma safe_name_rune_true c :
  safe_name_rune c = true ↔ 97 ≤ c ≤ 122 ∨ 48 ≤ c ≤ 57 ∨ c = 95 ∨ c = 45.
Proof. unfold safe_name_rune. bools. tauto. Qed.

(** The character loop of [SafeID] may be read byte by byte. *)
Lemma SafeID_bytes value :
  SafeID value = true ↔
  value ≠ "" ∧ value ≠ "." ∧ value ≠ ".." ∧ HasPrefix value "-" = false ∧
  ∀ b, b ∈ bytes value → safe_id_rune b = true.
Proof.
  unfold SafeID. rewrite runes_ascii_forall.
  - rewrite andb_true_iff, negb_true_iff, !orb_false_iff, !bool_decide_eq_false, forallb_forall.
    setoid_rewrite list_elem_of_In. tauto.
  - intros r Hr. apply not_true_is_false. rewrite safe_id_rune_true. lia.
Qed.

Lemma SafeName_bytes value :
  SafeName value = true ↔
  (∃ c0 rest, value = String c0 rest ∧ (97 ≤ byteZ c0 ≤ 122 ∨ 48 ≤ byteZ c0 ≤ 57)) ∧
  ∀ b, b ∈ bytes value → safe_name_rune b = true.
Proof.
  unfold SafeName. destruct value as [|c0 rest].
  { split; [done|]. intros [(?&?&?&?) _]. done. }
  rewrite runes_ascii_forall.
  - rewrite andb_true_iff, forallb_forall. setoid_rewrite list_elem_of_In. bools.
    split; [intros [??]; split; [by eauto|done]|].
    intros [(?&?&[= <- <-]&?) ?]. done.
  - intros r Hr. apply not_true_is_false. rewrite safe_name_rune_true. lia.
Qed.

(** A safe name is a safe identifier. *)
Lemma SafeName_SafeID value : SafeName value = true → SafeID value = true.
Proof.
  rewrite SafeName_bytes, SafeID_bytes. intros [(c0 & rest & -> & Hc) Hb].
  assert (c0 ≠ "."%char ∧ c0 ≠ "-"%char) as [Hdot Hdash].
  { split; intros ->; [change (byteZ ".") with 46 in Hc|change (byteZ "-") with 45 in Hc]; lia. }
  split_and!; [done|congruence|congruence| |].
  - apply not_true_is_false. intros [r Hr]%HasPrefix_spec. injection Hr as -> _. done.
  - intros b Hin. apply Hb in Hin. revert Hin.
    rewrite safe_name_rune_true, safe_id_rune_true. lia.
Qed.

Lemma bytes_ascii s : (∀ b, b ∈ bytes s → b < 0x80) → is_ascii s = true.
Proof.
  unfold is_ascii. intros H. apply forallb_forall. intros b Hb.
  apply Z.ltb_lt, H. by apply list_elem_of_In.
Qed.

Lemma SafeID_byte_class value b :
  SafeID value = true → b ∈ bytes value → 45 ≤ b ≤ 122 ∧ b ≠ 47 ∧ b ≠ 92 ∧ b ≠ 58.
Proof.
  intros Hs Hb. apply SafeID_bytes in Hs as (_&_&_&_&Hs). apply Hs in Hb.
  rewrite safe_id_rune_true in Hb. lia.
Qed.

Lemma SafeID_ascii value : SafeID value = true → is_ascii value = true.
Proof. intros Hs. apply bytes_ascii. intros b Hb. pose proof (SafeID_byte_class _ _ Hs Hb). lia. Qed.

Lemma SafeID_no_slash value : SafeID value = true → free_of "/" value.
Proof.
  intros Hs Hb. pose proof (SafeID_byte_class _ _ Hs Hb) as (_ & H & _). by vm_compute in H.
Qed.

Lemma SafeID_ContainsAny value : SafeID value = true → ContainsAny value "/\" = false.
Proof.
  intros Hs. unfold ContainsAny. apply not_true_is_false.
  intros (b & Hb & Hc)%existsb_exists. apply list_elem_of_In in Hb.
  pose proof (SafeID_byte_class _ _ Hs Hb) as (_ & H1 & H2 & _).
  simpl in Hc. bools. destruct Hc as [Hc|[Hc|]]; [|..]; subst; try done.
Qed.

#[export] Hint Resolve SafeName_SafeID SafeID_ascii SafeID_no_slash SafeID_ContainsAny : yard.

(** ** Yard references and selectors *)

Lemma YardRef_Validate_Ok ref u :
  YardRef_Validate ref = Ok u ↔
  SafeID (ref_HostID ref) = true ∧ SafeName (ref_YardName ref) = true.
Proof.
  destruct u. unfold YardRef_Validate. split.
  - intros H. ok_bools. done.
  - intros [H1 H2]. by rewrite SafeID_ContainsAny, H1, H2.
Qed.

(** A trimmed selector is its own text: names hold no white space. *)
Lemma TrimSpace_safe s :
  (∀ b, b ∈ bytes s → 45 ≤ b ≤ 122) → TrimSpace s = s.
Proof.
  intros H. apply TrimSpace_id.
  - apply bytes_ascii. intros b Hb%H. lia.
  - apply forallb_forall. intros b Hb. apply list_elem_of_In, H in Hb.
    rewrite negb_true_iff. unfold IsSpace. bools. lia.
Qed.

Lemma YardRef_String_trimmed ref :
  SafeID (ref_HostID ref) = true → SafeName (ref_YardName ref) = true →
  TrimSpace (YardRef_String ref) = YardRef_String ref.
Proof.
  intros Hh Hy%SafeName_SafeID. apply TrimSpace_safe. intros b.
  unfold YardRef_String. rewrite !bytes_app, !elem_of_app.
  intros [Hb|[Hb|Hb]].
  - apply (SafeID_byte_class _ _ Hh Hb).
  - apply list_elem_of_singleton in Hb as ->. by vm_compute.
  - apply (SafeID_byte_class _ _ Hy Hb).
Qed.

Lemma SafeName_ne value : SafeName value = true → value ≠ "".
Proof. by destruct value. Qed.

Lemma SafeID_ne value : SafeID value = true → value ≠ "".
Proof. rewrite SafeID_bytes. naive_solver. Qed.

(** The selector text that [ParseYardSelector] accepts. *)
Definition selector_text (sel : YardSelector) : string :=
  if bool_decide (sel_HostID sel = "") then sel_YardName sel
  else YardRef_String (mkYardRef (sel_HostID sel) (sel_YardName sel)).

Lemma ParseYardSelector_Ok value sel :
  ParseYardSelector value = Ok sel ↔
  TrimSpace value = selector_text sel ∧ SafeName (sel_YardName sel) = true ∧
  (sel_HostID sel = "" ∨ SafeID (sel_HostID sel) = true).
Proof.
  unfold ParseYardSelector, selector_text. cbv zeta. set (v := TrimSpace value). split.
  - intros H. ok_bools. rewrite <-(Join_Split v "/").
    destruct (Split v "/") as [|p [|q [|]]]; [done| | |done]; ok_bools; simpl.
    + by auto.
    + apply YardRef_Validate_Ok in H1 as [Hh Hy]. simpl in *.
      rewrite bool_decide_eq_false_2 by by apply SafeID_ne. by auto.
  - intros (Hv & Hy & Hh). rewrite Hv. destruct sel as [h y]; simpl in *.
    pose proof (SafeID_no_slash _ (SafeName_SafeID _ Hy)) as Hfy.
    case_bool_decide as Hd; [subst h|].
    + rewrite bool_decide_eq_false_2 by by apply SafeName_ne.
      rewrite Split_free by done. simpl. by rewrite Hy.
    + destruct Hh as [->|Hh]; [done|]. unfold YardRef_String; simpl.
      rewrite bool_decide_eq_false_2 by (pose proof (SafeID_ne _ Hh); by destruct h).
      change ("/" +:+ y) with (String "/" y).
      rewrite Split_app, Split_free by auto with yard. simpl.
      by rewrite (proj2 (YardRef_Validate_Ok (mkYardRef h y) tt)).
Qed.

(** [ParseYardSelector] accepts, up to surrounding white space, exactly the
    texts [yard] and [host/yard] with a safe yard name and a safe host ID, and
    returns their two parts. *)
Theorem ParseYardSelector_spec value sel :
  ParseYardSelector value = Ok sel ↔
  TrimSpace value = selector_text sel ∧ SafeName (sel_YardName sel) = true ∧
  (sel_HostID sel = "" ∨ SafeID (sel_HostID sel) = true).
Proof. apply ParseYardSelector_Ok. Qed.

(** The text of a valid yard reference parses back to it. *)
Lemma ParseYardSelector_roundtrip ref :
  YardRef_Validate ref = Ok tt →
  ParseYardSelector (YardRef_String ref) = Ok (mkYardSelector (ref_HostID ref) (ref_YardName ref)).
Proof.
  intros [Hh Hy]%YardRef_Validate_Ok. apply ParseYardSelector_Ok; simpl.
  rewrite YardRef_String_trimmed by done. split; [|by auto]. unfold selector_text; simpl.
  rewrite bool_decide_eq_false_2 by by apply SafeID_ne. by destruct ref.
Qed.
