(* ===== verification/ActionPolicy.v ===== *)
(** * Action policy

    internal/domain/action_policy.go: the registry of actions, the assessment of
    a planned action and the confirmation policy that follows from it. *)

From S2P Require Import Prelude GoStrings GoSort Names.

(** ** Data *)

(** The Go types [ActionEffect], [ActionImpact], [RecoveryClass],
    [ActionConfirmationPolicy] and [ConfirmationDefault] are strings with named
    constants; values outside the constants are representable and refused. *)
Definition ActionRead : string := "read".
Definition ActionSession : string := "session".
Definition ActionBoundedWrite : string := "bounded-write".
Definition ActionMutation : string := "mutation".
Definition ActionDestruction : string := "destruction".

(** internal/domain/action_policy.go:25-37 [ActionImpact constants] *)
Definition action_impacts : list string :=
  ["local-metadata"; "yard-runtime"; "host-os"; "host-network"; "host-incus";
   "security"; "trust"; "access"; "external-system"; "shared-workload"; "persistent-data"].

Definition RecoveryNotNeeded : string := "not-needed".
Definition RecoveryReversible : string := "reversible".
Definition RecoveryRecreatable : string := "recreatable".
Definition RecoveryIrreversible : string := "irreversible".

Definition ActionConfirmationNever : string := "never".
Definition ActionConfirmationPromptDefaultYes : string := "prompt-default-yes".
Definition ActionConfirmationPromptDefaultNo : string := "prompt-default-no".

Definition ConfirmationDefaultYes : string := "yes".
Definition ConfirmationDefaultNo : string := "no".

(** internal/domain/action_policy.go:63-70 [ActionAssessment] *)
Record ActionAssessment := mkAssessment {
  as_Action : string;
  as_Effect : string;
  as_Changed : bool;
  as_Impacts : list string;
  as_Recovery : string;
  as_Consequences : list string;
}.

(** internal/domain/action_policy.go:72-76 [ConfirmationRequest] *)
Record ConfirmationRequest := mkRequest {
  req_Summary : string;
  req_Consequences : list string;
  req_Default : string;
}.

(** internal/domain/action_policy.go:78-84 [ActionDefinition] *)
Record ActionDefinition := mkDefinition {
  def_Action : string;
  def_Summary : string;
  def_Effect : string;
  def_Impacts : list string;
  def_Recovery : string;
}.

#[export] Instance ActionDefinition_eta : Eta ActionDefinition := λ d,
  mkDefinition (def_Action d) (def_Summary d) (def_Effect d) (def_Impacts d) (def_Recovery d).

(** internal/domain/action_policy.go:86-89 [ActionDelta] *)
Record ActionDelta := mkDelta { delta_Changed : bool; delta_Consequences : list string }.

(** internal/domain/action_policy.go:102-104 [ActionRegistry] *)
Record ActionRegistry := mkRegistry { definitions : gmap string ActionDefinition }.

(** The refusals of the component; every one wraps [ErrActionPolicyInvalid]. *)
Inductive policy_error :=
| InvalidActionID (action : string)
| InvalidSummary (action : string)
| InvalidEffect (action : string)
| InvalidRecovery (action : string)
| InvalidImpact (impact : string)
| RequiresNotNeeded (effect : string)
| RequiresImpact (effect : string)
| RequiresRecovery (effect : string)
| DuplicateAction (action : string)
| UnknownAction (action : string)
| InvalidConsequence
| RequiresConsequence (action : string)
| MetadataMismatch (action : string)
| ImpactsMismatch (action : string)
| ConsequencesNotNormalized
| RegistryRequired.

(** ** Operations *)

(** internal/domain/action_policy.go:290-295 [safeText] *)
Definition safeText (value : string) : bool :=
  if bool_decide (TrimSpace value = "") then false
  else negb (ContainsFunc value IsControl).

(** internal/domain/action_policy.go:297-299 [isStateChanging] *)
Definition isStateChanging (effect : string) : bool :=
  bool_decide (effect = ActionMutation) || bool_decide (effect = ActionDestruction).

(** internal/domain/action_policy.go:301-304 [validActionEffect] *)
Definition validActionEffect (effect : string) : bool :=
  bool_decide (effect = ActionRead) || bool_decide (effect = ActionSession) ||
  bool_decide (effect = ActionBoundedWrite) || bool_decide (effect = ActionMutation) ||
  bool_decide (effect = ActionDestruction).

(** internal/domain/action_policy.go:306-314 [validActionImpact] *)
Definition validActionImpact (impact : string) : bool := bool_decide (impact ∈ action_impacts).

(** internal/domain/action_policy.go:316-319 [validRecoveryClass] *)
Definition validRecoveryClass (recovery : string) : bool :=
  bool_decide (recovery = RecoveryNotNeeded) || bool_decide (recovery = RecoveryReversible) ||
  bool_decide (recovery = RecoveryRecreatable) || bool_decide (recovery = RecoveryIrreversible).

(** internal/domain/action_policy.go:268-277 [normalizeImpacts] *)
Definition normalizeImpacts (impacts : list string) : result policy_error (list string) :=
  for_each (λ impact, refuse (negb (validActionImpact impact)) (InvalidImpact impact)) impacts;;
  Ok (sort_compact impacts).

(** internal/domain/action_policy.go:279-288 [normalizeConsequences] *)
Definition normalizeConsequences (consequences : list string) : result policy_error (list string) :=
  for_range (λ normalized consequence,
    refuse (negb (safeText consequence)) InvalidConsequence;;
    Ok (normalized ++ [TrimSpace consequence])) consequences [].

(** internal/domain/action_policy.go:209-241 [normalizeDefinition] *)
Definition normalizeDefinition (definition : ActionDefinition) : result policy_error ActionDefinition :=
  let action := def_Action definition in
  let effect := def_Effect definition in
  refuse (negb (SafeID action)) (InvalidActionID action);;
  refuse (negb (safeText (def_Summary definition))) (InvalidSummary action);;
  refuse (negb (validActionEffect effect)) (InvalidEffect action);;
  refuse (negb (validRecoveryClass (def_Recovery definition))) (InvalidRecovery action);;
  impacts ← normalizeImpacts (def_Impacts definition);
  let definition := definition <| def_Summary := TrimSpace (def_Summary definition) |>
                               <| def_Impacts := impacts |> in
  if bool_decide (effect = ActionRead) || bool_decide (effect = ActionSession) ||
     bool_decide (effect = ActionBoundedWrite) then
    refuse (negb (bool_decide (def_Recovery definition = RecoveryNotNeeded)))
      (RequiresNotNeeded effect);;
    Ok definition
  else
    refuse (bool_decide (def_Impacts definition = [])) (RequiresImpact effect);;
    refuse (bool_decide (def_Recovery definition = RecoveryNotNeeded)) (RequiresRecovery effect);;
    Ok definition.

(** internal/domain/action_policy.go:117-131 [NewActionRegistry] *)
Definition NewActionRegistry (defs : list ActionDefinition) : result policy_error ActionRegistry :=
  mkRegistry <$> for_range (λ registry definition,
    definition ← normalizeDefinition definition;
    refuse (bool_decide (is_Some (registry !! def_Action definition)))
      (DuplicateAction (def_Action definition));;
    Ok (<[def_Action definition := definition]> registry)) defs ∅.

(** internal/domain/action_policy.go:135-146 [ActionRegistry.With]; a nil
    receiver is [None].  Go ranges over the receiver's map in some order: the
    model takes the order as the argument [order]. *)
Definition With (order : list ActionDefinition) (registry : option ActionRegistry)
    (defs : list ActionDefinition) : result policy_error ActionRegistry :=
  match registry with
  | None => Err RegistryRequired
  | Some registry => NewActionRegistry (order ++ defs)
  end.

(** [order] enumerates the definitions of a registry. *)
Definition range_order (registry : ActionRegistry) (order : list ActionDefinition) : Prop :=
  order ≡ₚ (map_to_list (definitions registry)).*2.

(** internal/domain/action_policy.go:148-174 [ActionRegistry.Assess] *)
Definition Assess (registry : option ActionRegistry) (action : string) (delta : ActionDelta) :
    result policy_error ActionAssessment :=
  registry ← expect registry RegistryRequired;
  refuse (negb (SafeID action)) (InvalidActionID action);;
  definition ← expect (definitions registry !! action) (UnknownAction action);
  consequences ← normalizeConsequences (delta_Consequences delta);
  refuse (delta_Changed delta && isStateChanging (def_Effect definition) &&
          bool_decide (consequences = [])) (RequiresConsequence action);;
  Ok (mkAssessment (def_Action definition) (def_Effect definition) (delta_Changed delta)
        (def_Impacts definition) (def_Recovery definition) consequences).

(** internal/domain/action_policy.go:243-266 [validateAssessment] *)
Definition validateAssessment (definition : ActionDefinition) (assessment : ActionAssessment) :
    result policy_error unit :=
  refuse (negb (SafeID (as_Action assessment)) ||
          negb (bool_decide (as_Action assessment = def_Action definition)) ||
          negb (bool_decide (as_Effect assessment = def_Effect definition)) ||
          negb (bool_decide (as_Recovery assessment = def_Recovery definition)))
    (MetadataMismatch (def_Action definition));;
  impacts ← normalizeImpacts (as_Impacts assessment);
  refuse (negb (bool_decide (impacts = def_Impacts definition)))
    (ImpactsMismatch (def_Action definition));;
  consequences ← normalizeConsequences (as_Consequences assessment);
  refuse (negb (bool_decide (consequences = as_Consequences assessment)))
    ConsequencesNotNormalized;;
  refuse (as_Changed assessment && isStateChanging (as_Effect assessment) &&
          bool_decide (consequences = [])) (RequiresConsequence (as_Action assessment)).

(** internal/domain/action_policy.go:176-207 [ActionRegistry.Resolve] *)
Definition Resolve (registry : option ActionRegistry) (assessment : ActionAssessment) :
    result policy_error (string * option ConfirmationRequest) :=
  registry ← expect registry RegistryRequired;
  definition ← expect (definitions registry !! as_Action assessment)
                 (UnknownAction (as_Action assessment));
  validateAssessment definition assessment;;
  if negb (as_Changed assessment) then Ok (ActionConfirmationNever, None) else
  if bool_decide (def_Effect definition = ActionRead) ||
     bool_decide (def_Effect definition = ActionSession) ||
     bool_decide (def_Effect definition = ActionBoundedWrite)
  then Ok (ActionConfirmationNever, None) else
  let request := mkRequest (def_Summary definition) (as_Consequences assessment) in
  if bool_decide (def_Recovery definition = RecoveryReversible) ||
     bool_decide (def_Recovery definition = RecoveryRecreatable)
  then Ok (ActionConfirmationPromptDefaultYes, Some (request ConfirmationDefaultYes))
  else if bool_decide (def_Recovery definition = RecoveryIrreversible)
  then Ok (ActionConfirmationPromptDefaultNo, Some (request ConfirmationDefaultNo))
  else Err (InvalidRecovery (as_Action assessment)).

(** ** Normalisation *)

Lemma safeText_TrimSpace value : safeText value = true → safeText (TrimSpace value) = true.
Proof.
  unfold safeText. rewrite TrimSpace_TrimSpace. case_bool_decide; [done|].
  rewrite !negb_true_iff. intros Hn. apply not_true_is_false.
  intros (r & Hr & Hc)%existsb_exists. eapply eq_true_false_abs; [|exact Hn]. apply existsb_exists. exists r. split; [|done].
  apply list_elem_of_In, runes_TrimSpace. by apply list_elem_of_In.
Qed.

Lemma normalizeConsequences_Ok cs l :
  normalizeConsequences cs = Ok l ↔ Forall (λ c, safeText c = true) cs ∧ l = TrimSpace <$> cs.
Proof.
  unfold normalizeConsequences.
  cut (∀ acc, for_range (λ normalized consequence,
    refuse (negb (safeText consequence)) InvalidConsequence;;
    Ok (normalized ++ [TrimSpace consequence])) cs acc = Ok l ↔
    Forall (λ c, safeText c = true) cs ∧ l = acc ++ (TrimSpace <$> cs)); [intros H; apply H|].
  induction cs as [|c cs IH]; intros acc; simpl.
  { rewrite app_nil_r. split; [intros [= ->]; by split|intros [_ ->]; done]. }
  rewrite bind_Ok, Forall_cons. setoid_rewrite IH.
  destruct (safeText c); simpl.
  - split; [intros (a & [= <-] & ? & ->)|intros ([_ ?] & ->)].
    + split; [by split|]. by rewrite <-(assoc_L (++)).
    + eexists. split; [done|]. split; [done|]. by rewrite <-(assoc_L (++)).
  - split; [intros (? & ? & ?); done|intros [[? ?] ?]; done].
Qed.

Lemma normalizeConsequences_idemp cs l :
  normalizeConsequences cs = Ok l → normalizeConsequences l = Ok l.
Proof.
  rewrite !normalizeConsequences_Ok. intros [Hs ->]. split.
  - apply Forall_fmap. eapply Forall_impl; [done|]. apply safeText_TrimSpace.
  - rewrite <-list_fmap_compose. apply list_fmap_ext. intros i x _. simpl.
    by rewrite TrimSpace_TrimSpace.
Qed.

Lemma normalizeImpacts_Ok impacts l :
  normalizeImpacts impacts = Ok l ↔
  (∀ i, i ∈ impacts → validActionImpact i = true) ∧ l = sort_compact impacts.
Proof.
  unfold normalizeImpacts. rewrite bind_Ok. split.
  - intros (u & Hf & [= <-]). split; [|done]. rewrite for_each_Ok in Hf.
    intros i Hi. apply Hf in Hi. ok_bools. done.
  - intros [Hf ->]. exists tt. split; [|done]. apply for_each_total.
    intros i Hi. by rewrite Hf.
Qed.

Lemma normalizeImpacts_idemp impacts l :
  normalizeImpacts impacts = Ok l → normalizeImpacts l = Ok l.
Proof.
  rewrite !normalizeImpacts_Ok. intros [Hv ->]. rewrite sort_compact_idemp. split; [|done].
  intros i Hi. apply Hv. by apply sort_compact_elem.
Qed.

(** What a normal definition satisfies. *)
Definition normal_definition (d : ActionDefinition) : Prop :=
  SafeID (def_Action d) = true ∧ safeText (def_Summary d) = true ∧
  TrimSpace (def_Summary d) = def_Summary d ∧
  validActionEffect (def_Effect d) = true ∧ validRecoveryClass (def_Recovery d) = true ∧
  normalizeImpacts (def_Impacts d) = Ok (def_Impacts d) ∧
  if isStateChanging (def_Effect d)
  then def_Impacts d ≠ [] ∧ def_Recovery d ≠ RecoveryNotNeeded
  else def_Recovery d = RecoveryNotNeeded.

Lemma effect_cases effect :
  validActionEffect effect = true →
  (bool_decide (effect = ActionRead) || bool_decide (effect = ActionSession) ||
   bool_decide (effect = ActionBoundedWrite)) = negb (isStateChanging effect).
Proof.
  unfold validActionEffect, isStateChanging.
  intros H. bools. destruct H as [[[[->| ->]| ->]| ->]| ->]; done.
Qed.

Lemma normalizeDefinition_normal d d' :
  normalizeDefinition d = Ok d' → normal_definition d' ∧ def_Action d' = def_Action d.
Proof.
  unfold normalizeDefinition. cbv zeta. intros H. ok_bools.
  rewrite effect_cases in H by done. unfold normal_definition.
  match goal with Hi : normalizeImpacts _ = Ok _ |- _ => apply normalizeImpacts_idemp in Hi end.
  destruct (isStateChanging (def_Effect d)) eqn:He; simpl in H; ok_bools;
    simpl in *; (split; [|done]);
    rewrite He, TrimSpace_TrimSpace; split_and!; auto using safeText_TrimSpace.
Qed.

Lemma normal_definition_fixed d : normal_definition d → normalizeDefinition d = Ok d.
Proof.
  intros (Hid & Hs & Ht & He & Hr & Hi & Hc). unfold normalizeDefinition. cbv zeta.
  rewrite effect_cases by done. rewrite Hid, Hs, He, Hr, Hi. simpl.
  destruct d as [a s e i r]; simpl in *. rewrite Ht.
  destruct (isStateChanging e); simpl.
  - destruct Hc as [Hc1 Hc2]. by rewrite !bool_decide_eq_false_2.
  - by rewrite bool_decide_eq_true_2.
Qed.

(** ** The registry invariant *)

(** Every definition is stored under its action and in normal form. *)
Definition registry_wf (r : ActionRegistry) : Prop :=
  ∀ k d, definitions r !! k = Some d → def_Action d = k ∧ normal_definition d.

Definition register_all (m : gmap string ActionDefinition) (defs : list ActionDefinition) :
    result policy_error (gmap string ActionDefinition) :=
  for_range (λ registry definition,
    definition ← normalizeDefinition definition;
    refuse (bool_decide (is_Some (registry !! def_Action definition)))
      (DuplicateAction (def_Action definition));;
    Ok (<[def_Action definition := definition]> registry)) defs m.

Lemma register_all_wf m m' defs :
  registry_wf (mkRegistry m) → register_all m defs = Ok m' →
  registry_wf (mkRegistry m') ∧ m ⊆ m'.
Proof.
  intros Hwf H. apply (for_range_inv (λ _ s, registry_wf (mkRegistry s) ∧ m ⊆ s)) in H; [done| |].
  { by split. }
  intros _ d _ s s' _ [IH Hsub] Hd. ok_bools.
  apply normalizeDefinition_normal in Hd0 as [Hn _]. split.
  - intros k e. simpl. rewrite lookup_insert. case_decide as Hk; [intros [= <-]; by split|apply IH].
  - etrans; [done|]. apply insert_subseteq. by apply eq_None_not_Some.
Qed.

(** Registering the definitions of a well-formed registry, in any order, on top
    of a disjoint map yields their union. *)
Lemma register_all_normal m (order : list ActionDefinition) :
  Forall normal_definition order → NoDup (def_Action <$> order) →
  (∀ d, d ∈ order → m !! def_Action d = None) →
  register_all m order =
    Ok (list_to_map ((λ d, (def_Action d, d)) <$> order) ∪ m).
Proof.
  revert m. induction order as [|d order IH]; intros m Hn Hnd Hm.
  { simpl. by rewrite (left_id_L ∅ (∪)). }
  apply Forall_cons in Hn as [Hd Hn]. apply NoDup_cons in Hnd as [Hnin Hnd].
  unfold register_all. simpl. rewrite normal_definition_fixed by done. simpl.
  rewrite Hm by by left. simpl.
  fold (register_all (<[def_Action d:=d]> m) order). rewrite IH; [| |done|].
  - f_equal. csimpl. rewrite <-insert_union_r, insert_union_l; [done|].
    apply not_elem_of_list_to_map_1. by rewrite <-list_fmap_compose.
  - done.
  - intros e He. rewrite lookup_insert_ne; [apply Hm; by right|].
    intros Heq. destruct Hnin. rewrite Heq. by apply list_elem_of_fmap_2.
Qed.

Lemma NewActionRegistry_register defs r :
  NewActionRegistry defs = Ok r ↔ register_all ∅ defs = Ok (definitions r).
Proof.
  unfold NewActionRegistry, register_all. rewrite fmap_Ok. split.
  - intros (m & Hm & ->). done.
  - intros H. eexists. split; [done|]. by destruct r.
Qed.

Lemma registry_wf_empty : registry_wf (mkRegistry ∅).
Proof. intros k d. simpl. by rewrite lookup_empty. Qed.

Lemma range_order_map r order :
  registry_wf r → range_order r order →
  NoDup (def_Action <$> order) ∧
  list_to_map ((λ d, (def_Action d, d)) <$> order) = definitions r.
Proof.
  intros Hwf Ho. unfold range_order in Ho. set (m := definitions r) in *.
  assert ((λ d, (def_Action d, d)) <$> order ≡ₚ map_to_list m) as Hp.
  { rewrite Ho, <-list_fmap_compose. apply reflexive_eq.
    assert (∀ l, l ⊆ map_to_list m → (λ d, (def_Action d, d)) ∘ snd <$> l = l) as H.
    { induction l as [|[k d] l IH]; intros Hl; [done|]. csimpl. rewrite IH by set_solver.
      assert (m !! k = Some d) as Hk by (apply elem_of_map_to_list; set_solver).
      by destruct (Hwf _ _ Hk) as [-> _]. }
    by apply H. }
  split.
  - assert (def_Action <$> order = ((λ d, (def_Action d, d)) <$> order).*1) as ->.
    { by rewrite <-list_fmap_compose. }
    rewrite Hp. apply NoDup_fst_map_to_list.
  - rewrite <-(list_to_map_to_list m). apply list_to_map_proper; [|done].
    rewrite Hp. apply NoDup_fst_map_to_list.
Qed.

(** Registering a valid registry's own definitions, in any order, rebuilds it. *)
Lemma register_range r order :
  registry_wf r → range_order r order → register_all ∅ order = Ok (definitions r).
Proof.
  intros Hwf Ho. destruct (range_order_map _ _ Hwf Ho) as [Hnd Hm].
  rewrite register_all_normal; [|apply Forall_forall|done|intros; apply lookup_empty].
  - by rewrite Hm, (right_id_L ∅ (∪)).
  - intros d Hd. unfold range_order in Ho. rewrite Ho in Hd.
    apply list_elem_of_fmap in Hd as ([k d'] & -> & Hd).
    apply elem_of_map_to_list in Hd. by apply Hwf in Hd as [_ ?].
Qed.

Lemma NewActionRegistry_wf defs r : NewActionRegistry defs = Ok r → registry_wf r.
Proof.
  intros H%NewActionRegistry_register.
  apply register_all_wf in H as [H _]; [by destruct r|apply registry_wf_empty].
Qed.

(** every registry that [NewActionRegistry] or [With] returns stores each
    definition under its own action, in normal form, and [With] keeps the
    receiver's definitions whatever order Go's map iteration takes. *)
Theorem registry_invariant :
  (∀ defs r, NewActionRegistry defs = Ok r → registry_wf r) ∧
  (∀ r order defs r', registry_wf r → range_order r order →
     With order (Some r) defs = Ok r' →
     registry_wf r' ∧ definitions r ⊆ definitions r' ∧
     ∀ d, d ∈ defs → ∃ d', normalizeDefinition d = Ok d' ∧
       definitions r' !! def_Action d = Some d').
Proof.
  split; [apply NewActionRegistry_wf|].
  - intros r order defs r' Hwf Ho H. simpl in H. apply NewActionRegistry_register in H.
    unfold register_all in H. rewrite for_range_app in H.
    fold (register_all ∅ order) in H. rewrite (register_range r) in H by done. simpl in H.
    fold (register_all (definitions r) defs) in H.
    pose proof H as H'. apply register_all_wf in H' as [Hwf' Hsub]; [|by destruct r].
    split_and!; [by destruct r'|done|].
    refine (for_range_inv (λ done s, ∀ d, d ∈ done → ∃ d', normalizeDefinition d = Ok d' ∧
             s !! def_Action d = Some d') _ _ _ _ _ _ H); [by intros ? ?%elem_of_nil|].
    intros pre d _ s s' _ IH Hd e He. ok_bools.
    apply normalizeDefinition_normal in Hd0 as Hn. destruct Hn as [_ Ha].
    apply elem_of_app in He as [He| ->%list_elem_of_singleton].
    + destruct (IH e He) as (e' & He' & Hl). exists e'. split; [done|].
      rewrite lookup_insert_ne; [done|]. intros Heq. rewrite Heq, Hl in *. naive_solver.
    + eexists. split; [done|]. rewrite <-Ha. apply lookup_insert_eq.
Qed.

(** ** Assessments and confirmation *)

Lemma Assess_Ok r action delta a :
  Assess (Some r) action delta = Ok a →
  ∃ d, definitions r !! action = Some d ∧ as_Action a = def_Action d ∧
    as_Effect a = def_Effect d ∧ as_Recovery a = def_Recovery d ∧
    as_Impacts a = def_Impacts d ∧ as_Changed a = delta_Changed delta ∧
    normalizeConsequences (delta_Consequences delta) = Ok (as_Consequences a) ∧
    (as_Changed a && isStateChanging (as_Effect a) &&
      bool_decide (as_Consequences a = [])) = false.
Proof.
  unfold Assess. intros H. ok_inv. simplify_eq. simpl in *. eexists. by split_and!.
Qed.

(** The confirmation a definition calls for. *)
Definition confirmation_of (d : ActionDefinition) (a : ActionAssessment) :
    string * option ConfirmationRequest :=
  if as_Changed a && isStateChanging (def_Effect d) then
    if bool_decide (def_Recovery d = RecoveryIrreversible)
    then (ActionConfirmationPromptDefaultNo,
          Some (mkRequest (def_Summary d) (as_Consequences a) ConfirmationDefaultNo))
    else (ActionConfirmationPromptDefaultYes,
          Some (mkRequest (def_Summary d) (as_Consequences a) ConfirmationDefaultYes))
  else (ActionConfirmationNever, None).

Lemma Resolve_valid r d a :
  registry_wf r → definitions r !! as_Action a = Some d →
  validateAssessment d a = Ok tt → Resolve (Some r) a = Ok (confirmation_of d a).
Proof.
  intros Hwf Hd Hv. destruct (Hwf _ _ Hd) as [_ Hn]. destruct Hn as (_&_&_&He&Hr&_&Hc).
  unfold Resolve, confirmation_of. simpl. rewrite Hd. simpl. rewrite Hv. simpl.
  rewrite effect_cases by done. destruct (as_Changed a); simpl; [|done].
  destruct (isStateChanging (def_Effect d)); simpl; [|done]. destruct Hc as [_ Hc].
  unfold validRecoveryClass in Hr. bools. destruct Hr as [[[Hr|Hr]|Hr]|Hr]; [done|..]; by rewrite Hr.
Qed.

(** an assessment produced by [Assess] on a well-formed registry always
    resolves, to the confirmation that the action's definition calls for: none
    for an unchanged or non-mutating action, and for a changed one a prompt whose
    default is "no" exactly when the action is irreversible. *)
Theorem Assess_Resolve r action delta a :
  registry_wf r → Assess (Some r) action delta = Ok a →
  ∃ d, definitions r !! action = Some d ∧ Resolve (Some r) a = Ok (confirmation_of d a).
Proof.
  intros Hwf Ha. apply Assess_Ok in Ha as (d & Hd & H1 & H2 & H3 & H4 & H5 & H6 & H7).
  destruct (Hwf _ _ Hd) as [Hk Hn]. exists d. split; [done|].
  apply Resolve_valid; [done|by rewrite H1, Hk|].
  destruct Hn as (Hid&_&_&_&_&Hi&_). unfold validateAssessment.
  rewrite H1, H2, H3, Hid, !bool_decide_eq_true_2 by done. simpl.
  rewrite H4, Hi. simpl. rewrite bool_decide_eq_true_2 by done. simpl.
  rewrite (normalizeConsequences_idemp _ _ H6). simpl.
  rewrite (bool_decide_eq_true_2 (_ = as_Consequences a)) by done. simpl. by rewrite <-H2, H7.
Qed.

(** whatever assessment it is given, [Resolve] either refuses it or answers
    for the registered definition: a changed mutation or destruction is never
    resolved without a prompt, and never with default "yes" when it is
    irreversible. *)
Theorem Resolve_safe r a policy request :
  registry_wf r → Resolve (Some r) a = Ok (policy, request) →
  ∃ d, definitions r !! as_Action a = Some d ∧ as_Effect a = def_Effect d ∧
    as_Recovery a = def_Recovery d ∧ sort_compact (as_Impacts a) = def_Impacts d ∧
    (policy, request) = confirmation_of d a ∧
    (as_Changed a = true → isStateChanging (as_Effect a) = true →
       policy ≠ ActionConfirmationNever ∧ as_Consequences a ≠ [] ∧
       (as_Recovery a = RecoveryIrreversible → policy = ActionConfirmationPromptDefaultNo)).
Proof.
  intros Hwf H. pose proof H as Hrun. unfold Resolve in H. ok_inv. simplify_eq.
  rename v0 into d. rewrite (Resolve_valid _ d) in Hrun by done. injection Hrun as Hres.
  exists d. unfold validateAssessment in *. ok_bools.
  match goal with Hi : normalizeImpacts _ = Ok _ |- _ => apply normalizeImpacts_Ok in Hi as [_ Hi] end.
  split_and!; try congruence.
  intros Hc Hs. unfold confirmation_of in Hres. rewrite Hc in *.
  match goal with He : as_Effect a = _ |- _ => rewrite He in * end. rewrite Hs in *. simpl in *.
  bools. split_and!.
  - by case_bool_decide; simplify_eq.
  - intros Hnil. naive_solver.
  - intros Hirr. rewrite bool_decide_eq_true_2 in Hres by congruence. by simplify_eq.
Qed.

(** ** A concrete registry *)

Definition sample_definition : ActionDefinition :=
  mkDefinition "yard.destroy" "Destroy the yard" ActionDestruction
    ["persistent-data"; "host-incus"; "host-incus"] RecoveryIrreversible.

Definition sample_registry : ActionRegistry :=
  match NewActionRegistry [sample_definition] with Ok r => r | Err _ => mkRegistry ∅ end.

Definition sample_delta : ActionDelta := mkDelta true [" all yard data is lost "].

Definition sample_assessment : ActionAssessment :=
  mkAssessment "yard.destroy" ActionDestruction true ["host-incus"; "persistent-data"]
    RecoveryIrreversible ["all yard data is lost"].

Lemma sample_registry_wf : registry_wf sample_registry.
Proof. apply (NewActionRegistry_wf [sample_definition]). by vm_compute. Qed.

Lemma Assess_Resolve_witness :
  ∃ d, definitions sample_registry !! "yard.destroy" = Some d ∧
    Resolve (Some sample_registry) sample_assessment = Ok (confirmation_of d sample_assessment).
Proof.
  apply (Assess_Resolve sample_registry "yard.destroy" sample_delta sample_assessment).
  - exact sample_registry_wf.
  - vm_compute. reflexivity.
Defined.

Lemma Resolve_safe_witness :
  ∃ d, definitions sample_registry !! "yard.destroy" = Some d ∧ def_Recovery d = RecoveryIrreversible.
Proof.
  destruct (Resolve_safe sample_registry sample_assessment ActionConfirmationPromptDefaultNo
    (Some (mkRequest "Destroy the yard" ["all yard data is lost"] ConfirmationDefaultNo)))
    as (d & Hd & _ & Hr & _).
  - exact sample_registry_wf.
  - vm_compute. reflexivity.
  - exists d. split; [exact Hd|]. symmetry. exact Hr.
Defined.
