(* ===== verification/OperationSteps.v ===== *)
(** * Operation steps

    internal/domain/operation_steps.go: the ordered effects of a plan, their
    validation, and the check that a freshly observed plan stays within the
    approved one. *)

From S2P Require Import Prelude GoStrings Names.

(** internal/domain/operation_steps.go:11-17 [StepDecision] *)
Definition StepApply : string := "apply".
Definition StepSkip : string := "skip".
Definition StepConditional : string := "conditional".

(** internal/domain/operation_steps.go:19-32 [OperationStep] *)
Record OperationStep := mkStep {
  step_ID : string;
  step_Target : string;
  step_Observed : string;
  step_Desired : string;
  step_Decision : string;
  step_Preconditions : list string;
  step_DependsOn : list string;
  step_Verify : string;
  step_Consequence : string;
}.

Inductive step_error :=
| TooManySteps
| InvalidOrDuplicateStep
| InvalidDecision
| InvalidFact
| InvalidStepConsequence
| TooManyGuards
| InvalidPrecondition
| DependencyMustPrecede
| StepSetChanged
| StepScopeChanged (id : string)
| StepRequiresNewWork (id : string).

(** internal/domain/operation_steps.go:74-77 [operationStepText] *)
Definition operationStepText (value : string) : bool :=
  negb (bool_decide (value = "")) && (len value <=? 512) && ValidString value &&
  bool_decide (TrimSpace value = value) && negb (ContainsFunc value IsControl).

Definition valid_decision (d : string) : bool :=
  bool_decide (d = StepApply) || bool_decide (d = StepSkip) || bool_decide (d = StepConditional).

(** One iteration of [ValidateOperationSteps]: the accumulator is the map of the
    step IDs already accepted.
    internal/domain/operation_steps.go:39-70 [ValidateOperationSteps loop] *)
Definition validate_step (known : gset string) (step : OperationStep) :
    result step_error (gset string) :=
  refuse (negb (SafeID (step_ID step)) || seen (step_ID step) known) InvalidOrDuplicateStep;;
  refuse (negb (valid_decision (step_Decision step))) InvalidDecision;;
  for_each (λ value, refuse (negb (operationStepText value)) InvalidFact)
    [step_Target step; step_Observed step; step_Desired step; step_Verify step];;
  refuse (negb (bool_decide (step_Consequence step = "")) &&
          negb (operationStepText (step_Consequence step))) InvalidStepConsequence;;
  refuse ((64 <? Z.of_nat (length (step_Preconditions step))) ||
          (64 <? Z.of_nat (length (step_DependsOn step)))) TooManyGuards;;
  for_each (λ guard, refuse (negb (operationStepText guard)) InvalidPrecondition)
    (step_Preconditions step);;
  for_range (λ dependencies dependency,
    refuse (negb (seen dependency known) || seen dependency dependencies) DependencyMustPrecede;;
    Ok ({[dependency]} ∪ dependencies)) (step_DependsOn step) (∅ : gset string);;
  Ok ({[step_ID step]} ∪ known).

(** internal/domain/operation_steps.go:34-72 [ValidateOperationSteps] *)
Definition ValidateOperationSteps (steps : list OperationStep) : result step_error unit :=
  refuse (256 <? Z.of_nat (length steps)) TooManySteps;;
  for_range validate_step steps ∅;;
  Ok tt.

(** internal/domain/operation_steps.go:88-94 [EqualOperationSteps]: field-wise
    equality of the two lists. *)
#[export] Instance OperationStep_eq_dec : EqDecision OperationStep.
Proof. solve_decision. Defined.

Definition EqualOperationSteps (left right : list OperationStep) : bool := bool_decide (left = right).

(** One pair of [CheckOperationSteps].
    internal/domain/operation_steps.go:109-123 [CheckOperationSteps loop] *)
Definition check_step (before after : OperationStep) : result step_error unit :=
  refuse (negb (bool_decide (step_ID before = step_ID after)) ||
          negb (bool_decide (step_Target before = step_Target after)) ||
          negb (bool_decide (step_Desired before = step_Desired after)) ||
          negb (bool_decide (step_Verify before = step_Verify after)) ||
          negb (bool_decide (step_Consequence before = step_Consequence after)) ||
          negb (bool_decide (step_Preconditions before = step_Preconditions after)) ||
          negb (bool_decide (step_DependsOn before = step_DependsOn after)))
    (StepScopeChanged (step_ID before));;
  if bool_decide (step_Decision after = StepSkip) then Ok tt else
  refuse (bool_decide (step_Decision before = StepSkip) ||
          (bool_decide (step_Decision before = StepApply) &&
           (negb (bool_decide (step_Decision after = StepApply)) ||
            negb (bool_decide (step_Observed before = step_Observed after)))))
    (StepRequiresNewWork (step_ID before)).

(** internal/domain/operation_steps.go:99-125 [CheckOperationSteps] *)
Definition CheckOperationSteps (approved fresh : list OperationStep) : result step_error unit :=
  ValidateOperationSteps approved;;
  ValidateOperationSteps fresh;;
  refuse (negb (length approved =? length fresh)%nat) StepSetChanged;;
  for_each (λ '(before, after), check_step before after) (zip approved fresh).

(** internal/domain/operation_steps.go:127-136 [OperationStepConsequences] *)
Fixpoint OperationStepConsequences (steps : list OperationStep) : list string :=
  match steps with
  | [] => []
  | step :: steps' =>
      if bool_decide (step_Decision step = StepSkip) || bool_decide (step_Consequence step = "")
      then OperationStepConsequences steps'
      else step_Consequence step :: OperationStepConsequences steps'
  end.

(** ** Validation orders the steps *)

(** Every step depends only on earlier steps. *)
Definition dependencies_precede (steps : list OperationStep) : Prop :=
  ∀ i s dep, steps !! i = Some s → dep ∈ step_DependsOn s →
    ∃ j t, (j < i)%nat ∧ steps !! j = Some t ∧ step_ID t = dep.

Lemma dependency_loop known deps s s' :
  for_range (λ dependencies dependency,
    refuse (negb (seen dependency known) || seen dependency dependencies) DependencyMustPrecede;;
    Ok ({[dependency]} ∪ dependencies)) deps (s : gset string) = Ok s' →
  (∀ d, d ∈ deps → d ∈ known) ∧ NoDup deps.
Proof.
  intros H.
  cut ((∀ d, d ∈ deps → d ∈ known) ∧ NoDup deps ∧ s' = list_to_set deps ∪ s); [tauto|].
  refine (for_range_inv (λ pre t, (∀ d, d ∈ pre → d ∈ known) ∧ NoDup pre ∧
    t = list_to_set pre ∪ s) _ _ _ _ _ _ H).
  - split_and!; [by intros ? ?%elem_of_nil|constructor|]. set_solver.
  - intros pre d post t t' _ (IH1 & IH2 & ->) Hd. unfold seen in *. ok_bools. split_and!.
    + intros e [He| ->%list_elem_of_singleton]%elem_of_app; [by apply IH1|done].
    + apply NoDup_app. split_and!; [done| |apply NoDup_singleton]. set_solver.
    + set_solver.
Qed.

Lemma validate_step_Ok known step known' :
  validate_step known step = Ok known' →
  known' = {[step_ID step]} ∪ known ∧ (step_ID step ∉ known) ∧ SafeID (step_ID step) = true ∧
  valid_decision (step_Decision step) = true ∧
  (∀ d, d ∈ step_DependsOn step → d ∈ known) ∧ NoDup (step_DependsOn step).
Proof.
  unfold validate_step. intros H. unfold seen in H. ok_inv.
  match goal with Hf : for_range _ (step_DependsOn _) _ = Ok _ |- _ => apply dependency_loop in Hf end.
  bools. simplify_eq. split_and!; naive_solver.
Qed.

Lemma dependencies_precede_snoc pre s :
  dependencies_precede pre → (∀ d, d ∈ step_DependsOn s → d ∈ (step_ID <$> pre)) →
  dependencies_precede (pre ++ [s]).
Proof.
  intros Hp Hs i t dep Hi Hd.
  apply lookup_app_Some in Hi as [Hi|[Hlen Hi]].
  - destruct (Hp i t dep Hi Hd) as (j & u & Hj & Hu & <-). exists j, u.
    split_and!; [done|by apply lookup_app_l_Some|done].
  - apply list_lookup_singleton_Some in Hi as [Hi <-].
    apply Hs, list_elem_of_fmap in Hd as (u & -> & Hu).
    apply list_elem_of_lookup in Hu as [j Hj]. exists j, u.
    pose proof (lookup_lt_Some _ _ _ Hj). split_and!; [lia|by apply lookup_app_l_Some|done].
Qed.

Lemma ValidateOperationSteps_loop steps s' :
  for_range validate_step steps ∅ = Ok s' →
  NoDup (step_ID <$> steps) ∧ dependencies_precede steps ∧
  (∀ s, s ∈ steps → valid_decision (step_Decision s) = true ∧ SafeID (step_ID s) = true).
Proof.
  intros H.
  cut (NoDup (step_ID <$> steps) ∧ dependencies_precede steps ∧
       (∀ s, s ∈ steps → valid_decision (step_Decision s) = true ∧ SafeID (step_ID s) = true) ∧
       s' = list_to_set (step_ID <$> steps)); [tauto|].
  refine (for_range_inv (λ pre t, NoDup (step_ID <$> pre) ∧ dependencies_precede pre ∧
    (∀ s, s ∈ pre → valid_decision (step_Decision s) = true ∧ SafeID (step_ID s) = true) ∧
    t = list_to_set (step_ID <$> pre)) _ _ _ _ _ _ H).
  - split_and!; [constructor|intros i s dep Hi; by rewrite lookup_nil in Hi|
                 by intros ? ?%elem_of_nil|done].
  - intros pre s post t t' _ (IH1 & IH2 & IH3 & ->) Hs.
    apply validate_step_Ok in Hs as (-> & Hnew & Hid & Hdec & Hdeps & _).
    rewrite elem_of_list_to_set in Hnew. setoid_rewrite elem_of_list_to_set in Hdeps.
    split_and!.
    + rewrite fmap_app. apply NoDup_app. split_and!; [done| |apply NoDup_singleton].
      intros x Hx Hx'. csimpl. apply list_elem_of_singleton in Hx'. by subst.
    + by apply dependencies_precede_snoc.
    + intros u [Hu| ->%list_elem_of_singleton]%elem_of_app; [by apply IH3|done].
    + rewrite fmap_app, list_to_set_app_L. set_solver.
Qed.

Lemma ValidateOperationSteps_Ok steps u :
  ValidateOperationSteps steps = Ok u →
  (length steps ≤ 256)%nat ∧ NoDup (step_ID <$> steps) ∧ dependencies_precede steps ∧
  (∀ s, s ∈ steps → valid_decision (step_Decision s) = true ∧ SafeID (step_ID s) = true).
Proof.
  unfold ValidateOperationSteps. intros H. ok_inv.
  match goal with Hf : for_range _ _ _ = Ok _ |- _ => apply ValidateOperationSteps_loop in Hf end.
  bools. split; [lia|done].
Qed.

(** an accepted step list has at most 256 steps with distinct safe IDs, and
    lists every step after all the steps it depends on, so executing it in order
    respects every dependency. *)
Theorem ValidateOperationSteps_ordered steps u :
  ValidateOperationSteps steps = Ok u →
  (length steps ≤ 256)%nat ∧ NoDup (step_ID <$> steps) ∧ dependencies_precede steps.
Proof. intros H%ValidateOperationSteps_Ok. tauto. Qed.

(** ** Approval *)

(** [after] stays within the approved [before]: the same effect, and new work
    only where it was approved. *)
Definition within (before after : OperationStep) : Prop :=
  step_ID before = step_ID after ∧ step_Target before = step_Target after ∧
  step_Desired before = step_Desired after ∧ step_Verify before = step_Verify after ∧
  step_Consequence before = step_Consequence after ∧
  step_Preconditions before = step_Preconditions after ∧
  step_DependsOn before = step_DependsOn after ∧
  (step_Decision after ≠ StepSkip →
     step_Decision before ≠ StepSkip ∧
     (step_Decision before = StepApply →
        step_Decision after = StepApply ∧ step_Observed before = step_Observed after)).

Lemma check_step_Ok before after u : check_step before after = Ok u ↔ within before after.
Proof.
  destruct u. unfold check_step, within. rewrite bind_Ok. setoid_rewrite refuse_Ok. split.
  - intros ([] & Hs & H). bools. split_and!; [done..|]. intros Hns.
    rewrite bool_decide_eq_false_2 in H by done. ok_bools.
    split; [done|]. intros Ha. naive_solver.
  - intros (-> & -> & -> & -> & -> & -> & -> & H). exists tt.
    rewrite !bool_decide_eq_true_2 by done. split; [done|].
    case_bool_decide as Hns; [done|]. destruct (H Hns) as [Hb Ha].
    rewrite refuse_Ok. rewrite (bool_decide_eq_false_2 (_ before = StepSkip)) by done. simpl.
    case_bool_decide as Hba; [|done]. destruct (Ha Hba) as [-> ->].
    by rewrite !bool_decide_eq_true_2.
Qed.

Lemma zip_check approved fresh :
  length approved = length fresh →
  for_each (λ '(before, after), check_step before after) (zip approved fresh) = Ok tt ↔
  Forall2 within approved fresh.
Proof.
  intros Hlen. rewrite for_each_Ok. split.
  - revert fresh Hlen. induction approved as [|a approved IH]; intros [|b fresh] Hlen H;
      simpl in *; try done; constructor.
    + apply (check_step_Ok _ _ tt), (H (a, b)). by left.
    + apply IH; [lia|]. intros x Hx. apply H. by right.
  - intros H. induction H as [|a b approved fresh Hab H IH]; intros x Hx; [by apply elem_of_nil in Hx|].
    simpl in *. apply elem_of_cons in Hx as [->|Hx]; [by apply check_step_Ok|].
    apply IH; [lia|done].
Qed.

Lemma CheckOperationSteps_Ok approved fresh u :
  CheckOperationSteps approved fresh = Ok u ↔
  ValidateOperationSteps approved = Ok tt ∧ ValidateOperationSteps fresh = Ok tt ∧
  Forall2 within approved fresh.
Proof.
  unfold CheckOperationSteps. split.
  - intros H. ok_inv. bools. split_and!; [done..|]. by apply zip_check.
  - intros (-> & -> & H). simpl. pose proof (Forall2_length _ _ _ H) as Hlen.
    rewrite Hlen, Nat.eqb_refl. simpl. destruct u. by apply zip_check.
Qed.

Lemma within_refl s : within s s.
Proof. unfold within. tauto. Qed.

Lemma within_trans s t u : within s t → within t u → within s u.
Proof.
  intros (?&?&?&?&?&?&?&Hst) (?&?&?&?&?&?&?&Htu). unfold within. split_and!; try congruence.
  intros Hu. destruct (Htu Hu) as [Ht Hta]. destruct (Hst Ht) as [Hs Hsa]. split; [done|].
  intros Ha. destruct (Hsa Ha) as [Hta' Ho]. destruct (Hta Hta') as [Hua Ho']. split; congruence.
Qed.

(** approval is a preorder on valid step lists: an unchanged plan passes, and
    a plan checked against a plan that was itself checked against the approved
    one is within the approved one, so repeated re-planning never widens what the
    operator approved. *)
Theorem CheckOperationSteps_preorder :
  (∀ steps, ValidateOperationSteps steps = Ok tt → CheckOperationSteps steps steps = Ok tt) ∧
  (∀ a b c, CheckOperationSteps a b = Ok tt → CheckOperationSteps b c = Ok tt →
     CheckOperationSteps a c = Ok tt).
Proof.
  split.
  - intros steps H. apply CheckOperationSteps_Ok. split_and!; [done..|].
    apply Forall_Forall2_diag, Forall_true, within_refl.
  - intros a b c (? & _ & Hab)%CheckOperationSteps_Ok (_ & ? & Hbc)%CheckOperationSteps_Ok.
    apply CheckOperationSteps_Ok. split_and!; [done..|].
    eapply Forall2_trans; [apply within_trans|done..].
Qed.

Lemma consequences_within approved fresh :
  Forall2 within approved fresh →
  sublist (OperationStepConsequences fresh) (OperationStepConsequences approved).
Proof.
  induction 1 as [|a b approved fresh (_&_&_&_&Hc&_&_&Hd) H IH]; [constructor|]. simpl.
  destruct (bool_decide (step_Decision b = StepSkip) || _) eqn:Hb.
  - destruct (bool_decide (step_Decision a = StepSkip) || _); [done|by constructor].
  - apply orb_false_iff in Hb as [Hb1%bool_decide_eq_false Hb2%bool_decide_eq_false].
    destruct (Hd Hb1) as [Ha _].
    rewrite !bool_decide_eq_false_2 by congruence. rewrite <-Hc. by constructor.
Qed.

(** a fresh plan that passes the check announces no consequence the operator
    did not see: its consequences are a sublist of the approved ones, and a step
    that was to be skipped is still skipped. *)
Theorem CheckOperationSteps_consequences approved fresh u :
  CheckOperationSteps approved fresh = Ok u →
  sublist (OperationStepConsequences fresh) (OperationStepConsequences approved) ∧
  ∀ i a f, approved !! i = Some a → fresh !! i = Some f →
    step_ID a = step_ID f ∧ step_Target a = step_Target f ∧ step_Desired a = step_Desired f ∧
    (step_Decision a = StepSkip → step_Decision f = StepSkip).
Proof.
  intros (_ & _ & H)%CheckOperationSteps_Ok. split; [by apply consequences_within|].
  intros i a f Ha Hf.
  destruct (Forall2_lookup_lr _ _ _ _ _ _ H Ha Hf) as (?&?&?&_&_&_&_&Hd).
  split_and!; [done..|]. intros Hs. destruct (decide (step_Decision f = StepSkip)); naive_solver.
Qed.

(** ** A concrete plan *)

Definition sample_step (id decision : string) (deps : list string) : OperationStep :=
  mkStep id "yard" "absent" "present" decision ["owner is local"] deps "inspect" "creates a yard".

Definition sample_approved : list OperationStep :=
  [sample_step "create" StepApply []; sample_step "start" StepConditional ["create"]].

Definition sample_fresh : list OperationStep :=
  [sample_step "create" StepSkip []; sample_step "start" StepApply ["create"]].

Lemma ValidateOperationSteps_ordered_witness :
  (length sample_approved ≤ 256)%nat ∧ NoDup (step_ID <$> sample_approved) ∧
  dependencies_precede sample_approved.
Proof.
  apply (ValidateOperationSteps_ordered sample_approved tt). vm_compute. reflexivity.
Defined.

Lemma CheckOperationSteps_consequences_witness :
  sublist (OperationStepConsequences sample_fresh) (OperationStepConsequences sample_approved).
Proof.
  apply (CheckOperationSteps_consequences sample_approved sample_fresh tt).
  vm_compute. reflexivity.
Defined.
