(* ===== verification/Credential.v ===== *)
(** * Credential ledger policy

    internal/credential/policy.go: the append-only ledger of credential
    revisions.  This file holds its data, the validation of revisions and of the
    ledger they form, and the analysis of heads. *)

From S2P Require Import Prelude GoStrings GoSort Names.

(** ** Data *)

(** internal/domain/types.go:333-353 [CredentialMetadata].  [Timestamp] is the
    number of nanoseconds since Go's zero time, so that [IsZero] is [= 0]. *)
Record CredentialMetadata := mkMetadata {
  SchemaVersion : Z;
  CredentialID : string;
  RevisionID : string;
  Parents : list string;
  Label : string;
  Kind : string;
  Zone : string;
  Scope_ : string;
  Consumer : string;
  State : string;
  RecipientActors : list string;
  Exclusive : bool;
  Syncable : bool;
  AuthorityHost : string;
  AssignedYard : string;
  AssignmentEpoch : Z;
  ActorID : string;
  ActorCounter : Z;
  Timestamp : Z;
}.

#[export] Instance CredentialMetadata_eta : Eta CredentialMetadata := λ m,
  mkMetadata (SchemaVersion m) (CredentialID m) (RevisionID m) (Parents m) (Label m) (Kind m)
    (Zone m) (Scope_ m) (Consumer m) (State m) (RecipientActors m) (Exclusive m) (Syncable m)
    (AuthorityHost m) (AssignedYard m) (AssignmentEpoch m) (ActorID m) (ActorCounter m) (Timestamp m).

#[export] Instance CredentialMetadata_eq_dec : EqDecision CredentialMetadata.
Proof. solve_decision. Defined.

(** internal/credential/policy.go:17-26 [Decision] *)
Record Decision_ := mkDecision {
  dec_RequiresMerge : bool;
  dec_Conflict : bool;
  dec_Reason : string;
  dec_State : string;
  dec_Parents : list string;
  dec_Recipients : list string;
  dec_Exclusive : bool;
  dec_Template : CredentialMetadata;
}.

#[export] Instance Decision_eta : Eta Decision_ := λ d,
  mkDecision (dec_RequiresMerge d) (dec_Conflict d) (dec_Reason d) (dec_State d) (dec_Parents d)
    (dec_Recipients d) (dec_Exclusive d) (dec_Template d).

(** internal/domain/types.go:406-422 [CredentialSummary] *)
Record CredentialSummary := mkSummary {
  sum_CredentialID : string;
  sum_Label : string;
  sum_Kind : string;
  sum_Zone : string;
  sum_Consumer : string;
  sum_State : string;
  sum_Heads : list string;
  sum_NeedsMerge : bool;
  sum_Conflict : bool;
  sum_ConflictReason : string;
  sum_Exclusive : bool;
  sum_AuthorityHost : string;
  sum_AssignedYard : string;
  sum_AssignmentEpoch : Z;
  sum_Syncable : bool;
}.

(** The error returns of the component. *)
Inductive cred_error :=
| UnsupportedSchema (version : Z)
| InvalidIdentity
| InvalidClassification
| InvalidConsumer
| InvalidState
| RecipientsRequired
| InvalidRecipient (actor : string)
| DuplicateRecipient (actor : string)
| InvalidParent (parent : string)
| DuplicateRevision (id : string)
| DuplicateParent (id parent : string)
| UnknownParent (id parent : string)
| CrossesHistories (id : string)
| RevisionCycle (id : string)
| ReusedCounter (actor : string) (counter : Z)
| NonExclusiveAssignment (id : string)
| InvalidAssignment (id : string)
| RootNotByAuthority (id : string)
| AuthorityChanged (id : string)
| UnauthorizedAssignment (id : string)
| ChangedMetadata (id : string)
| LocalOnly (id : string)
| NoHeads
| DifferentCredentials
| InvalidActor (actor : string)
| NoRecipientLeft
| NotExclusive
| EpochChanged (expected current : Z)
| InvalidAuthority
| InvalidAssignedYard
| AccessNotExclusive
| InvalidAccessContext
| OutOfFuel.

(** ** Revisions *)

Definition crlf : string := String "013" (String "010" "").

(** internal/credential/policy.go:560-570 [isLowerHex] *)
Definition lower_hex_rune (c : Z) : bool := negb (((c <? 48) || (57 <? c)) && ((c <? 97) || (102 <? c))).

Definition isLowerHex (value : string) : bool :=
  if bool_decide (value = "") then false else forallb lower_hex_rune (runes value).

(** internal/credential/policy.go:550-552 [credentialID] *)
Definition credentialID (value : string) : bool :=
  (len value =? len "cred-" + 32) && HasPrefix value "cred-" &&
  isLowerHex (string_drop (String.length "cred-") value).

Definition revision_prefix (metadata : CredentialMetadata) : string :=
  ActorID metadata +:+ "-" +:+ pad_decimal 12 (ActorCounter metadata) +:+ "-".

(** internal/credential/policy.go:554-558 [revisionID] *)
Definition revisionID (metadata : CredentialMetadata) : bool :=
  let prefix := revision_prefix metadata in
  HasPrefix (RevisionID metadata) prefix &&
  (len (RevisionID metadata) =? len prefix + 8) &&
  isLowerHex (string_drop (String.length prefix) (RevisionID metadata)).

(** internal/credential/policy.go:510-548 [validateMetadata] *)
Definition validateMetadata (metadata : CredentialMetadata) : result cred_error unit :=
  refuse (negb (SchemaVersion metadata =? 1)) (UnsupportedSchema (SchemaVersion metadata));;
  refuse (negb (credentialID (CredentialID metadata)) || negb (revisionID metadata) ||
          negb (SafeID (ActorID metadata)) || (ActorCounter metadata <? 1)) InvalidIdentity;;
  refuse (bool_decide (Label metadata = "") || (128 <? len (Label metadata)) ||
          ContainsAny (Label metadata) crlf ||
          negb (SafeID (Kind metadata)) || negb (SafeID (Zone metadata)) ||
          bool_decide (Zone metadata = ".") || bool_decide (Zone metadata = "..") ||
          negb (bool_decide (Scope_ metadata = "staging"))) InvalidClassification;;
  refuse (negb (SafeName (Consumer metadata))) InvalidConsumer;;
  refuse (negb (bool_decide (State metadata ∈ ["active"; "revoked"; "tombstone"]))) InvalidState;;
  refuse (bool_decide (RecipientActors metadata = []) || (AssignmentEpoch metadata <? 0) ||
          (Timestamp metadata =? 0)) RecipientsRequired;;
  for_range (λ known actor,
    refuse (negb (SafeID actor)) (InvalidRecipient actor);;
    refuse (seen actor known) (DuplicateRecipient actor);;
    Ok ({[actor]} ∪ known)) (RecipientActors metadata) (∅ : gset string);;
  for_each (λ parent, refuse (negb (SafeID parent)) (InvalidParent parent)) (Parents metadata).

(** internal/credential/policy.go:620-623 [validAssignedYard] *)
Definition validAssignedYard (value : string) : bool :=
  match Cut value "/" with
  | Some (owner, yard) => SafeID owner && SafeName yard
  | None => false
  end.

(** internal/credential/policy.go:625-635 [metadataEqual]: field-wise equality. *)
Definition metadataEqual (left right : CredentialMetadata) : bool := bool_decide (left = right).

(** ** The ledger *)

(** The zero value that Go reads for a missing map key. *)
Definition zero_metadata : CredentialMetadata :=
  mkMetadata 0 "" "" [] "" "" "" "" "" "" [] false false "" "" 0 "" 0 0.

(** The index loop of [ValidateRevisions].
    internal/credential/policy.go:116-125 [ValidateRevisions, index] *)
Definition index_revisions (revisions : list CredentialMetadata) :
    result cred_error (gmap string CredentialMetadata) :=
  for_range (λ byID revision,
    validateMetadata revision;;
    refuse (bool_decide (is_Some (byID !! RevisionID revision)))
      (DuplicateRevision (RevisionID revision));;
    Ok (<[RevisionID revision := revision]> byID)) revisions ∅.

(** The parent loop of [ValidateRevisions].
    internal/credential/policy.go:126-141 [ValidateRevisions, parents] *)
Definition check_parents (byID : gmap string CredentialMetadata) (revision : CredentialMetadata) :
    result cred_error unit :=
  for_range (λ seenParents parentID,
    refuse (seen parentID seenParents) (DuplicateParent (RevisionID revision) parentID);;
    parent ← expect (byID !! parentID) (UnknownParent (RevisionID revision) parentID);
    refuse (negb (bool_decide (CredentialID parent = CredentialID revision)))
      (CrossesHistories (RevisionID revision));;
    Ok ({[parentID]} ∪ seenParents)) (Parents revision) (∅ : gset string);;
  Ok tt.

(** The recursive closure [visit] of [ValidateRevisions] with its two maps
    [visiting] and [visited].  The recursion adds a key of the ledger to
    [visiting] at every level, so the number of revisions plus one is enough
    fuel ([visit_fuel] below).
    internal/credential/policy.go:142-161 [visit] *)
Fixpoint visit (fuel : nat) (byID : gmap string CredentialMetadata)
    (maps : gset string * gset string) (id : string) :
    result cred_error (gset string * gset string) :=
  match fuel with
  | O => Err OutOfFuel
  | S fuel' =>
      let '(visiting, visited) := maps in
      if seen id visiting then Err (RevisionCycle id)
      else if seen id visited then Ok (visiting, visited)
      else
        '(visiting, visited) ←
          for_range (visit fuel' byID) (Parents (get_default zero_metadata id byID))
            ({[id]} ∪ visiting, visited);
        Ok (visiting ∖ {[id]}, {[id]} ∪ visited)
  end.

(** internal/credential/policy.go:576-586 [validateActorCounters] *)
Definition counter_key (revision : CredentialMetadata) : string :=
  ActorID revision +:+ "/" +:+ pretty (ActorCounter revision).

Definition validateActorCounters (revisions : list CredentialMetadata) : result cred_error unit :=
  for_range (λ known revision,
    refuse (match known !! counter_key revision with
            | Some previous => negb (bool_decide (previous = RevisionID revision))
            | None => false
            end) (ReusedCounter (ActorID revision) (ActorCounter revision));;
    Ok (<[counter_key revision := RevisionID revision]> known))
    revisions (∅ : gmap string string);;
  Ok tt.

(** internal/credential/policy.go:588-618 [validateAssignment] *)
Definition validateAssignment (byID : gmap string CredentialMetadata)
    (revision : CredentialMetadata) : result cred_error unit :=
  let id := RevisionID revision in
  if negb (Exclusive revision) then
    refuse (negb (bool_decide (AuthorityHost revision = "")) ||
            negb (bool_decide (AssignedYard revision = "")) ||
            negb (AssignmentEpoch revision =? 0)) (NonExclusiveAssignment id)
  else
    refuse (negb (SafeID (AuthorityHost revision)) ||
            negb (validAssignedYard (AssignedYard revision)) ||
            (AssignmentEpoch revision <? 1)) (InvalidAssignment id);;
    refuse (bool_decide (Parents revision = []) &&
            negb (bool_decide (ActorID revision = AuthorityHost revision))) (RootNotByAuthority id);;
    for_each (λ parentID,
      let parent := get_default zero_metadata parentID byID in
      refuse (negb (Exclusive parent) ||
              negb (bool_decide (AuthorityHost parent = AuthorityHost revision)))
        (AuthorityChanged id);;
      let assignmentChanged :=
        negb (bool_decide (AssignedYard parent = AssignedYard revision)) ||
        negb (AssignmentEpoch parent =? AssignmentEpoch revision) in
      refuse (assignmentChanged &&
              (negb (bool_decide (ActorID revision = AuthorityHost revision)) ||
               (AssignmentEpoch revision <=? AssignmentEpoch parent)))
        (UnauthorizedAssignment id)) (Parents revision).

(** internal/credential/policy.go:115-176 [ValidateRevisions].  [order] is the
    order in which Go ranges over the keys of [byID]. *)
Definition ValidateRevisions (order : list string) (revisions : list CredentialMetadata) :
    result cred_error unit :=
  byID ← index_revisions revisions;
  for_each (check_parents byID) revisions;;
  for_range (visit (S (size byID)) byID) order (∅, ∅);;
  validateActorCounters revisions;;
  for_each (validateAssignment byID) revisions.

(** Go may range over a map's keys in any order, each key once. *)
Definition key_order (order : list string) (revisions : list CredentialMetadata) : Prop :=
  order ≡ₚ remove_dups (RevisionID <$> revisions).

(** ** The cycle check

    [visit] is depth-first search.  A key that it marks visited is accessible for
    the parent relation, a reported cycle is a cycle, and the fuel that
    [ValidateRevisions] gives it is never used up. *)

Section visit.
Context (byID : gmap string CredentialMetadata).

(** [p] is a parent of the revision [c]. *)
Definition parent_of (p c : string) : Prop := p ∈ Parents (get_default zero_metadata c byID).

Lemma parent_of_lookup p c : parent_of p c → ∃ r, byID !! c = Some r ∧ p ∈ Parents r.
Proof.
  unfold parent_of, get_default. destruct (byID !! c) as [r|]; simpl; [eauto|].
  by intros ?%elem_of_nil.
Qed.

Lemma visit_sound fuel : ∀ vis visd id vis' visd',
  (∀ x, x ∈ visd → Acc parent_of x) →
  visit fuel byID (vis, visd) id = Ok (vis', visd') →
  visd ⊆ visd' ∧ id ∈ visd' ∧ (∀ x, x ∈ visd' → Acc parent_of x).
Proof.
  induction fuel as [|fuel IH]; intros vis visd id vis' visd' Hacc H; [done|].
  simpl in H. unfold seen in H. case_bool_decide as Hc; [done|].
  case_bool_decide as Hd; [ok_inv; by simplify_eq|].
  apply bind_Ok in H as ([v w] & Hloop & [= <- <-]).
  assert (visd ⊆ w ∧ (∀ p, parent_of p id → p ∈ w) ∧ (∀ x, x ∈ w → Acc parent_of x)) as (Hsub & Hp & Hw).
  { refine (for_range_inv (λ pre st, visd ⊆ st.2 ∧ (∀ p, p ∈ pre → p ∈ st.2) ∧
      (∀ x, x ∈ st.2 → Acc parent_of x)) _ _ _ _ _ _ Hloop).
    - split_and!; [done|by intros ? ?%elem_of_nil|done].
    - intros pre p post [a b] [a' b'] _ (I1 & I2 & I3) Hv. simpl in *.
      apply IH in Hv as (H1 & H2 & H3); [|done]. split_and!; [set_solver| |done]. set_solver. }
  split_and!; [set_solver|set_solver|]. intros x [->%elem_of_singleton|Hx]%elem_of_union; [|by apply Hw].
  constructor. intros p Hpar. by apply Hw, Hp.
Qed.

(** A successful call leaves [visiting] as it found it. *)
Lemma visit_visiting fuel : ∀ vis visd id vis' visd',
  visit fuel byID (vis, visd) id = Ok (vis', visd') → vis' = vis.
Proof.
  induction fuel as [|fuel IH]; intros vis visd id vis' visd' H; [done|].
  simpl in H. unfold seen in H. case_bool_decide as Hc; [done|].
  case_bool_decide as Hd; [ok_inv; by simplify_eq|].
  apply bind_Ok in H as ([v w] & Hloop & [= <- _]).
  assert (v = {[id]} ∪ vis) as ->; [|set_solver].
  refine (for_range_inv (λ _ st, st.1 = {[id]} ∪ vis) _ _ _ _ _ _ Hloop); [done|].
  intros pre p post [a b] [a' b'] _ Ha Hv. simpl in *. by apply IH in Hv as ->.
Qed.

Lemma visit_cycle fuel : ∀ vis visd id c,
  (∀ v, v ∈ vis → tc parent_of id v) →
  visit fuel byID (vis, visd) id = Err (RevisionCycle c) → tc parent_of c c.
Proof.
  induction fuel as [|fuel IH]; intros vis visd id c Hvis H; [done|].
  simpl in H. unfold seen in H. case_bool_decide as Hc; [injection H as <-; by apply Hvis|].
  case_bool_decide as Hd; [done|].
  apply bind_Err in H as [H|([v w] & _ & H)]; [|done].
  assert (∀ l visd, (∀ p, p ∈ l → parent_of p id) →
    for_range (visit fuel byID) l ({[id]} ∪ vis, visd) = Err (RevisionCycle c) →
    tc parent_of c c) as Hloop; [|by eapply Hloop; [|exact H]].
  clear H visd Hd. induction l as [|p l IHl]; intros visd Hl H; [done|]. simpl in H.
  apply bind_Err in H as [H|([a b] & Hp & H)].
  - assert (tc parent_of p id) as Hpi by (apply tc_once, Hl; by left).
    eapply IH; [|exact H]. intros v [->%elem_of_singleton|Hv]%elem_of_union; [done|].
    etrans; [done|]. by apply Hvis.
  - apply visit_visiting in Hp as ->. eapply IHl; [|exact H]. intros q Hq. apply Hl. by right.
Qed.

Lemma visit_fuel fuel : ∀ vis visd id,
  (∀ c p, c ∈ dom byID → parent_of p c → p ∈ dom byID) →
  id ∈ dom byID → vis ⊆ dom byID → (size (dom byID) < fuel + size vis)%nat →
  visit fuel byID (vis, visd) id ≠ Err OutOfFuel.
Proof.
  induction fuel as [|fuel IH]; intros vis visd id Hcl Hid Hvis Hf H.
  { apply subseteq_size in Hvis. lia. }
  simpl in H. unfold seen in H. case_bool_decide as Hc; [done|].
  case_bool_decide as Hd; [done|].
  apply bind_Err in H as [H|([v w] & _ & H)]; [|done].
  assert (∀ l visd, (∀ p, p ∈ l → parent_of p id) →
    for_range (visit fuel byID) l ({[id]} ∪ vis, visd) ≠ Err OutOfFuel) as Hloop;
    [|by eapply Hloop; [|exact H]].
  clear H visd Hd. induction l as [|p l IHl]; intros visd Hl H; [done|]. simpl in H.
  apply bind_Err in H as [H|([a b] & Hp & H)].
  - eapply IH in H; [done|done| |set_solver|].
    + eapply Hcl; [done|]. apply Hl. by left.
    + rewrite size_union, size_singleton by set_solver. lia.
  - apply visit_visiting in Hp as ->. eapply IHl; [|exact H]. intros q Hq. apply Hl. by right.
Qed.

Lemma visit_errors fuel : ∀ maps id e,
  visit fuel byID maps id = Err e → e = OutOfFuel ∨ ∃ c, e = RevisionCycle c.
Proof.
  induction fuel as [|fuel IH]; intros [vis visd] id e H; [by left; injection H as <-|].
  simpl in H. case_match; [by right; injection H as <-; eauto|]. case_match; [done|].
  apply bind_Err in H as [H|([v w] & _ & H)]; [|done].
  revert H. generalize ({[id]} ∪ vis, visd). generalize (Parents (get_default zero_metadata id byID)).
  induction l as [|p l IHl]; intros st H; [done|]. simpl in H.
  apply bind_Err in H as [H|(st' & _ & H)]; [by eapply IH|by eapply IHl].
Qed.

(** The search over a closed ledger fails exactly on a cycle. *)
Lemma search_spec order :
  (∀ c p, c ∈ dom byID → parent_of p c → p ∈ dom byID) →
  (∀ k, k ∈ order ↔ k ∈ dom byID) →
  is_ok (for_range (visit (S (size byID)) byID) order (∅, ∅)) = true ↔ well_founded parent_of.
Proof.
  intros Hcl Hord. split.
  - intros ([v w] & Hrun)%is_ok_spec.
    assert ((∀ p, p ∈ order → p ∈ w) ∧ (∀ x, x ∈ w → Acc parent_of x)) as (Hp & Hw).
    { refine (for_range_inv (λ pre st, (∀ p, p ∈ pre → p ∈ st.2) ∧
        (∀ x, x ∈ st.2 → Acc parent_of x)) _ _ _ _ _ _ Hrun).
      - split; [by intros ? ?%elem_of_nil|set_solver].
      - intros pre p post [a b] [a' b'] _ (I1 & I2) Hv. cbn [fst snd] in *.
        apply visit_sound in Hv as (H1 & H2 & H3); [|done]. split; [set_solver|done]. }
    intros x. constructor. intros p Hpx. apply Hw, Hp, Hord. eapply Hcl; [|exact Hpx].
    apply parent_of_lookup in Hpx as (r & Hr & _). by apply elem_of_dom_2 in Hr.
  - intros Hwf. apply is_ok_spec.
    cut (∃ s, for_range (visit (S (size byID)) byID) order (∅, ∅) = Ok s ∧ s.1 = ∅);
      [naive_solver|].
    apply (for_range_total (λ _ st, st.1 = ∅)); [done|].
    intros pre p post [a b] Hpre Ha. simpl in Ha. subst a.
    destruct (visit _ _ _ p) as [[a' b']|e] eqn:Hv.
    + exists (a', b'). split; [done|]. by apply visit_visiting in Hv.
    + exfalso. assert (p ∈ dom byID) as Hp.
      { apply Hord. rewrite Hpre. set_solver. }
      destruct (visit_errors _ _ _ _ Hv) as [->|[c ->]].
      * eapply visit_fuel; [done|done| | |exact Hv]; [set_solver|].
        rewrite size_dom, size_empty. lia.
      * apply visit_cycle in Hv; [|set_solver]. by apply (Acc_no_cycle parent_of c).
Qed.
End visit.

#[global] Arguments visit : simpl never.

(** ** The ledger specification *)

(** [byID] indexes the revisions by their ID. *)
Definition indexes (byID : gmap string CredentialMetadata) (revs : list CredentialMetadata) : Prop :=
  ∀ k r, byID !! k = Some r ↔ r ∈ revs ∧ RevisionID r = k.

Lemma indexes_unique byID revs q r :
  indexes byID revs → q ∈ revs → r ∈ revs → RevisionID q = RevisionID r → q = r.
Proof.
  intros Hix Hq Hr Heq. assert (byID !! RevisionID r = Some q) as H1 by (apply Hix; auto).
  assert (byID !! RevisionID r = Some r) as H2 by (apply Hix; auto). congruence.
Qed.

Lemma index_revisions_Ok revs byID :
  index_revisions revs = Ok byID →
  (∀ r, r ∈ revs → validateMetadata r = Ok tt) ∧ NoDup (RevisionID <$> revs) ∧ indexes byID revs.
Proof.
  intros H. refine (for_range_inv (λ pre m, (∀ r, r ∈ pre → validateMetadata r = Ok tt) ∧
    NoDup (RevisionID <$> pre) ∧ indexes m pre) _ _ _ _ _ _ H).
  - split_and!; [by intros ? ?%elem_of_nil|constructor|].
    intros k r. rewrite lookup_empty. split; [done|]. intros [?%elem_of_nil _]. done.
  - intros pre r post m m' _ (I1 & I2 & I3) Hr. ok_bools.
    apply eq_None_not_Some in Hr1. split_and!.
    + intros q [Hq| ->%list_elem_of_singleton]%elem_of_app; [by apply I1|done].
    + rewrite fmap_app. apply NoDup_app. split_and!; [done| |apply NoDup_singleton].
      intros k (q & -> & Hq)%list_elem_of_fmap Hk. apply list_elem_of_singleton in Hk.
      assert (m !! RevisionID r = Some q) by (by apply I3). congruence.
    + intros k q. rewrite lookup_insert, elem_of_app, list_elem_of_singleton. case_decide as Hk.
      * split; [intros [= <-]; auto|]. intros [[Hq| ->] Hq']; [|done].
        assert (m !! k = Some q) by (by apply I3). congruence.
      * rewrite (I3 k q). split; [naive_solver|]. intros [[?| ->] ?]; [done|congruence].
Qed.

Lemma index_revisions_total revs :
  (∀ r, r ∈ revs → validateMetadata r = Ok tt) → NoDup (RevisionID <$> revs) →
  ∃ byID, index_revisions revs = Ok byID ∧ indexes byID revs.
Proof.
  intros Hv Hnd. cut (∃ byID, index_revisions revs = Ok byID ∧ dom byID = list_to_set (RevisionID <$> revs)).
  { intros (m & Hm & _). exists m. split; [done|]. by apply index_revisions_Ok in Hm as (_&_&?). }
  apply (for_range_total (λ pre m, dom m = list_to_set (RevisionID <$> pre))); [done|].
  intros pre r post m Hrevs Hm. exists (<[RevisionID r := r]> m).
  rewrite Hv by (rewrite Hrevs; set_solver). simpl.
  rewrite Hrevs, fmap_app in Hnd. csimpl in Hnd. apply NoDup_app in Hnd as (_ & Hnd & _).
  rewrite bool_decide_eq_false_2; simpl.
  - split; [done|]. rewrite dom_insert_L, Hm, fmap_app, list_to_set_app_L. set_solver.
  - rewrite <-elem_of_dom, Hm, elem_of_list_to_set. intros Hin. apply (Hnd _ Hin). by left.
Qed.

(** Revisions have distinct known parents of the same credential. *)
Definition parents_ok (revs : list CredentialMetadata) (r : CredentialMetadata) : Prop :=
  NoDup (Parents r) ∧
  ∀ p, p ∈ Parents r → ∃ q, q ∈ revs ∧ RevisionID q = p ∧ CredentialID q = CredentialID r.

Lemma check_parents_Ok byID revs r u :
  indexes byID revs → check_parents byID r = Ok u ↔ parents_ok revs r.
Proof.
  intros Hix. destruct u. unfold check_parents, parents_ok. split.
  - intros H. ok_inv.
    match goal with Hf : for_range _ _ _ = Ok _ |- _ => rename Hf into Hloop end.
    match type of Hloop with _ = Ok ?st =>
      cut (NoDup (Parents r) ∧ (∀ p, p ∈ Parents r → ∃ q, q ∈ revs ∧ RevisionID q = p ∧
        CredentialID q = CredentialID r) ∧ st = list_to_set (Parents r)); [tauto|] end.
    refine (for_range_inv (λ pre st, NoDup pre ∧ (∀ p, p ∈ pre → ∃ q, q ∈ revs ∧ RevisionID q = p ∧
        CredentialID q = CredentialID r) ∧ st = list_to_set pre) _ _ _ _ _ _ Hloop).
    + split_and!; [constructor|by intros ? ?%elem_of_nil|done].
    + intros pre p post st st' _ (I1 & I2 & ->) Hp. unfold seen in Hp. ok_bools.
      rewrite elem_of_list_to_set in *. split_and!.
      * apply NoDup_app. split_and!; [done| |apply NoDup_singleton]. set_solver.
      * intros p' [Hp'| ->%list_elem_of_singleton]%elem_of_app; [by apply I2|].
        apply Hix in Hp1 as [? ?]. naive_solver.
      * rewrite list_to_set_app_L. set_solver.
  - intros [Hnd Hp].
    cut (∃ st : gset string, for_range (λ seenParents parentID,
      refuse (seen parentID seenParents) (DuplicateParent (RevisionID r) parentID);;
      parent ← expect (byID !! parentID) (UnknownParent (RevisionID r) parentID);
      refuse (negb (bool_decide (CredentialID parent = CredentialID r)))
        (CrossesHistories (RevisionID r));;
      Ok ({[parentID]} ∪ seenParents)) (Parents r) ∅ = Ok st ∧ st = list_to_set (Parents r)).
    { intros (st & -> & _). done. }
    apply (for_range_total (λ pre st, st = list_to_set pre)); [done|].
    intros pre p post st Hpre ->. exists ({[p]} ∪ list_to_set pre).
    destruct (Hp p) as (q & Hq & Hqp & Hqc); [rewrite Hpre; set_solver|].
    assert (byID !! p = Some q) as -> by (apply Hix; auto). unfold seen.
    rewrite Hpre in Hnd. apply NoDup_app in Hnd as (_ & Hnd & _).
    rewrite bool_decide_eq_false_2; [|rewrite elem_of_list_to_set; intros Hin; apply (Hnd _ Hin); by left].
    simpl. rewrite bool_decide_eq_true_2 by done. simpl. split; [done|].
    rewrite list_to_set_app_L. set_solver.
Qed.

(** Assignments of exclusive credentials: the authority is fixed by the root and
    only the authority moves the assignment, to a later epoch. *)
Definition assignment_ok (revs : list CredentialMetadata) (r : CredentialMetadata) : Prop :=
  if Exclusive r then
    SafeID (AuthorityHost r) = true ∧ validAssignedYard (AssignedYard r) = true ∧
    1 ≤ AssignmentEpoch r ∧ (Parents r = [] → ActorID r = AuthorityHost r) ∧
    ∀ q, q ∈ revs → RevisionID q ∈ Parents r →
      Exclusive q = true ∧ AuthorityHost q = AuthorityHost r ∧
      (AssignedYard q = AssignedYard r ∧ AssignmentEpoch q = AssignmentEpoch r ∨
       ActorID r = AuthorityHost r ∧ AssignmentEpoch q < AssignmentEpoch r)
  else AuthorityHost r = "" ∧ AssignedYard r = "" ∧ AssignmentEpoch r = 0.

Lemma validateAssignment_Ok byID revs r u :
  indexes byID revs → parents_ok revs r →
  validateAssignment byID r = Ok u ↔ assignment_ok revs r.
Proof.
  intros Hix [_ Hp]. destruct u. unfold validateAssignment, assignment_ok. cbv zeta.
  destruct (Exclusive r); simpl.
  2:{ rewrite refuse_Ok. bools. naive_solver. }
  rewrite bind_Ok. setoid_rewrite bind_Ok. setoid_rewrite refuse_Ok. setoid_rewrite for_each_Ok.
  setoid_rewrite bind_Ok. setoid_rewrite refuse_Ok.
  assert (∀ q, q ∈ revs → get_default zero_metadata (RevisionID q) byID = q) as Hget.
  { intros q Hq. unfold get_default. by rewrite (proj2 (Hix _ q)). }
  split.
  - intros ([] & G1 & [] & G2 & G3). bools. split_and!; [done|done|lia|naive_solver|].
    intros q Hq Hqp. destruct (G3 _ Hqp) as ([] & G4 & G5). rewrite Hget in G4, G5 by done.
    apply andb_false_iff in G5. bools. split_and!; [done|done|].
    destruct G5 as [G5|G5]; bools; [left; naive_solver|right].
    split; [naive_solver|lia].
  - intros (H1 & H2 & H3 & H4 & H5). exists tt. split; [bools; naive_solver lia|].
    exists tt. split; [bools; destruct (decide (Parents r = [])); auto|]. intros p Hpp. exists tt.
    destruct (Hp p Hpp) as (q & Hq & <- & _). rewrite Hget by done.
    destruct (H5 q Hq Hpp) as (-> & -> & Hd). split; [bools; naive_solver|].
    bools. destruct Hd as [[-> ->]|[? ?]]; [naive_solver|]. right. split; [naive_solver|lia].
Qed.

(** Two revisions share a counter key exactly when they share the actor and the
    counter. *)
Lemma counter_key_inj q r :
  SafeID (ActorID q) = true → SafeID (ActorID r) = true →
  counter_key q = counter_key r → ActorID q = ActorID r ∧ ActorCounter q = ActorCounter r.
Proof.
  unfold counter_key. intros Hq%SafeID_no_slash Hr%SafeID_no_slash Heq.
  assert (Cut (counter_key q) "/" = Some (ActorID q, pretty (ActorCounter q))) as H1.
  { apply Cut_Some. by split. }
  assert (Cut (counter_key r) "/" = Some (ActorID r, pretty (ActorCounter r))) as H2.
  { apply Cut_Some. by split. }
  unfold counter_key in *. rewrite Heq in H1. rewrite H1 in H2. injection H2 as Ha Hc.
  split; [done|]. by apply (inj pretty).
Qed.

Lemma validateActorCounters_Ok revs u :
  validateActorCounters revs = Ok u ↔
  ∀ q r, q ∈ revs → r ∈ revs → counter_key q = counter_key r → RevisionID q = RevisionID r.
Proof.
  destruct u. unfold validateActorCounters. rewrite bind_Ok. split.
  - intros (m & H & _).
    cut ((∀ q r, q ∈ revs → r ∈ revs → counter_key q = counter_key r → RevisionID q = RevisionID r) ∧
         (∀ q, q ∈ revs → m !! counter_key q = Some (RevisionID q))); [tauto|].
    refine (for_range_inv (λ pre m,
      (∀ q r, q ∈ pre → r ∈ pre → counter_key q = counter_key r → RevisionID q = RevisionID r) ∧
      (∀ q, q ∈ pre → m !! counter_key q = Some (RevisionID q))) _ _ _ _ _ _ H).
    + split; [by intros ?? ?%elem_of_nil|by intros ? ?%elem_of_nil].
    + intros pre x post m0 m1 _ (I1 & I2) Hx. ok_inv. subst.
      assert (∀ q, q ∈ pre → counter_key q = counter_key x → RevisionID q = RevisionID x) as Hnew.
      { intros q Hq Hk. rewrite <-Hk, I2 in Hx0 by done. by bools. }
      split.
      * intros q r [Hq| ->%list_elem_of_singleton]%elem_of_app [Hr| ->%list_elem_of_singleton]%elem_of_app Hk;
          [by apply I1|by apply Hnew|symmetry; by apply Hnew|done].
      * intros q Hq. rewrite lookup_insert. case_decide as Hk.
        -- apply elem_of_app in Hq as [Hq| ->%list_elem_of_singleton]; [|done].
           f_equal. symmetry. by apply Hnew.
        -- apply elem_of_app in Hq as [Hq| ->%list_elem_of_singleton]; [by apply I2|done].
  - intros Hu.
    cut (∃ m : gmap string string, for_range (λ known revision,
      refuse (match known !! counter_key revision with
              | Some previous => negb (bool_decide (previous = RevisionID revision))
              | None => false
              end) (ReusedCounter (ActorID revision) (ActorCounter revision));;
      Ok (<[counter_key revision := RevisionID revision]> known)) revs ∅ = Ok m ∧
      ∀ k id, m !! k = Some id → ∃ q, q ∈ revs ∧ counter_key q = k ∧ RevisionID q = id); [naive_solver|].
    apply (for_range_total (λ pre m, ∀ k id, m !! k = Some id →
      ∃ q, q ∈ pre ∧ counter_key q = k ∧ RevisionID q = id)).
    { intros k id. by rewrite lookup_empty. }
    intros pre x post m Hrevs Hm. exists (<[counter_key x := RevisionID x]> m). split.
    + destruct (m !! counter_key x) as [id|] eqn:Hl; simpl; [|done].
      destruct (Hm _ _ Hl) as (q & Hq & Hk & <-).
      rewrite bool_decide_eq_true_2; [done|]. apply Hu; [subst; set_solver..|done].
    + intros k id. rewrite lookup_insert. case_decide; [intros [= <-]; set_solver|].
      intros (q & ? & ?)%Hm. set_solver.
Qed.

(** [p] is a parent of [c] in the ledger. *)
Definition parent_in (revs : list CredentialMetadata) (p c : string) : Prop :=
  ∃ r, r ∈ revs ∧ RevisionID r = c ∧ p ∈ Parents r.

Lemma parent_of_in byID revs p c : indexes byID revs → parent_of byID p c ↔ parent_in revs p c.
Proof.
  intros Hix. split.
  - intros (r & Hr & Hp)%parent_of_lookup. apply Hix in Hr as [? ?]. by exists r.
  - intros (r & Hr & Hc & Hp). unfold parent_of, get_default.
    by rewrite (proj2 (Hix c r)).
Qed.

(** What a valid ledger is, independently of how it is checked. *)
Record valid_ledger (revs : list CredentialMetadata) : Prop := {
  ledger_metadata r : r ∈ revs → validateMetadata r = Ok tt;
  ledger_ids : NoDup (RevisionID <$> revs);
  ledger_parents r : r ∈ revs → parents_ok revs r;
  ledger_acyclic : well_founded (parent_in revs);
  ledger_counters q r : q ∈ revs → r ∈ revs → ActorID q = ActorID r →
    ActorCounter q = ActorCounter r → RevisionID q = RevisionID r;
  ledger_assignments r : r ∈ revs → assignment_ok revs r;
}.

Lemma validateMetadata_actor r : validateMetadata r = Ok tt → SafeID (ActorID r) = true.
Proof. unfold validateMetadata. intros H. ok_bools. done. Qed.

Lemma search_ledger byID revs order :
  indexes byID revs → NoDup (RevisionID <$> revs) → key_order order revs →
  (∀ r, r ∈ revs → parents_ok revs r) →
  is_ok (for_range (visit (S (size byID)) byID) order (∅, ∅)) = true ↔
  well_founded (parent_in revs).
Proof.
  intros Hix Hnd Ho Hp.
  assert (∀ k, k ∈ order ↔ k ∈ dom byID) as Hdom.
  { intros k. unfold key_order in Ho. rewrite Ho, elem_of_remove_dups, list_elem_of_fmap, elem_of_dom.
    split; [intros (r & -> & Hr); exists r; by apply Hix|].
    intros [r Hr]. apply Hix in Hr as [? ?]. by exists r. }
  rewrite search_spec; [|intros c p _ Hpar|done].
  - unfold well_founded. split; intros Hwf x; specialize (Hwf x);
      induction Hwf as [x _ IH]; constructor; intros y Hy; apply IH.
    + by apply (parent_of_in byID revs y x Hix).
    + by apply (parent_of_in byID revs y x Hix).
  - apply (parent_of_in byID revs p c Hix) in Hpar as (r & Hr & _ & Hin).
    destruct (Hp r Hr) as [_ Hq]. destruct (Hq p Hin) as (q & Hq' & <- & _).
    apply elem_of_dom. exists q. by apply Hix.
Qed.

Lemma ValidateRevisions_Ok order revs :
  key_order order revs → ValidateRevisions order revs = Ok tt ↔ valid_ledger revs.
Proof.
  intros Ho. unfold ValidateRevisions. split.
  - intros H. ok_inv.
    match goal with Hi : index_revisions _ = Ok _ |- _ =>
      apply index_revisions_Ok in Hi as (Hv & Hnd & Hix) end.
    repeat match goal with Hf : for_each _ _ = Ok _ |- _ => rewrite for_each_Ok in Hf end.
    match goal with Hc : validateActorCounters _ = Ok _ |- _ => rewrite validateActorCounters_Ok in Hc end.
    assert (∀ r, r ∈ revs → parents_ok revs r) as Hpar.
    { intros r Hr. eapply check_parents_Ok; eauto. }
    split; [done..| | |].
    + eapply search_ledger; [done..|]. apply is_ok_spec. eauto.
    + intros q r Hq Hr Ha Hc.
      match goal with Hk : ∀ _ _, _ → _ → counter_key _ = counter_key _ → _ |- _ => apply Hk end;
        [done..|]. unfold counter_key. by rewrite Ha, Hc.
    + intros r Hr. eapply validateAssignment_Ok; eauto.
  - intros [Hv Hnd Hp Hwf Hc Ha].
    destruct (index_revisions_total revs Hv Hnd) as (byID & -> & Hix). simpl.
    rewrite (for_each_total (check_parents byID)) by (intros r Hr; eapply check_parents_Ok; eauto).
    simpl.
    apply (search_ledger byID revs order) in Hwf as Hs; [|done..].
    apply is_ok_spec in Hs as [st ->]. simpl.
    rewrite (proj2 (validateActorCounters_Ok revs tt)).
    + simpl. apply for_each_total. intros r Hr. eapply validateAssignment_Ok; eauto.
    + intros q r Hq Hr Hk. apply counter_key_inj in Hk as [? ?]; eauto using validateMetadata_actor.
Qed.

(** ** Ancestry

    [parent_rev] is the parent relation on the revisions of a ledger; ancestors
    are its reflexive transitive closure. *)

Definition parent_rev (revs : list CredentialMetadata) (p c : CredentialMetadata) : Prop :=
  p ∈ revs ∧ c ∈ revs ∧ RevisionID p ∈ Parents c.

Definition ancestor (revs : list CredentialMetadata) : relation CredentialMetadata :=
  rtc (parent_rev revs).

Section ancestry.
Context (revs : list CredentialMetadata) (Hled : valid_ledger revs).

Lemma parent_rev_credential p c : parent_rev revs p c → CredentialID p = CredentialID c.
Proof.
  intros (Hp & Hc & Hin). destruct (ledger_parents _ Hled c Hc) as [_ Hpar].
  destruct (Hpar _ Hin) as (q & Hq & Hid & <-).
  assert (q = p) as ->; [|done].
  pose proof (ledger_ids _ Hled) as Hnd. destruct (index_revisions_total revs) as (byID & _ & Hix);
    [by apply Hled|done|]. by eapply indexes_unique.
Qed.

Lemma ancestor_credential a r : ancestor revs a r → CredentialID a = CredentialID r.
Proof. induction 1 as [|a b c Hab _ IH]; [done|]. by rewrite <-IH; apply parent_rev_credential. Qed.

(** One step up from an exclusive revision. *)
Lemma parent_exclusive p c :
  parent_rev revs p c → Exclusive c = true →
  Exclusive p = true ∧ AuthorityHost p = AuthorityHost c ∧
  (AssignedYard p = AssignedYard c ∧ AssignmentEpoch p = AssignmentEpoch c ∨
   ActorID c = AuthorityHost c ∧ AssignmentEpoch p < AssignmentEpoch c).
Proof.
  intros (Hp & Hc & Hin) Hex. pose proof (ledger_assignments _ Hled c Hc) as Ha.
  unfold assignment_ok in Ha. rewrite Hex in Ha. destruct Ha as (_ & _ & _ & _ & Ha). by apply Ha.
Qed.

Lemma ancestor_exclusive a r :
  ancestor revs a r → Exclusive r = true →
  Exclusive a = true ∧ AuthorityHost a = AuthorityHost r ∧
  (AssignedYard a = AssignedYard r ∧ AssignmentEpoch a = AssignmentEpoch r ∨
   AssignmentEpoch a < AssignmentEpoch r ∧
   ∃ p m, ancestor revs a p ∧ parent_rev revs p m ∧ ancestor revs m r ∧
     ActorID m = AuthorityHost r ∧ AssignmentEpoch p < AssignmentEpoch m).
Proof.
  induction 1 as [|a b r Hab Hbr IH]; intros Hex; [naive_solver|].
  destruct (IH Hex) as (Hb & Hauth & Hrest). destruct (parent_exclusive a b Hab Hb) as (Ha & Hab' & Hstep).
  split_and!; [done|congruence|].
  destruct Hstep as [[Hy He]|[Hact Hlt]].
  - destruct Hrest as [[? ?]|(Hlt & p & m & Hp & ?)]; [left; split; congruence|right].
    split; [lia|]. exists p, m. split; [|done]. by eapply rtc_l.
  - right. split; [destruct Hrest as [[? ?]|[? _]]; lia|].
    exists a, b. split_and!; [done..|congruence|done].
Qed.

(** Every revision descends from a root of its credential. *)
Lemma root_ancestor r : r ∈ revs → ∃ a, ancestor revs a r ∧ a ∈ revs ∧ Parents a = [].
Proof.
  intros Hr. remember (RevisionID r) as k eqn:Hk. revert r Hr Hk.
  induction (ledger_acyclic _ Hled k) as [k _ IH]; intros r Hr ->.
  destruct (Parents r) as [|p l] eqn:Hp; [by exists r|].
  destruct (ledger_parents _ Hled r Hr) as [_ Hpar].
  destruct (Hpar p) as (q & Hq & <- & _); [rewrite Hp; by left|].
  destruct (IH (RevisionID q)) with (r := q) as (a & Ha & Hroot); [|done|done|].
  - exists r. split_and!; [done..|]. rewrite Hp. by left.
  - exists a. split; [|done]. eapply rtc_r; [done|]. split_and!; [done..|]. rewrite Hp. by left.
Qed.

Lemma root_exclusive a : a ∈ revs → Parents a = [] → Exclusive a = true → ActorID a = AuthorityHost a.
Proof.
  intros Ha Hp Hex. pose proof (ledger_assignments _ Hled a Ha) as H.
  unfold assignment_ok in H. rewrite Hex in H. naive_solver.
Qed.
End ancestry.

(** ** A concrete ledger

    Two exclusive revisions: a root by the authority [host-a] and its
    reassignment, and a non-exclusive credential with two heads. *)

Definition sample_revision (cred id : string) (parents : list string) : CredentialMetadata :=
  mkMetadata 1 cred id parents "deploy key" "ssh" "web" "staging" "git" "active" ["host-a"]
    false true "" "" 0 "host-a" 1 1.

Definition sample_root : CredentialMetadata :=
  sample_revision "cred-00000000000000000000000000000001" "host-a-000000000001-0000000a" []
    <| Exclusive := true |> <| AuthorityHost := "host-a" |> <| AssignedYard := "host-a/main" |>
    <| AssignmentEpoch := 1 |>.

Definition sample_moved : CredentialMetadata :=
  sample_root <| RevisionID := "host-a-000000000002-0000000b" |>
    <| Parents := ["host-a-000000000001-0000000a"] |> <| ActorCounter := 2 |>
    <| AssignedYard := "host-b/main" |> <| AssignmentEpoch := 2 |>.

Definition sample_ledger : list CredentialMetadata := [sample_moved; sample_root].

Definition sample_order : list string := RevisionID <$> sample_ledger.

(** ** Claims *)

(** C4: [ValidateRevisions] decides the ledger specification: whatever order Go
    ranges over the index map in, it returns no error exactly when every
    revision is well formed, IDs are unique, parents are known, distinct and of
    the same credential, the parent graph has no cycle, no actor reused a
    counter, and every exclusive assignment was made by its authority at a later
    epoch. *)
Theorem ValidateRevisions_spec order revs :
  key_order order revs → ValidateRevisions order revs = Ok tt ↔ valid_ledger revs.
Proof. apply ValidateRevisions_Ok. Qed.

Lemma ValidateRevisions_spec_witness :
  key_order sample_order sample_ledger ∧ valid_ledger sample_ledger.
Proof.
  assert (key_order sample_order sample_ledger) as Ho by (by vm_compute).
  split; [exact Ho|]. apply (ValidateRevisions_spec sample_order); [exact Ho|]. by vm_compute.
Defined.

(** in a ledger that [ValidateRevisions] accepts, the authority of an
    exclusive credential cannot be taken over.  Every ancestor of an exclusive
    revision is exclusive with the same authority and belongs to the same
    credential, the assignment epoch never decreases along the history, an
    assignment that differs from an ancestor's was moved by a revision of the
    authority itself, and the history starts at a root that the authority
    created. *)
Theorem exclusive_authority order revs r :
  key_order order revs → ValidateRevisions order revs = Ok tt → r ∈ revs → Exclusive r = true →
  (∀ a, ancestor revs a r →
     CredentialID a = CredentialID r ∧ Exclusive a = true ∧ AuthorityHost a = AuthorityHost r ∧
     (AssignedYard a = AssignedYard r ∧ AssignmentEpoch a = AssignmentEpoch r ∨
      AssignmentEpoch a < AssignmentEpoch r ∧
      ∃ p m, ancestor revs a p ∧ parent_rev revs p m ∧ ancestor revs m r ∧
        ActorID m = AuthorityHost r ∧ AssignmentEpoch p < AssignmentEpoch m)) ∧
  ∃ root, ancestor revs root r ∧ Parents root = [] ∧ ActorID root = AuthorityHost r.
Proof.
  intros Ho Hled%ValidateRevisions_Ok Hr Hex; [|done]. split.
  - intros a Ha. split; [by apply (ancestor_credential revs)|]. by apply ancestor_exclusive.
  - destruct (root_ancestor revs Hled r Hr) as (a & Ha & Hin & Hroot). exists a.
    destruct (ancestor_exclusive revs Hled a r Ha Hex) as (Hae & Hauth & _).
    split_and!; [done..|]. rewrite <-Hauth. by apply (root_exclusive revs).
Qed.

Lemma exclusive_authority_witness :
  ∃ root, ancestor sample_ledger root sample_moved ∧ Parents root = [] ∧ ActorID root = "host-a".
Proof.
  apply (exclusive_authority sample_order sample_ledger sample_moved);
    [by vm_compute|by vm_compute|by left|done].
Defined.
