(* ===== verification/CredentialHeads.v ===== *)
(** * Heads of a credential ledger

    The rest of the ledger side of internal/credential/policy.go: merging
    incoming revisions, the heads of a credential, the merge decision on them,
    the summary of a ledger and the recipient operations.  Go ranges over its
    maps in an arbitrary order: where the order can show in the result it is an
    argument, where the loop is followed by a sort it is [map_to_list]. *)

From S2P Require Import Prelude GoStrings GoSort Names Credential.

(** ** Operations *)

(** The merge loop of [ValidateIncomingRevisions].
    internal/credential/policy.go:181-190 [ValidateIncomingRevisions, merge] *)
Definition merge_revisions (revisions : list CredentialMetadata) :
    result cred_error (gmap string CredentialMetadata) :=
  for_range (λ byID revision,
    match byID !! RevisionID revision with
    | Some previous =>
        refuse (negb (metadataEqual previous revision)) (ChangedMetadata (RevisionID revision));;
        Ok byID
    | None => Ok (<[RevisionID revision := revision]> byID)
    end) revisions ∅.

(** internal/credential/policy.go:181-205 [ValidateIncomingRevisions].
    [values] is the key order of the loop that builds [combined] and [order] the
    one of the loop inside [ValidateRevisions]. *)
Definition ValidateIncomingRevisions (values order : list string)
    (incoming existing : list CredentialMetadata) : result cred_error unit :=
  byID ← merge_revisions (existing ++ incoming);
  let combined := omap (λ id, byID !! id) values in
  ValidateRevisions order combined;;
  for_each (λ revision,
    refuse (negb (Syncable revision)) (LocalOnly (RevisionID revision))) incoming.

(** The order of [sort.Slice] in [Heads].
    internal/credential/policy.go:226-234 [Heads, less] *)
Definition head_less (left right : CredentialMetadata) : bool :=
  if negb (bool_decide (ActorID left = ActorID right)) then string_lt (ActorID left) (ActorID right)
  else if negb (ActorCounter left =? ActorCounter right) then ActorCounter left <? ActorCounter right
  else string_lt (RevisionID left) (RevisionID right).

Definition head_le : relation CredentialMetadata := λ left right, head_less right left = false.

#[export] Instance head_le_dec : RelDecision head_le.
Proof. intros x y. unfold head_le. apply _. Defined.

(** internal/credential/policy.go:207-236 [Heads] *)
Definition Heads (revisions : list CredentialMetadata) (credential : string) :
    list CredentialMetadata :=
  let parents : gset string :=
    foldl (λ parents revision,
      if negb (bool_decide (CredentialID revision = credential)) then parents
      else foldl (λ parents parent, {[parent]} ∪ parents) parents (Parents revision)) ∅ revisions in
  let heads :=
    foldl (λ heads revision,
      if negb (bool_decide (CredentialID revision = credential)) then heads
      else if negb (seen (RevisionID revision) parents) then heads ++ [revision]
      else heads) [] revisions in
  sort_by head_le heads.

(** internal/credential/policy.go:637-656 [recipientIntersection] *)
Definition count_recipients (counts : gmap string Z) (head : CredentialMetadata) : gmap string Z :=
  (foldl (λ '(counts, known) actor,
     if seen actor known then (counts, known)
     else (<[actor := get_default 0 actor counts + 1]> counts, {[actor]} ∪ known))
     (counts, ∅ : gset string) (RecipientActors head)).1.

Definition recipientIntersection (heads : list CredentialMetadata) : list string :=
  let counts := foldl count_recipients (∅ : gmap string Z) heads in
  sort_strings (filter (λ actor, get_default 0 actor counts = Z.of_nat (length heads))
    ((map_to_list counts).*1)).

(** internal/credential/policy.go:658-668 [compatibleMetadata].  Go indexes
    [heads[0]], which panics on an empty slice; every caller checks for it. *)
Definition compatible_with (first head : CredentialMetadata) : bool :=
  negb (negb (bool_decide (Label head = Label first)) || negb (bool_decide (Kind head = Kind first)) ||
        negb (bool_decide (Zone head = Zone first)) ||
        negb (bool_decide (Consumer head = Consumer first)) ||
        negb (bool_decide (AuthorityHost head = AuthorityHost first)) ||
        negb (bool_decide (AssignedYard head = AssignedYard first)) ||
        negb (AssignmentEpoch head =? AssignmentEpoch first)).

Definition compatibleMetadata (heads : list CredentialMetadata) : bool :=
  match heads with
  | [] => true
  | first :: rest => forallb (compatible_with first) rest
  end.

(** internal/credential/policy.go:670-674 [conflict] *)
Definition conflict (decision : Decision_) (reason : string) : Decision_ :=
  decision <| dec_Conflict := true |> <| dec_Reason := reason |>.

(** The loop of [AnalyzeMetadataHeads] over the heads.
    internal/credential/policy.go:297-303 [AnalyzeMetadataHeads, loop] *)
Definition absorb_head (decision : Decision_) (head : CredentialMetadata) : Decision_ :=
  let decision := decision <| dec_Parents := dec_Parents decision ++ [RevisionID head] |>
    <| dec_Exclusive := dec_Exclusive decision || Exclusive head |> in
  if bool_decide (State head = "tombstone") ||
     (bool_decide (State head = "revoked") && negb (bool_decide (dec_State decision = "tombstone")))
  then decision <| dec_State := State head |> else decision.

(** internal/credential/policy.go:275-318 [AnalyzeMetadataHeads] *)
Definition AnalyzeMetadataHeads (heads : list CredentialMetadata) : result cred_error Decision_ :=
  match heads with
  | [] => Err NoHeads
  | first :: rest =>
      let credentialID := CredentialID first in
      for_each (λ head,
        validateMetadata head;;
        refuse (negb (bool_decide (CredentialID head = credentialID))) DifferentCredentials) heads;;
      let decision := foldl absorb_head
        (mkDecision (bool_decide (rest ≠ [])) false "" (State first) []
           (recipientIntersection heads) false first) heads in
      let decision := decision <| dec_Parents := sort_strings (dec_Parents decision) |> in
      if bool_decide (rest = []) then Ok decision
      else if bool_decide (dec_Recipients decision = []) then
        Ok (conflict decision "heads have no common recipient")
      else if bool_decide (dec_State decision = "revoked") ||
              bool_decide (dec_State decision = "tombstone") then Ok decision
      else if negb (compatibleMetadata heads) then Ok (conflict decision "head metadata differs")
      else Ok decision
  end.

(** The injected [ports.CredentialCrypto]: signature verification and decryption
    of one revision, as the observations they return. *)
Record CredentialCrypto := mkCrypto {
  Verify : CredentialMetadata → result cred_error unit;
  Decrypt : CredentialMetadata → option string;
}.

(** The payload comparison of [AnalyzeHeads].  Go's [expected] is nil until a
    payload was appended to it; appending an empty payload leaves it nil, so the
    empty string is the nil slice.
    internal/credential/policy.go:254-270 [AnalyzeHeads, payloads] *)
Fixpoint compare_payloads (crypto : CredentialCrypto) (decision : Decision_) (expected : string)
    (heads : list CredentialMetadata) : Decision_ :=
  match heads with
  | [] => decision
  | head :: heads =>
      match Decrypt crypto head with
      | None => conflict decision "a head could not be decrypted"
      | Some current =>
          if bool_decide (expected = "") then compare_payloads crypto decision current heads
          else if negb (bool_decide (expected = current)) then
            conflict decision "active head payloads differ"
          else compare_payloads crypto decision expected heads
      end
  end.

(** internal/credential/policy.go:238-273 [AnalyzeHeads]; [MissingCrypto] is the
    error for a nil [crypto] on an active merge. *)
Inductive analyze_error := PolicyError (e : cred_error) | VerifyError (id : string) | MissingCrypto.

Definition AnalyzeHeads (heads : list CredentialMetadata) (crypto : option CredentialCrypto) :
    result analyze_error Decision_ :=
  decision ← map_err PolicyError (AnalyzeMetadataHeads heads);
  match crypto with
  | Some crypto => for_each (λ head, map_err (λ _, VerifyError (RevisionID head)) (Verify crypto head)) heads
  | None => Ok tt
  end;;
  if negb (dec_RequiresMerge decision) || dec_Conflict decision ||
     bool_decide (dec_State decision = "revoked") || bool_decide (dec_State decision = "tombstone")
  then Ok decision
  else match crypto with
       | None => Err MissingCrypto
       | Some crypto => Ok (compare_payloads crypto decision "" heads)
       end.

(** One credential of [Summarize].
    internal/credential/policy.go:332-354 [Summarize, loop body] *)
Definition summarize_credential (revisions : list CredentialMetadata) (credentialID : string) :
    result cred_error CredentialSummary :=
  let heads := Heads revisions credentialID in
  decision ← AnalyzeMetadataHeads heads;
  let headIDs := RevisionID <$> heads in
  let template := dec_Template decision in
  let '(authorityHost, assignedYard, assignmentEpoch) :=
    if dec_Conflict decision then ("", "", 0)
    else (AuthorityHost template, AssignedYard template, AssignmentEpoch template) in
  Ok (mkSummary credentialID (Label template) (Kind template) (Zone template) (Consumer template)
        (dec_State decision) headIDs (dec_RequiresMerge decision) (dec_Conflict decision)
        (dec_Reason decision) (dec_Exclusive decision) authorityHost assignedYard assignmentEpoch
        (Syncable template)).

(** internal/credential/policy.go:320-360 [Summarize].  [order] is the map order
    inside [ValidateRevisions], [ids] the order of the range over
    [credentialIDs]. *)
Definition Summarize (order ids : list string) (revisions : list CredentialMetadata) :
    result cred_error (list CredentialSummary) :=
  if bool_decide (revisions = []) then Ok []
  else
    ValidateRevisions order revisions;;
    summaries ← for_range (λ out credentialID,
      summary ← summarize_credential revisions credentialID; Ok (out ++ [summary])) ids [];
    Ok (sort_by_key sum_CredentialID summaries).

(** internal/credential/policy.go:362-387 [RekeyRecipients] *)
Definition RekeyRecipients (current : list string) (actor : string) (trust : bool) :
    result cred_error (list string) :=
  refuse (negb (SafeID actor)) (InvalidActor actor);;
  set ← for_range (λ set existing,
    refuse (negb (SafeID existing)) (InvalidActor existing);;
    Ok ({[existing]} ∪ set)) current (∅ : gset string);
  let set := if trust then {[actor]} ∪ set else set ∖ {[actor]} in
  refuse (bool_decide (set = ∅)) NoRecipientLeft;;
  Ok (sort_strings (elements set)).

(** internal/credential/policy.go:389-389 [ValidateMetadata] *)
Definition ValidateMetadata (metadata : CredentialMetadata) : result cred_error unit :=
  validateMetadata metadata.

(** internal/credential/policy.go:391-393 [RecipientIntersection] *)
Definition RecipientIntersection (heads : list CredentialMetadata) : list string :=
  recipientIntersection heads.

(** internal/credential/policy.go:395-397 [MetadataCompatible] *)
Definition MetadataCompatible (heads : list CredentialMetadata) : bool :=
  negb (bool_decide (heads = [])) && compatibleMetadata heads.

(** ** The order of heads *)

Lemma head_le_spec x y :
  head_le x y ↔ String.le (ActorID x) (ActorID y) ∧
    (ActorID x = ActorID y → ActorCounter x ≤ ActorCounter y ∧
      (ActorCounter x = ActorCounter y → String.le (RevisionID x) (RevisionID y))).
Proof.
  unfold head_le, head_less. case_bool_decide as Ha; simpl.
  - rewrite Ha. destruct (ActorCounter y =? ActorCounter x) eqn:Hc; simpl; bools.
    + rewrite string_lt_false. rewrite Hc. naive_solver lia.
    + naive_solver lia.
  - rewrite string_lt_false. naive_solver.
Qed.

#[export] Instance head_le_trans : Transitive head_le.
Proof.
  intros x y z. rewrite !head_le_spec. intros [H1 H2] [H3 H4]. split; [by etrans|].
  intros Heq. assert (ActorID x = ActorID y) as Hxy.
  { apply (anti_symm String.le); [done|]. by rewrite Heq. }
  destruct (H2 Hxy) as [H5 H6], (H4 ltac:(congruence)) as [H7 H8]. split; [lia|].
  intros ?. etrans; [apply H6|apply H8]; lia.
Qed.

#[export] Instance head_le_total : Total head_le.
Proof.
  intros x y. rewrite !head_le_spec.
  destruct (decide (ActorID x = ActorID y)) as [Ha|Ha].
  - rewrite Ha. destruct (Z.lt_trichotomy (ActorCounter x) (ActorCounter y)) as [?|[Hc|?]].
    + left. naive_solver lia.
    + rewrite Hc. destruct (total String.le (RevisionID x) (RevisionID y)); [left|right]; naive_solver lia.
    + right. naive_solver lia.
  - destruct (total String.le (ActorID x) (ActorID y)); [left|right]; naive_solver.
Qed.

Lemma head_le_antisymm x y : head_le x y → head_le y x → RevisionID x = RevisionID y.
Proof.
  rewrite !head_le_spec. intros [H1 H2] [H3 H4].
  assert (ActorID x = ActorID y) as Ha by by apply (anti_symm String.le).
  destruct (H2 Ha) as [? H5], (H4 ltac:(done)) as [? H6].
  apply (anti_symm String.le); [apply H5|apply H6]; lia.
Qed.

(** ** Heads *)

(** No revision of [c] names [r] as a parent. *)
Definition childless (revs : list CredentialMetadata) (c : string) (r : CredentialMetadata) : Prop :=
  Forall (λ q, CredentialID q = c → RevisionID r ∉ Parents q) revs.

#[export] Instance childless_dec revs c r : Decision (childless revs c r).
Proof. unfold childless. apply _. Defined.

(** [r] is a head of [c]. *)
Definition is_head (revs : list CredentialMetadata) (c : string) (r : CredentialMetadata) : Prop :=
  CredentialID r = c ∧ childless revs c r.

#[export] Instance is_head_dec revs c r : Decision (is_head revs c r).
Proof. unfold is_head. apply _. Defined.

Section parents.
Context (c : string).

(** The parent set that [Heads] accumulates. *)
Lemma parents_fold l (ps : gset string) p :
  p ∈ foldl (λ parents revision,
      if negb (bool_decide (CredentialID revision = c)) then parents
      else foldl (λ parents parent, {[parent]} ∪ parents) parents (Parents revision)) ps l ↔
  p ∈ ps ∨ ∃ q, q ∈ l ∧ CredentialID q = c ∧ p ∈ Parents q.
Proof.
  assert (∀ l (ps : gset string), p ∈ foldl (λ ps parent, {[parent]} ∪ ps) ps l ↔ p ∈ ps ∨ p ∈ l)
    as Hin. { clear. induction l as [|x l IH]; intros ps; simpl; [set_solver|]. rewrite IH. set_solver. }
  revert ps. induction l as [|x l IH]; intros ps; simpl; [set_solver|]. rewrite IH.
  case_bool_decide; simpl; [rewrite Hin|]; set_solver.
Qed.

(** The head list that [Heads] accumulates. *)
Lemma heads_fold (parents : gset string) revs l acc :
  (∀ p, p ∈ parents ↔ ∃ q, q ∈ revs ∧ CredentialID q = c ∧ p ∈ Parents q) →
  foldl (λ heads revision,
      if negb (bool_decide (CredentialID revision = c)) then heads
      else if negb (seen (RevisionID revision) parents) then heads ++ [revision]
      else heads) acc l = acc ++ filter (is_head revs c) l.
Proof.
  intros Hps. revert acc. induction l as [|x l IH]; intros acc; simpl; [by rewrite app_nil_r|].
  rewrite IH, filter_cons.
  assert (is_head revs c x ↔ CredentialID x = c ∧ RevisionID x ∉ parents) as Hhead.
  { unfold is_head, childless. rewrite Forall_forall, Hps. naive_solver. }
  clear Hps. unfold seen. case_bool_decide as Hc; simpl; [|rewrite decide_False; [done|tauto]].
  case_bool_decide as Hp; simpl; [rewrite decide_False; [done|tauto]|].
  rewrite decide_True by tauto. by rewrite <-(assoc_L (++)).
Qed.
End parents.

Lemma Heads_filter revs c : Heads revs c = sort_by head_le (filter (is_head revs c) revs).
Proof.
  unfold Heads. f_equal. cbv zeta. apply (heads_fold _ _ _ _ []).
  intros p. rewrite parents_fold. set_solver.
Qed.

Lemma elem_of_Heads revs c r : r ∈ Heads revs c ↔ r ∈ revs ∧ is_head revs c r.
Proof. rewrite Heads_filter, elem_of_sort_by, list_elem_of_filter. tauto. Qed.

(** The heads do not depend on the order in which the revisions are listed. *)
Lemma Heads_perm revs revs' c :
  NoDup (RevisionID <$> revs) → revs ≡ₚ revs' → Heads revs c = Heads revs' c.
Proof.
  intros Hnd Hp. rewrite !Heads_filter. symmetry.
  rewrite (list_filter_iff (is_head revs' c) (is_head revs c) revs').
  2:{ intros x. unfold is_head, childless. by rewrite Hp. }
  apply sort_unique; [apply _..| |apply sort_by_sorted; apply _|].
  2:{ etrans; [apply sort_by_perm|]. apply filter_Permutation. by symmetry. }
  intros x y [_ Hx]%list_elem_of_filter [_ Hy]%list_elem_of_filter H1 H2.
  apply (NoDup_key RevisionID revs); [done..|]. by apply head_le_antisymm.
Qed.

(** The IDs of the revisions of a ledger, and ancestry between them. *)
Lemma ancestor_ids revs a r :
  ancestor revs a r → rtc (parent_in revs) (RevisionID a) (RevisionID r).
Proof.
  induction 1 as [|a b c (Ha & Hb & Hin) _ IH]; [done|]. eapply rtc_l; [|done]. by exists b.
Qed.

Section live_heads.
Context (revs : list CredentialMetadata) (Hled : valid_ledger revs).

Lemma no_cycle a b : ancestor revs a b → parent_rev revs b a → False.
Proof.
  intros Hab (Hb & Ha & Hin). apply (Acc_no_cycle (parent_in revs) (RevisionID b)); [apply Hled|].
  eapply tc_rtc_r; [apply tc_once|by apply ancestor_ids]. by exists a.
Qed.

(** [X] holds the IDs of ancestors of [r] met so far; a child of [r] is not
    among them, so following children ends at a head. *)
Lemma descend_to_head (n : nat) : ∀ (X : gset string) r,
  r ∈ revs → RevisionID r ∈ X → (∀ x, x ∈ X → ∃ a, RevisionID a = x ∧ ancestor revs a r) →
  X ⊆ list_to_set (RevisionID <$> revs) →
  (size (list_to_set (RevisionID <$> revs) : gset string) < size X + n)%nat →
  ∃ h, ancestor revs r h ∧ h ∈ Heads revs (CredentialID r).
Proof.
  induction n as [|n IH]; intros X r Hr HrX Hanc Hsub Hsz.
  { apply subseteq_size in Hsub. lia. }
  destruct (decide (childless revs (CredentialID r) r)) as [Hc|Hc].
  { exists r. split; [done|]. by apply elem_of_Heads. }
  apply not_Forall_Exists in Hc; [|apply _]. apply Exists_exists in Hc as (c & Hc & Hno).
  assert (CredentialID c = CredentialID r ∧ RevisionID r ∈ Parents c) as [Hcred Hin].
  { destruct (decide (CredentialID c = CredentialID r)), (decide (RevisionID r ∈ Parents c)); simpl in Hno; tauto. }
  assert (parent_rev revs r c) as Hstep by done.
  assert (RevisionID c ∉ X) as Hfresh.
  { intros (a & Ha & Hac)%Hanc. apply (no_cycle a r Hac).
    assert (a ∈ revs) as Hain.
    { destruct Hac as [|? ? ? (? & _) _]; done. }
    by rewrite (NoDup_key RevisionID revs a c (ledger_ids _ Hled) Hain Hc Ha). }
  destruct (IH ({[RevisionID c]} ∪ X) c) as (h & Hh & Hhead).
  - done.
  - set_solver.
  - intros x [->%elem_of_singleton|Hx]%elem_of_union; [by exists c|].
    destruct (Hanc x Hx) as (a & ? & ?). exists a. split; [done|]. by eapply rtc_r.
  - intros x [->%elem_of_singleton|Hx]%elem_of_union; [|by apply Hsub].
    apply elem_of_list_to_set. by apply list_elem_of_fmap_2.
  - rewrite size_union by set_solver. rewrite size_singleton. lia.
  - exists h. rewrite <-Hcred. split; [by eapply rtc_l|done].
Qed.

(** Every revision is covered by a head of its credential. *)
Lemma head_above r : r ∈ revs → ∃ h, ancestor revs r h ∧ h ∈ Heads revs (CredentialID r).
Proof.
  intros Hr. apply (descend_to_head (S (size (list_to_set (RevisionID <$> revs) : gset string)))
    {[RevisionID r]}); [done|set_solver| |..].
  - intros x ->%elem_of_singleton. by exists r.
  - intros x ->%elem_of_singleton. apply elem_of_list_to_set. by apply list_elem_of_fmap_2.
  - lia.
Qed.
End live_heads.

(** ** Recipients *)

Lemma count_fold l : ∀ (counts : gmap string Z) (known : gset string) a,
  get_default 0 a (foldl (λ '(counts, known) actor,
     if seen actor known then (counts, known)
     else (<[actor := get_default 0 actor counts + 1]> counts, {[actor]} ∪ known))
     (counts, known) l).1 =
  get_default 0 a counts + (if decide (a ∈ l ∧ a ∉ known) then 1 else 0).
Proof.
  induction l as [|x l IH]; intros counts known a; cbn [foldl fst].
  { rewrite decide_False by set_solver. lia. }
  unfold seen at 2. case_bool_decide as Hx; rewrite IH.
  - f_equal. apply decide_ext. set_solver.
  - unfold get_default. rewrite lookup_insert. case_decide as Hxa; simpl.
    + subst. rewrite decide_False by set_solver. rewrite decide_True by set_solver. lia.
    + f_equal. apply decide_ext. set_solver.
Qed.

Lemma count_recipients_get counts h a :
  get_default 0 a (count_recipients counts h) =
  get_default 0 a counts + (if decide (a ∈ RecipientActors h) then 1 else 0).
Proof. unfold count_recipients. rewrite count_fold. f_equal. apply decide_ext. set_solver. Qed.

(** The count of an actor is the number of heads that name it. *)
Lemma count_heads heads : ∀ counts a,
  get_default 0 a (foldl count_recipients counts heads) =
  get_default 0 a counts + Z.of_nat (length (filter (λ h, a ∈ RecipientActors h) heads)).
Proof.
  induction heads as [|h heads IH]; intros counts a; simpl; [lia|].
  rewrite IH, count_recipients_get, filter_cons. case_decide; simpl; lia.
Qed.

Lemma length_filter_full {A} (P : A → Prop) `{∀ x, Decision (P x)} (l : list A) :
  length (filter P l) = length l ↔ Forall P l.
Proof.
  induction l as [|x l IH]; [done|]. rewrite filter_cons, Forall_cons.
  case_decide; simpl; [rewrite <-IH; naive_solver lia|].
  pose proof (length_filter P l). split; [lia|naive_solver].
Qed.

Lemma elem_of_recipientIntersection heads a :
  a ∈ recipientIntersection heads ↔ heads ≠ [] ∧ ∀ h, h ∈ heads → a ∈ RecipientActors h.
Proof.
  unfold recipientIntersection, sort_strings. rewrite elem_of_sort_by, list_elem_of_filter.
  rewrite count_heads. unfold get_default at 1. rewrite lookup_empty. simpl. rewrite Z.add_0_l.
  rewrite Nat2Z.inj_iff, length_filter_full, Forall_forall, list_elem_of_fmap.
  split.
  - intros [Hall ([k n] & -> & Hk%elem_of_map_to_list)]. split; [|done]. by intros ->.
  - intros [Hne Hall]. split; [done|].
    destruct (foldl count_recipients ∅ heads !! a) as [n|] eqn:Hn.
    { exists (a, n). split; [done|]. by apply elem_of_map_to_list. }
    exfalso.
    pose proof (count_heads heads ∅ a) as Hc. unfold get_default in Hc.
    rewrite Hn, lookup_empty in Hc. simpl in Hc.
    destruct heads as [|h heads]; [done|]. rewrite filter_cons, decide_True in Hc by (apply Hall; by left).
    simpl in Hc. lia.
Qed.

Lemma recipientIntersection_canonical heads :
  StronglySorted String.le (recipientIntersection heads) ∧ NoDup (recipientIntersection heads).
Proof.
  unfold recipientIntersection, sort_strings. split; [apply sort_by_strongly_sorted; apply _|].
  rewrite sort_by_perm. apply NoDup_filter, NoDup_fst_map_to_list.
Qed.

(** ** The merge decision *)

(** The strongest state among the heads. *)
Definition merged_state (heads : list CredentialMetadata) : string :=
  if decide (Exists (λ h, State h = "tombstone") heads) then "tombstone"
  else if decide (Exists (λ h, State h = "revoked") heads) then "revoked" else "active".

Lemma validateMetadata_state h : validateMetadata h = Ok tt → State h ∈ ["active"; "revoked"; "tombstone"].
Proof. unfold validateMetadata. intros H. ok_bools. done. Qed.

Definition state_rank (s : string) : Z :=
  if bool_decide (s = "tombstone") then 2 else if bool_decide (s = "revoked") then 1 else 0.

(** The fields that the loop over the heads updates. *)
Lemma absorb_heads_fields heads : ∀ d,
  let d' := foldl absorb_head d heads in
  dec_Parents d' = dec_Parents d ++ (RevisionID <$> heads) ∧
  dec_Exclusive d' = dec_Exclusive d || existsb Exclusive heads ∧
  dec_RequiresMerge d' = dec_RequiresMerge d ∧ dec_Conflict d' = dec_Conflict d ∧
  dec_Reason d' = dec_Reason d ∧ dec_Recipients d' = dec_Recipients d ∧
  dec_Template d' = dec_Template d.
Proof.
  induction heads as [|h heads IH]; intros d; simpl.
  { by rewrite app_nil_r, orb_false_r. }
  specialize (IH (absorb_head d h)) as (-> & -> & -> & -> & -> & -> & ->).
  unfold absorb_head. case_match; simpl; by rewrite <-(assoc_L (++)), orb_assoc.
Qed.

(** The state after the loop: one of the states seen, of the highest rank. *)
Lemma absorb_heads_state heads : ∀ d,
  let d' := foldl absorb_head d heads in
  (dec_State d' = dec_State d ∨ ∃ h, h ∈ heads ∧ dec_State d' = State h) ∧
  state_rank (dec_State d) ≤ state_rank (dec_State d') ∧
  ∀ h, h ∈ heads → state_rank (State h) ≤ state_rank (dec_State d').
Proof.
  induction heads as [|h heads IH]; intros d; simpl.
  { split_and!; [by left|done|by intros ? ?%elem_of_nil]. }
  destruct (IH (absorb_head d h)) as (H1 & H2 & H3).
  assert ((dec_State (absorb_head d h) = dec_State d ∨ dec_State (absorb_head d h) = State h) ∧
    state_rank (dec_State d) ≤ state_rank (dec_State (absorb_head d h)) ∧
    state_rank (State h) ≤ state_rank (dec_State (absorb_head d h))) as (H4 & H5 & H6).
  { unfold absorb_head, state_rank. simpl. repeat case_bool_decide; simpl in *; split_and!; first [lia|by left|by right|congruence]. }
  split_and!; [|lia|].
  - destruct H1 as [H1|(k & Hk & H1)]; [rewrite H1|rewrite H1]; set_solver.
  - intros k [->|Hk]%elem_of_cons; [lia|by apply H3].
Qed.

Lemma state_rank_inj s t :
  s ∈ ["active"; "revoked"; "tombstone"] → t ∈ ["active"; "revoked"; "tombstone"] →
  state_rank s = state_rank t → s = t.
Proof.
  rewrite !elem_of_cons, !elem_of_nil. intros [->|[->|[->|[]]]] [->|[->|[->|[]]]]; by vm_compute.
Qed.

(** The heads a decision can be taken on. *)
Definition analyzable (heads : list CredentialMetadata) : Prop :=
  heads ≠ [] ∧ (∀ h, h ∈ heads → validateMetadata h = Ok tt) ∧
  ∀ h h', h ∈ heads → h' ∈ heads → CredentialID h = CredentialID h'.

(** Two heads that a merge may join: they agree on everything but the payload. *)
Definition same_subject (h h' : CredentialMetadata) : Prop :=
  Label h = Label h' ∧ Kind h = Kind h' ∧ Zone h = Zone h' ∧ Consumer h = Consumer h' ∧
  AuthorityHost h = AuthorityHost h' ∧ AssignedYard h = AssignedYard h' ∧
  AssignmentEpoch h = AssignmentEpoch h'.

#[export] Instance same_subject_equiv : Equivalence same_subject.
Proof. unfold same_subject. split; red; intuition congruence. Qed.

Lemma compatible_with_spec h h' : compatible_with h h' = true ↔ same_subject h' h.
Proof. unfold compatible_with, same_subject. bools. tauto. Qed.

Lemma compatibleMetadata_spec heads :
  compatibleMetadata heads = true ↔ ∀ h h', h ∈ heads → h' ∈ heads → same_subject h h'.
Proof.
  destruct heads as [|f rest]; simpl.
  { split; [by intros _ ?? ?%elem_of_nil|done]. }
  rewrite forallb_forall. setoid_rewrite <-list_elem_of_In. setoid_rewrite compatible_with_spec. split.
  - intros Hall. assert (∀ x, x ∈ f :: rest → same_subject x f) as Hf.
    { intros x [->|?]%elem_of_cons; [done|auto]. }
    intros h h' Hh Hh'. etrans; [by apply Hf|]. symmetry. by apply Hf.
  - intros Hall x Hx. apply Hall; [by right|by left].
Qed.

(** The decision that the code must take on the heads. *)
Record merge_decision (heads : list CredentialMetadata) (d : Decision_) : Prop := {
  merge_requires : dec_RequiresMerge d = bool_decide (2 ≤ length heads)%nat;
  merge_state : dec_State d = merged_state heads;
  merge_parents : dec_Parents d = sort_strings (RevisionID <$> heads);
  merge_recipients a : a ∈ dec_Recipients d ↔ ∀ h, h ∈ heads → a ∈ RecipientActors h;
  merge_exclusive : dec_Exclusive d = existsb Exclusive heads;
  merge_template : head heads = Some (dec_Template d);
  merge_conflict : dec_Conflict d = true ↔
    (2 ≤ length heads)%nat ∧
    ((¬ ∃ a, ∀ h, h ∈ heads → a ∈ RecipientActors h) ∨
     merged_state heads = "active" ∧ ¬ ∀ h h', h ∈ heads → h' ∈ heads → same_subject h h');
}.

Lemma merged_state_fold first rest :
  Forall (λ h, validateMetadata h = Ok tt) (first :: rest) → ∀ d,
  dec_State d = State first →
  dec_State (foldl absorb_head d (first :: rest)) = merged_state (first :: rest).
Proof.
  intros Hv d Hd. destruct (absorb_heads_state (first :: rest) d) as (H1 & H2 & H3).
  set (d' := foldl absorb_head d (first :: rest)) in *.
  assert (∃ h, h ∈ first :: rest ∧ dec_State d' = State h) as (h & Hh & Hs).
  { destruct H1 as [H1|H1]; [|done]. exists first. split; [by left|]. congruence. }
  rewrite Forall_forall in Hv. pose proof (validateMetadata_state h (Hv h Hh)) as Hst.
  unfold merged_state. rewrite Hs in H3 |- *.
  rewrite !elem_of_cons, elem_of_nil in Hst.
  case_decide as Ht; rewrite Exists_exists in Ht.
  { destruct Ht as (t & Ht & Hts). specialize (H3 t Ht). rewrite Hts in H3.
    destruct Hst as [Hx|[Hx|[Hx|[]]]]; [by rewrite Hx in H3..|done]. }
  case_decide as Hr; rewrite Exists_exists in Hr; [|naive_solver].
  destruct Hr as (t & Hin & Hts). specialize (H3 t Hin). rewrite Hts in H3.
  destruct Hst as [Hx|[Hx|[Hx|[]]]]; [by rewrite Hx in H3|done|naive_solver].
Qed.

Lemma merged_state_range heads : merged_state heads ∈ ["active"; "revoked"; "tombstone"].
Proof. unfold merged_state. repeat case_decide; set_solver. Qed.

Lemma AnalyzeMetadataHeads_checks heads :
  is_ok (AnalyzeMetadataHeads heads) = true ↔ analyzable heads.
Proof.
  unfold AnalyzeMetadataHeads, analyzable. destruct heads as [|f rest]; [naive_solver|].
  set (heads := f :: rest). cbv zeta.
  assert (∀ k : result cred_error Decision_, is_ok k = true →
    is_ok (for_each (λ head, validateMetadata head;;
      refuse (negb (bool_decide (CredentialID head = CredentialID f))) DifferentCredentials) heads;; k) = true ↔
    (∀ h, h ∈ heads → validateMetadata h = Ok tt ∧ CredentialID h = CredentialID f)) as Hk.
  { intros k Hok. rewrite !is_ok_spec in *. destruct Hok as [d ->]. split.
    - intros (? & ([] & Hl & _)%bind_Ok) h Hh. rewrite for_each_Ok in Hl. specialize (Hl h Hh). ok_bools. done.
    - intros Hall. exists d. apply bind_Ok. exists tt. split; [|done]. apply for_each_total. intros h Hh.
      destruct (Hall h Hh) as [-> ->]. simpl. by rewrite bool_decide_eq_true_2. }
  rewrite Hk by (by repeat case_match). split.
  - intros Hall. split_and!; [done|naive_solver|]. intros h h' Hh Hh'.
    destruct (Hall h Hh) as [_ ->], (Hall h' Hh') as [_ ->]. done.
  - intros (_ & Hv & Hc) h Hh. split; [by apply Hv|]. apply Hc; [done|by left].
Qed.

#[local] Arguments compatibleMetadata : simpl never.

(** The last step of [AnalyzeMetadataHeads], after the loop. *)
Lemma settle_decision heads (e d : Decision_) (lone : bool) :
  (if lone then Ok e
   else if bool_decide (dec_Recipients e = []) then Ok (conflict e "heads have no common recipient")
   else if bool_decide (dec_State e = "revoked") || bool_decide (dec_State e = "tombstone") then Ok e
   else if negb (compatibleMetadata heads) then Ok (conflict e "head metadata differs")
   else @Ok cred_error _ e) = Ok d →
  dec_Conflict e = false → dec_State e ∈ ["active"; "revoked"; "tombstone"] →
  (d = e ∨ ∃ reason, d = conflict e reason) ∧
  (dec_Conflict d = true ↔ lone = false ∧ (dec_Recipients e = [] ∨
    dec_State e = "active" ∧ compatibleMetadata heads = false)).
Proof.
  rewrite !elem_of_cons, elem_of_nil.
  intros H Hc Hs.
  destruct lone; [injection H as <-; split; [by left|]; rewrite Hc; intuition congruence|].
  case_bool_decide as Hr; [injection H as <-; split; [by right; eexists|]; simpl; tauto|].
  destruct Hs as [Hs|[Hs|[Hs|[]]]]; rewrite Hs in *; simpl in H.
  2-3: injection H as <-; split; [by left|]; rewrite Hc; intuition congruence.
  destruct (compatibleMetadata heads); simpl in H; injection H as <-.
  - split; [by left|]. rewrite Hc. intuition congruence.
  - split; [by right; eexists|]. simpl. tauto.
Qed.

Lemma no_common_recipient heads :
  heads ≠ [] →
  recipientIntersection heads = [] ↔ ¬ ∃ a, ∀ h, h ∈ heads → a ∈ RecipientActors h.
Proof.
  intros Hne. assert (∀ a, a ∈ recipientIntersection heads ↔ ∀ h, h ∈ heads → a ∈ RecipientActors h) as Hri.
  { intros a. rewrite elem_of_recipientIntersection. naive_solver. }
  setoid_rewrite <-Hri. destruct (recipientIntersection heads) as [|a l].
  - split; [|done]. by intros _ [a ?%elem_of_nil].
  - split; [done|]. intros []. exists a. by left.
Qed.

Lemma AnalyzeMetadataHeads_decision heads d :
  AnalyzeMetadataHeads heads = Ok d → merge_decision heads d.
Proof.
  intros H. assert (analyzable heads) as (Hne & Hv & _).
  { apply AnalyzeMetadataHeads_checks. by rewrite H. }
  destruct heads as [|f rest]; [done|]. unfold AnalyzeMetadataHeads in H. cbv zeta in H.
  apply bind_Ok in H as (u & _ & H).
  match type of H with context [foldl absorb_head ?d0 _] =>
    pose proof (absorb_heads_fields (f :: rest) d0) as Hd;
    pose proof (merged_state_fold f rest ltac:(by apply Forall_forall) d0 eq_refl) as Hst;
    set (e := foldl absorb_head d0 (f :: rest)) in *
  end.
  destruct Hd as (Hp & Hx & Hr & Hc & _ & Hrec & Ht).
  cbn [dec_Parents dec_Exclusive dec_RequiresMerge dec_Conflict dec_Recipients dec_Template] in *.
  apply settle_decision in H as (Hd & Hconf);
    [|done|by simpl; rewrite Hst; apply merged_state_range].
  simpl in Hconf. rewrite Hst, Hrec, no_common_recipient, <-(not_true_iff_false (compatibleMetadata _)), compatibleMetadata_spec in Hconf
    by done.
  assert (bool_decide (rest = []) = false ↔ (2 ≤ length (f :: rest))%nat) as Hlen.
  { rewrite bool_decide_eq_false. destruct rest; simpl; naive_solver lia. }
  rewrite Hlen in Hconf.
  assert (bool_decide (rest ≠ []) = bool_decide (2 ≤ length (f :: rest))%nat) as Hlen'.
  { apply bool_decide_ext. by rewrite <-Hlen, bool_decide_eq_false. }
  split; [..|exact Hconf]; destruct Hd as [->|[reason ->]]; simpl; rewrite ?Hp, ?Hr, ?Hrec, ?Ht; try done; try exact Hlen'.
  all: intros a; rewrite elem_of_recipientIntersection; naive_solver.
Qed.

(** ** Replicas of a ledger

    A valid ledger is a property of the set of its revisions: listing them in
    another order changes neither its validity nor its summary. *)

#[export] Instance valid_ledger_proper : Proper ((≡ₚ) ==> iff) valid_ledger.
Proof.
  assert (∀ l l', l ≡ₚ l' → valid_ledger l → valid_ledger l') as Himp;
    [|intros l l' Hl; split; apply Himp; by rewrite Hl].
  intros l l' Hl [H1 H2 H3 H4 H5 H6].
  assert (∀ p c, parent_in l p c ↔ parent_in l' p c) as Hpar.
  { intros p c. unfold parent_in. by setoid_rewrite Hl. }
  split.
  - intros r. rewrite <-Hl. apply H1.
  - by rewrite <-Hl.
  - intros r Hr. rewrite <-Hl in Hr. destruct (H3 r Hr) as [Hnd Hp]. split; [done|].
    intros p Hin. setoid_rewrite <-Hl. by apply Hp.
  - intros x. specialize (H4 x). induction H4 as [x _ IH]. constructor. intros y Hy. apply IH. by apply Hpar.
  - intros q r. rewrite <-Hl. apply H5.
  - intros r Hr. rewrite <-Hl in Hr. specialize (H6 r Hr). unfold assignment_ok in *.
    destruct (Exclusive r); [|done]. setoid_rewrite <-Hl. done.
Qed.

(** The summary of one credential of a ledger. *)
Lemma summarize_credential_total revs c :
  valid_ledger revs → (∃ r, r ∈ revs ∧ CredentialID r = c) →
  ∃ s, summarize_credential revs c = Ok s ∧ sum_CredentialID s = c.
Proof.
  intros Hled (r & Hr & <-). unfold summarize_credential.
  assert (analyzable (Heads revs (CredentialID r))) as Han.
  { destruct (head_above revs Hled r Hr) as (h & _ & Hh). split_and!.
    - intros He. rewrite He in Hh. by apply elem_of_nil in Hh.
    - intros x [Hx _]%elem_of_Heads. by apply Hled.
    - intros x y (_ & Hx & _)%elem_of_Heads (_ & Hy & _)%elem_of_Heads. congruence. }
  apply AnalyzeMetadataHeads_checks, is_ok_spec in Han as [d Hd].
  rewrite Hd. simpl. destruct (dec_Conflict d); eexists; split; reflexivity.
Qed.

(** Go may range over the credential IDs in any order, each once. *)
Definition credential_order (ids : list string) (revs : list CredentialMetadata) : Prop :=
  ids ≡ₚ remove_dups (CredentialID <$> revs).

Section summaries.
Context (revs : list CredentialMetadata) (Hled : valid_ledger revs).

Lemma summaries_total ids acc :
  (∀ c, c ∈ ids → ∃ r, r ∈ revs ∧ CredentialID r = c) →
  ∃ out, for_range (λ out credentialID,
      summary ← summarize_credential revs credentialID; Ok (out ++ [summary])) ids acc = Ok (acc ++ out) ∧
    sum_CredentialID <$> out = ids ∧
    Forall2 (λ c s, summarize_credential revs c = Ok s) ids out.
Proof.
  revert acc. induction ids as [|c ids IH]; intros acc Hids; simpl.
  { exists []. rewrite app_nil_r. split_and!; [done..|constructor]. }
  destruct (summarize_credential_total revs c Hled) as (s & Hs & Hc); [apply Hids; by left|].
  rewrite Hs. simpl. destruct (IH (acc ++ [s])) as (out & Hrun & Hk & H2).
  { intros c' Hc'. apply Hids. by right. }
  exists (s :: out). rewrite Hrun, <-(assoc_L (++)). csimpl. split_and!; [done|by rewrite Hc, Hk|].
  by constructor.
Qed.

Lemma summaries_in ids out s :
  Forall2 (λ c s, summarize_credential revs c = Ok s) ids out →
  s ∈ out ↔ ∃ c, c ∈ ids ∧ summarize_credential revs c = Ok s.
Proof.
  induction 1 as [|c s' ids out Hs _ IH]; [set_solver|].
  rewrite elem_of_cons, IH. setoid_rewrite elem_of_cons. split; [naive_solver|].
  intros (c' & [->|Hc] & Hc'); [left; congruence|eauto].
Qed.

Lemma Summarize_run order ids :
  key_order order revs → credential_order ids revs →
  ∃ out, Summarize order ids revs = Ok (sort_by_key sum_CredentialID out) ∧
    sum_CredentialID <$> out = ids ∧
    ∀ s, s ∈ out ↔ ∃ c, c ∈ ids ∧ summarize_credential revs c = Ok s.
Proof.
  intros Ho Hi. unfold Summarize. case_bool_decide as Hnil.
  { exists []. subst revs. apply Permutation_nil_r in Hi as ->. split_and!; [done..|]. set_solver. }
  rewrite (proj2 (ValidateRevisions_Ok order revs Ho) Hled). simpl.
  destruct (summaries_total ids []) as (out & Hrun & Hk & H2).
  { intros c Hc. unfold credential_order in Hi. rewrite Hi, elem_of_remove_dups, list_elem_of_fmap in Hc.
    destruct Hc as (r & -> & ?). eauto. }
  exists out. rewrite Hrun. split_and!; [done..|]. intros s. by apply summaries_in.
Qed.
End summaries.

Lemma summarize_credential_perm revs revs' c :
  NoDup (RevisionID <$> revs) → revs ≡ₚ revs' →
  summarize_credential revs c = summarize_credential revs' c.
Proof. intros Hnd Hp. unfold summarize_credential. by rewrite (Heads_perm revs revs' c). Qed.

Lemma Summarize_perm order ids order' ids' revs revs' :
  key_order order revs → credential_order ids revs →
  key_order order' revs' → credential_order ids' revs' →
  valid_ledger revs → revs ≡ₚ revs' → Summarize order ids revs = Summarize order' ids' revs'.
Proof.
  intros Ho Hi Ho' Hi' Hled Hp. assert (valid_ledger revs') as Hled' by by rewrite <-Hp.
  destruct (Summarize_run revs Hled order ids Ho Hi) as (out & -> & Hk & Hin).
  destruct (Summarize_run revs' Hled' order' ids' Ho' Hi') as (out' & -> & Hk' & Hin').
  assert (ids ≡ₚ ids') as Hids.
  { unfold credential_order in *. rewrite Hi, Hi'. apply NoDup_Permutation; [apply NoDup_remove_dups..|].
    intros x. by rewrite !elem_of_remove_dups, Hp. }
  assert (NoDup (sum_CredentialID <$> out)) as Hnd.
  { rewrite Hk. unfold credential_order in Hi. rewrite Hi. apply NoDup_remove_dups. }
  assert (out ≡ₚ out') as Hout.
  { apply NoDup_Permutation; [by eapply NoDup_fmap_1|eapply NoDup_fmap_1; by rewrite Hk', <-Hids, <-Hk|].
    intros s. rewrite Hin, Hin'. setoid_rewrite Hids.
    by setoid_rewrite (summarize_credential_perm revs revs' _ (ledger_ids _ Hled) Hp). }
  f_equal. symmetry. unfold sort_by_key.
  apply sort_unique; [apply _..| |apply sort_by_sorted; apply _|by rewrite sort_by_perm].
  intros x y. by apply key_le_distinct.
Qed.

(** ** Incoming revisions *)

(** No two listings of a revision ID disagree. *)
Definition consistent (revs : list CredentialMetadata) : Prop :=
  ∀ q r, q ∈ revs → r ∈ revs → RevisionID q = RevisionID r → q = r.

Lemma merge_revisions_Ok revs m :
  merge_revisions revs = Ok m → consistent revs ∧ indexes m revs.
Proof.
  intros H. refine (for_range_inv (λ pre m, consistent pre ∧ indexes m pre) _ _ _ _ _ _ H).
  { split; [by intros ?? ?%elem_of_nil|]. intros k r. rewrite lookup_empty. split; [done|].
    by intros [?%elem_of_nil _]. }
  intros pre r post m0 m1 _ [Hc Hix] Hr.
  assert (∀ q, q ∈ pre ++ [r] ↔ q ∈ pre ∨ q = r) as Hin.
  { intros q. by rewrite elem_of_app, list_elem_of_singleton. }
  destruct (m0 !! RevisionID r) as [q|] eqn:Hq.
  - unfold metadataEqual in Hr. ok_bools. apply Hix in Hq as [Hq _].
    assert (∀ x, x ∈ pre ++ [r] ↔ x ∈ pre) as Hsame by (intros x; rewrite Hin; naive_solver).
    split; [intros x y; rewrite !Hsame; apply Hc|]. intros k x. rewrite Hsame. apply Hix.
  - injection Hr as <-. assert (∀ q, q ∈ pre → RevisionID q ≠ RevisionID r) as Hnew.
    { intros q Hq' Heq. rewrite (proj2 (Hix _ q)) in Hq by done. done. }
    split.
    + intros x y [Hx| ->]%Hin [Hy| ->]%Hin Heq; [by apply Hc| | |done].
      * by apply Hnew in Hx.
      * by apply Hnew in Hy.
    + intros k x. rewrite lookup_insert, Hin. case_decide as Hk.
      * subst k. split; [intros [= <-]; auto|]. intros [[Hx| ->] He]; [by apply Hnew in Hx|done].
      * rewrite (Hix k x). split; [naive_solver|]. intros [[?| ->] ?]; done.
Qed.

Lemma merge_revisions_total revs : consistent revs → ∃ m, merge_revisions revs = Ok m.
Proof.
  intros Hc. cut (∃ m, merge_revisions revs = Ok m ∧
    ∀ k q, m !! k = Some q → q ∈ revs ∧ RevisionID q = k); [naive_solver|].
  apply (for_range_total (λ pre m, ∀ k q, m !! k = Some q → q ∈ pre ∧ RevisionID q = k)).
  { intros k q. by rewrite lookup_empty. }
  intros pre r post m Hrevs Hm. destruct (m !! RevisionID r) as [q|] eqn:Hq.
  - destruct (Hm _ _ Hq) as [Hin Hid]. exists m. split.
    + rewrite (Hc q r) by (done || (subst; set_solver)). unfold metadataEqual.
      by rewrite bool_decide_eq_true_2.
    + intros k x Hx. destruct (Hm k x Hx). set_solver.
  - eexists. split; [done|]. intros k x. rewrite lookup_insert.
    case_decide; [intros [= <-]; set_solver|]. intros [? ?]%Hm. set_solver.
Qed.

(** Any listing of the values of the merged index. *)
Lemma combined_keys (byID : gmap string CredentialMetadata) (revs : list CredentialMetadata) (values : list string) :
  indexes byID revs → (∀ k, k ∈ values → k ∈ RevisionID <$> revs) →
  RevisionID <$> omap (λ id, byID !! id) values = values.
Proof.
  intros Hix. induction values as [|k values IH]; intros Hk; [done|].
  assert (k ∈ RevisionID <$> revs) as (r & -> & Hr)%list_elem_of_fmap by (apply Hk; by left).
  simpl. rewrite (proj2 (Hix _ r)) by done. csimpl. f_equal. apply IH. intros x Hx. apply Hk. by right.
Qed.

Lemma combined_perm (byID : gmap string CredentialMetadata) (revs : list CredentialMetadata) (values : list string) :
  indexes byID revs → values ≡ₚ remove_dups (RevisionID <$> revs) →
  omap (λ id, byID !! id) values ≡ₚ remove_dups revs ∧
  key_order values (omap (λ id, byID !! id) values).
Proof.
  intros Hix Hv. assert (∀ k, k ∈ values ↔ k ∈ RevisionID <$> revs) as Hk.
  { intros k. by rewrite Hv, elem_of_remove_dups. }
  assert (NoDup values) as Hnd by (rewrite Hv; apply NoDup_remove_dups).
  pose proof (combined_keys byID revs values Hix (λ k, proj1 (Hk k))) as Hkeys. split.
  - apply NoDup_Permutation; [|apply NoDup_remove_dups|].
    + apply (NoDup_fmap_1 RevisionID). by rewrite Hkeys.
    + intros r. rewrite list_elem_of_omap, elem_of_remove_dups. split.
      * intros (k & _ & Hr). by apply Hix in Hr as [? _].
      * intros Hr. exists (RevisionID r). rewrite Hk. split; [by apply list_elem_of_fmap_2|]. by apply Hix.
  - unfold key_order. rewrite Hkeys. symmetry.
    apply NoDup_Permutation; [apply NoDup_remove_dups|done|]. intros k. by rewrite elem_of_remove_dups.
Qed.

Lemma ValidateIncomingRevisions_Ok values order incoming existing :
  values ≡ₚ remove_dups (RevisionID <$> existing ++ incoming) → order ≡ₚ values →
  ValidateIncomingRevisions values order incoming existing = Ok tt ↔
  consistent (existing ++ incoming) ∧ valid_ledger (remove_dups (existing ++ incoming)) ∧
  ∀ r, r ∈ incoming → Syncable r = true.
Proof.
  intros Hv Ho. unfold ValidateIncomingRevisions. cbv zeta. split.
  - intros (byID & Hm & H)%bind_Ok. apply bind_Ok in H as ([] & Hval & Hsync).
    apply merge_revisions_Ok in Hm as [Hc Hix].
    destruct (combined_perm byID _ values Hix Hv) as [Hp Hko].
    apply ValidateRevisions_Ok in Hval; [|unfold key_order in *; by rewrite Ho].
    rewrite Hp in Hval. split_and!; [done..|]. intros r Hr.
    rewrite for_each_Ok in Hsync. specialize (Hsync r Hr). by ok_bools.
  - intros (Hc & Hled & Hsync). destruct (merge_revisions_total _ Hc) as [byID Hm]. rewrite Hm. simpl.
    apply merge_revisions_Ok in Hm as [_ Hix].
    destruct (combined_perm byID _ values Hix Hv) as [Hp Hko].
    rewrite (proj2 (ValidateRevisions_Ok order _ ltac:(unfold key_order in *; by rewrite Ho))) by by rewrite Hp.
    simpl. apply for_each_total. intros r Hr. by rewrite (Hsync r Hr).
Qed.

(** ** Payloads *)

(** The comparison of payloads raises no conflict exactly when every head
    decrypts to the expected payload; [payload] is the first one. *)
Lemma compare_payloads_agree crypto d payload heads :
  payload ≠ "" →
  dec_Conflict d = false →
  dec_Conflict (compare_payloads crypto d payload heads) = false ↔
  ∀ h, h ∈ heads → Decrypt crypto h = Some payload.
Proof.
  intros Hne Hd. induction heads as [|h heads IH]; simpl.
  { split; [by intros _ ? ?%elem_of_nil|done]. }
  destruct (Decrypt crypto h) as [current|] eqn:Hdec; simpl.
  2:{ split; [done|]. intros Hall. rewrite Hall in Hdec by (by left). done. }
  rewrite bool_decide_eq_false_2 by done. case_bool_decide as Heq; simpl.
  - subst. rewrite IH. setoid_rewrite elem_of_cons. naive_solver.
  - split; [done|]. intros Hall. rewrite Hall in Hdec by (by left). congruence.
Qed.

Lemma AnalyzeHeads_merge heads crypto d :
  AnalyzeHeads heads (Some crypto) = Ok d →
  (∀ h, h ∈ heads → Decrypt crypto h ≠ Some "") →
  (∀ h, h ∈ heads → Verify crypto h = Ok tt) ∧
  (dec_RequiresMerge d = true → dec_Conflict d = false → dec_State d = "active" →
   ∃ payload, ∀ h, h ∈ heads → Decrypt crypto h = Some payload).
Proof.
  intros H Hne. unfold AnalyzeHeads in H. apply bind_Ok in H as (e & He%map_err_Ok & H).
  apply bind_Ok in H as ([] & Hver & H). split.
  { rewrite for_each_Ok in Hver. intros h Hh. specialize (Hver h Hh). by ok_inv. }
  intros Hrm Hnc Hst. apply AnalyzeMetadataHeads_decision in He as Hspec.
  destruct heads as [|f rest]; [by destruct (merge_template _ _ Hspec)|].
  destruct (dec_Conflict e) eqn:Hce.
  { rewrite orb_true_r in H. simpl in H. injection H as <-. congruence. }
  destruct (dec_RequiresMerge e) eqn:Hre; [|simpl in H; injection H as <-; congruence].
  pose proof (merged_state_range (f :: rest)) as Hms. rewrite <-(merge_state _ _ Hspec) in Hms.
  rewrite !elem_of_cons, elem_of_nil in Hms.
  destruct Hms as [Hms|[Hms|[Hms|[]]]]; rewrite Hms in H; simpl in H.
  2-3: injection H as <-; congruence.
  destruct (Decrypt crypto f) as [payload|] eqn:Hf; [|injection H as <-; simpl in Hnc; done].
  exists payload. injection H as <-.
  assert (payload ≠ "") as Hp by (intros ->; apply (Hne f); [by left|done]).
  rewrite compare_payloads_agree in Hnc by done. intros h [->|Hh]%elem_of_cons; [done|by apply Hnc].
Qed.

(** ** Recipients after a trust change *)

Lemma RekeyRecipients_Ok current actor trust out :
  RekeyRecipients current actor trust = Ok out →
  StronglySorted String.le out ∧ NoDup out ∧ out ≠ [] ∧
  (∀ a, a ∈ out → SafeID a = true) ∧
  ∀ a, a ∈ out ↔ if trust then a = actor ∨ a ∈ current else a ∈ current ∧ a ≠ actor.
Proof.
  unfold RekeyRecipients. intros H. apply bind_Ok in H as ([] & Ha & H). apply bind_Ok in H as (set & Hs & H).
  apply bind_Ok in H as ([] & Hne & H). injection H as <-. bools.
  assert ((∀ a, a ∈ set ↔ a ∈ current) ∧ (∀ a, a ∈ set → SafeID a = true)) as [Hset Hsafe].
  { refine (for_range_inv (λ pre (st : gset string), (∀ a, a ∈ st ↔ a ∈ pre) ∧ (∀ a, a ∈ st → SafeID a = true))
      _ _ _ _ _ _ Hs); [set_solver|].
    intros pre x post st st' _ [I1 I2] Hx. ok_bools. split; [set_solver|].
    intros a [->%elem_of_singleton|?]%elem_of_union; [done|by apply I2]. }
  unfold sort_strings. apply refuse_Ok in Ha. bools. apply refuse_Ok in Hne. bools.
  assert (∀ a, a ∈ sort_by String.le (elements (if trust then {[actor]} ∪ set else set ∖ {[actor]})) ↔
    if trust then a = actor ∨ a ∈ current else a ∈ current ∧ a ≠ actor) as Hin.
  { intros a. rewrite elem_of_sort_by, elem_of_elements. destruct trust; set_solver. }
  split_and!; [apply sort_by_strongly_sorted; apply _|rewrite sort_by_perm; apply NoDup_elements| | |done].
  - intros Hnil. apply Hne. apply leibniz_equiv, elements_empty_inv.
    apply Permutation_nil_r. rewrite <-Hnil. symmetry. apply sort_by_perm.
  - intros a. rewrite Hin. destruct trust; rewrite <-(Hset a); naive_solver.
Qed.

(** ** Claims *)

Definition sample_left : CredentialMetadata :=
  sample_revision "cred-00000000000000000000000000000002" "host-a-000000000003-0000000c" []
    <| ActorCounter := 3 |> <| RecipientActors := ["host-a"; "host-b"] |>.

Definition sample_right : CredentialMetadata :=
  sample_left <| RevisionID := "host-b-000000000001-0000000d" |> <| ActorID := "host-b" |>
    <| ActorCounter := 1 |> <| RecipientActors := ["host-b"; "host-c"] |>.

Definition sample_replica : list CredentialMetadata :=
  [sample_right; sample_root; sample_left; sample_moved].

Definition sample_keys : list string := RevisionID <$> sample_replica.

Definition sample_ids : list string :=
  ["cred-00000000000000000000000000000002"; "cred-00000000000000000000000000000001"].

(** [ValidateIncomingRevisions] is the append-only merge of two replicas.
    For every map order it accepts exactly when the two lists never disagree on
    a revision ID, their union is a valid ledger and every incoming revision is
    syncable; an accepted merge therefore keeps every existing revision
    unchanged. *)
Theorem ValidateIncomingRevisions_spec values order incoming existing :
  values ≡ₚ remove_dups (RevisionID <$> existing ++ incoming) → order ≡ₚ values →
  ValidateIncomingRevisions values order incoming existing = Ok tt ↔
  consistent (existing ++ incoming) ∧ valid_ledger (remove_dups (existing ++ incoming)) ∧
  ∀ r, r ∈ incoming → Syncable r = true.
Proof. apply ValidateIncomingRevisions_Ok. Qed.

Lemma ValidateIncomingRevisions_spec_witness :
  valid_ledger (remove_dups (sample_ledger ++ [sample_left; sample_root])).
Proof.
  apply (ValidateIncomingRevisions_spec
    ["host-a-000000000003-0000000c"; "host-a-000000000002-0000000b"; "host-a-000000000001-0000000a"]
    ["host-a-000000000001-0000000a"; "host-a-000000000003-0000000c"; "host-a-000000000002-0000000b"]
    [sample_left; sample_root] sample_ledger).
  - apply (bool_decide_unpack _). by vm_compute.
  - apply (bool_decide_unpack _). by vm_compute.
  - by vm_compute.
Defined.

(** in a ledger that [ValidateRevisions] accepts, [Heads] returns exactly the
    revisions of the credential that no other one supersedes, and every revision
    of the credential is an ancestor of one of them: no history is lost and a
    credential with a revision has a head. *)
Theorem Heads_cover order revs :
  key_order order revs → ValidateRevisions order revs = Ok tt →
  (∀ c r, r ∈ Heads revs c ↔ r ∈ revs ∧ CredentialID r = c ∧
     ∀ q, q ∈ revs → CredentialID q = c → RevisionID r ∉ Parents q) ∧
  ∀ r, r ∈ revs → ∃ h, ancestor revs r h ∧ h ∈ Heads revs (CredentialID r).
Proof.
  intros Ho Hled%ValidateRevisions_Ok; [|done]. split; [|by apply head_above].
  intros c r. rewrite elem_of_Heads. unfold is_head, childless. by rewrite Forall_forall.
Qed.

Lemma Heads_cover_witness :
  Heads sample_ledger (CredentialID sample_root) = [sample_moved] ∧
  ∃ h, ancestor sample_ledger sample_root h ∧ h ∈ Heads sample_ledger (CredentialID sample_root).
Proof.
  split; [by vm_compute|]. apply (Heads_cover sample_order sample_ledger);
    [by vm_compute|by vm_compute|]. right. by left.
Defined.

(** the merge decision.  [AnalyzeMetadataHeads] succeeds exactly on a
    non-empty list of well-formed heads of one credential; its decision then has
    the strongest state (tombstone over revoked over active), the recipients
    common to all heads, the sorted head IDs as parents, and reports a conflict
    exactly when two or more heads have no common recipient or are active and
    disagree on their metadata. *)
Theorem AnalyzeMetadataHeads_spec heads :
  match AnalyzeMetadataHeads heads with
  | Ok d => analyzable heads ∧ merge_decision heads d
  | Err _ => ¬ analyzable heads
  end.
Proof.
  destruct (AnalyzeMetadataHeads heads) as [d|e] eqn:H.
  - split; [|by apply AnalyzeMetadataHeads_decision]. apply AnalyzeMetadataHeads_checks. by rewrite H.
  - intros Han%AnalyzeMetadataHeads_checks. by rewrite H in Han.
Qed.

(** an active merge of [AnalyzeHeads] joins equal secrets.  When it reports
    no conflict for two or more active heads, every head passed signature
    verification and all of them decrypt to one payload, provided that no
    payload is empty. *)
Theorem AnalyzeHeads_payloads heads crypto d :
  AnalyzeHeads heads (Some crypto) = Ok d →
  (∀ h, h ∈ heads → Decrypt crypto h ≠ Some "") →
  (∀ h, h ∈ heads → Verify crypto h = Ok tt) ∧
  (dec_RequiresMerge d = true → dec_Conflict d = false → dec_State d = "active" →
   ∃ payload, ∀ h, h ∈ heads → Decrypt crypto h = Some payload).
Proof. apply AnalyzeHeads_merge. Qed.

Lemma AnalyzeHeads_payloads_witness :
  ∃ payload, ∀ h, h ∈ [sample_left; sample_right] →
    Decrypt (mkCrypto (λ _, Ok tt) (λ _, Some "s3cret")) h = Some payload.
Proof.
  destruct (AnalyzeHeads [sample_left; sample_right]
    (Some (mkCrypto (λ _, Ok tt) (λ _, Some "s3cret")))) as [d|e] eqn:H.
  - apply (AnalyzeHeads_payloads _ _ d H); [done|..]; by revert H; vm_compute; intros [= <-].
  - exfalso. by revert H; vm_compute.
Defined.


(** replicas converge.  On a valid ledger [Summarize] never fails, it has one
    entry per credential, and two hosts that hold the same revisions compute the
    same summary whatever order they list them in and whatever order Go ranges
    over its maps in. *)
Theorem Summarize_converges order ids order' ids' revs revs' :
  key_order order revs → credential_order ids revs →
  key_order order' revs' → credential_order ids' revs' →
  valid_ledger revs → revs ≡ₚ revs' →
  Summarize order ids revs = Summarize order' ids' revs' ∧
  ∃ summaries, Summarize order ids revs = Ok summaries ∧ sum_CredentialID <$> summaries ≡ₚ ids.
Proof.
  intros Ho Hi Ho' Hi' Hled Hp. split; [by apply Summarize_perm|].
  destruct (Summarize_run revs Hled order ids Ho Hi) as (out & -> & Hk & _).
  eexists. split; [done|]. unfold sort_by_key. by rewrite sort_by_perm, Hk.
Qed.

Lemma Summarize_converges_witness :
  Summarize sample_keys sample_ids sample_replica =
  Summarize (reverse sample_keys) (reverse sample_ids) (reverse sample_replica).
Proof.
  assert (key_order sample_keys sample_replica) as Hk by by vm_compute.
  apply (Summarize_converges sample_keys sample_ids (reverse sample_keys) (reverse sample_ids)).
  - exact Hk.
  - apply (bool_decide_unpack (_ ≡ₚ _)). by vm_compute.
  - apply (bool_decide_unpack (_ ≡ₚ _)). by vm_compute.
  - apply (bool_decide_unpack (_ ≡ₚ _)). by vm_compute.
  - by apply (ValidateRevisions_Ok sample_keys); [exact Hk|vm_compute].
  - symmetry. apply reverse_Permutation.
Defined.

(** [RekeyRecipients] adds or removes exactly one actor: the result is the
    sorted, duplicate-free, non-empty list of safe actor IDs that were recipients,
    with the actor added when it is trusted and removed when it is not. *)
Theorem RekeyRecipients_spec current actor trust out :
  RekeyRecipients current actor trust = Ok out →
  StronglySorted String.le out ∧ NoDup out ∧ out ≠ [] ∧
  (∀ a, a ∈ out → SafeID a = true) ∧
  ∀ a, a ∈ out ↔ if trust then a = actor ∨ a ∈ current else a ∈ current ∧ a ≠ actor.
Proof. apply RekeyRecipients_Ok. Qed.

Lemma RekeyRecipients_spec_witness :
  RekeyRecipients ["host-b"; "host-a"] "host-a" false = Ok ["host-b"] ∧ NoDup ["host-b"].
Proof.
  assert (RekeyRecipients ["host-b"; "host-a"] "host-a" false = Ok ["host-b"]) as H by by vm_compute.
  split; [exact H|]. apply (RekeyRecipients_spec _ _ _ _ H).
Defined.
