(* ===== verification/CredentialSync.v ===== *)
(** * Credential peers and synchronisation state

    The peer and scheduling side of internal/credential/policy.go: enrolment of
    a peer, access to an exclusive credential, moving an assignment, and the
    retry state of synchronisation.  Durations are nanoseconds and [int] and
    [int64] are 64 bits wide, with their wrap-around where the code can reach
    it. *)

From S2P Require Import Prelude GoStrings Names Credential CredentialHeads.

(** ** Data *)

(** internal/domain/types.go:365-376 [CredentialPeer] *)
Record CredentialPeer := mkPeer {
  peer_SchemaVersion : Z;
  peer_Name : string;
  peer_ActorID : string;
  peer_AgeRecipient : string;
  peer_SigningPublic : string;
  peer_Transport : string;
  peer_Dest : string;
  peer_OwnerYardName : string;
  peer_ManualOnly : bool;
  peer_Trusted : bool;
}.

#[export] Instance CredentialPeer_eta : Eta CredentialPeer := λ p,
  mkPeer (peer_SchemaVersion p) (peer_Name p) (peer_ActorID p) (peer_AgeRecipient p)
    (peer_SigningPublic p) (peer_Transport p) (peer_Dest p) (peer_OwnerYardName p)
    (peer_ManualOnly p) (peer_Trusted p).

(** internal/domain/types.go:355-363 [CredentialSyncState] *)
Record CredentialSyncState := mkSyncState {
  sync_Peer : string;
  sync_LastAttempt : Z;
  sync_LastSuccess : Z;
  sync_Error : string;
  sync_LastHead : string;
  sync_ConsecutiveFailures : Z;
  sync_NextRetry : Z;
}.

#[export] Instance CredentialSyncState_eta : Eta CredentialSyncState := λ s,
  mkSyncState (sync_Peer s) (sync_LastAttempt s) (sync_LastSuccess s) (sync_Error s)
    (sync_LastHead s) (sync_ConsecutiveFailures s) (sync_NextRetry s).

Definition zero_sync_state : CredentialSyncState := mkSyncState "" 0 0 "" "" 0 0.

(** internal/credential/policy.go:28-31 [ExclusiveAccessDecision] *)
Record ExclusiveAccessDecision := mkAccess { Allowed : bool; access_Reason : string }.

Inductive sync_error :=
| PeerInvalid | LocalPeerHasRoute | SSHPeerInvalid | InboundPeerNotPassive | UnknownTransport
| EnrolledPeerInvalid (e : sync_error) | PeerActorChanged | PeerKeysChanged
| SyncContextInvalid | SyncOtherPeer | SyncPeerInvalid | SyncStateInvalid | SyncErrorTooLong
| SyncHeadInvalid | RetryOutOfRange | SyncTimeInvalid.

(** ** Peers *)

Definition crlf_nul : string := String "013" (String "010" (String "000" "")).

(** internal/credential/policy.go:57-82 [ValidatePeer] *)
Definition ValidatePeer (peer : CredentialPeer) : result sync_error unit :=
  refuse (negb (peer_SchemaVersion peer =? 1) || negb (SafeName (peer_Name peer)) ||
          negb (SafeID (peer_ActorID peer)) ||
          negb (HasPrefix (peer_AgeRecipient peer) "age1") || ContainsAny (peer_AgeRecipient peer) crlf_nul ||
          negb (HasPrefix (peer_SigningPublic peer) "ssh-ed25519 ") ||
          ContainsAny (peer_SigningPublic peer) crlf_nul || negb (peer_Trusted peer)) PeerInvalid;;
  if bool_decide (peer_Transport peer = "local") then
    refuse (negb (bool_decide (peer_Dest peer = "")) ||
            negb (bool_decide (peer_OwnerYardName peer = ""))) LocalPeerHasRoute
  else if bool_decide (peer_Transport peer = "ssh") then
    refuse (bool_decide (peer_Dest peer = "") || HasPrefix (peer_Dest peer) "-" ||
            ContainsAny (peer_Dest peer) crlf_nul ||
            (negb (bool_decide (peer_OwnerYardName peer = "")) &&
             negb (SafeName (peer_OwnerYardName peer)))) SSHPeerInvalid
  else if bool_decide (peer_Transport peer = "inbound") then
    refuse (negb (bool_decide (peer_Dest peer = "")) ||
            negb (bool_decide (peer_OwnerYardName peer = "")) ||
            negb (peer_ManualOnly peer)) InboundPeerNotPassive
  else Err UnknownTransport.

(** internal/credential/policy.go:33-55 [MergePeer] *)
Definition MergePeer (incoming : CredentialPeer) (existing : option CredentialPeer) :
    result sync_error CredentialPeer :=
  ValidatePeer incoming;;
  match existing with
  | None => Ok incoming
  | Some existing =>
      map_err EnrolledPeerInvalid (ValidatePeer existing);;
      refuse (negb (bool_decide (peer_ActorID existing = peer_ActorID incoming))) PeerActorChanged;;
      refuse (negb (bool_decide (peer_AgeRecipient existing = peer_AgeRecipient incoming)) ||
              negb (bool_decide (peer_SigningPublic existing = peer_SigningPublic incoming)))
        PeerKeysChanged;;
      if bool_decide (peer_Transport incoming = "inbound") &&
         (bool_decide (peer_Transport existing = "local") || bool_decide (peer_Transport existing = "ssh"))
      then Ok (existing <| peer_Trusted := true |>)
      else Ok incoming
  end.

(** ** Exclusive access *)

Definition Second : Z := 1000000000.
Definition Minute : Z := 60 * Second.
Definition Hour : Z := 60 * Minute.

(** internal/credential/policy.go:84-113 [CheckExclusiveAccess] *)
Definition CheckExclusiveAccess (head : CredentialMetadata) (actor yard : string)
    (authorityTrusted : bool) (lastSuccess now maximumAge : Z) :
    result cred_error ExclusiveAccessDecision :=
  validateMetadata head;;
  refuse (negb (Exclusive head) || negb (bool_decide (State head = "active"))) AccessNotExclusive;;
  refuse (negb (SafeID actor) || negb (validAssignedYard yard) || (now <? 1) || (maximumAge <=? 0))
    InvalidAccessContext;;
  if negb (bool_decide (AssignedYard head = yard)) then Ok (mkAccess false "not-assigned")
  else if bool_decide (AuthorityHost head = actor) then Ok (mkAccess true "authority-local")
  else if negb authorityTrusted then Ok (mkAccess false "authority-untrusted")
  else if (lastSuccess <=? 0) || (now <? lastSuccess) ||
          (Z.quot maximumAge Second <? i64 (now - lastSuccess))
  then Ok (mkAccess false "authority-stale")
  else Ok (mkAccess true "authority-fresh").

(** internal/credential/policy.go:399-418 [MoveAssignment] *)
Definition MoveAssignment (head : CredentialMetadata) (authorityHost assignedYard : string)
    (expectedEpoch : Z) : result cred_error CredentialMetadata :=
  refuse (negb (Exclusive head)) NotExclusive;;
  refuse (negb (AssignmentEpoch head =? expectedEpoch))
    (EpochChanged expectedEpoch (AssignmentEpoch head));;
  refuse (negb (SafeID authorityHost)) InvalidAuthority;;
  refuse (match Cut assignedYard "/" with
          | Some (owner, yard) => negb (SafeID owner) || negb (SafeName yard)
          | None => true
          end) InvalidAssignedYard;;
  Ok (head <| AuthorityHost := authorityHost |> <| AssignedYard := assignedYard |>
        <| AssignmentEpoch := i64 (AssignmentEpoch head + 1) |>).

(** ** Synchronisation state *)

(** internal/credential/policy.go:420-433 [RetryDelay] *)
Definition RetryDelay (consecutiveFailures : Z) : Z :=
  if consecutiveFailures <=? 0 then 6 * Hour
  else
    let exponent := consecutiveFailures - 1 in
    let exponent := if 6 <? exponent then 6 else exponent in
    let delay := 5 * Minute * Z.shiftl 1 exponent in
    if 6 * Hour <? delay then 6 * Hour else delay.

(** internal/credential/policy.go:572-574 [safeGitObjectID] *)
Definition safeGitObjectID (value : string) : bool :=
  ((len value =? 40) || (len value =? 64)) && isLowerHex value.

(** internal/credential/policy.go:493-508 [ValidateSyncState] *)
Definition ValidateSyncState (state : CredentialSyncState) : result sync_error unit :=
  refuse (negb (bool_decide (sync_Peer state = "")) && negb (SafeName (sync_Peer state))) SyncPeerInvalid;;
  refuse ((sync_LastAttempt state <? 0) || (sync_LastSuccess state <? 0) || (sync_NextRetry state <? 0) ||
          (sync_ConsecutiveFailures state <? 0) || (sync_LastAttempt state <? sync_LastSuccess state))
    SyncStateInvalid;;
  refuse (300 <? len (sync_Error state)) SyncErrorTooLong;;
  refuse (negb (bool_decide (sync_LastHead state = "")) && negb (safeGitObjectID (sync_LastHead state)))
    SyncHeadInvalid.

(** internal/credential/policy.go:435-478 [NextSyncState] *)
Definition NextSyncState (current : CredentialSyncState) (peer : string) (now : Z) (success : bool)
    (message head : string) (successRetry : Z) : result sync_error CredentialSyncState :=
  refuse (negb (SafeName peer) || (now <? 1)) SyncContextInvalid;;
  refuse (negb (bool_decide (sync_Peer current = "")) &&
          negb (bool_decide (sync_Peer current = peer))) SyncOtherPeer;;
  ValidateSyncState current;;
  refuse (300 <? len message) SyncErrorTooLong;;
  refuse (negb (bool_decide (head = "")) && negb (safeGitObjectID head)) SyncHeadInvalid;;
  let next := current <| sync_Peer := peer |> <| sync_LastAttempt := now |>
    <| sync_Error := message |> <| sync_LastHead := head |> in
  let delay := RetryDelay (i64 (sync_ConsecutiveFailures current + 1)) in
  '(next, delay) ←
    (if success then
       refuse ((successRetry <=? 0) || (7 * 24 * Hour <? successRetry)) RetryOutOfRange;;
       Ok (next <| sync_LastSuccess := now |> <| sync_ConsecutiveFailures := 0 |>
             <| sync_Error := "" |>, successRetry)
     else Ok (next <| sync_ConsecutiveFailures := i64 (sync_ConsecutiveFailures next + 1) |>, delay));
  Ok (next <| sync_NextRetry := i64 (now + Z.quot delay Second) |>).

(** internal/credential/policy.go:480-491 [SyncDue] *)
Definition SyncDue (state : CredentialSyncState) (now minimum : Z) : result sync_error bool :=
  refuse ((now <? 1) || (minimum <? 0)) SyncTimeInvalid;;
  ValidateSyncState state;;
  if 0 <? sync_NextRetry state then Ok (sync_NextRetry state <=? now)
  else Ok (Z.quot minimum Second <=? i64 (now - sync_LastAttempt state)).

(** ** Peers keep their identity *)

Lemma MergePeer_Ok incoming existing peer :
  MergePeer incoming existing = Ok peer →
  ValidatePeer peer = Ok tt ∧ (peer = incoming ∨ existing = Some peer) ∧
  ∀ old, existing = Some old →
    peer_ActorID peer = peer_ActorID old ∧ peer_AgeRecipient peer = peer_AgeRecipient old ∧
    peer_SigningPublic peer = peer_SigningPublic old ∧
    (peer_Transport incoming = "inbound" → peer_Transport old ∈ ["local"; "ssh"] → peer = old).
Proof.
  unfold MergePeer. intros H. apply bind_Ok in H as ([] & Hv & H).
  destruct existing as [old|]; [|injection H as <-; by split_and!; auto].
  apply bind_Ok in H as ([] & Ho%map_err_Ok & H).
  apply bind_Ok in H as ([] & Ha & H). apply bind_Ok in H as ([] & Hk & H).
  apply refuse_Ok in Ha, Hk. bools.
  assert (old <| peer_Trusted := true |> = old) as Hsame.
  { clear H. unfold ValidatePeer in Ho. apply bind_Ok in Ho as ([] & Ho & _). apply refuse_Ok in Ho. bools.
    destruct old; simpl in *; by subst. }
  rewrite Hsame in H.
  match type of H with (if ?b then _ else _) = _ => destruct b eqn:Hb end; injection H as <-.
  - split_and!; [done|by right|]. by intros ? [= ->].
  - split_and!; [done|by left|]. intros ? [= <-]. split_and!; [done..|]. intros Hin Hold. bools.
    set_solver.
Qed.

(** ** Synchronisation invariant *)

Lemma RetryDelay_bounds n : 5 * Minute ≤ RetryDelay n ≤ 6 * Hour.
Proof.
  unfold RetryDelay. cbv zeta. destruct (n <=? 0) eqn:Hn; bools; [unfold Hour, Minute, Second; lia|].
  set (e := if 6 <? n - 1 then 6 else n - 1).
  assert (0 ≤ e ≤ 6) as He by (unfold e; split_ifs; bools; lia).
  rewrite Z.shiftl_mul_pow2, Z.mul_1_l by lia.
  assert (2 ^ 0 ≤ 2 ^ e) by (apply Z.pow_le_mono_r; lia).
  split_ifs; bools; unfold Hour, Minute, Second in *; lia.
Qed.

(** The largest time, in seconds, that leaves room for the longest retry. *)
Definition max_now : Z := max_i64 - 7 * 24 * 3600.

Lemma ValidateSyncState_Ok s :
  ValidateSyncState s = Ok tt ↔
  (sync_Peer s ≠ "" → SafeName (sync_Peer s) = true) ∧
  (0 ≤ sync_LastSuccess s ≤ sync_LastAttempt s ∧ 0 ≤ sync_NextRetry s ∧ 0 ≤ sync_ConsecutiveFailures s) ∧
  len (sync_Error s) ≤ 300 ∧ (sync_LastHead s ≠ "" → safeGitObjectID (sync_LastHead s) = true).
Proof.
  unfold ValidateSyncState. rewrite !bind_Ok. setoid_rewrite bind_Ok. setoid_rewrite bind_Ok.
  setoid_rewrite refuse_Ok. split.
  - intros ([] & H1 & [] & H2 & [] & H3 & H4). bools. split_and!; try lia.
    + destruct H1; bools; naive_solver.
    + destruct H4; bools; naive_solver.
  - intros (H1 & H2 & H3 & H4). exists tt. split.
    { destruct (decide (sync_Peer s = "")) as [->|Hne]; [done|]. rewrite H1 by done. by rewrite andb_false_r. }
    exists tt. split; [bools; lia|]. exists tt. split; [bools; lia|].
    destruct (decide (sync_LastHead s = "")) as [->|Hne]; [done|]. rewrite H4 by done. by rewrite andb_false_r.
Qed.

Lemma NextSyncState_valid current peer now success message head successRetry next :
  NextSyncState current peer now success message head successRetry = Ok next →
  sync_LastSuccess current ≤ now ≤ max_now → sync_ConsecutiveFailures current < max_i64 →
  ValidateSyncState next = Ok tt ∧ sync_Peer next = peer ∧ sync_LastAttempt next = now ∧
  now ≤ sync_NextRetry next ≤ now + 7 * 24 * 3600 ∧
  sync_LastSuccess next = (if success then now else sync_LastSuccess current) ∧
  sync_ConsecutiveFailures next = (if success then 0 else sync_ConsecutiveFailures current + 1).
Proof.
  intros H Hnow Hfail. unfold NextSyncState in H. cbv zeta in H.
  apply bind_Ok in H as ([] & Hctx & H). apply bind_Ok in H as ([] & Hpeer & H).
  apply bind_Ok in H as ([] & Hcur & H). apply bind_Ok in H as ([] & Hmsg & H).
  apply bind_Ok in H as ([] & Hhead & H). apply bind_Ok in H as ([next' delay] & Hnext & H).
  apply refuse_Ok in Hctx, Hmsg, Hhead. bools. apply ValidateSyncState_Ok in Hcur as (_ & Hcur & _).
  injection H as <-.
  assert (0 ≤ delay ≤ 7 * 24 * Hour) as Hdelay.
  { destruct success; ok_bools; [unfold Hour, Minute, Second in *; lia|].
    pose proof (RetryDelay_bounds (i64 (sync_ConsecutiveFailures current + 1))).
    unfold Hour, Minute, Second in *. lia. }
  assert (0 ≤ Z.quot delay Second ≤ 7 * 24 * 3600) as Hq.
  { unfold Hour, Minute, Second in *. rewrite Z.quot_div_nonneg by lia.
    split; [apply Z.div_pos; lia|apply Z.div_le_upper_bound; lia]. }
  assert (i64 (now + Z.quot delay Second) = now + Z.quot delay Second) as Hi.
  { apply i64_small. unfold min_i64, max_now, max_i64 in *. lia. }
  assert (i64 (sync_ConsecutiveFailures current + 1) = sync_ConsecutiveFailures current + 1) as Hf.
  { apply i64_small. unfold min_i64, max_i64 in *. lia. }
  simpl. rewrite Hi. destruct success; ok_inv; simplify_eq; simpl in *; rewrite ?Hf in *.
  all: split_and!; try done; try lia; apply ValidateSyncState_Ok; simpl; split_and!; try done; try lia.
  all: destruct Hhead as [Hh|Hh]; bools; naive_solver.
Qed.

(** A synchronisation attempt and its outcome. *)
Record attempt := mkAttempt {
  at_now : Z; at_success : bool; at_message : string; at_head : string; at_retry : Z;
}.

(** The state after a sequence of attempts with one peer, from the state of a
    peer that was never contacted. *)
Definition sync_attempts (peer : string) (attempts : list attempt) : result sync_error CredentialSyncState :=
  for_range (λ state a,
    NextSyncState state peer (at_now a) (at_success a) (at_message a) (at_head a) (at_retry a))
    attempts zero_sync_state.

(** The number of failures since the last success. *)
Definition trailing_failures (attempts : list attempt) : Z :=
  foldl (λ n a, if at_success a then 0 else n + 1) 0 attempts.

(** The clock that the attempts read never goes back. *)
Definition monotone_clock (attempts : list attempt) : Prop :=
  StronglySorted (λ a b, at_now a ≤ at_now b) attempts.

Definition sync_invariant (peer : string) (done : list attempt) (s : CredentialSyncState) : Prop :=
  ValidateSyncState s = Ok tt ∧
  (done = [] ∧ s = zero_sync_state ∨
   sync_Peer s = peer ∧ Some (sync_LastAttempt s) = at_now <$> last done ∧
   sync_LastAttempt s ≤ sync_NextRetry s ≤ sync_LastAttempt s + 7 * 24 * 3600) ∧
  sync_ConsecutiveFailures s = trailing_failures done ∧
  0 ≤ trailing_failures done ≤ Z.of_nat (length done).

Lemma sync_invariant_start peer : sync_invariant peer [] zero_sync_state.
Proof. split_and!; [done|by left|done..]. Qed.

Lemma sync_invariant_step peer done a s s' :
  sync_invariant peer done s →
  NextSyncState s peer (at_now a) (at_success a) (at_message a) (at_head a) (at_retry a) = Ok s' →
  (∀ b, last done = Some b → at_now b ≤ at_now a) → at_now a ≤ max_now →
  Z.of_nat (length done) < max_i64 → sync_invariant peer (done ++ [a]) s'.
Proof.
  intros (Hv & Hlast & Hf & Hb) Hstep Hclock Hmax Hlen.
  apply ValidateSyncState_Ok in Hv as (_ & Hv & _).
  assert (sync_LastSuccess s ≤ at_now a) as Hls.
  { destruct Hlast as [[_ ->]|(_ & Ha & _)].
    - simpl. unfold NextSyncState in Hstep. apply bind_Ok in Hstep as ([] & Hc & _).
      apply refuse_Ok in Hc. bools. lia.
    - destruct (last done) as [b|]; [|done]. injection Ha as Ha. specialize (Hclock b eq_refl). lia. }
  destruct (NextSyncState_valid _ _ _ _ _ _ _ _ Hstep) as (V1 & V2 & V3 & V4 & V5 & V6); [done|lia|].
  unfold sync_invariant, trailing_failures in *.
  rewrite foldl_app, length_app, last_snoc. simpl. rewrite V6, V2, V3.
  split_and!; [done|right; split_and!; [done|done|lia|lia]|..].
  - destruct (at_success a); lia.
  - destruct (at_success a); lia.
  - destruct (at_success a); lia.
Qed.

Lemma sync_attempts_invariant peer attempts s :
  monotone_clock attempts → Forall (λ a, at_now a ≤ max_now) attempts →
  Z.of_nat (length attempts) < max_i64 →
  sync_attempts peer attempts = Ok s → sync_invariant peer attempts s.
Proof.
  intros Hmono Hmax Hlen H.
  refine (for_range_inv (sync_invariant peer) _ _ _ _ (sync_invariant_start peer) _ H).
  intros pre a post t t' -> Hinv Hstep. rewrite length_app in Hlen.
  eapply sync_invariant_step; [done|done| | |lia].
  - intros b Hb%last_Some_elem_of. 
    eapply (StronglySorted_app_1_elem_of (λ a b, at_now a ≤ at_now b) pre (a :: post)); [done..|by left].
  - rewrite Forall_forall in Hmax. apply Hmax. set_solver.
Qed.

(** ** Claims *)

Definition sample_peer : CredentialPeer :=
  mkPeer 1 "office" "host-b" "age1qqq" "ssh-ed25519 AAAA" "ssh" "me@office" "" false true.

Definition sample_inbound : CredentialPeer :=
  sample_peer <| peer_Transport := "inbound" |> <| peer_Dest := "" |> <| peer_ManualOnly := true |>.

(** an enrolled peer keeps its identity.  Whatever [MergePeer] returns is a
    valid, trusted peer, either the incoming or the enrolled record; when a peer
    was enrolled, its actor, age recipient and signing key are unchanged, and a
    passive inbound record never replaces an enrolled local or SSH route. *)
Theorem MergePeer_identity incoming existing peer :
  MergePeer incoming existing = Ok peer →
  ValidatePeer peer = Ok tt ∧ (peer = incoming ∨ existing = Some peer) ∧
  ∀ old, existing = Some old →
    peer_ActorID peer = peer_ActorID old ∧ peer_AgeRecipient peer = peer_AgeRecipient old ∧
    peer_SigningPublic peer = peer_SigningPublic old ∧
    (peer_Transport incoming = "inbound" → peer_Transport old ∈ ["local"; "ssh"] → peer = old).
Proof. apply MergePeer_Ok. Qed.

Lemma MergePeer_identity_witness :
  MergePeer sample_inbound (Some sample_peer) = Ok sample_peer ∧ ValidatePeer sample_peer = Ok tt.
Proof.
  assert (MergePeer sample_inbound (Some sample_peer) = Ok sample_peer) as H by by vm_compute.
  split; [exact H|]. apply (MergePeer_identity _ _ _ H).
Defined.

(** a host reads an exclusive credential only while it may.  For a
    well-formed active exclusive head and a well-formed request,
    [CheckExclusiveAccess] allows access exactly when the credential is assigned
    to the requesting yard and the request runs on the authority, or the
    authority is trusted and was last reached in the past and within the maximum
    age (in whole seconds). *)
Theorem CheckExclusiveAccess_spec head actor yard trusted lastSuccess now maximumAge d :
  CheckExclusiveAccess head actor yard trusted lastSuccess now maximumAge = Ok d →
  now ≤ max_i64 →
  Allowed d = true ↔
  AssignedYard head = yard ∧
  (AuthorityHost head = actor ∨
   trusted = true ∧ 0 < lastSuccess ≤ now ∧ now - lastSuccess ≤ Z.quot maximumAge Second).
Proof.
  unfold CheckExclusiveAccess. intros H Hmax.
  apply bind_Ok in H as ([] & _ & H). apply bind_Ok in H as ([] & _ & H). apply bind_Ok in H as ([] & _ & H).
  case_bool_decide as Hy; simpl in H; [|injection H as <-; simpl; naive_solver].
  case_bool_decide as Ha; simpl in H; [injection H as <-; simpl; naive_solver|].
  destruct trusted; simpl in H; [|injection H as <-; simpl; naive_solver].
  destruct (lastSuccess <=? 0) eqn:H1; simpl in H; [injection H as <-; simpl; bools; naive_solver lia|].
  destruct (now <? lastSuccess) eqn:H2; simpl in H; [injection H as <-; simpl; bools; naive_solver lia|].
  bools. rewrite i64_small in H by (unfold min_i64; lia).
  destruct (Z.quot maximumAge Second <? now - lastSuccess) eqn:H3; injection H as <-; simpl; bools;
    naive_solver lia.
Qed.

Lemma CheckExclusiveAccess_spec_witness :
  CheckExclusiveAccess sample_moved "host-b" "host-b/main" true 100 160 Minute =
    Ok (mkAccess true "authority-fresh") ∧ Allowed (mkAccess true "authority-fresh") = true.
Proof.
  assert (CheckExclusiveAccess sample_moved "host-b" "host-b/main" true 100 160 Minute =
    Ok (mkAccess true "authority-fresh")) as H by by vm_compute.
  split; [exact H|]. apply (CheckExclusiveAccess_spec _ _ _ _ _ _ _ _ H); [by vm_compute|].
  split; [done|]. right. by vm_compute.
Defined.

(** [MoveAssignment] produces the assignment that the ledger accepts.  A
    child of the head carrying the moved assignment satisfies the assignment
    rule of [ValidateRevisions] exactly when the authority is unchanged and the
    child is written by that authority; in particular the epoch is the next one. *)
Theorem MoveAssignment_ledger revs head authorityHost assignedYard expectedEpoch moved id actor :
  MoveAssignment head authorityHost assignedYard expectedEpoch = Ok moved →
  head ∈ revs → NoDup (RevisionID <$> revs) → 1 ≤ AssignmentEpoch head < max_i64 →
  AssignmentEpoch moved = expectedEpoch + 1 ∧
  (assignment_ok revs
     (moved <| RevisionID := id |> <| Parents := [RevisionID head] |> <| ActorID := actor |>) ↔
   authorityHost = AuthorityHost head ∧ actor = authorityHost).
Proof.
  unfold MoveAssignment. intros H Hin Hnd Hep. ok_bools.
  rewrite i64_small by (unfold min_i64; lia). simpl. split; [done|].
  assert (validAssignedYard assignedYard = true) as Hy.
  { unfold validAssignedYard. destruct (Cut assignedYard "/") as [[o y]|]; bools; [naive_solver|done]. }
  unfold assignment_ok. simpl.
  match goal with Hx : Exclusive head = true |- _ => rewrite Hx end.
  split.
  - intros (_ & _ & _ & _ & Hq). destruct (Hq head Hin) as (_ & Ha & [[_ He]|[Hact _]]);
      [by left|lia|]. by rewrite Ha, Hact.
  - intros [-> ->]. split_and!; [done|done|lia|done|]. intros q Hq Hid%list_elem_of_singleton.
    rewrite (NoDup_key RevisionID revs q head Hnd Hq Hin Hid). split_and!; [done|done|]. right. split; [done|lia].
Qed.

Lemma MoveAssignment_ledger_witness :
  ∃ moved, MoveAssignment sample_moved "host-a" "host-c/main" 2 = Ok moved ∧ AssignmentEpoch moved = 3.
Proof.
  eexists. split; [by vm_compute|].
  eapply (MoveAssignment_ledger sample_ledger sample_moved "host-a" "host-c/main" 2 _ "x" "host-a").
  - by vm_compute.
  - by left.
  - apply (bool_decide_unpack _). by vm_compute.
  - by vm_compute.
Defined.

(** synchronisation state stays valid.  After any sequence of attempts with
    one peer whose clock never goes back, the state is one that
    [ValidateSyncState] accepts, it records the last attempt, the next retry
    lies within seven days after it, and the failure count is the number of
    failures since the last success. *)
Theorem sync_attempts_valid peer attempts s :
  monotone_clock attempts → Forall (λ a, at_now a ≤ max_now) attempts →
  Z.of_nat (length attempts) < max_i64 →
  sync_attempts peer attempts = Ok s → attempts ≠ [] →
  ValidateSyncState s = Ok tt ∧ sync_Peer s = peer ∧ Some (sync_LastAttempt s) = at_now <$> last attempts ∧
  sync_LastAttempt s ≤ sync_NextRetry s ≤ sync_LastAttempt s + 7 * 24 * 3600 ∧
  sync_ConsecutiveFailures s = trailing_failures attempts.
Proof.
  intros Hmono Hmax Hlen H Hne.
  destruct (sync_attempts_invariant _ _ _ Hmono Hmax Hlen H) as (Hv & [[? _]|Hl] & Hf & _); naive_solver.
Qed.

Definition sample_attempts : list attempt :=
  [mkAttempt 100 true "" "" Hour; mkAttempt 3700 false "timeout" "" Hour;
   mkAttempt 4000 false "timeout" "" Hour].

Lemma sync_attempts_valid_witness :
  ∃ s, sync_attempts "office" sample_attempts = Ok s ∧ sync_ConsecutiveFailures s = 2.
Proof.
  eexists. split; [by vm_compute|].
  refine (proj2 (proj2 (proj2 (proj2 (sync_attempts_valid "office" sample_attempts _ _ _ _ _ _))))).
  - by repeat constructor; simpl.
  - by repeat constructor.
  - by vm_compute.
  - by vm_compute.
  - done.
Defined.

(** C33: a clock that went back wedges the state.  A failed attempt at a time
    before the last success is accepted and produces a state that
    [ValidateSyncState] refuses, so that every later [NextSyncState] and
    [SyncDue] on it fails. *)
Theorem NextSyncState_clock_back current peer now message head retry next :
  NextSyncState current peer now false message head retry = Ok next →
  now < sync_LastSuccess current →
  ValidateSyncState next ≠ Ok tt ∧
  (∀ p n s m h r, is_ok (NextSyncState next p n s m h r) = false) ∧
  (∀ n m, is_ok (SyncDue next n m) = false).
Proof.
  intros H Hback. assert (ValidateSyncState next ≠ Ok tt) as Hbad.
  { intros (_ & Hv & _)%ValidateSyncState_Ok. unfold NextSyncState in H. cbv zeta in H.
    repeat (apply bind_Ok in H as (? & ? & H)). ok_inv. simplify_eq/=. lia. }
  split_and!; [done|..].
  - intros. apply not_true_iff_false. rewrite is_ok_spec. intros [t Ht]. unfold NextSyncState in Ht.
    by do 3 (apply bind_Ok in Ht as ([] & ? & Ht)).
  - intros. apply not_true_iff_false. rewrite is_ok_spec. intros [t Ht]. unfold SyncDue in Ht.
    by do 2 (apply bind_Ok in Ht as ([] & ? & Ht)).
Qed.

Lemma NextSyncState_clock_back_witness :
  ∃ current next, ValidateSyncState current = Ok tt ∧
    NextSyncState current "office" 50 false "timeout" "" Hour = Ok next ∧ ValidateSyncState next ≠ Ok tt.
Proof.
  exists (mkSyncState "office" 100 100 "" "" 0 3700). eexists. split_and!; [by vm_compute..|].
  eapply (NextSyncState_clock_back (mkSyncState "office" 100 100 "" "" 0 3700) "office" 50 "timeout" "" Hour);
    by vm_compute.
Defined.
