(* ===== verification/LeaseData.v ===== *)
(** * Test-VM leases: data

    internal/adapters/testvmsruntime: the records of the lease broker (lease.go),
    the text rules of its fields and of the attribution of a lease, slot names
    (lifecycle.go) and environments (environment.go, config.go). *)

From S2P Require Import Prelude GoStrings Names Sha256.

(** ** Data *)

(** Times are nanoseconds since Go's zero time, so that [IsZero] is [= 0]. *)
Definition time_is_zero (t : Z) : bool := t =? 0.

Definition lease_minute : Z := 60 * 1000000000.

(** internal/adapters/testvmsruntime/lease.go:19-33 [provisioningSafetyMargin, LeaseTTL, ProvisioningTTL] *)
Definition provisioningSafetyMargin : Z := 30 * lease_minute.
Definition provisionedGuestCount : Z := 2.
Definition guestToolchainTimeout : Z := 30 * lease_minute.
Definition LeaseSchemaVersion : Z := 2.
Definition LeaseFencedSchemaVersion : Z := 3.
Definition LeaseRecoverySchemaVersion : Z := 1.
Definition LeaseAttributionSchemaVersion : Z := 2.
Definition LeaseAttributionSchemaV1 : Z := 1.
Definition LeaseTTL : Z := 20 * lease_minute.
Definition ProvisioningTTL : Z :=
  provisionedGuestCount * guestToolchainTimeout + provisioningSafetyMargin.

Definition heartbeatExpiredReason : string := "heartbeat expired; cleanup required".
Definition provisioningExpiredReason : string := "provisioning deadline expired; cleanup required".

(** internal/adapters/testvmsruntime/lease.go:50-60 [SlotState]: a Go string, with
    seven named values. *)
Definition SlotState : Type := string.
Definition SlotAvailable : SlotState := "available".
Definition SlotProvisioning : SlotState := "provisioning".
Definition SlotHeld : SlotState := "held".
Definition SlotDraining : SlotState := "draining".
Definition SlotQuarantined : SlotState := "quarantined".
Definition SlotRecovering : SlotState := "recovering".
Definition SlotUnavailable : SlotState := "unavailable".

(** internal/adapters/testvmsruntime/acquire_session.go:17-21 [AcquireOwner] *)
Record AcquireOwner := mkOwner { owner_PID : Z; owner_Start : string; owner_Boot : string }.

#[export] Instance AcquireOwner_eq_dec : EqDecision AcquireOwner.
Proof. solve_decision. Defined.

(** internal/adapters/testvmsruntime/environment.go:17-24 [EnvironmentSpec] *)
Record EnvironmentSpec := mkSpec {
  spec_Name : string;
  spec_Count : Z;
  spec_CPU : Z;
  spec_Memory : string;
  spec_Disk : string;
  spec_Lifecycle : string;
}.

#[export] Instance EnvironmentSpec_eq_dec : EqDecision EnvironmentSpec.
Proof. solve_decision. Defined.

(** internal/adapters/testvmsruntime/lease.go:91-122 [LeaseSlot] *)
Record LeaseSlot := mkSlot {
  slot_AcquireOwner : option AcquireOwner;
  slot_Environment : option EnvironmentSpec;
  slot_BaseFingerprint : string;
  slot_Reserved : bool;
  slot_LegacyRetained : bool;
  slot_SlotID : string;
  slot_ResourceGeneration : Z;
  slot_LeaseEpoch : Z;
  slot_State : SlotState;
  slot_ClientID : string;
  slot_ControllerFingerprint : string;
  slot_DisplayLabel : string;
  slot_Yard : string;
  slot_Project : string;
  slot_Checkout : string;
  slot_Run : string;
  slot_Purpose : string;
  slot_LeaseID : string;
  slot_CapabilityHash : string;
  slot_AcquiredAt : Z;
  slot_ProvisioningStartedAt : Z;
  slot_ReadyAt : Z;
  slot_LastHeartbeatAt : Z;
  slot_ExpiresAt : Z;
  slot_FailureReason : string;
  slot_LastFailureEventID : string;
  slot_IncidentID : string;
  slot_RecoveryAttempt : Z;
  slot_NextRecoveryAt : Z;
  slot_RecoveryStartedAt : Z;
}.

#[export] Instance LeaseSlot_eta : Eta LeaseSlot := λ s,
  mkSlot (slot_AcquireOwner s) (slot_Environment s) (slot_BaseFingerprint s) (slot_Reserved s)
    (slot_LegacyRetained s) (slot_SlotID s) (slot_ResourceGeneration s) (slot_LeaseEpoch s)
    (slot_State s) (slot_ClientID s) (slot_ControllerFingerprint s) (slot_DisplayLabel s)
    (slot_Yard s) (slot_Project s) (slot_Checkout s) (slot_Run s) (slot_Purpose s)
    (slot_LeaseID s) (slot_CapabilityHash s) (slot_AcquiredAt s) (slot_ProvisioningStartedAt s)
    (slot_ReadyAt s) (slot_LastHeartbeatAt s) (slot_ExpiresAt s) (slot_FailureReason s)
    (slot_LastFailureEventID s) (slot_IncidentID s) (slot_RecoveryAttempt s)
    (slot_NextRecoveryAt s) (slot_RecoveryStartedAt s).

#[export] Instance LeaseSlot_eq_dec : EqDecision LeaseSlot.
Proof. solve_decision. Defined.

(** internal/adapters/testvmsruntime/lease.go:124-130 [LeasePool] *)
Record LeasePool := mkPool {
  pool_AdmissionClosed : bool;
  pool_SchemaVersion : Z;
  pool_ResourceType : string;
  pool_ResourceID : string;
  pool_Slots : list LeaseSlot;
}.

#[export] Instance LeasePool_eta : Eta LeasePool := λ p,
  mkPool (pool_AdmissionClosed p) (pool_SchemaVersion p) (pool_ResourceType p) (pool_ResourceID p)
    (pool_Slots p).

#[export] Instance LeasePool_eq_dec : EqDecision LeasePool.
Proof. solve_decision. Defined.

(** internal/adapters/testvmsruntime/lease.go:137-147 [leaseRecoverySlot] *)
Record leaseRecoverySlot := mkRecovery {
  rec_SlotID : string;
  rec_ResourceGeneration : Z;
  rec_LeaseEpoch : Z;
  rec_State : SlotState;
  rec_LastFailureEventID : string;
  rec_IncidentID : string;
  rec_RecoveryAttempt : Z;
  rec_NextRecoveryAt : Z;
  rec_RecoveryStartedAt : Z;
}.

(** internal/adapters/testvmsruntime/lease.go:132-135 [leaseRecoveryJournal] *)
Record leaseRecoveryJournal := mkJournal {
  journal_SchemaVersion : Z;
  journal_Slots : list leaseRecoverySlot;
}.

(** internal/adapters/testvmsruntime/lease.go:180-187 [LeaseContext] *)
Record LeaseContext := mkContext {
  ctx_SchemaVersion : Z;
  ctx_Yard : string;
  ctx_Project : string;
  ctx_Checkout : string;
  ctx_Run : string;
  ctx_Purpose : string;
}.

(** The fields of the grant that the broker fills on admission; the targets and
    the data user are added by the VM runtime later.
    internal/adapters/testvmsruntime/lease.go:149-161 [LeaseGrant] *)
Record LeaseGrant := mkGrant {
  grant_Environment : option EnvironmentSpec;
  grant_SlotID : string;
  grant_ResourceGeneration : Z;
  grant_LeaseID : string;
  grant_Capability : string;
  grant_LeaseEpoch : Z;
  grant_ExpiresAt : Z;
  grant_Context : option LeaseContext;
}.

(** internal/adapters/testvmsruntime/lease.go:166-170 [LeaseIdentity] *)
Record LeaseIdentity := mkIdentity {
  id_SlotID : string;
  id_ResourceGeneration : Z;
  id_LeaseEpoch : Z;
}.

(** internal/adapters/testvmsruntime/lease.go:80-88 [LeaseOwnerSnapshot] *)
Record LeaseOwnerSnapshot := mkSnapshot {
  snap_DisplayLabel : string;
  snap_Yard : string;
  snap_Project : string;
  snap_Run : string;
  snap_Purpose : string;
  snap_AcquiredAt : Z;
  snap_ExpiresAt : Z;
}.

#[export] Instance LeaseOwnerSnapshot_eq_dec : EqDecision LeaseOwnerSnapshot.
Proof. solve_decision. Defined.

(** The error returns of the component. *)
Inductive lease_error :=
| CorruptLeaseState
| UnsupportedLeaseState
| InvalidSlot (id : string)
| SlotBusy (state : SlotState) (reason : string) (owner : option LeaseOwnerSnapshot)
| LeaseLost
| LeaseTargetStale
| SlotCountNotPositive
| UnknownSlot (id : string)
| CannotShrink (id : string) (state : SlotState)
| LegacyRetirementRequired (id : string)
| ShrinkNeedsReconciliation
| ResizeNotPrepared
| NotFenced (id : string)
| NotProvisioning (state : SlotState)
| NotDraining (id : string)
| WrongState (id : string) (state : SlotState)
| InvalidClientID
| InvalidFingerprint
| InvalidDisplayMetadata
| InvalidIncident
| IncompleteIdentity
| CauseRequired
| RandomFailure
| StateChanged
| NoLegacyData
| UnsupportedAttribution
| InvalidAttribution (field : string)
| InvalidEnvironment (what : string)
| InvalidSlotInventory (id : string).

#[export] Instance lease_error_eq_dec : EqDecision lease_error.
Proof. solve_decision. Defined.

(** ** Text of the fields *)

Definition nul_cr_lf_tab : string := String "000" (String "013" (String "010" (String "009" ""))).

(** internal/adapters/testvmsruntime/lease.go:1333-1335 [safeLeaseText] *)
Definition safeLeaseText (value : string) (maximum : Z) : bool :=
  (len value <=? maximum) && negb (ContainsAny value nul_cr_lf_tab).

(** internal/adapters/testvmsruntime/lease.go:1294-1318 [safeLeaseLabel] *)
Definition label_rune (c : Z) : bool :=
  is_lower c || is_upper c || is_digit c || ContainsRune "._/+-:" c.

Definition safeLeaseLabel (value : string) (maximum : Z) : bool :=
  if bool_decide (value = "") || (maximum <? len value) then false
  else if HasPrefix value "/" || HasSuffix value "/" || Contains value "//" then false
  else if existsb (λ component, bool_decide (component = ".") || bool_decide (component = ".."))
            (Split value "/") then false
  else forallb label_rune (runes value).

(** internal/adapters/testvmsruntime/lease.go:1269-1285 [safeCanonicalYard] *)
Definition yard_rune (c : Z) : bool := is_lower c || is_digit c || (c =? 95) || (c =? 45).

Definition safeCanonicalYard (value : string) : bool :=
  match bytes value with
  | [] => false
  | b :: _ =>
      if 32 <? len value then false
      else if negb (is_lower b) && negb (is_digit b) then false
      else forallb yard_rune (runes value)
  end.

(** internal/adapters/testvmsruntime/lease.go:1287-1292 [contextDisplayLabel] *)
Definition contextDisplayLabel (context : LeaseContext) : string :=
  if ctx_SchemaVersion context =? LeaseAttributionSchemaVersion
  then ctx_Project context +:+ "#" +:+ ctx_Run context
  else ctx_Project context +:+ "@" +:+ ctx_Checkout context +:+ "#" +:+ ctx_Run context.

(** internal/adapters/testvmsruntime/lease.go:1226-1267 [validateLeaseContext] *)
Definition validateLeaseContext (context : LeaseContext) :
    result lease_error unit :=
  let v1 := ctx_SchemaVersion context =? LeaseAttributionSchemaV1 in
  let v2 := ctx_SchemaVersion context =? LeaseAttributionSchemaVersion in
  refuse (negb v1 && negb v2) UnsupportedAttribution;;
  (if v1 then
     refuse (negb (bool_decide (ctx_Yard context = "")) || bool_decide (ctx_Checkout context = ""))
       (InvalidAttribution "schema-1")
   else
     refuse (bool_decide (ctx_Yard context = "") || negb (bool_decide (ctx_Checkout context = "")))
       (InvalidAttribution "schema-2"));;
  for_each (λ '(name, value, maximum), refuse (negb (safeLeaseLabel value maximum)) (InvalidAttribution name))
    [("project", ctx_Project context, 50); ("run", ctx_Run context, 24);
     ("purpose", ctx_Purpose context, 80)];;
  refuse (v1 && negb (safeLeaseLabel (ctx_Checkout context) 24)) (InvalidAttribution "checkout");;
  refuse (v2 && negb (safeCanonicalYard (ctx_Yard context))) (InvalidAttribution "yard");;
  refuse (v2 && negb (SafeProjectName (ctx_Project context))) (InvalidAttribution "canonical project");;
  refuse (negb (safeLeaseText (contextDisplayLabel context) 80)) (InvalidAttribution "label").

(** internal/adapters/testvmsruntime/lease.go:1207-1224 [legacyLeaseContext] *)
Definition legacyLeaseContext (label purpose : string) : option LeaseContext :=
  let hash := LastIndex label "#" in
  let at_ := LastIndex label "@" in
  if (at_ <=? 0) || (hash <=? at_ + 1) || (hash =? len label - 1) then None
  else
    let context := mkContext LeaseAttributionSchemaV1 "" (slice label 0 at_)
      (slice label (at_ + 1) hash) (slice label (hash + 1) (len label)) purpose in
    if is_ok (validateLeaseContext context) then Some context else None.

(** internal/adapters/testvmsruntime/lease.go:1337-1348 [boundedReason].
    [strings.Map] drops a rune mapped to -1 and repairs invalid bytes; the cut at
    240 is on bytes. *)
Definition boundedReason (value : string) : string :=
  let mapped := foldr (λ seg acc,
    if (seg.1 <? 0x20) || (seg.1 =? 0x7f) then acc else repair_segment seg +:+ acc) "" (segments value) in
  if 240 <? len mapped then string_take 240 mapped else mapped.

(** ** Slot names *)

(** [fmt.Sprintf("slot-%03d", n)] *)
Definition slot_name (n : Z) : string := "slot-" +:+ pad_decimal 3 n.

(** internal/adapters/testvmsruntime/lifecycle.go:592-602 [slotNumberUnbounded] *)
Definition slotNumberUnbounded (slotID : string) : result lease_error Z :=
  refuse (negb (HasPrefix slotID "slot-")) (InvalidSlot slotID);;
  value ← expect (Atoi (TrimPrefix slotID "slot-")) (InvalidSlot slotID);
  refuse (value <? 1) (InvalidSlot slotID);;
  Ok value.

(** internal/adapters/testvmsruntime/lifecycle.go:584-590 [slotNumber] *)
Definition slotNumber (slotID : string) (maximum : Z) : result lease_error Z :=
  value ← slotNumberUnbounded slotID;
  refuse (maximum <? value) (InvalidSlot slotID);;
  Ok value.

(** internal/adapters/testvmsruntime/events.go:30-31 [brokerRecordID, brokerSlotID]:
    [^[0-9]{20}-[0-9a-f]{16}$] and [^slot-[0-9]{3}$]. *)
Definition hex_lower (b : Z) : bool := is_digit b || between 97 b 102.

Definition brokerRecordID (value : string) : bool :=
  (len value =? 37) && forallb is_digit (bytes (string_take 20 value)) &&
  HasPrefix (string_drop 20 value) "-" && forallb hex_lower (bytes (string_drop 21 value)).

Definition brokerSlotID (value : string) : bool :=
  (len value =? 8) && HasPrefix value "slot-" && forallb is_digit (bytes (string_drop 5 value)).

(** ** Environments *)

(** internal/adapters/testvmsruntime/config.go:213-229 [sizeMiB].  The pattern
    of line 27 is a decimal number without a leading zero, then MiB or GiB. *)
Definition sizeMiB (value : string) : option Z :=
  let n := (String.length value - 3)%nat in
  let digits := string_take n value in
  let unit := string_drop n value in
  if negb (forallb is_digit (bytes digits)) || bool_decide (digits = "") || HasPrefix digits "0" ||
     negb (bool_decide (unit = "MiB") || bool_decide (unit = "GiB")) then None
  else
    let number := decimal_value digits in
    if (max_u64 <? number) || (number =? 0) || (2 ^ 30 <? number) then None
    else
      let number := if bool_decide (unit = "GiB") then number * 1024 else number in
      if 2 ^ 30 <? number then None else Some number.

(** internal/adapters/testvmsruntime/environment.go:46-61 [EnvironmentSpec.Validate] *)
Definition ValidateEnvironmentSpec (spec : EnvironmentSpec) : result lease_error unit :=
  refuse (negb (bool_decide (spec_Lifecycle spec = "disposable-v1")) || (spec_CPU spec <? 1))
    (InvalidEnvironment "lifecycle");;
  refuse ((negb (bool_decide (spec_Name spec = "subyard-pair")) ||
           (negb (spec_Count spec =? 1) && negb (spec_Count spec =? 2))) &&
          (negb (bool_decide (spec_Name spec = "android-test")) || negb (spec_Count spec =? 1)))
    (InvalidEnvironment "composition");;
  refuse (bool_decide (sizeMiB (spec_Memory spec) = None)) (InvalidEnvironment "memory");;
  disk ← expect (sizeMiB (spec_Disk spec)) (InvalidEnvironment "disk");
  refuse (disk <? 10 * 1024) (InvalidEnvironment "disk").

(** internal/adapters/testvmsruntime/lease.go:172-178 [LeaseIdentity.validate] *)
Definition validateIdentity (identity : LeaseIdentity) : result lease_error unit :=
  refuse (negb (brokerSlotID (id_SlotID identity)) || (id_ResourceGeneration identity =? 0) ||
          (id_LeaseEpoch identity =? 0)) IncompleteIdentity.

(** internal/adapters/testvmsruntime/lease.go:1328-1331 [capabilityDigest] *)
Definition capabilityDigest (value : string) : string := EncodeToString (Sum256 value).
