(* ===== verification/LeaseStore.v ===== *)
(** * Test-VM leases: the broker store

    internal/adapters/testvmsruntime/lease.go: the durable lease pool.  Every
    operation takes the file lock, loads the pool, brings it to the configured
    size, expires stale leases, runs its own step and writes the pool back; an
    error writes nothing.  An operation is a function from the files to a reply
    and the new files.

    The clock and the liveness of the process that requested a lease are
    observations: the first one is read when the pool is expired, the second one
    inside the operation. *)

From S2P Require Import Prelude GoStrings GoSort Names Sha256 LeaseData.

(** ** Files *)

(** A JSON file: missing, not decodable, or holding a document.  A document is
    the value that decoding produces, with the defaults of [load] for fields it
    omits. *)
Inductive file (A : Type) := Absent | Garbage | Doc (a : A).
Arguments Absent {A}.
Arguments Garbage {A}.
Arguments Doc {A} _.

Record disk := mkDisk { disk_pool : file LeasePool; disk_journal : file leaseRecoveryJournal }.

#[export] Instance disk_eta : Eta disk := λ d, mkDisk (disk_pool d) (disk_journal d).

(** Encoding and decoding a slot.  [encoding/json] repairs text that is not valid
    UTF-8; only the fields below can hold such text, because the others are
    counters, times, constants, hexadecimal digests or checked identifiers. *)
Definition json_slot (s : LeaseSlot) : LeaseSlot :=
  mkSlot (slot_AcquireOwner s) (slot_Environment s) (ToValidText (slot_BaseFingerprint s))
    (slot_Reserved s) (slot_LegacyRetained s) (slot_SlotID s) (slot_ResourceGeneration s)
    (slot_LeaseEpoch s) (slot_State s) (ToValidText (slot_ClientID s))
    (ToValidText (slot_ControllerFingerprint s)) (ToValidText (slot_DisplayLabel s))
    (ToValidText (slot_Yard s)) (ToValidText (slot_Project s)) (ToValidText (slot_Checkout s))
    (ToValidText (slot_Run s)) (ToValidText (slot_Purpose s)) (slot_LeaseID s) (slot_CapabilityHash s)
    (slot_AcquiredAt s) (slot_ProvisioningStartedAt s) (slot_ReadyAt s) (slot_LastHeartbeatAt s)
    (slot_ExpiresAt s) (ToValidText (slot_FailureReason s)) (slot_LastFailureEventID s)
    (slot_IncidentID s) (slot_RecoveryAttempt s) (slot_NextRecoveryAt s) (slot_RecoveryStartedAt s).

Definition json_pool (p : LeasePool) : LeasePool := p <| pool_Slots := json_slot <$> pool_Slots p |>.

(** ** Slots *)

(** internal/adapters/testvmsruntime/lease.go:1170-1177 [findSlot]: the first slot with the ID,
    and its index. *)
Definition findSlot (slots : list LeaseSlot) (id : string) : option (nat * LeaseSlot) :=
  list_find (λ s, slot_SlotID s = id) slots.

(** A step on the slot that [findSlot] points to. *)
Definition on_slot {A} (pool : LeasePool) (id : string)
    (step : LeaseSlot → result lease_error (LeaseSlot * A)) : result lease_error (LeasePool * A) :=
  '(index, slot) ← expect (findSlot (pool_Slots pool) id) (UnknownSlot id);
  '(slot', a) ← step slot;
  Ok (pool <| pool_Slots := <[index := slot']> (pool_Slots pool) |>, a).

(** internal/adapters/testvmsruntime/lease.go:1179-1205 [clearLease] *)
Definition clearLease (s : LeaseSlot) : LeaseSlot :=
  mkSlot None None "" false (slot_LegacyRetained s) (slot_SlotID s) (slot_ResourceGeneration s)
    (slot_LeaseEpoch s) (slot_State s) "" "" "" "" "" "" "" "" "" "" 0 0 0 0 0 "" "" "" 0 0 0.

(** The zero [LeaseSlot] with the fields that a composite literal sets. *)
Definition new_slot (id : string) (state : SlotState) (legacy : bool) (reason : string) (next : Z) :
    LeaseSlot :=
  mkSlot None None "" false legacy id 1 0 state "" "" "" "" "" "" "" "" "" "" 0 0 0 0 0 reason "" "" 0 next 0.

(** What an operation observes of the outside: the clock and which acquire
    owners are alive. *)
Record Observation := mkObs { obs_now : Z; obs_alive : AcquireOwner → bool }.

(** The loop body of [expireStale].
    internal/adapters/testvmsruntime/lease.go:1149-1167 [expireStale, loop body] *)
Definition expire_slot (o : Observation) (s : LeaseSlot) : LeaseSlot :=
  if match slot_AcquireOwner s with
     | Some owner => (bool_decide (slot_State s = SlotProvisioning) || bool_decide (slot_State s = SlotHeld)) &&
                     negb (obs_alive o owner)
     | None => false
     end
  then s <| slot_State := SlotDraining |>
         <| slot_FailureReason := "acquire requester lost; cleanup required" |>
  else if time_is_zero (slot_ExpiresAt s) || (obs_now o <? slot_ExpiresAt s) then s
  else if bool_decide (slot_State s = SlotHeld) then
    s <| slot_State := SlotDraining |> <| slot_FailureReason := heartbeatExpiredReason |>
  else if bool_decide (slot_State s = SlotProvisioning) then
    s <| slot_State := SlotDraining |> <| slot_FailureReason := provisioningExpiredReason |>
  else s.

(** internal/adapters/testvmsruntime/lease.go:1148-1168 [expireStale] *)
Definition expireStale (o : Observation) (pool : LeasePool) : LeasePool :=
  pool <| pool_Slots := expire_slot o <$> pool_Slots pool |>.

(** internal/adapters/testvmsruntime/lease.go:1052-1070 [reconcileSlotCount] *)
Definition reconcileSlotCount (pool : LeasePool) (count : Z) : result lease_error LeasePool :=
  let slots := sort_by_key slot_SlotID (pool_Slots pool) in
  let have := Z.of_nat (length slots) in
  let slots := slots ++ ((λ index, new_slot (slot_name index) SlotAvailable false "" 0)
                           <$> seqZ (have + 1) (count - have)) in
  let pool := pool <| pool_Slots := slots |> in
  if Z.of_nat (length slots) <=? count then Ok pool
  else
    for_each (λ slot, refuse (negb (bool_decide (slot_State slot = SlotAvailable)))
                        (CannotShrink (slot_SlotID slot) (slot_State slot)))
      (drop (Z.to_nat count) slots);;
    Err ShrinkNeedsReconciliation.

(** ** Loading and writing *)

(** internal/adapters/testvmsruntime/lease.go:994-1002 [slotHasRecoveryMetadata] *)
Definition slotHasRecoveryMetadata (s : LeaseSlot) : bool :=
  bool_decide (slot_State s = SlotQuarantined) || bool_decide (slot_State s = SlotRecovering) ||
  negb (bool_decide (slot_LastFailureEventID s = "")) || negb (bool_decide (slot_IncidentID s = "")) ||
  negb (slot_RecoveryAttempt s =? 0) || negb (time_is_zero (slot_NextRecoveryAt s)) ||
  negb (time_is_zero (slot_RecoveryStartedAt s)).

Definition recovery_of (s : LeaseSlot) : leaseRecoverySlot :=
  mkRecovery (slot_SlotID s) (slot_ResourceGeneration s) (slot_LeaseEpoch s) (slot_State s)
    (slot_LastFailureEventID s) (slot_IncidentID s) (slot_RecoveryAttempt s)
    (slot_NextRecoveryAt s) (slot_RecoveryStartedAt s).

(** The journal half of [writePool].
    internal/adapters/testvmsruntime/lease.go:920-944 [writePool, journal] *)
Definition write_journal (pool : LeasePool) : file leaseRecoveryJournal :=
  let entries := recovery_of <$> filter (λ s, slotHasRecoveryMetadata s = true) (pool_Slots pool) in
  if bool_decide (entries ≠ []) then Doc (mkJournal LeaseRecoverySchemaVersion entries) else Absent.

(** internal/adapters/testvmsruntime/lease.go:919-946 [writePool]: the journal first, then
    the pool, each replaced atomically. *)
Definition writePool (d : disk) (pool : LeasePool) : disk :=
  let d := d <| disk_journal := write_journal pool |> in
  d <| disk_pool := Doc (json_pool pool) |>.

Definition valid_recovery (known : gset string) (r : leaseRecoverySlot) : bool :=
  negb (negb (brokerSlotID (rec_SlotID r)) || seen (rec_SlotID r) known ||
        (rec_ResourceGeneration r =? 0) ||
        (negb (bool_decide (rec_LastFailureEventID r = "")) && negb (brokerRecordID (rec_LastFailureEventID r))) ||
        (negb (bool_decide (rec_IncidentID r = "")) && negb (brokerRecordID (rec_IncidentID r)))).

Definition journal_state (state : SlotState) : bool :=
  bool_decide (state = SlotAvailable) || bool_decide (state = SlotQuarantined) ||
  bool_decide (state = SlotRecovering).

Definition restore_recovery (r : leaseRecoverySlot) (s : LeaseSlot) : LeaseSlot :=
  mkSlot (slot_AcquireOwner s) (slot_Environment s) (slot_BaseFingerprint s) (slot_Reserved s)
    (slot_LegacyRetained s) (slot_SlotID s) (slot_ResourceGeneration s) (slot_LeaseEpoch s)
    (slot_State s) (slot_ClientID s) (slot_ControllerFingerprint s) (slot_DisplayLabel s)
    (slot_Yard s) (slot_Project s) (slot_Checkout s) (slot_Run s) (slot_Purpose s)
    (slot_LeaseID s) (slot_CapabilityHash s) (slot_AcquiredAt s) (slot_ProvisioningStartedAt s)
    (slot_ReadyAt s) (slot_LastHeartbeatAt s) (slot_ExpiresAt s) (slot_FailureReason s)
    (rec_LastFailureEventID r) (rec_IncidentID r) (rec_RecoveryAttempt r)
    (rec_NextRecoveryAt r) (rec_RecoveryStartedAt r).

(** The loop body of [mergeRecoveryJournal].
    internal/adapters/testvmsruntime/lease.go:963-990 [mergeRecoveryJournal, loop body] *)
Definition merge_recovery (st : list LeaseSlot * gset string) (r : leaseRecoverySlot) :
    result lease_error (list LeaseSlot * gset string) :=
  let '(slots, known) := st in
  refuse (negb (valid_recovery known r)) CorruptLeaseState;;
  refuse (negb (journal_state (rec_State r))) CorruptLeaseState;;
  let known := {[rec_SlotID r]} ∪ known in
  match findSlot slots (rec_SlotID r) with
  | Some (index, slot) =>
      if negb (slot_ResourceGeneration slot =? rec_ResourceGeneration r) ||
         negb (slot_LeaseEpoch slot =? rec_LeaseEpoch r) ||
         negb (bool_decide (slot_State slot = rec_State r))
      then Ok (slots, known)
      else Ok (<[index := restore_recovery r slot]> slots, known)
  | None => Ok (slots, known)
  end.

(** internal/adapters/testvmsruntime/lease.go:948-992 [mergeRecoveryJournal] *)
Definition mergeRecoveryJournal (journal : file leaseRecoveryJournal) (pool : LeasePool) :
    result lease_error LeasePool :=
  match journal with
  | Absent => Ok pool
  | Garbage => Err CorruptLeaseState
  | Doc journal =>
      refuse (negb (journal_SchemaVersion journal =? LeaseRecoverySchemaVersion)) CorruptLeaseState;;
      '(slots, _) ← for_range merge_recovery (journal_Slots journal) (pool_Slots pool, ∅);
      Ok (pool <| pool_Slots := slots |>)
  end.

Definition empty_pool : LeasePool := mkPool false LeaseSchemaVersion "agent-e2e" "test-vms" [].

(** internal/adapters/testvmsruntime/lease.go:876-913 [load] *)
Definition load (d : disk) : result lease_error LeasePool :=
  match disk_pool d with
  | Absent => Ok empty_pool
  | Garbage => Err CorruptLeaseState
  | Doc pool =>
      let pool :=
        if pool_SchemaVersion pool =? 1 then
          pool <| pool_Slots := (λ s, s <| slot_LegacyRetained := true |>) <$> pool_Slots pool |>
               <| pool_SchemaVersion := LeaseSchemaVersion |>
        else pool in
      pool ← (if pool_SchemaVersion pool =? LeaseFencedSchemaVersion
              then Ok (pool <| pool_AdmissionClosed := true |>)
              else refuse (negb (pool_SchemaVersion pool =? LeaseSchemaVersion)) UnsupportedLeaseState;;
                   Ok pool);
      refuse (pool_AdmissionClosed pool && negb (pool_SchemaVersion pool =? LeaseFencedSchemaVersion))
        UnsupportedLeaseState;;
      refuse (negb (bool_decide (pool_ResourceType pool = "agent-e2e")) ||
              negb (bool_decide (pool_ResourceID pool = "test-vms"))) UnsupportedLeaseState;;
      mergeRecoveryJournal (disk_journal d) pool
  end.

(** ** The store *)

(** internal/adapters/testvmsruntime/lease.go:197-202 [LeaseStore] *)
Record LeaseStore := mkStore { store_AcquireOwner : option AcquireOwner; store_SlotCount : Z }.

(** internal/adapters/testvmsruntime/lease.go:866-874 [withPoolLock] *)
Definition withPoolLock {A} (d : disk) (operation : LeasePool → result lease_error (disk * A)) :
    result lease_error (disk * A) :=
  pool ← load d; operation pool.

(** internal/adapters/testvmsruntime/lease.go:845-864 [withLock].  Every caller passes
    [write = true]. *)
Definition withLock {A} (store : LeaseStore) (o : Observation) (d : disk)
    (operation : LeasePool → result lease_error (LeasePool * A)) : result lease_error (disk * A) :=
  refuse (store_SlotCount store <? 1) SlotCountNotPositive;;
  withPoolLock d (λ pool,
    pool ← reconcileSlotCount pool (store_SlotCount store);
    let pool := expireStale o pool in
    '(pool, a) ← operation pool;
    Ok (writePool d pool, a)).

(** internal/adapters/testvmsruntime/lease.go:829-843 [mutateOwned] *)
Definition owns (grant : LeaseGrant) (slot : LeaseSlot) : bool :=
  negb (negb (bool_decide (slot_LeaseID slot = grant_LeaseID grant)) ||
        negb (slot_LeaseEpoch slot =? grant_LeaseEpoch grant) ||
        bool_decide (slot_CapabilityHash slot = "") ||
        negb (bool_decide (slot_CapabilityHash slot = capabilityDigest (grant_Capability grant)))).

Definition mutateOwned {A} (store : LeaseStore) (o o' : Observation) (d : disk) (grant : LeaseGrant)
    (mutate : LeaseSlot → Z → result lease_error (LeaseSlot * A)) : result lease_error (disk * A) :=
  withLock store o d (λ pool,
    on_slot pool (grant_SlotID grant) (λ slot,
      refuse (negb (owns grant slot)) LeaseLost;;
      mutate slot (obs_now o'))).

(** internal/adapters/testvmsruntime/lease.go:211-219 [Status] *)
Definition Status (store : LeaseStore) (o : Observation) (d : disk) : result lease_error (disk * LeasePool) :=
  withLock store o d (λ pool, Ok (pool, pool)).

(** internal/adapters/testvmsruntime/lease.go:243-262 [validateLeaseSlotInventory] *)
Definition known_state (state : SlotState) : bool :=
  bool_decide (state ∈ [SlotAvailable; SlotProvisioning; SlotHeld; SlotDraining; SlotQuarantined;
    SlotRecovering; SlotUnavailable]).

Definition validateLeaseSlotInventory (slots : list LeaseSlot) : result lease_error unit :=
  for_range (λ known slot,
    number ← map_err (λ _, InvalidSlotInventory (slot_SlotID slot))
      (slotNumber (slot_SlotID slot) (Z.of_nat (length slots)));
    refuse (negb (bool_decide (slot_SlotID slot = slot_name number))) (InvalidSlotInventory (slot_SlotID slot));;
    refuse (seen number known) (InvalidSlotInventory (slot_SlotID slot));;
    refuse (negb (known_state (slot_State slot))) (InvalidSlotInventory (slot_SlotID slot));;
    Ok ({[number]} ∪ known)) slots (∅ : gset Z);;
  Ok tt.

(** internal/adapters/testvmsruntime/lease.go:224-241 [Inspect]: reads only. *)
Definition Inspect (store : LeaseStore) (o : Observation) (d : disk) : result lease_error LeasePool :=
  refuse (store_SlotCount store <? 1) SlotCountNotPositive;;
  pool ← load d;
  validateLeaseSlotInventory (pool_Slots pool);;
  pool ← reconcileSlotCount pool (store_SlotCount store);
  Ok (expireStale o pool).

(** ** Admission *)

(** internal/adapters/testvmsruntime/lease.go:413-426 [leaseOwnerSnapshot] *)
Definition leaseOwnerSnapshot (s : LeaseSlot) : option LeaseOwnerSnapshot :=
  if negb (bool_decide (slot_State s = SlotHeld)) then None
  else Some (mkSnapshot (slot_DisplayLabel s) (slot_Yard s) (slot_Project s) (slot_Run s)
    (slot_Purpose s) (slot_AcquiredAt s) (slot_ExpiresAt s)).

(** internal/adapters/testvmsruntime/lease.go:428-446 [unavailableSlotReason] *)
Definition unavailableSlotReason (state : SlotState) : string :=
  if bool_decide (state = SlotHeld) then "busy"
  else if bool_decide (state = SlotProvisioning) then "provisioning"
  else if bool_decide (state = SlotDraining) then "draining"
  else if bool_decide (state = SlotQuarantined) then "quarantined"
  else if bool_decide (state = SlotRecovering) then "recovering"
  else if bool_decide (state = SlotUnavailable) then "unavailable"
  else "unavailable".

(** The arguments of an admission. *)
Record Request := mkRequest {
  req_ClientID : string;
  req_Fingerprint : string;
  req_Label : string;
  req_Purpose : string;
  req_Context : option LeaseContext;
  req_Slot : string;
  req_Environment : option EnvironmentSpec;
}.

(** The slot that an admission writes.
    internal/adapters/testvmsruntime/lease.go:366-396 [acquireSlot, slot update] *)
Definition acquire_update (owner : option AcquireOwner) (req : Request) (leaseID capability : string)
    (now : Z) (s : LeaseSlot) : LeaseSlot :=
  let '(environment, generation) :=
    match req_Environment req with
    | Some spec => (Some spec, u64 (slot_ResourceGeneration s + 1))
    | None => (slot_Environment s, slot_ResourceGeneration s)
    end in
  let '(yard, project, checkout, run) :=
    match req_Context req with
    | Some context => (ctx_Yard context, ctx_Project context, ctx_Checkout context, ctx_Run context)
    | None => (slot_Yard s, slot_Project s, slot_Checkout s, slot_Run s)
    end in
  mkSlot owner environment (slot_BaseFingerprint s) (slot_Reserved s) (slot_LegacyRetained s)
    (slot_SlotID s) generation (u64 (slot_LeaseEpoch s + 1)) SlotProvisioning
    (req_ClientID req) (req_Fingerprint req) (req_Label req) yard project checkout run
    (req_Purpose req) leaseID (capabilityDigest capability)
    now now (slot_ReadyAt s) now (now + ProvisioningTTL) "" "" "" 0 0 0.

(** internal/adapters/testvmsruntime/lease.go:397-407 [acquireSlot, grant] *)
Definition grant_of (req : Request) (capability : string) (s : LeaseSlot) : LeaseGrant :=
  mkGrant (slot_Environment s) (slot_SlotID s) (slot_ResourceGeneration s) (slot_LeaseID s) capability
    (slot_LeaseEpoch s) (slot_ExpiresAt s) (req_Context req).

(** internal/adapters/testvmsruntime/lease.go:321-411 [acquireSlot].  [tokens] are the two
    random tokens that the operating system returned, if it did. *)
Definition acquireSlot (store : LeaseStore) (o o' : Observation) (tokens : option (string * string))
    (d : disk) (req : Request) : result lease_error (disk * LeaseGrant) :=
  refuse (bool_decide (req_Slot req = "")) (InvalidSlot "");;
  refuse (negb (safeLeaseText (req_ClientID req) 96) || bool_decide (req_ClientID req = "")) InvalidClientID;;
  refuse (negb (safeLeaseText (req_Fingerprint req) 128) || bool_decide (req_Fingerprint req = ""))
    InvalidFingerprint;;
  refuse (negb (safeLeaseText (req_Label req) 80) || negb (safeLeaseText (req_Purpose req) 160))
    InvalidDisplayMetadata;;
  refuse ((negb (bool_decide (req_Label req = "")) && bool_decide (req_Context req = None) &&
           negb (safeLeaseLabel (req_Label req) 80)) ||
          (negb (bool_decide (req_Purpose req = "")) && negb (safeLeaseLabel (req_Purpose req) 80)))
    InvalidDisplayMetadata;;
  withLock store o d (λ pool,
    let pool := expireStale o' pool in
    refuse (pool_AdmissionClosed pool) (SlotBusy SlotUnavailable "unavailable" None);;
    '(index, slot) ← expect (findSlot (pool_Slots pool) (req_Slot req)) (InvalidSlot (req_Slot req));
    refuse (negb (bool_decide (slot_State slot = SlotAvailable)))
      (SlotBusy (slot_State slot) (unavailableSlotReason (slot_State slot)) (leaseOwnerSnapshot slot));;
    '(leaseID, capability) ← expect tokens RandomFailure;
    let slot := acquire_update (store_AcquireOwner store) req leaseID capability (obs_now o') slot in
    Ok (pool <| pool_Slots := <[index := slot]> (pool_Slots pool) |>, grant_of req capability slot)).

Definition check_slot_name (store : LeaseStore) (slotID : string) : result lease_error unit :=
  number ← map_err (λ _, InvalidSlot slotID) (slotNumber slotID (store_SlotCount store));
  refuse (negb (bool_decide (slotID = slot_name number))) (InvalidSlot slotID).

(** internal/adapters/testvmsruntime/lease.go:264-273 [AcquireSlot] *)
Definition AcquireSlot (store : LeaseStore) (o o' : Observation) (tokens : option (string * string))
    (d : disk) (clientID fingerprint label purpose slotID : string) : result lease_error (disk * LeaseGrant) :=
  check_slot_name store slotID;;
  acquireSlot store o o' tokens d
    (mkRequest clientID fingerprint label purpose (legacyLeaseContext label purpose) slotID None).

(** internal/adapters/testvmsruntime/lease.go:275-292 [AcquireV2Slot] *)
Definition AcquireV2Slot (store : LeaseStore) (o o' : Observation) (tokens : option (string * string))
    (d : disk) (clientID fingerprint yard project run purpose slotID : string) :
    result lease_error (disk * LeaseGrant) :=
  check_slot_name store slotID;;
  let context := mkContext LeaseAttributionSchemaVersion yard project "" run purpose in
  validateLeaseContext context;;
  acquireSlot store o o' tokens d
    (mkRequest clientID fingerprint (contextDisplayLabel context) purpose (Some context) slotID None).

(** internal/adapters/testvmsruntime/lease.go:294-307 [AcquireV3Slot] *)
Definition AcquireV3Slot (store : LeaseStore) (o o' : Observation) (tokens : option (string * string))
    (d : disk) (spec : EnvironmentSpec) (clientID fingerprint yard project run purpose slotID : string) :
    result lease_error (disk * LeaseGrant) :=
  ValidateEnvironmentSpec spec;;
  check_slot_name store slotID;;
  let context := mkContext LeaseAttributionSchemaVersion yard project "" run purpose in
  validateLeaseContext context;;
  acquireSlot store o o' tokens d
    (mkRequest clientID fingerprint (contextDisplayLabel context) purpose (Some context) slotID (Some spec)).

(** ** Operations of the holder of a grant *)

(** internal/adapters/testvmsruntime/lease.go:310-319 [AbortProvisioning] *)
Definition AbortProvisioning (store : LeaseStore) (o o' : Observation) (d : disk) (grant : LeaseGrant) :
    result lease_error (disk * unit) :=
  mutateOwned store o o' d grant (λ slot _,
    refuse (negb (bool_decide (slot_State slot = SlotProvisioning))) LeaseLost;;
    Ok ((clearLease slot) <| slot_State := SlotAvailable |>, tt)).

(** internal/adapters/testvmsruntime/lease.go:448-462 [MarkHeld] *)
Definition MarkHeld (store : LeaseStore) (o o' : Observation) (d : disk) (grant : LeaseGrant) :
    result lease_error (disk * Z) :=
  mutateOwned store o o' d grant (λ slot now,
    refuse (negb (bool_decide (slot_State slot = SlotProvisioning))) (NotProvisioning (slot_State slot));;
    Ok (slot <| slot_State := SlotHeld |> <| slot_ReadyAt := now |> <| slot_LastHeartbeatAt := now |>
          <| slot_ExpiresAt := now + LeaseTTL |>, now + LeaseTTL)).

(** internal/adapters/testvmsruntime/lease.go:464-476 [Renew] *)
Definition Renew (store : LeaseStore) (o o' : Observation) (d : disk) (grant : LeaseGrant) :
    result lease_error (disk * Z) :=
  mutateOwned store o o' d grant (λ slot now,
    refuse (negb (bool_decide (slot_State slot = SlotHeld)) &&
            negb (bool_decide (slot_State slot = SlotProvisioning))) LeaseLost;;
    Ok (slot <| slot_LastHeartbeatAt := now |> <| slot_ExpiresAt := now + LeaseTTL |>, now + LeaseTTL)).

(** internal/adapters/testvmsruntime/lease.go:478-489 [BeginDrain] *)
Definition BeginDrain (store : LeaseStore) (o o' : Observation) (d : disk) (grant : LeaseGrant) :
    result lease_error (disk * unit) :=
  mutateOwned store o o' d grant (λ slot _,
    if bool_decide (slot_State slot = SlotDraining) then Ok (slot, tt)
    else
      refuse (negb (bool_decide (slot_State slot = SlotHeld)) &&
              negb (bool_decide (slot_State slot = SlotProvisioning))) LeaseLost;;
      Ok (slot <| slot_State := SlotDraining |>, tt)).

(** internal/adapters/testvmsruntime/lease.go:631-642 [Quarantine] *)
Definition Quarantine (store : LeaseStore) (o o' : Observation) (d : disk) (grant : LeaseGrant)
    (cause : string) : result lease_error (disk * unit) :=
  mutateOwned store o o' d grant (λ slot now,
    refuse (bool_decide (slot_State slot = SlotDraining)) LeaseLost;;
    Ok (slot <| slot_State := SlotQuarantined |> <| slot_FailureReason := boundedReason cause |>
          <| slot_NextRecoveryAt := now |>, tt)).

(** internal/adapters/testvmsruntime/acquire_session.go:130-138 [acquireSession.handoff]: after the
    client acknowledged the grant. *)
Definition handoff (store : LeaseStore) (o o' : Observation) (d : disk) (grant : LeaseGrant) :
    result lease_error (disk * unit) :=
  mutateOwned store o o' d grant (λ slot _,
    refuse (negb (bool_decide (slot_State slot = SlotHeld))) LeaseLost;;
    Ok (slot <| slot_AcquireOwner := None |>, tt)).

(** internal/adapters/testvmsruntime/lifecycle.go:83-85 [adopt a slot whose legacy data is gone] *)
Definition dropLegacyRetained (store : LeaseStore) (o o' : Observation) (d : disk) (grant : LeaseGrant) :
    result lease_error (disk * unit) :=
  mutateOwned store o o' d grant (λ slot _, Ok (slot <| slot_LegacyRetained := false |>, tt)).

(** internal/adapters/testvmsruntime/images.go:274-285 [pin the base image of a provisioning slot] *)
Definition pinBase (store : LeaseStore) (o : Observation) (d : disk) (grant : LeaseGrant)
    (fingerprint : string) : result lease_error (disk * unit) :=
  withLock store o d (λ pool,
    on_slot pool (grant_SlotID grant) (λ slot,
      refuse (negb (bool_decide (slot_State slot = SlotProvisioning)) ||
              negb (bool_decide (slot_LeaseID slot = grant_LeaseID grant)) ||
              negb (slot_LeaseEpoch slot =? grant_LeaseEpoch grant)) LeaseLost;;
      Ok (slot <| slot_BaseFingerprint := fingerprint |>, tt))).

(** ** Drain *)

(** internal/adapters/testvmsruntime/lease.go:491-514 [FinishDrain]; [stopErr] is the text of
    the error, if any. *)
Definition FinishDrain (store : LeaseStore) (o o' : Observation) (d : disk) (slotID : string)
    (stopErr : option string) : result lease_error (disk * unit) :=
  withLock store o d (λ pool,
    on_slot pool slotID (λ slot,
      if bool_decide (slot_State slot = SlotAvailable) && bool_decide (stopErr = None) then Ok (slot, tt)
      else
        refuse (negb (bool_decide (slot_State slot = SlotDraining))) (NotDraining slotID);;
        match stopErr with
        | Some message =>
            Ok (slot <| slot_State := SlotQuarantined |> <| slot_FailureReason := boundedReason message |>
                  <| slot_NextRecoveryAt := obs_now o' |>, tt)
        | None => Ok ((clearLease slot) <| slot_State := SlotAvailable |>, tt)
        end)).

Definition busy_state (state : SlotState) : bool :=
  bool_decide (state = SlotHeld) || bool_decide (state = SlotProvisioning).

(** The loop body of [BeginDrainAll].
    internal/adapters/testvmsruntime/lease.go:553-560 [BeginDrainAll, loop body] *)
Definition drain_busy (reason : string) (slot : LeaseSlot) : LeaseSlot :=
  if negb (busy_state (slot_State slot)) then slot
  else slot <| slot_State := SlotDraining |> <| slot_FailureReason := boundedReason reason |>.

(** internal/adapters/testvmsruntime/lease.go:551-563 [BeginDrainAll] *)
Definition BeginDrainAll (store : LeaseStore) (o : Observation) (d : disk) (reason : string) :
    result lease_error (disk * unit) :=
  withLock store o d (λ pool,
    Ok (pool <| pool_Slots := drain_busy reason <$> pool_Slots pool |>, tt)).

(** internal/adapters/testvmsruntime/lease.go:565-584 [BeginDrainSlot] *)
Definition BeginDrainSlot (store : LeaseStore) (o : Observation) (d : disk) (slotID reason : string) :
    result lease_error (disk * unit) :=
  withLock store o d (λ pool,
    on_slot pool slotID (λ slot,
      if bool_decide (slot_State slot = SlotAvailable) then Ok (slot, tt)
      else if busy_state (slot_State slot) then
        Ok (slot <| slot_State := SlotDraining |> <| slot_FailureReason := boundedReason reason |>, tt)
      else if bool_decide (slot_State slot = SlotDraining) then Ok (slot, tt)
      else Err (WrongState slotID (slot_State slot)))).

(** internal/adapters/testvmsruntime/lease.go:760-764 [slotMatchesLeaseIdentity] *)
Definition slotMatchesLeaseIdentity (slot : LeaseSlot) (expected : LeaseIdentity) : bool :=
  bool_decide (slot_SlotID slot = id_SlotID expected) &&
  (slot_ResourceGeneration slot =? id_ResourceGeneration expected) &&
  (slot_LeaseEpoch slot =? id_LeaseEpoch expected).

(** internal/adapters/testvmsruntime/lease.go:589-621 [BeginExpectedDrain] *)
Definition BeginExpectedDrain (store : LeaseStore) (o : Observation) (d : disk) (expected : LeaseIdentity)
    (reason : string) : result lease_error (disk * bool) :=
  validateIdentity expected;;
  withLock store o d (λ pool,
    on_slot pool (id_SlotID expected) (λ slot,
      refuse (negb (slotMatchesLeaseIdentity slot expected)) LeaseTargetStale;;
      if bool_decide (slot_State slot = SlotAvailable) then Ok (slot, false)
      else if busy_state (slot_State slot) then
        Ok (slot <| slot_State := SlotDraining |> <| slot_FailureReason := boundedReason reason |>, true)
      else if bool_decide (slot_State slot = SlotDraining) then Ok (slot, true)
      else Err (WrongState (id_SlotID expected) (slot_State slot)))).

(** ** Admission fence *)

(** The JSON of [PoolOperationBinding]: an array of objects with sorted keys.
    Slot IDs, states and lease IDs hold no character that JSON escapes. *)
Definition quoted (s : string) : string := String "034" (s +:+ String "034" "").

Definition binding_entry (s : LeaseSlot) : string :=
  "{" +:+ quoted "lease_epoch" +:+ ":" +:+ pretty (slot_LeaseEpoch s) +:+
  "," +:+ quoted "lease_id" +:+ ":" +:+ quoted (slot_LeaseID s) +:+
  "," +:+ quoted "resource_generation" +:+ ":" +:+ pretty (slot_ResourceGeneration s) +:+
  "," +:+ quoted "slot_id" +:+ ":" +:+ quoted (slot_SlotID s) +:+
  "," +:+ quoted "state" +:+ ":" +:+ quoted (slot_State s) +:+ "}".

(** internal/adapters/testvmsruntime/lease.go:518-527 [PoolOperationBinding] *)
Definition PoolOperationBinding (pool : LeasePool) : string :=
  let slots := sort_by_key slot_SlotID (pool_Slots pool) in
  let payload := "[" +:+ Join (binding_entry <$> slots) "," +:+ "]" in
  EncodeToString (Sum256 payload).

(** internal/adapters/testvmsruntime/lease.go:532-541 [FenceExpectedPool] *)
Definition FenceExpectedPool (store : LeaseStore) (o : Observation) (d : disk) (expected : string) :
    result lease_error (disk * unit) :=
  withLock store o d (λ pool,
    refuse (negb (len expected =? 64) || negb (bool_decide (PoolOperationBinding pool = expected)))
      LeaseTargetStale;;
    Ok (pool <| pool_AdmissionClosed := true |> <| pool_SchemaVersion := LeaseFencedSchemaVersion |>, tt)).

(** internal/adapters/testvmsruntime/lease.go:543-549 [OpenAdmission] *)
Definition OpenAdmission (store : LeaseStore) (o : Observation) (d : disk) : result lease_error (disk * unit) :=
  withLock store o d (λ pool,
    Ok (pool <| pool_AdmissionClosed := false |> <| pool_SchemaVersion := LeaseSchemaVersion |>, tt)).

(** ** Recovery *)

(** The closure of [SetQuarantineIncident].
    internal/adapters/testvmsruntime/lease.go:651-665 [SetQuarantineIncident, closure] *)
Definition incident_slot (slotID failureEventID incidentID : string) (now : Z) (slot : LeaseSlot) :
    result lease_error (LeaseSlot * unit) :=
  refuse (negb (bool_decide (slot_State slot = SlotQuarantined)) &&
          negb (bool_decide (slot_State slot = SlotRecovering))) (WrongState slotID (slot_State slot));;
  let slot := slot <| slot_LastFailureEventID := failureEventID |> <| slot_IncidentID := incidentID |> in
  Ok (if time_is_zero (slot_NextRecoveryAt slot)
      then slot <| slot_NextRecoveryAt := now |> else slot, tt).

(** internal/adapters/testvmsruntime/lease.go:644-666 [SetQuarantineIncident] *)
Definition SetQuarantineIncident (store : LeaseStore) (o o' : Observation) (d : disk)
    (slotID failureEventID incidentID : string) : result lease_error (disk * unit) :=
  refuse (negb (brokerRecordID failureEventID) || negb (brokerRecordID incidentID)) InvalidIncident;;
  withLock store o d (λ pool,
    on_slot pool slotID (incident_slot slotID failureEventID incidentID (obs_now o'))).

(** internal/adapters/testvmsruntime/lease.go:668-686 [InterruptRecovery] *)
Definition InterruptRecovery (store : LeaseStore) (o o' : Observation) (d : disk) (slotID : string)
    (cause : option string) : result lease_error (disk * unit) :=
  message ← expect cause CauseRequired;
  withLock store o d (λ pool,
    on_slot pool slotID (λ slot,
      refuse (negb (bool_decide (slot_State slot = SlotRecovering))) (WrongState slotID (slot_State slot));;
      Ok (slot <| slot_State := SlotQuarantined |> <| slot_FailureReason := boundedReason message |>
            <| slot_NextRecoveryAt := obs_now o' |> <| slot_RecoveryStartedAt := 0 |>, tt))).

Definition start_recovery (now : Z) (slot : LeaseSlot) : LeaseSlot :=
  slot <| slot_State := SlotRecovering |> <| slot_RecoveryAttempt := u64 (slot_RecoveryAttempt slot + 1) |>
    <| slot_RecoveryStartedAt := now |> <| slot_NextRecoveryAt := 0 |>.

(** internal/adapters/testvmsruntime/lease.go:688-719 [BeginScheduledRecovery]; the snapshot is
    [None] where Go returns the zero slot. *)
Definition BeginScheduledRecovery (store : LeaseStore) (o o' : Observation) (d : disk) (slotID : string)
    (force : bool) : result lease_error (disk * (option LeaseSlot * bool)) :=
  withLock store o d (λ pool,
    on_slot pool slotID (λ slot,
      if bool_decide (slot_State slot = SlotRecovering) then Ok (slot, (None, false))
      else
        refuse (negb (bool_decide (slot_State slot = SlotQuarantined))) (WrongState slotID (slot_State slot));;
        let now := obs_now o' in
        if negb force && negb (time_is_zero (slot_NextRecoveryAt slot)) && (now <? slot_NextRecoveryAt slot)
        then Ok (slot, (Some slot, false))
        else Ok (start_recovery now slot, (Some (start_recovery now slot), true)))).

(** internal/adapters/testvmsruntime/lease.go:724-758 [BeginExpectedRecovery] *)
Definition BeginExpectedRecovery (store : LeaseStore) (o o' : Observation) (d : disk)
    (expected : LeaseIdentity) : result lease_error (disk * (LeaseSlot * bool)) :=
  validateIdentity expected;;
  withLock store o d (λ pool,
    on_slot pool (id_SlotID expected) (λ slot,
      refuse (negb (slotMatchesLeaseIdentity slot expected)) LeaseTargetStale;;
      if bool_decide (slot_State slot = SlotAvailable) || bool_decide (slot_State slot = SlotRecovering)
      then Ok (slot, (slot, false))
      else if bool_decide (slot_State slot = SlotQuarantined) then
        let slot := start_recovery (obs_now o') slot in Ok (slot, (slot, true))
      else Err (WrongState (id_SlotID expected) (slot_State slot)))).

(** internal/adapters/testvmsruntime/lease.go:816-827 [recoveryDelay] *)
Definition recoveryDelay (attempt : Z) : Z :=
  if (attempt =? 0) || (attempt =? 1) then lease_minute
  else if attempt =? 2 then 5 * lease_minute
  else if attempt =? 3 then 15 * lease_minute
  else 60 * lease_minute.

(** The closure of [FinishRecovery].
    internal/adapters/testvmsruntime/lease.go:772-812 [FinishRecovery, closure] *)
Definition finish_recovery_slot (slotID : string) (cause : option string)
    (failureEventID incidentID : string) (now : Z) (slot : LeaseSlot) :
    result lease_error (LeaseSlot * LeaseSlot) :=
  refuse (negb (bool_decide (slot_State slot = SlotRecovering))) (WrongState slotID (slot_State slot));;
  match cause with
  | Some message =>
      let slot := slot <| slot_State := SlotQuarantined |>
                    <| slot_FailureReason := boundedReason message |> in
      slot ← (if bool_decide (failureEventID = "") then Ok slot
              else refuse (negb (brokerRecordID failureEventID)) InvalidIncident;;
                   Ok (slot <| slot_LastFailureEventID := failureEventID |>));
      slot ← (if bool_decide (incidentID = "") then Ok slot
              else refuse (negb (brokerRecordID incidentID)) InvalidIncident;;
                   Ok (slot <| slot_IncidentID := incidentID |>));
      let slot := slot <| slot_NextRecoveryAt := now + recoveryDelay (slot_RecoveryAttempt slot) |>
                    <| slot_RecoveryStartedAt := 0 |> in
      Ok (slot, slot)
  | None =>
      let lastEvent := slot_LastFailureEventID slot in
      let lastIncident := slot_IncidentID slot in
      let attempt := slot_RecoveryAttempt slot in
      let slot := clearLease slot in
      let slot := slot <| slot_ResourceGeneration := u64 (slot_ResourceGeneration slot + 1) |>
                    <| slot_State := SlotAvailable |> <| slot_LastFailureEventID := lastEvent |>
                    <| slot_IncidentID := lastIncident |> <| slot_RecoveryAttempt := attempt |> in
      Ok (slot, slot)
  end.

(** internal/adapters/testvmsruntime/lease.go:766-814 [FinishRecovery] *)
Definition FinishRecovery (store : LeaseStore) (o o' : Observation) (d : disk) (slotID : string)
    (cause : option string) (failureEventID incidentID : string) : result lease_error (disk * LeaseSlot) :=
  withLock store o d (λ pool,
    on_slot pool slotID (finish_recovery_slot slotID cause failureEventID incidentID (obs_now o'))).

(** The pool that [rebuildCorruptPoolForRecovery] writes.
    internal/adapters/testvmsruntime/lease.go:1027-1043 [rebuildCorruptPoolForRecovery, pool] *)
Definition rebuilt_pool (count number now : Z) : LeasePool :=
  empty_pool <| pool_Slots := (λ index,
    new_slot (slot_name index) SlotQuarantined true
      (if index =? number then "operator recovery" else "lease state recovery required") now)
    <$> seqZ 1 count |>.

(** internal/adapters/testvmsruntime/lease.go:1004-1046 [rebuildCorruptPoolForRecovery].  The
    renames keep the corrupt files under a backup name, outside the modelled two.
    The pool file is renamed unconditionally, so it must exist. *)
Definition rebuildCorruptPoolForRecovery (store : LeaseStore) (o' : Observation) (d : disk)
    (slotID : string) : result lease_error (disk * unit) :=
  number ← slotNumber slotID (store_SlotCount store);
  match load d with
  | Err CorruptLeaseState => Ok (writePool d (rebuilt_pool (store_SlotCount store) number (obs_now o')), tt)
  | Err e => Err e
  | Ok _ => Err StateChanged
  end.

(** internal/adapters/testvmsruntime/lease.go:623-629 [BeginRecovery] *)
Definition BeginRecovery (store : LeaseStore) (o o' : Observation) (d : disk) (slotID : string) :
    result lease_error (disk * unit) :=
  match BeginScheduledRecovery store o o' d slotID true with
  | Ok (d', _) => Ok (d', tt)
  | Err CorruptLeaseState => rebuildCorruptPoolForRecovery store o' d slotID
  | Err e => Err e
  end.

(** ** Legacy retirement *)

(** internal/adapters/testvmsruntime/lifecycle.go:894-913 [RetireLegacySlot, fence] *)
Definition beginRetireLegacy (store : LeaseStore) (o : Observation) (d : disk) (expected : LeaseIdentity) :
    result lease_error (disk * unit) :=
  withLock store o d (λ pool,
    on_slot pool (id_SlotID expected) (λ slot,
      refuse (negb (slotMatchesLeaseIdentity slot expected)) LeaseTargetStale;;
      refuse (negb (slot_LegacyRetained slot)) NoLegacyData;;
      refuse (negb (bool_decide (slot_State slot = SlotAvailable)) &&
              negb (bool_decide (slot_State slot = SlotQuarantined)))
        (WrongState (id_SlotID expected) (slot_State slot));;
      Ok (slot <| slot_State := SlotDraining |> <| slot_FailureReason := "explicit legacy retirement" |>, tt))).

(** internal/adapters/testvmsruntime/lifecycle.go:927-939 [RetireLegacySlot, finish] *)
Definition finishRetireLegacy (store : LeaseStore) (o : Observation) (d : disk) (expected : LeaseIdentity) :
    result lease_error (disk * unit) :=
  withLock store o d (λ pool,
    on_slot pool (id_SlotID expected) (λ slot,
      refuse (negb (slotMatchesLeaseIdentity slot expected) ||
              negb (bool_decide (slot_State slot = SlotDraining))) LeaseTargetStale;;
      Ok ((clearLease slot) <| slot_LegacyRetained := false |> <| slot_State := SlotAvailable |>, tt))).

(** ** Resizing *)

Definition resize_fenced (slot : LeaseSlot) : bool :=
  bool_decide (slot_State slot = SlotDraining) && bool_decide (slot_FailureReason slot = "pool resize").

(** The check of [PrepareResize] and [ResizePlan] on a slot to be retired. *)
Definition check_retirable (slot : LeaseSlot) : result lease_error unit :=
  refuse (slot_LegacyRetained slot) (LegacyRetirementRequired (slot_SlotID slot));;
  if resize_fenced slot then Ok tt
  else refuse (negb (bool_decide (slot_State slot = SlotAvailable)))
         (CannotShrink (slot_SlotID slot) (slot_State slot)).

(** The second loop body of [PrepareResize].
    internal/adapters/testvmsruntime/lease.go:1096-1101 [PrepareResize, fence] *)
Definition resize_fence (slot : LeaseSlot) : LeaseSlot :=
  slot <| slot_State := SlotDraining |> <| slot_FailureReason := "pool resize" |>.

(** internal/adapters/testvmsruntime/lease.go:1072-1105 [PrepareResize] *)
Definition PrepareResize (store : LeaseStore) (d : disk) : result lease_error (disk * list LeaseSlot) :=
  withPoolLock d (λ pool,
    let have := Z.of_nat (length (pool_Slots pool)) in
    let count := store_SlotCount store in
    if have <? count then
      pool ← reconcileSlotCount pool count;
      Ok (writePool d pool, [])
    else if have =? count then Ok (d, [])
    else
      let keep := take (Z.to_nat count) (pool_Slots pool) in
      let rest := drop (Z.to_nat count) (pool_Slots pool) in
      for_each check_retirable rest;;
      let retiring := resize_fence <$> rest in
      Ok (writePool d (pool <| pool_Slots := keep ++ retiring |>), retiring)).

(** internal/adapters/testvmsruntime/lease.go:1107-1130 [ResizePlan] *)
Definition ResizePlan (store : LeaseStore) (d : disk) : result lease_error (disk * (Z * list LeaseSlot)) :=
  withPoolLock d (λ pool,
    let current := Z.of_nat (length (pool_Slots pool)) in
    if current <=? store_SlotCount store then Ok (d, (current, []))
    else
      let rest := drop (Z.to_nat (store_SlotCount store)) (pool_Slots pool) in
      for_each check_retirable rest;;
      Ok (d, (current, rest))).

(** internal/adapters/testvmsruntime/lease.go:1132-1146 [CommitResize] *)
Definition CommitResize (store : LeaseStore) (d : disk) : result lease_error (disk * unit) :=
  withPoolLock d (λ pool,
    refuse (Z.of_nat (length (pool_Slots pool)) <? store_SlotCount store) ResizeNotPrepared;;
    for_each (λ slot, refuse (negb (resize_fenced slot)) (NotFenced (slot_SlotID slot)))
      (drop (Z.to_nat (store_SlotCount store)) (pool_Slots pool));;
    Ok (writePool d (pool <| pool_Slots := take (Z.to_nat (store_SlotCount store)) (pool_Slots pool) |>), tt)).
