(* ===== verification/LeaseMachine.v ===== *)
(** * Test-VM leases: the slot state machine

    The states of a slot and the moves between them are the contract of the
    lease broker.  [slot_edge] states that machine; this file proves that every
    operation of LeaseStore.v moves every slot along it, and derives the
    exclusion and fencing of leases from the machine. *)

From S2P Require Import Prelude GoStrings GoSort Names Sha256 LeaseData LeaseStore.

(** Unfolds the names of the states, so that different ones are told apart. *)
Ltac slot_states :=
  unfold SlotAvailable, SlotProvisioning, SlotHeld, SlotDraining, SlotQuarantined, SlotRecovering,
    SlotUnavailable in *.

(** ** The abstract machine *)

(** The identity of a lease on a slot is unchanged. *)
Definition same_lease (s s' : LeaseSlot) : Prop :=
  slot_SlotID s' = slot_SlotID s ∧ slot_ResourceGeneration s' = slot_ResourceGeneration s ∧
  slot_LeaseEpoch s' = slot_LeaseEpoch s ∧ slot_LeaseID s' = slot_LeaseID s ∧
  slot_CapabilityHash s' = slot_CapabilityHash s.

(** The slot holds no lease any more; its epoch stays. *)
Definition vacated (s s' : LeaseSlot) : Prop :=
  slot_SlotID s' = slot_SlotID s ∧ slot_LeaseEpoch s' = slot_LeaseEpoch s ∧
  slot_LeaseID s' = "" ∧ slot_CapabilityHash s' = "".

Definition active (s : LeaseSlot) : Prop := slot_State s = SlotProvisioning ∨ slot_State s = SlotHeld.

Inductive slot_edge (s s' : LeaseSlot) : Prop :=
| edge_stay : same_lease s s' → slot_State s' = slot_State s → slot_edge s s'
| edge_acquire :
    slot_State s = SlotAvailable → slot_State s' = SlotProvisioning → slot_SlotID s' = slot_SlotID s →
    slot_LeaseEpoch s' = slot_LeaseEpoch s + 1 →
    slot_ResourceGeneration s ≤ slot_ResourceGeneration s' ≤ slot_ResourceGeneration s + 1 → slot_edge s s'
| edge_ready : same_lease s s' → slot_State s = SlotProvisioning → slot_State s' = SlotHeld → slot_edge s s'
| edge_drain : same_lease s s' → active s → slot_State s' = SlotDraining → slot_edge s s'
| edge_fence :
    same_lease s s' → slot_State s = SlotAvailable ∨ slot_State s = SlotQuarantined →
    slot_State s' = SlotDraining → slot_edge s s'
| edge_vacate :
    vacated s s' → slot_ResourceGeneration s' = slot_ResourceGeneration s →
    slot_State s = SlotProvisioning ∨ slot_State s = SlotDraining → slot_State s' = SlotAvailable →
    slot_edge s s'
| edge_quarantine :
    same_lease s s' →
    slot_CapabilityHash s ≠ "" ∨ slot_State s = SlotDraining ∨ slot_State s = SlotRecovering →
    slot_State s' = SlotQuarantined → slot_edge s s'
| edge_recover :
    same_lease s s' → slot_State s = SlotQuarantined → slot_State s' = SlotRecovering → slot_edge s s'
| edge_recovered :
    vacated s s' → slot_ResourceGeneration s' = slot_ResourceGeneration s + 1 →
    slot_State s = SlotRecovering → slot_State s' = SlotAvailable → slot_edge s s'.

(** A sequence of moves. *)
Definition slot_path : relation LeaseSlot := rtc slot_edge.

(** *** Consequences of the machine alone *)

Lemma slot_edge_counters s s' :
  slot_edge s s' → slot_SlotID s' = slot_SlotID s ∧ slot_LeaseEpoch s ≤ slot_LeaseEpoch s' ∧
  slot_ResourceGeneration s ≤ slot_ResourceGeneration s'.
Proof. destruct 1; unfold same_lease, vacated in *; destruct_and?; split_and!; congruence || lia. Qed.

Lemma slot_path_counters s s' :
  slot_path s s' → slot_SlotID s' = slot_SlotID s ∧ slot_LeaseEpoch s ≤ slot_LeaseEpoch s' ∧
  slot_ResourceGeneration s ≤ slot_ResourceGeneration s'.
Proof.
  induction 1 as [|s1 s2 s3 H12 _ IH]; [split_and!; done || lia|].
  apply slot_edge_counters in H12. destruct_and!. split_and!; congruence || lia.
Qed.

(** An active slot stays with its lease as long as its epoch does. *)
Lemma slot_path_exclusive s s' :
  slot_path s s' → slot_LeaseEpoch s' = slot_LeaseEpoch s → active s' →
  active s ∧ slot_LeaseID s' = slot_LeaseID s ∧ slot_CapabilityHash s' = slot_CapabilityHash s.
Proof.
  intros Hp. induction Hp as [|s1 s2 s3 H12 H23 IH]; intros He Ha; [done|].
  apply slot_edge_counters in H12 as H12'. apply slot_path_counters in H23 as H23'.
  destruct IH as (Ha2 & Hl & Hc); [lia|done|].
  unfold active in *. destruct H12; unfold same_lease, vacated, active in *; destruct_and?; slot_states.
  all: first [lia | destruct Ha2; congruence |
    split_and!; [destruct Ha2; first [left; congruence | right; congruence]|congruence|congruence]].
Qed.

Lemma owns_spec g s :
  owns g s = true ↔
  slot_LeaseID s = grant_LeaseID g ∧ slot_LeaseEpoch s = grant_LeaseEpoch g ∧ slot_CapabilityHash s ≠ "" ∧
  slot_CapabilityHash s = capabilityDigest (grant_Capability g).
Proof. unfold owns. bools. tauto. Qed.

(** ** Slot names *)

Lemma slot_names_decode :
  forallb (λ n, bool_decide (slotNumber (slot_name n) 999 = Ok n)) (seqZ 1 999) = true.
Proof. by vm_compute. Qed.

Lemma slot_names_increase :
  forallb (λ n, negb (string_lt (slot_name (n + 1)) (slot_name n))) (seqZ 1 998) = true.
Proof. by vm_compute. Qed.

Lemma slotNumber_slot_name n : 1 ≤ n ≤ 999 → slotNumber (slot_name n) 999 = Ok n.
Proof.
  intros Hn. pose proof slot_names_decode as H. rewrite forallb_forall in H. specialize (H n).
  rewrite <-list_elem_of_In, elem_of_seqZ, bool_decide_eq_true in H. apply H. lia.
Qed.

Lemma slot_name_inj n m : 1 ≤ n ≤ 999 → 1 ≤ m ≤ 999 → slot_name n = slot_name m → n = m.
Proof.
  intros Hn Hm Heq. apply slotNumber_slot_name in Hn, Hm. rewrite Heq in Hn. congruence.
Qed.

Lemma slot_name_le n : 1 ≤ n ≤ 998 → String.le (slot_name n) (slot_name (n + 1)).
Proof.
  intros Hn. pose proof slot_names_increase as H. rewrite forallb_forall in H. specialize (H n).
  rewrite <-list_elem_of_In, elem_of_seqZ, negb_true_iff, string_lt_false in H. apply H. lia.
Qed.

Definition slot_names (n : nat) : list string := slot_name <$> seqZ 1 (Z.of_nat n).

Lemma slot_names_lookup n i : (i < n)%nat → slot_names n !! i = Some (slot_name (Z.of_nat i + 1)).
Proof.
  intros Hi. unfold slot_names. rewrite list_lookup_fmap, lookup_seqZ_lt by lia. simpl. do 2 f_equal. lia.
Qed.

Lemma length_slot_names n : length (slot_names n) = n.
Proof. unfold slot_names. rewrite length_fmap, length_seqZ. lia. Qed.

Lemma slot_names_S n : slot_names (S n) = slot_names n ++ [slot_name (Z.of_nat n + 1)].
Proof.
  unfold slot_names. replace (Z.of_nat (S n)) with (Z.of_nat n + 1) by lia.
  rewrite seqZ_app, fmap_app by lia. simpl. do 3 f_equal. lia.
Qed.

Lemma NoDup_slot_names n : (n ≤ 999)%nat → NoDup (slot_names n).
Proof.
  intros Hn. apply NoDup_alt. intros i j x Hi Hj.
  assert (i < n)%nat by (rewrite <-(length_slot_names n); by eapply lookup_lt_Some).
  assert (j < n)%nat by (rewrite <-(length_slot_names n); by eapply lookup_lt_Some).
  rewrite slot_names_lookup in Hi, Hj by done. 
  assert (slot_name (Z.of_nat i + 1) = slot_name (Z.of_nat j + 1)) as He by congruence.
  apply slot_name_inj in He; lia.
Qed.

(** Zero padding makes the order of the names the order of the numbers. *)
Lemma Sorted_slot_names n : (n ≤ 999)%nat → Sorted String.le (slot_names n).
Proof.
  assert (∀ k a, 1 ≤ a → a + Z.of_nat k ≤ 1000 → Sorted String.le (slot_name <$> seqZ a (Z.of_nat k))) as H.
  { induction k as [|k IH]; intros a Ha Hk; [constructor|].
    rewrite seqZ_cons by lia. csimpl. replace (Z.pred (Z.of_nat (S k))) with (Z.of_nat k) by lia.
    constructor; [apply IH; lia|]. destruct k as [|k]; [constructor|].
    rewrite seqZ_cons by lia. csimpl. constructor. apply slot_name_le. lia. }
  intros Hn. apply H; lia.
Qed.

(** ** Pools *)

(** The slots of the pool are slot-001, slot-002, ... in order. *)
Definition canonical (slots : list LeaseSlot) : Prop :=
  slot_SlotID <$> slots = slot_names (length slots) ∧ (length slots ≤ 999)%nat.

#[export] Instance canonical_dec slots : Decision (canonical slots).
Proof. unfold canonical. apply _. Defined.

Lemma canonical_NoDup slots : canonical slots → NoDup (slot_SlotID <$> slots).
Proof. intros [-> Hn]. by apply NoDup_slot_names. Qed.

Lemma canonical_take n slots : canonical slots → canonical (take n slots).
Proof.
  intros [Hids Hn]. assert (length (take n slots) = n `min` length slots)%nat as Hlen by apply length_take.
  split; [|lia]. rewrite fmap_take, Hids, Hlen. apply list_eq. intros i.
  destruct (decide (i < n `min` length slots)%nat).
  - rewrite lookup_take_lt, !slot_names_lookup by lia. done.
  - rewrite (lookup_ge_None_2 (slot_names (n `min` length slots)) i) by (rewrite length_slot_names; lia).
    apply lookup_ge_None. rewrite length_take, length_slot_names. lia.
Qed.

Lemma Sorted_key {A} (key : A → string) (l : list A) :
  Sorted String.le (key <$> l) → Sorted (key_le key) l.
Proof.
  induction l as [|x l IH]; [constructor|]. intros H. inversion H as [|? ? Hl Hhd]; subst.
  constructor; [by apply IH|]. destruct l; [constructor|]. inversion Hhd; subst. by constructor.
Qed.

Lemma canonical_sort slots : canonical slots → sort_by_key slot_SlotID slots = slots.
Proof.
  intros Hc. symmetry. unfold sort_by_key. apply sort_unique; [apply _..| | |done].
  - intros x y. apply key_le_distinct. by apply canonical_NoDup.
  - apply Sorted_key. destruct Hc as [-> Hn]. by apply Sorted_slot_names.
Qed.

Definition fresh_slot (n : Z) : LeaseSlot := new_slot (slot_name n) SlotAvailable false "" 0.

(** Bringing a canonical pool to its configured size only adds fresh slots. *)
Lemma reconcile_canonical pool pool' count :
  canonical (pool_Slots pool) → count ≤ 999 → reconcileSlotCount pool count = Ok pool' →
  ∃ extra, pool' = pool <| pool_Slots := pool_Slots pool ++ extra |> ∧
    extra = fresh_slot <$> seqZ (Z.of_nat (length (pool_Slots pool)) + 1)
                             (count - Z.of_nat (length (pool_Slots pool))) ∧
    canonical (pool_Slots pool ++ extra) ∧ Z.of_nat (length (pool_Slots pool ++ extra)) = count.
Proof.
  intros Hc Hcount H. unfold reconcileSlotCount in H. rewrite canonical_sort in H by done.
  set (slots := pool_Slots pool) in *. set (n := Z.of_nat (length slots)) in *.
  set (extra := fresh_slot <$> seqZ (n + 1) (count - n)).
  change (_ <$> seqZ (n + 1) (count - n)) with extra in H.
  assert (length extra = Z.to_nat (count - n)) as Hlen by (unfold extra; by rewrite length_fmap, length_seqZ).
  case_match eqn:Hle; [|by apply bind_Ok in H as (? & _ & ?)]. injection H as <-. bools.
  rewrite length_app, Hlen in Hle. exists extra. split_and!; [done|done| |rewrite length_app; lia].
  destruct Hc as [Hids Hn]. split; [|rewrite length_app; lia].
  rewrite fmap_app, Hids, length_app, Hlen. unfold slot_names.
  rewrite Nat2Z.inj_add, Z2Nat.id by lia. rewrite seqZ_app, fmap_app by lia. f_equal.
  unfold extra. rewrite <-list_fmap_compose. unfold n. by rewrite Z.add_comm.
Qed.

(** The header that [load] accepts. *)
Definition header_ok (p : LeasePool) : Prop :=
  (pool_AdmissionClosed p = true ∧ pool_SchemaVersion p = LeaseFencedSchemaVersion ∨
   pool_AdmissionClosed p = false ∧ pool_SchemaVersion p = LeaseSchemaVersion) ∧
  pool_ResourceType p = "agent-e2e" ∧ pool_ResourceID p = "test-vms".

Lemma mergeRecoveryJournal_header j p p' :
  mergeRecoveryJournal j p = Ok p' → p' = p <| pool_Slots := pool_Slots p' |>.
Proof.
  unfold mergeRecoveryJournal. destruct j as [| |j]; intros H; [injection H as <-; by destruct p|done|].
  apply bind_Ok in H as (? & _ & H). apply bind_Ok in H as ([slots ?] & _ & H). by injection H as <-.
Qed.

Lemma load_header d p : load d = Ok p → header_ok p.
Proof.
  unfold load. destruct (disk_pool d) as [| |q]; intros H; [injection H as <-|done|].
  { split; [right|]; done. }
  cbv zeta in H.
  set (q' := if pool_SchemaVersion q =? 1 then _ else _) in H. clearbody q'.
  apply bind_Ok in H as (r & Hr & H). apply bind_Ok in H as ([] & Hc%refuse_Ok & H).
  apply bind_Ok in H as ([] & Ht%refuse_Ok & H). bools.
  apply mergeRecoveryJournal_header in H. rewrite H. unfold header_ok. simpl. split; [|done].
  destruct (pool_SchemaVersion q' =? LeaseFencedSchemaVersion) eqn:Hv.
  - injection Hr as <-. simpl in *. bools. by left.
  - ok_bools. right. destruct Hc; [done|congruence].
Qed.

(** ** Writing and loading back *)

(** A slot whose recovery entry [mergeRecoveryJournal] accepts. *)
Definition journalable (s : LeaseSlot) : Prop :=
  slotHasRecoveryMetadata s = true →
  brokerSlotID (slot_SlotID s) = true ∧ slot_ResourceGeneration s ≠ 0 ∧
  (slot_LastFailureEventID s ≠ "" → brokerRecordID (slot_LastFailureEventID s) = true) ∧
  (slot_IncidentID s ≠ "" → brokerRecordID (slot_IncidentID s) = true) ∧
  journal_state (slot_State s) = true.

Section write_load.
Context (slots : list LeaseSlot) (Hnd : NoDup (slot_SlotID <$> slots)).

Lemma findSlot_json s :
  s ∈ slots → ∃ i, findSlot (json_slot <$> slots) (slot_SlotID s) = Some (i, json_slot s) ∧
    (json_slot <$> slots) !! i = Some (json_slot s).
Proof.
  intros (i & Hi)%list_elem_of_lookup. exists i. rewrite list_lookup_fmap, Hi. split; [|done].
  unfold findSlot. apply list_find_Some. rewrite list_lookup_fmap, Hi. split_and!; [done..|].
  intros j y Hj Hlt Heq. rewrite list_lookup_fmap in Hj.
  destruct (slots !! j) as [t|] eqn:Ht; [|done]. injection Hj as <-. simpl in Heq.
  rewrite NoDup_alt in Hnd. assert (j = i); [|lia].
  apply (Hnd _ _ (slot_SlotID s)); rewrite list_lookup_fmap; [by rewrite Ht; simpl; rewrite Heq|by rewrite Hi].
Qed.

(** Restoring the recovery entry of a slot into the slot it was made from. *)
Lemma merge_recovery_own s known st :
  s ∈ slots → merge_recovery (json_slot <$> slots, known) (recovery_of s) = Ok st →
  st = (json_slot <$> slots, {[slot_SlotID s]} ∪ known).
Proof.
  intros Hs H. unfold merge_recovery in H. apply bind_Ok in H as ([] & _ & H).
  apply bind_Ok in H as ([] & _ & H). cbn [rec_SlotID recovery_of] in H.
  destruct (findSlot_json s Hs) as (i & Hfind & Hi). rewrite Hfind in H.
  assert (restore_recovery (recovery_of s) (json_slot s) = json_slot s) as Hres by (destruct s; reflexivity).
  rewrite Hres, list_insert_id in H by done. by case_match; injection H as <-.
Qed.

Lemma merge_recovery_total s known :
  s ∈ slots → journalable s → slotHasRecoveryMetadata s = true → slot_SlotID s ∉ known →
  merge_recovery (json_slot <$> slots, known) (recovery_of s) =
  Ok (json_slot <$> slots, {[slot_SlotID s]} ∪ known).
Proof.
  intros Hs Hj Hm Hk. destruct (Hj Hm) as (H1 & H2 & H3 & H4 & H5).
  destruct (merge_recovery (json_slot <$> slots, known) (recovery_of s)) as [st|e] eqn:H.
  { f_equal. by eapply merge_recovery_own. }
  exfalso. unfold merge_recovery in H. apply bind_Err in H as [[Hv _]%refuse_Err|([] & _ & H)].
  - unfold valid_recovery, seen in Hv. cbn [recovery_of rec_SlotID rec_ResourceGeneration
      rec_LastFailureEventID rec_IncidentID] in Hv. rewrite H1 in Hv. rewrite bool_decide_eq_false_2 in Hv by done.
    bools. destruct Hv as [[[[?|?]|?]|[? He]]|[? He]]; try done.
    + rewrite H3 in He by done. done.
    + rewrite H4 in He by done. done.
  - apply bind_Err in H as [[Hv _]%refuse_Err|([] & _ & H)]; [cbn in Hv; by rewrite H5 in Hv|].
    cbn [rec_SlotID recovery_of] in H. repeat case_match; done.
Qed.

Definition own_entries : list leaseRecoverySlot :=
  recovery_of <$> filter (λ s, slotHasRecoveryMetadata s = true) slots.

Lemma own_entries_NoDup : NoDup (rec_SlotID <$> own_entries).
Proof.
  unfold own_entries. rewrite <-list_fmap_compose. change (rec_SlotID ∘ recovery_of) with slot_SlotID.
  eapply sublist_NoDup; [exact Hnd|]. apply fmap_sublist. apply sublist_filter.
Qed.

Lemma merge_own st :
  for_range merge_recovery own_entries (json_slot <$> slots, ∅) = Ok st → st.1 = json_slot <$> slots.
Proof.
  intros H. refine (for_range_inv (λ _ st, st.1 = json_slot <$> slots) _ _ _ _ _ _ H); [done|].
  intros pre r post [ss known] st' He Hss Hr. simpl in Hss. subst ss.
  assert (r ∈ own_entries) as Hin by (rewrite He; set_solver).
  apply list_elem_of_fmap in Hin as (s & -> & Hs). apply list_elem_of_filter in Hs as [_ Hs].
  by apply merge_recovery_own in Hr as ->.
Qed.

Lemma merge_own_total :
  Forall journalable slots → ∃ known,
  for_range merge_recovery own_entries (json_slot <$> slots, ∅) = Ok (json_slot <$> slots, known).
Proof.
  intros Hj. cut (∃ st, for_range merge_recovery own_entries (json_slot <$> slots, ∅) = Ok st ∧
    st = (json_slot <$> slots, list_to_set (rec_SlotID <$> own_entries) : gset string)).
  { intros (st & -> & ->). eauto. }
  apply (for_range_total (λ pre st, st = (json_slot <$> slots,
    list_to_set (rec_SlotID <$> pre) : gset string))); [done|].
  intros pre r post st He ->. assert (r ∈ own_entries) as Hin by (rewrite He; set_solver).
  apply list_elem_of_fmap in Hin as (s & -> & Hs). apply list_elem_of_filter in Hs as [Hm Hs].
  exists (json_slot <$> slots, {[slot_SlotID s]} ∪ list_to_set (rec_SlotID <$> pre)). split.
  2:{ rewrite fmap_app, list_to_set_app_L. f_equal. cbn. set_solver. }
  apply merge_recovery_total; [done| |done|].
  - by rewrite Forall_forall in Hj; apply Hj.
  - rewrite elem_of_list_to_set. intros Hdup.
    pose proof own_entries_NoDup as Hnd'.
    rewrite He, fmap_app, fmap_cons in Hnd'. apply NoDup_app in Hnd' as (_ & Hx & _).
    apply (Hx _ Hdup). by left.
Qed.
End write_load.

(** The checks of [load] on a pool file that the store wrote itself, beside any
    journal. *)
Lemma load_written_any p j :
  header_ok p → load (mkDisk (Doc (json_pool p)) j) = mergeRecoveryJournal j (json_pool p).
Proof.
  intros (Hh & Ht & Hi). unfold load. simpl. destruct Hh as [[Hc Hv]|[Hc Hv]].
  - assert ((pool_SchemaVersion p =? 1) = false) as -> by (rewrite Hv; done). simpl. rewrite Hv. simpl.
    rewrite Ht, Hi. simpl. f_equal. unfold json_pool. destruct p. simpl in *. by subst.
  - assert ((pool_SchemaVersion p =? 1) = false) as -> by (rewrite Hv; done). simpl. rewrite Hv. simpl.
    rewrite Hc, Ht, Hi. simpl. done.
Qed.

Lemma load_written d p :
  header_ok p → load (writePool d p) = mergeRecoveryJournal (write_journal p) (json_pool p).
Proof. apply load_written_any. Qed.

Lemma write_journal_merge p :
  mergeRecoveryJournal (write_journal p) (json_pool p) =
  '(ss, _) ← for_range merge_recovery (own_entries (pool_Slots p)) (json_slot <$> pool_Slots p, ∅);
  Ok (json_pool p <| pool_Slots := ss |>).
Proof.
  unfold write_journal, mergeRecoveryJournal, own_entries. case_bool_decide as He; [done|].
  rewrite He. simpl. unfold json_pool. by destruct p.
Qed.

Lemma load_writePool d p p' :
  header_ok p → NoDup (slot_SlotID <$> pool_Slots p) → load (writePool d p) = Ok p' → p' = json_pool p.
Proof.
  intros Hh Hnd H. rewrite load_written, write_journal_merge in H by done.
  apply bind_Ok in H as ([ss known] & Hm & H). apply merge_own in Hm; [|done]. simpl in Hm. subst ss.
  injection H as <-. by destruct p.
Qed.

Lemma load_writePool_total d p :
  header_ok p → NoDup (slot_SlotID <$> pool_Slots p) → Forall journalable (pool_Slots p) →
  load (writePool d p) = Ok (json_pool p).
Proof.
  intros Hh Hnd Hj. rewrite load_written, write_journal_merge by done.
  destruct (merge_own_total (pool_Slots p) Hnd Hj) as [known ->]. simpl. by destruct p.
Qed.

(** ** Every operation moves along the machine *)

Lemma expire_slot_edge o s : slot_edge s (expire_slot o s).
Proof.
  assert (∀ reason, active s →
    slot_edge s (s <| slot_State := SlotDraining |> <| slot_FailureReason := reason |>)) as Hdrain.
  { intros reason Ha. by apply edge_drain. }
  assert (slot_edge s s) as Hstay by by apply edge_stay.
  unfold expire_slot.
  match goal with |- slot_edge _ (if _ then _ else ?rest) => assert (slot_edge s rest) as Hrest end.
  { case_match; [done|]. case_bool_decide; [apply Hdrain; by right|].
    case_bool_decide; [apply Hdrain; by left|done]. }
  destruct (slot_AcquireOwner s) as [owner|]; [|done].
  destruct ((_ || _) && _) eqn:Hb; [|done]. apply Hdrain. bools. done.
Qed.

Lemma json_slot_edge s : slot_edge s (json_slot s).
Proof. by apply edge_stay. Qed.

(** Counters that can still be incremented without wrapping. *)
Definition countable (s : LeaseSlot) : Prop :=
  0 ≤ slot_LeaseEpoch s < max_u64 ∧ 0 ≤ slot_ResourceGeneration s < max_u64.

#[export] Instance countable_dec s : Decision (countable s).
Proof. unfold countable. apply _. Defined.

Definition moves {A} (op : LeasePool → result lease_error (LeasePool * A)) : Prop :=
  ∀ pool pool' a, header_ok pool → Forall countable (pool_Slots pool) → op pool = Ok (pool', a) →
  header_ok pool' ∧ Forall2 slot_path (pool_Slots pool) (pool_Slots pool').

Lemma Forall2_refl_path ss : Forall2 slot_path ss ss.
Proof. induction ss; constructor; done. Qed.

Lemma insert_path ss i s s' :
  ss !! i = Some s → slot_path s s' → Forall2 slot_path ss (<[i := s']> ss).
Proof.
  intros Hi Hp. rewrite <-(list_insert_id ss i s Hi) at 1.
  apply Forall2_insert; [apply Forall2_refl_path|done].
Qed.

Lemma on_slot_moves {A} id (step : LeaseSlot → result lease_error (LeaseSlot * A)) :
  (∀ s s' a, countable s → step s = Ok (s', a) → slot_path s s') → moves (λ pool, on_slot pool id step).
Proof.
  intros Hstep pool pool' a Hh Hc H. unfold on_slot in H.
  apply bind_Ok in H as ([i s] & Hf%expect_Ok & H). apply bind_Ok in H as ([s' b] & Hs & H).
  apply Ok_inj in H. apply pair_eq in H as [<- <-]. split; [done|].
  apply list_find_Some in Hf as (Hi & _). simpl. eapply insert_path; [done|]. eapply Hstep; [|done].
  rewrite Forall_forall in Hc. apply Hc. by eapply list_elem_of_lookup_2.
Qed.

Lemma owned_moves {A} g now (mutate : LeaseSlot → Z → result lease_error (LeaseSlot * A)) :
  (∀ s s' a, slot_CapabilityHash s ≠ "" → mutate s now = Ok (s', a) → slot_path s s') →
  moves (λ pool, on_slot pool (grant_SlotID g) (λ slot,
    refuse (negb (owns g slot)) LeaseLost;; mutate slot now)).
Proof.
  intros Hm. apply on_slot_moves. intros s s' a _ H. apply bind_Ok in H as ([] & Ho%refuse_Ok & H).
  apply negb_false_iff, owns_spec in Ho as (_ & _ & Ho & _). by eapply Hm.
Qed.

(** What two pools that follow each other have in common: slot [i] of the later
    one was reached from slot [i] of the earlier one, or from a fresh slot. *)
Definition origin (p : LeasePool) (i : nat) : LeaseSlot :=
  default (fresh_slot (Z.of_nat i + 1)) (pool_Slots p !! i).

Definition pool_sim (p p' : LeasePool) : Prop :=
  canonical (pool_Slots p') ∧ ∀ i s', pool_Slots p' !! i = Some s' → slot_path (origin p i) s'.

Lemma path_canonical ss ss' : Forall2 slot_path ss ss' → canonical ss → canonical ss'.
Proof.
  intros H2 [Hids Hlen]. unfold canonical. rewrite <-(Forall2_length _ _ _ H2). split; [|done].
  rewrite <-Hids. clear Hids Hlen.
  induction H2 as [|s s' ss ss' Hp _ IH]; [done|]. csimpl. rewrite IH. f_equal.
  by apply slot_path_counters in Hp as [-> _].
Qed.

Lemma expire_path o ss : Forall2 slot_path ss (expire_slot o <$> ss).
Proof. induction ss; constructor; [by apply rtc_once, expire_slot_edge|done]. Qed.

Lemma json_path ss : Forall2 slot_path ss (json_slot <$> ss).
Proof. induction ss; constructor; [by apply rtc_once, json_slot_edge|done]. Qed.

#[export] Instance slot_path_preorder : PreOrder slot_path.
Proof. unfold slot_path. apply _. Qed.

Lemma countable_expire o s : countable s → countable (expire_slot o s).
Proof.
  unfold countable, expire_slot. intros H. repeat (case_match; try done).
Qed.

(** The pool that a locked operation works on, and what is read back after it. *)
Lemma withLock_sim {A} store o d (op : LeasePool → result lease_error (LeasePool * A)) d' a p p' :
  moves op → withLock store o d op = Ok (d', a) → load d = Ok p → load d' = Ok p' →
  canonical (pool_Slots p) → Forall countable (pool_Slots p) → store_SlotCount store ≤ 999 →
  pool_sim p p'.
Proof.
  intros Hop H Hl Hl' Hc Hcnt Hcount. unfold withLock, withPoolLock in H.
  apply bind_Ok in H as ([] & _ & H). rewrite Hl in H. cbn [mbind result_bind] in H.
  apply bind_Ok in H as (q & Hq & H).
  destruct (reconcile_canonical p q _ Hc Hcount Hq) as (extra & -> & Hex & Hcan & Hlen).
  apply bind_Ok in H as ([r b] & Hr & H). apply Ok_inj, pair_eq in H as [<- <-].
  assert (header_ok p) as Hh by by eapply load_header.
  assert (Forall countable extra) as Hcex.
  { rewrite Hex. apply Forall_fmap, Forall_forall. intros n _. split; split; unfold max_u64; simpl; lia. }
  assert (Forall countable (pool_Slots (expireStale o (p <| pool_Slots := pool_Slots p ++ extra |>)))) as Hca.
  { unfold expireStale. simpl. apply Forall_fmap. rewrite Forall_app.
    split; (eapply Forall_impl; [done|]; intros s; apply countable_expire). }
  edestruct Hop as [Hh' H2]; [|exact Hca|exact Hr|]; [exact Hh|].
  simpl in H2. assert (Forall2 slot_path (pool_Slots p ++ extra) (pool_Slots r)) as H3.
  { etrans; [apply (expire_path o)|done]. }
  assert (canonical (pool_Slots r)) as Hcr by by eapply path_canonical.
  apply load_writePool in Hl'; [|done|by apply canonical_NoDup]. subst p'. simpl.
  assert (Forall2 slot_path (pool_Slots p ++ extra) (json_slot <$> pool_Slots r)) as H4.
  { etrans; [done|]. apply json_path. }
  split; [by eapply path_canonical|]. intros i s' Hi. simpl in Hi.
  destruct (Forall2_lookup_r _ _ _ _ _ H4 Hi) as (s & Hs & Hp). unfold origin.
  destruct (pool_Slots p !! i) as [t|] eqn:Ht; simpl.
  { rewrite lookup_app_l in Hs by (by eapply lookup_lt_Some). congruence. }
  rewrite lookup_app_r in Hs by (by apply lookup_ge_None). apply lookup_ge_None in Ht.
  rewrite Hex, list_lookup_fmap in Hs.
  destruct (seqZ _ _ !! (i - length (pool_Slots p))%nat) as [n|] eqn:Hn; [|done].
  apply lookup_seqZ in Hn as [-> _]. injection Hs as <-.
  replace (Z.of_nat i + 1) with (Z.of_nat (length (pool_Slots p)) + 1 + Z.of_nat (i - length (pool_Slots p))) by lia.
  done.
Qed.

(** Peels the guards of a step [H : step s = Ok (s', a)] and replaces [s'] by the
    slot that the step wrote. *)
Ltac peel H :=
  cbv zeta in H; repeat match type of H with
  | mbind _ (refuse _ _) = Ok _ =>
      let G := fresh "Hguard" in apply bind_Ok in H as ([] & G & H); apply refuse_Ok in G
  | mbind _ (if ?b then _ else _) = Ok _ => let G := fresh "Hif" in destruct b eqn:G
  | mbind _ (mbind _ _) = Ok _ => let v := fresh "v" in let G := fresh "Hin" in
      apply bind_Ok in H as (v & G & H); peel_inner G
  | (if ?b then _ else _) = Ok _ => let G := fresh "Hif" in destruct b eqn:G
  | match ?o with Some _ => _ | None => _ end = Ok _ => destruct o
  | mbind _ (Ok _) = Ok _ => cbn [mbind result_bind] in H
  | Err _ = Ok _ => discriminate H
  end;
  try (apply Ok_inj, pair_eq in H as [<- _]); bools
with peel_inner G :=
  let G' := fresh "Hguard" in apply bind_Ok in G as ([] & G' & G); apply Ok_inj in G; subst.

(** Closes a goal [slot_path s s'] by the one move it is. *)
Ltac slot_move :=
  repeat match goal with H : owns _ _ = true |- _ => apply owns_spec in H as (? & ? & ? & ?) end;
  apply rtc_once; unfold busy_state in *; bools;
  first [ solve [apply edge_stay; done]
        | solve [apply edge_ready; done]
        | solve [apply edge_drain; unfold active; tauto || done]
        | solve [apply edge_vacate; tauto || done]
        | solve [apply edge_fence; tauto || done]
        | solve [apply edge_quarantine; tauto || done]
        | solve [apply edge_recover; tauto || done]
        | solve [apply edge_recovered; tauto || done] ].

(** The effect of a locked operation on one slot. *)
Ltac sim_by_slot H :=
  eapply withLock_sim; [|exact H|done..];
  apply on_slot_moves; let Hc := fresh "Hc" in let Hs := fresh "Hs" in
  intros ? ? ? Hc Hs; peel Hs; slot_move.

Lemma status_moves : moves (λ pool, Ok (pool, pool)).
Proof.
  intros r r' a Hh _ Hr. apply Ok_inj, pair_eq in Hr as [<- _]. split; [done|apply Forall2_refl_path].
Qed.

Lemma incident_moves id ev inc now : moves (λ pool, on_slot pool id (incident_slot id ev inc now)).
Proof.
  apply on_slot_moves. intros s s' ? _ Hs. unfold incident_slot in Hs. peel Hs.
  apply rtc_once, edge_stay; by case_match.
Qed.

(** A failed recovery writes valid record IDs and quarantines the slot. *)
Lemma finish_recovery_failed id message ev inc now s s' r :
  finish_recovery_slot id (Some message) ev inc now s = Ok (s', r) →
  same_lease s s' ∧ slot_State s = SlotRecovering ∧ slot_State s' = SlotQuarantined ∧
  (slot_LastFailureEventID s' = slot_LastFailureEventID s ∨ brokerRecordID (slot_LastFailureEventID s') = true) ∧
  (slot_IncidentID s' = slot_IncidentID s ∨ brokerRecordID (slot_IncidentID s') = true).
Proof.
  intros Hs. apply bind_Ok in Hs as ([] & Hst%refuse_Ok & Hs). bools.
  apply bind_Ok in Hs as (s1 & Hev & Hs). apply bind_Ok in Hs as (s2 & Hinc & Hs).
  apply Ok_inj, pair_eq in Hs as [<- _].
  destruct (bool_decide (ev = "")), (bool_decide (inc = "")); ok_inv; subst; bools; split_and!; first [done | simpl; auto].
Qed.

Lemma finish_recovery_moves id cause ev inc now :
  moves (λ pool, on_slot pool id (finish_recovery_slot id cause ev inc now)).
Proof.
  apply on_slot_moves. intros s s' x [_ Hg] Hs. destruct cause as [message|].
  - apply finish_recovery_failed in Hs as (H1 & H2 & H3 & _).
    apply rtc_once, edge_quarantine; [done|by right; right|done].
  - apply bind_Ok in Hs as ([] & Hst%refuse_Ok & Hs). bools. apply Ok_inj, pair_eq in Hs as [<- _].
    apply rtc_once, edge_recovered; [done| |done|done]. simpl. apply u64_small. lia.
Qed.

Lemma drain_all_moves reason :
  moves (λ pool, Ok (pool <| pool_Slots := drain_busy reason <$> pool_Slots pool |>, tt)).
Proof.
  intros r r' a Hh _ Hr. apply Ok_inj, pair_eq in Hr as [<- _]. split; [done|]. simpl.
  induction (pool_Slots r) as [|s ss IH]; csimpl; constructor; [|done].
  unfold drain_busy. case_match eqn:Hb; [done|]. slot_move.
Qed.

Lemma fence_moves expected : moves (λ pool,
  refuse (negb (len expected =? 64) || negb (bool_decide (PoolOperationBinding pool = expected))) LeaseTargetStale;;
  Ok (pool <| pool_AdmissionClosed := true |> <| pool_SchemaVersion := LeaseFencedSchemaVersion |>, tt)).
Proof.
  intros r r' a (_ & Hh) _ Hr. peel Hr. split; [|apply Forall2_refl_path]. split; [by left|done].
Qed.

Lemma open_moves : moves (λ pool,
  Ok (pool <| pool_AdmissionClosed := false |> <| pool_SchemaVersion := LeaseSchemaVersion |>, tt)).
Proof.
  intros r r' a (_ & Hh) _ Hr. peel Hr. split; [|apply Forall2_refl_path]. split; [by right|done].
Qed.

Section simulation.
Context (store : LeaseStore) (o o' : Observation) (d d' : disk) (p p' : LeasePool).
Context (Hload : load d = Ok p) (Hload' : load d' = Ok p').
Context (Hcan : canonical (pool_Slots p)) (Hcnt : Forall countable (pool_Slots p)).
Context (Hcount : store_SlotCount store ≤ 999).

Lemma Status_sim q : Status store o d = Ok (d', q) → pool_sim p p'.
Proof. intros H. eapply withLock_sim; [apply status_moves|exact H|done..]. Qed.

Lemma AbortProvisioning_sim g u : AbortProvisioning store o o' d g = Ok (d', u) → pool_sim p p'.
Proof. intros H. sim_by_slot H. Qed.

Lemma MarkHeld_sim g u : MarkHeld store o o' d g = Ok (d', u) → pool_sim p p'.
Proof. intros H. sim_by_slot H. Qed.

Lemma Renew_sim g u : Renew store o o' d g = Ok (d', u) → pool_sim p p'.
Proof. intros H. sim_by_slot H. Qed.

Lemma BeginDrain_sim g u : BeginDrain store o o' d g = Ok (d', u) → pool_sim p p'.
Proof. intros H. sim_by_slot H. Qed.

Lemma Quarantine_sim g cause u : Quarantine store o o' d g cause = Ok (d', u) → pool_sim p p'.
Proof. intros H. sim_by_slot H. Qed.

Lemma handoff_sim g u : handoff store o o' d g = Ok (d', u) → pool_sim p p'.
Proof. intros H. sim_by_slot H. Qed.

Lemma dropLegacyRetained_sim g u : dropLegacyRetained store o o' d g = Ok (d', u) → pool_sim p p'.
Proof. intros H. sim_by_slot H. Qed.

Lemma pinBase_sim g f u : pinBase store o d g f = Ok (d', u) → pool_sim p p'.
Proof. intros H. sim_by_slot H. Qed.

Lemma FinishDrain_sim id err u : FinishDrain store o o' d id err = Ok (d', u) → pool_sim p p'.
Proof. intros H. sim_by_slot H. Qed.

Lemma BeginDrainSlot_sim id reason u : BeginDrainSlot store o d id reason = Ok (d', u) → pool_sim p p'.
Proof. intros H. sim_by_slot H. Qed.

Lemma BeginExpectedDrain_sim e reason u : BeginExpectedDrain store o d e reason = Ok (d', u) → pool_sim p p'.
Proof. intros H. apply bind_Ok in H as (? & _ & H). sim_by_slot H. Qed.

Lemma SetQuarantineIncident_sim id ev inc u :
  SetQuarantineIncident store o o' d id ev inc = Ok (d', u) → pool_sim p p'.
Proof.
  intros H. apply bind_Ok in H as (? & _ & H). eapply withLock_sim; [apply incident_moves|exact H|done..].
Qed.

Lemma InterruptRecovery_sim id cause u : InterruptRecovery store o o' d id cause = Ok (d', u) → pool_sim p p'.
Proof. intros H. apply bind_Ok in H as (? & _ & H). sim_by_slot H. Qed.

Lemma BeginScheduledRecovery_sim id force r :
  BeginScheduledRecovery store o o' d id force = Ok (d', r) → pool_sim p p'.
Proof. intros H. sim_by_slot H. Qed.

Lemma BeginExpectedRecovery_sim e r : BeginExpectedRecovery store o o' d e = Ok (d', r) → pool_sim p p'.
Proof. intros H. apply bind_Ok in H as (? & _ & H). sim_by_slot H. Qed.

Lemma FinishRecovery_sim id cause ev inc r :
  FinishRecovery store o o' d id cause ev inc = Ok (d', r) → pool_sim p p'.
Proof. intros H. eapply withLock_sim; [apply finish_recovery_moves|exact H|done..]. Qed.

Lemma beginRetireLegacy_sim e u : beginRetireLegacy store o d e = Ok (d', u) → pool_sim p p'.
Proof. intros H. sim_by_slot H. Qed.

Lemma finishRetireLegacy_sim e u : finishRetireLegacy store o d e = Ok (d', u) → pool_sim p p'.
Proof. intros H. sim_by_slot H. Qed.

Lemma BeginDrainAll_sim reason u : BeginDrainAll store o d reason = Ok (d', u) → pool_sim p p'.
Proof. intros H. eapply withLock_sim; [apply drain_all_moves|exact H|done..]. Qed.

Lemma FenceExpectedPool_sim e u : FenceExpectedPool store o d e = Ok (d', u) → pool_sim p p'.
Proof. intros H. eapply withLock_sim; [apply fence_moves|exact H|done..]. Qed.

Lemma OpenAdmission_sim u : OpenAdmission store o d = Ok (d', u) → pool_sim p p'.
Proof. intros H. eapply withLock_sim; [apply open_moves|exact H|done..]. Qed.

Lemma acquire_update_edge owner req leaseID capability now s :
  slot_State s = SlotAvailable → countable s →
  slot_edge s (acquire_update owner req leaseID capability now s).
Proof.
  intros Hs [He Hg]. apply edge_acquire; [done|..]; unfold acquire_update.
  all: destruct (req_Environment req), (req_Context req); simpl; try done.
  all: rewrite ?u64_small by lia; lia.
Qed.

Lemma acquireSlot_sim tokens req g : acquireSlot store o o' tokens d req = Ok (d', g) → pool_sim p p'.
Proof.
  intros H. unfold acquireSlot in H. do 5 apply bind_Ok in H as (? & _ & H).
  eapply withLock_sim; [|exact H|done..]. intros r r' a Hh Hc Hr.
  apply bind_Ok in Hr as (? & _ & Hr). apply bind_Ok in Hr as ([i s] & Hf%expect_Ok & Hr).
  apply bind_Ok in Hr as (? & Hs%refuse_Ok & Hr). bools. apply bind_Ok in Hr as ([l c] & _ & Hr).
  apply Ok_inj, pair_eq in Hr as [<- _]. split; [done|]. simpl.
  apply list_find_Some in Hf as (Hi & _). simpl in Hi.
  etrans; [apply (expire_path o')|]. eapply insert_path; [done|]. apply rtc_once, acquire_update_edge; [done|].
  rewrite list_lookup_fmap in Hi. destruct (pool_Slots r !! i) as [t|] eqn:Ht; [|done]. injection Hi as <-.
  apply countable_expire. rewrite Forall_forall in Hc. apply Hc. by eapply list_elem_of_lookup_2.
Qed.

Lemma AcquireSlot_sim tokens client fp label purpose id g :
  AcquireSlot store o o' tokens d client fp label purpose id = Ok (d', g) → pool_sim p p'.
Proof. intros H. apply bind_Ok in H as (? & _ & H). by eapply acquireSlot_sim. Qed.

Lemma AcquireV2Slot_sim tokens client fp yard project run purpose id g :
  AcquireV2Slot store o o' tokens d client fp yard project run purpose id = Ok (d', g) → pool_sim p p'.
Proof.
  intros H. apply bind_Ok in H as (? & _ & H). apply bind_Ok in H as (? & _ & H).
  by eapply acquireSlot_sim.
Qed.

Lemma AcquireV3Slot_sim tokens spec client fp yard project run purpose id g :
  AcquireV3Slot store o o' tokens d spec client fp yard project run purpose id = Ok (d', g) → pool_sim p p'.
Proof. intros H. do 3 apply bind_Ok in H as (? & _ & H). by eapply acquireSlot_sim. Qed.

(** Reading a written pool back, for the operations that do not expire leases. *)
Lemma written_sim q :
  d' = writePool d q → header_ok q → canonical (pool_Slots q) →
  (∀ i s', pool_Slots q !! i = Some s' → slot_path (origin p i) s') → pool_sim p p'.
Proof.
  intros -> Hh Hc Hp. apply load_writePool in Hload'; [|done|by apply canonical_NoDup]. rewrite Hload'.
  split; [eapply path_canonical; [apply json_path|done]|]. simpl. intros i s' Hi.
  rewrite list_lookup_fmap in Hi. destruct (pool_Slots q !! i) as [s|] eqn:Hs; [|done].
  injection Hi as <-. etrans; [by apply Hp|]. by apply rtc_once, json_slot_edge.
Qed.

Lemma CommitResize_sim u : CommitResize store d = Ok (d', u) → pool_sim p p'.
Proof.
  intros H. unfold CommitResize, withPoolLock in H. rewrite Hload in H. cbn [mbind result_bind] in H.
  apply bind_Ok in H as (? & Hl%refuse_Ok & H). apply bind_Ok in H as (? & _ & H). bools.
  apply Ok_inj, pair_eq in H as [Hd _]. eapply written_sim; [by symmetry|exact (load_header _ _ Hload)| |].
  - by apply canonical_take.
  - simpl. intros i s' Hi. apply lookup_take_Some in Hi as [Hi _]. unfold origin. by rewrite Hi.
Qed.

Lemma PrepareResize_sim r : PrepareResize store d = Ok (d', r) → pool_sim p p'.
Proof.
  intros H. unfold PrepareResize, withPoolLock in H. rewrite Hload in H. cbn [mbind result_bind] in H.
  cbv zeta in H. case_match eqn:Hlt; bools.
  { apply bind_Ok in H as (q & Hq & H). apply Ok_inj, pair_eq in H as [Hd _].
    destruct (reconcile_canonical p q _ Hcan Hcount Hq) as (extra & -> & Hex & Hc & _).
    eapply written_sim; [by symmetry|exact (load_header _ _ Hload)|done|]. simpl. intros i s' Hi. unfold origin.
    apply lookup_app_Some in Hi as [Hi|[Hge Hi]]; [by rewrite Hi|].
    rewrite (lookup_ge_None_2 (pool_Slots p) i) by done. simpl.
    rewrite Hex, list_lookup_fmap in Hi. destruct (seqZ _ _ !! _) as [n|] eqn:Hn; [|done].
    apply lookup_seqZ in Hn as [-> _]. injection Hi as <-. 
    match goal with |- slot_path ?a ?b => assert (a = b) as -> by (f_equal; lia) end. done. }
  case_match eqn:Heq; bools.
  { apply Ok_inj, pair_eq in H as [Hd _]. assert (p' = p) as -> by congruence.
    split; [done|]. intros i s' Hi. unfold origin. by rewrite Hi. }
  apply bind_Ok in H as (? & Hret & H). apply Ok_inj, pair_eq in H as [Hd _].
  rewrite for_each_Ok in Hret.
  assert (Forall2 slot_path (pool_Slots p) (take (Z.to_nat (store_SlotCount store)) (pool_Slots p) ++
    (resize_fence <$> drop (Z.to_nat (store_SlotCount store)) (pool_Slots p)))) as H2.
  { rewrite <-(take_drop (Z.to_nat (store_SlotCount store)) (pool_Slots p)) at 1.
    apply Forall2_app; [apply Forall2_refl_path|].
    revert Hret. generalize (drop (Z.to_nat (store_SlotCount store)) (pool_Slots p)). intros rest Hret.
    induction rest as [|s rest IH]; csimpl; constructor; [|apply IH; intros; apply Hret; by right].
    assert (check_retirable s = Ok tt) as Hs by (apply Hret; by left). unfold check_retirable in Hs.
    apply bind_Ok in Hs as (? & _ & Hs). apply rtc_once. case_match eqn:Hf.
    - unfold resize_fenced in Hf. bools. by apply edge_stay.
    - apply refuse_Ok in Hs. bools. apply edge_fence; [done|by left|done]. }
  eapply written_sim; [by symmetry|exact (load_header _ _ Hload)|by eapply path_canonical|]. simpl. intros i s' Hi.
  destruct (Forall2_lookup_r _ _ _ _ _ H2 Hi) as (s & Hs & Hp). unfold origin. by rewrite Hs.
Qed.
End simulation.

(** ** Runs of the broker *)

(** One operation by any process, under any configuration of at most 999 slots.
    Rebuilding a corrupt pool is not among them: it starts from files that do
    not load. *)
Inductive lease_step (d d' : disk) : Prop :=
| step_status store o q : store_SlotCount store ≤ 999 → Status store o d = Ok (d', q) → lease_step d d'
| step_acquire store o o' tokens client fp label purpose id g :
    store_SlotCount store ≤ 999 →
    AcquireSlot store o o' tokens d client fp label purpose id = Ok (d', g) → lease_step d d'
| step_acquire_v2 store o o' tokens client fp yard project run purpose id g :
    store_SlotCount store ≤ 999 →
    AcquireV2Slot store o o' tokens d client fp yard project run purpose id = Ok (d', g) → lease_step d d'
| step_acquire_v3 store o o' tokens spec client fp yard project run purpose id g :
    store_SlotCount store ≤ 999 →
    AcquireV3Slot store o o' tokens d spec client fp yard project run purpose id = Ok (d', g) →
    lease_step d d'
| step_abort store o o' g u :
    store_SlotCount store ≤ 999 → AbortProvisioning store o o' d g = Ok (d', u) → lease_step d d'
| step_mark_held store o o' g u :
    store_SlotCount store ≤ 999 → MarkHeld store o o' d g = Ok (d', u) → lease_step d d'
| step_renew store o o' g u :
    store_SlotCount store ≤ 999 → Renew store o o' d g = Ok (d', u) → lease_step d d'
| step_begin_drain store o o' g u :
    store_SlotCount store ≤ 999 → BeginDrain store o o' d g = Ok (d', u) → lease_step d d'
| step_quarantine store o o' g cause u :
    store_SlotCount store ≤ 999 → Quarantine store o o' d g cause = Ok (d', u) → lease_step d d'
| step_handoff store o o' g u :
    store_SlotCount store ≤ 999 → handoff store o o' d g = Ok (d', u) → lease_step d d'
| step_drop_legacy store o o' g u :
    store_SlotCount store ≤ 999 → dropLegacyRetained store o o' d g = Ok (d', u) → lease_step d d'
| step_pin_base store o g f u :
    store_SlotCount store ≤ 999 → pinBase store o d g f = Ok (d', u) → lease_step d d'
| step_finish_drain store o o' id err u :
    store_SlotCount store ≤ 999 → FinishDrain store o o' d id err = Ok (d', u) → lease_step d d'
| step_drain_all store o reason u :
    store_SlotCount store ≤ 999 → BeginDrainAll store o d reason = Ok (d', u) → lease_step d d'
| step_drain_slot store o id reason u :
    store_SlotCount store ≤ 999 → BeginDrainSlot store o d id reason = Ok (d', u) → lease_step d d'
| step_expected_drain store o e reason u :
    store_SlotCount store ≤ 999 → BeginExpectedDrain store o d e reason = Ok (d', u) → lease_step d d'
| step_fence store o e u :
    store_SlotCount store ≤ 999 → FenceExpectedPool store o d e = Ok (d', u) → lease_step d d'
| step_open store o u :
    store_SlotCount store ≤ 999 → OpenAdmission store o d = Ok (d', u) → lease_step d d'
| step_incident store o o' id ev inc u :
    store_SlotCount store ≤ 999 → SetQuarantineIncident store o o' d id ev inc = Ok (d', u) → lease_step d d'
| step_interrupt store o o' id cause u :
    store_SlotCount store ≤ 999 → InterruptRecovery store o o' d id cause = Ok (d', u) → lease_step d d'
| step_scheduled_recovery store o o' id force r :
    store_SlotCount store ≤ 999 → BeginScheduledRecovery store o o' d id force = Ok (d', r) → lease_step d d'
| step_expected_recovery store o o' e r :
    store_SlotCount store ≤ 999 → BeginExpectedRecovery store o o' d e = Ok (d', r) → lease_step d d'
| step_finish_recovery store o o' id cause ev inc r :
    store_SlotCount store ≤ 999 → FinishRecovery store o o' d id cause ev inc = Ok (d', r) → lease_step d d'
| step_begin_retire store o e u :
    store_SlotCount store ≤ 999 → beginRetireLegacy store o d e = Ok (d', u) → lease_step d d'
| step_finish_retire store o e u :
    store_SlotCount store ≤ 999 → finishRetireLegacy store o d e = Ok (d', u) → lease_step d d'
| step_prepare_resize store r :
    store_SlotCount store ≤ 999 → PrepareResize store d = Ok (d', r) → lease_step d d'
| step_commit_resize store u :
    store_SlotCount store ≤ 999 → CommitResize store d = Ok (d', u) → lease_step d d'.

Lemma lease_step_sim d d' p p' :
  lease_step d d' → load d = Ok p → load d' = Ok p' →
  canonical (pool_Slots p) → Forall countable (pool_Slots p) → pool_sim p p'.
Proof.
  destruct 1; intros;
    eauto using Status_sim, AcquireSlot_sim, AcquireV2Slot_sim, AcquireV3Slot_sim, AbortProvisioning_sim,
      MarkHeld_sim, Renew_sim, BeginDrain_sim, Quarantine_sim, handoff_sim, dropLegacyRetained_sim,
      pinBase_sim, FinishDrain_sim, BeginDrainAll_sim, BeginDrainSlot_sim, BeginExpectedDrain_sim.
  all: eauto using FenceExpectedPool_sim, OpenAdmission_sim, SetQuarantineIncident_sim,
      InterruptRecovery_sim, BeginScheduledRecovery_sim, BeginExpectedRecovery_sim, FinishRecovery_sim,
      beginRetireLegacy_sim, finishRetireLegacy_sim, PrepareResize_sim, CommitResize_sim.
Qed.

(** A step between two loadable states in both of which slot [i] exists, with
    counters that have not run out. *)
Definition step_at (i : nat) (d d' : disk) : Prop :=
  lease_step d d' ∧ ∃ p p', load d = Ok p ∧ load d' = Ok p' ∧ Forall countable (pool_Slots p) ∧
    is_Some (pool_Slots p !! i) ∧ is_Some (pool_Slots p' !! i).

Lemma run_path i d d' p p' s s' :
  rtc (step_at i) d d' → load d = Ok p → load d' = Ok p' → canonical (pool_Slots p) →
  pool_Slots p !! i = Some s → pool_Slots p' !! i = Some s' →
  canonical (pool_Slots p') ∧ slot_path s s'.
Proof.
  intros Hrun. revert p s. induction Hrun as [d|d1 d2 d3 (Hstep & q1 & q2 & Hq1 & Hq2 & Hcnt & _ & Hsome) _ IH];
    intros p s Hp Hp' Hcan Hs Hs'.
  { assert (p' = p) as -> by congruence. split; [done|]. by simplify_eq. }
  assert (q1 = p) as -> by congruence. destruct Hsome as [s2 Hs2].
  destruct (lease_step_sim _ _ _ _ Hstep Hp Hq2 Hcan Hcnt) as [Hcan2 Hsim].
  destruct (IH q2 s2 Hq2 Hp' Hcan2 Hs2 Hs') as [? Hpath]. split; [done|].
  etrans; [|exact Hpath]. specialize (Hsim i s2 Hs2). unfold origin in Hsim. by rewrite Hs in Hsim.
Qed.

(** What an operation of a grant's holder finds. *)
Lemma canonical_findSlot slots i s :
  canonical slots → slots !! i = Some s → findSlot slots (slot_name (Z.of_nat i + 1)) = Some (i, s).
Proof.
  intros Hcan Hi. pose proof (canonical_NoDup _ Hcan) as Hnd. destruct Hcan as [Hids Hlen].
  apply lookup_lt_Some in Hi as Hlt.
  assert (∀ j t, slots !! j = Some t → slot_SlotID t = slot_name (Z.of_nat j + 1)) as Hid.
  { intros j t Hj. apply lookup_lt_Some in Hj as Hjlt.
    assert ((slot_SlotID <$> slots) !! j = Some (slot_SlotID t)) as Hf by (by rewrite list_lookup_fmap, Hj).
    rewrite Hids, slot_names_lookup in Hf by done. congruence. }
  apply list_find_Some. split_and!; [done|by apply Hid|]. intros j t Hj Hlt' Heq.
  rewrite (Hid j t Hj) in Heq. apply slot_name_inj in Heq; [lia|..]; split; lia.
Qed.

Lemma expire_slot_same o s : same_lease s (expire_slot o s).
Proof. unfold expire_slot. repeat (case_match; try done). Qed.

Lemma json_slot_same s : same_lease s (json_slot s).
Proof. done. Qed.

Lemma owns_same g s s' : same_lease s s' → owns g s' = owns g s.
Proof. intros (_ & _ & H1 & H2 & H3). unfold owns. by rewrite H1, H2, H3. Qed.

(** No operation on behalf of a grant that does not own its slot succeeds. *)
Lemma mutateOwned_lost {A} store o o' d p i s g (f : LeaseSlot → Z → result lease_error (LeaseSlot * A)) :
  load d = Ok p → canonical (pool_Slots p) → pool_Slots p !! i = Some s →
  grant_SlotID g = slot_name (Z.of_nat i + 1) → store_SlotCount store ≤ 999 → owns g s = false →
  is_ok (mutateOwned store o o' d g f) = false.
Proof.
  intros Hl Hcan Hs Hg Hcount Ho. apply not_true_iff_false. rewrite is_ok_spec. intros [[d' a] H].
  unfold mutateOwned, withLock, withPoolLock in H. apply bind_Ok in H as (? & _ & H). rewrite Hl in H.
  cbn [mbind result_bind] in H. apply bind_Ok in H as (q & Hq & H).
  destruct (reconcile_canonical p q _ Hcan Hcount Hq) as (extra & -> & Hex & Hcan' & _).
  apply bind_Ok in H as ([r b] & Hr & _). unfold on_slot in Hr.
  apply bind_Ok in Hr as ([j t] & Hf%expect_Ok & Hr). apply bind_Ok in Hr as ([t' c] & Hm & _).
  rewrite Hg in Hf. simpl in Hf.
  assert (canonical (expire_slot o <$> (pool_Slots p ++ extra))) as Hc2.
  { eapply path_canonical; [apply expire_path|done]. }
  assert ((expire_slot o <$> (pool_Slots p ++ extra)) !! i = Some (expire_slot o s)) as Hi.
  { rewrite list_lookup_fmap, lookup_app_l by (by eapply lookup_lt_Some). by rewrite Hs. }
  rewrite (canonical_findSlot _ _ _ Hc2 Hi) in Hf. injection Hf as <- <-.
  apply bind_Ok in Hm as (? & Hown%refuse_Ok & _). bools.
  rewrite (owns_same _ s) in Hown; [congruence|apply expire_slot_same].
Qed.

Lemma capabilityDigest_ne s : capabilityDigest s ≠ "".
Proof.
  intros Heq. pose proof (length_EncodeToString (Sum256 s)) as Hl. unfold capabilityDigest in Heq.
  by rewrite Heq, length_Sum256 in Hl.
Qed.

(** ** Admission *)

Lemma acquire_update_owned owner req leaseID capability now s :
  owns (grant_of req capability (acquire_update owner req leaseID capability now s))
    (acquire_update owner req leaseID capability now s) = true.
Proof.
  apply owns_spec. unfold acquire_update.
  destruct (req_Environment req), (req_Context req); simpl; eauto using capabilityDigest_ne.
Qed.

(** A slot that is available after it was expired was available before. *)
Lemma expire_available o s : slot_State (expire_slot o s) = SlotAvailable → expire_slot o s = s.
Proof. unfold expire_slot. repeat (case_match; try done). Qed.

Lemma expire_origin o o' p extra i s :
  extra = fresh_slot <$> seqZ (Z.of_nat (length (pool_Slots p)) + 1)
    (Z.of_nat (length (pool_Slots p ++ extra)) - Z.of_nat (length (pool_Slots p))) →
  (expire_slot o' <$> (expire_slot o <$> (pool_Slots p ++ extra))) !! i = Some s →
  s = expire_slot o' (expire_slot o (origin p i)).
Proof.
  intros Hex Hi. rewrite !list_lookup_fmap in Hi.
  destruct ((pool_Slots p ++ extra) !! i) as [t|] eqn:Ht; [|done]. simpl in Hi. injection Hi as <-.
  do 2 f_equal. unfold origin. destruct (pool_Slots p !! i) as [u|] eqn:Hu; simpl.
  { rewrite lookup_app_l in Ht by (by eapply lookup_lt_Some). congruence. }
  apply lookup_ge_None in Hu. rewrite lookup_app_r in Ht by done.
  rewrite Hex, list_lookup_fmap in Ht. destruct (seqZ _ _ !! _) as [n|] eqn:Hn; [|done].
  apply lookup_seqZ in Hn as [-> _]. injection Ht as <-. f_equal. lia.
Qed.

(** What a successful admission did. *)
Lemma acquireSlot_inv store o o' tokens d req d' g p :
  acquireSlot store o o' tokens d req = Ok (d', g) → load d = Ok p →
  canonical (pool_Slots p) → store_SlotCount store ≤ 999 →
  ∃ i q leaseID capability,
    pool_AdmissionClosed p = false ∧ slot_State (origin p i) = SlotAvailable ∧
    tokens = Some (leaseID, capability) ∧
    d' = writePool d q ∧ header_ok q ∧ canonical (pool_Slots q) ∧
    (let s' := acquire_update (store_AcquireOwner store) req leaseID capability (obs_now o') (origin p i) in
     pool_Slots q !! i = Some s' ∧ g = grant_of req capability s' ∧ slot_SlotID s' = req_Slot req) ∧
    ∀ j t', j ≠ i → pool_Slots q !! j = Some t' → t' = expire_slot o' (expire_slot o (origin p j)).
Proof.
  intros H Hl Hcan Hcount. unfold acquireSlot, withLock, withPoolLock in H.
  do 6 apply bind_Ok in H as (? & _ & H). rewrite Hl in H. cbn [mbind result_bind] in H.
  apply bind_Ok in H as (q & Hq & H).
  destruct (reconcile_canonical p q _ Hcan Hcount Hq) as (extra & -> & Hex & Hcan' & Hlen).
  rewrite <-Hlen in Hex. apply bind_Ok in H as ([r b] & Hr & H). apply Ok_inj, pair_eq in H as [<- <-].
  cbv zeta in Hr. apply bind_Ok in Hr as (? & Hclosed%refuse_Ok & Hr).
  apply bind_Ok in Hr as ([i s] & Hf%expect_Ok & Hr). apply list_find_Some in Hf as (Hi & Hid & _).
  apply bind_Ok in Hr as (? & Hs%refuse_Ok & Hr). apply negb_false_iff, bool_decide_eq_true in Hs.
  apply bind_Ok in Hr as ([l c] & Htok%expect_Ok & Hr). apply Ok_inj, pair_eq in Hr as [<- <-].
  simpl in Hi. apply (expire_origin o o' p extra) in Hi as Hs'; [|done].
  assert (s = origin p i) as ->.
  { subst s. apply expire_available in Hs as Heq. rewrite Heq in Hs |- *. by apply expire_available. }
  assert (canonical (expire_slot o' <$> (expire_slot o <$> (pool_Slots p ++ extra)))) as Hc2.
  { eapply path_canonical; [apply expire_path|]. eapply path_canonical; [apply expire_path|done]. }
  exists i. eexists _, l, c. split_and!; [done|done|done|done|exact (load_header _ _ Hl)| | |].
  - destruct Hc2 as [Hids Hn]. split; simpl; [|by rewrite length_insert].
    rewrite length_insert, <-Hids, list_fmap_insert. apply list_insert_id.
    rewrite list_lookup_fmap, Hi. simpl. f_equal. unfold acquire_update.
    by destruct (req_Environment req), (req_Context req).
  - cbv zeta. split_and!; [|done|unfold acquire_update; by destruct (req_Environment req), (req_Context req)].
    simpl. apply list_lookup_insert_eq. by eapply lookup_lt_Some.
  - intros j t' Hj Ht. simpl in Ht. rewrite list_lookup_insert_ne in Ht by done.
    by eapply expire_origin.
Qed.

(** ** Claims *)

(** An admission, its grant and the files after it, for the examples. *)
Definition sample_obs : Observation := mkObs 1000 (λ _, true).

Definition sample_store (count : Z) : LeaseStore := mkStore None count.

Definition no_disk : disk := mkDisk Absent Absent.

Definition sample_acquire (d : disk) (id lease : string) : result lease_error (disk * LeaseGrant) :=
  AcquireV2Slot (sample_store 2) sample_obs sample_obs (Some (lease, "cap-" +:+ lease)) d
    "client" "SHA256:key" "main" "demo" "run-1" "test" id.

Definition disk_of {A} (r : result lease_error (disk * A)) : disk :=
  match r with Ok (d, _) => d | Err _ => no_disk end.

Definition grant_or_zero (r : result lease_error (disk * LeaseGrant)) : LeaseGrant :=
  match r with Ok (_, g) => g | Err _ => mkGrant None "" 0 "" "" 0 0 None end.

Definition pool_of (d : disk) : LeasePool :=
  match load d with Ok p => p | Err _ => empty_pool end.

Definition disk1 : disk := disk_of (sample_acquire no_disk "slot-002" "aa").
Definition grant1 : LeaseGrant := grant_or_zero (sample_acquire no_disk "slot-002" "aa").
Definition disk2 : disk := disk_of (MarkHeld (sample_store 2) sample_obs sample_obs disk1 grant1).
Definition disk3 : disk := disk_of (BeginDrain (sample_store 2) sample_obs sample_obs disk2 grant1).
Definition disk4 : disk := disk_of (FinishDrain (sample_store 2) sample_obs sample_obs disk3 "slot-002" None).
Definition disk5 : disk := disk_of (sample_acquire disk4 "slot-002" "bb").

(** C1: the broker implements the slot machine.  Every operation that succeeds,
    by any process and under any configured size up to 999, takes a loadable
    pool with canonical slot names to a pool in which every slot was reached
    from the slot of the same number along edges of [slot_edge] (or from a fresh
    available slot, if the pool grew): admission only from available, hand-over
    only through draining or recovery, lease counters only upwards. *)
Theorem lease_step_refines d d' p p' :
  lease_step d d' → load d = Ok p → load d' = Ok p' →
  canonical (pool_Slots p) → Forall countable (pool_Slots p) → pool_sim p p'.
Proof. apply lease_step_sim. Qed.

Lemma lease_step_refines_witness : pool_sim (pool_of disk1) (pool_of disk2).
Proof.
  apply (lease_step_refines disk1 disk2).
  - apply (step_mark_held _ _ (sample_store 2) sample_obs sample_obs grant1
      (obs_now sample_obs + LeaseTTL)); [done|by vm_compute].
  - by vm_compute.
  - by vm_compute.
  - decide_now.
  - decide_now.
Defined.



(** C2: an old grant is fenced off.  Once slot [i] has moved to a later lease
    epoch, a grant that owned it before owns it no more, and no operation that
    acts on behalf of that grant (mark held, renew, drain, quarantine, abort,
    hand off, whatever the operation does to the slot) succeeds. *)
Theorem lease_fencing i d d' p p' s s' g :
  rtc (step_at i) d d' → load d = Ok p → load d' = Ok p' → canonical (pool_Slots p) →
  pool_Slots p !! i = Some s → pool_Slots p' !! i = Some s' →
  owns g s = true → grant_SlotID g = slot_name (Z.of_nat i + 1) → slot_LeaseEpoch s' ≠ slot_LeaseEpoch s →
  owns g s' = false ∧
  ∀ A store o o' (f : LeaseSlot → Z → result lease_error (LeaseSlot * A)),
    store_SlotCount store ≤ 999 → is_ok (mutateOwned store o o' d' g f) = false.
Proof.
  intros Hrun Hp Hp' Hcan Hs Hs' Ho Hg He.
  destruct (run_path i d d' p p' s s' Hrun Hp Hp' Hcan Hs Hs') as [Hcan' _].
  assert (owns g s' = false) as Hlost.
  { apply not_true_iff_false. intros (_ & He' & _)%owns_spec. apply owns_spec in Ho as (_ & Ho & _). congruence. }
  split; [done|]. intros A store o o' f Hcount. by eapply mutateOwned_lost.
Qed.

Lemma lease_fencing_witness :
  is_ok (Renew (sample_store 2) sample_obs sample_obs disk5 grant1) = false.
Proof.
  edestruct (lease_fencing 1 disk2 disk5 (pool_of disk2) (pool_of disk5)
    (default (fresh_slot 0) (pool_Slots (pool_of disk2) !! 1%nat))
    (default (fresh_slot 0) (pool_Slots (pool_of disk5) !! 1%nat)) grant1) as [_ H].
  - eapply (rtc_l _ _ disk3); [|eapply (rtc_l _ _ disk4); [|eapply rtc_once]].
    + split; [|eexists _, _; split; [by vm_compute|]; split; [by vm_compute|];
        split; [decide_now|split; eexists; by vm_compute]].
      apply (step_begin_drain _ disk3 (sample_store 2) sample_obs sample_obs grant1 tt); [done|by vm_compute].
    + split; [|eexists _, _; split; [by vm_compute|]; split; [by vm_compute|];
        split; [decide_now|split; eexists; by vm_compute]].
      apply (step_finish_drain _ disk4 (sample_store 2) sample_obs sample_obs "slot-002" None tt); [done|by vm_compute].
    + split; [|eexists _, _; split; [by vm_compute|]; split; [by vm_compute|];
        split; [decide_now|split; eexists; by vm_compute]].
      eapply (step_acquire_v2 _ disk5 (sample_store 2) sample_obs sample_obs (Some ("bb", "cap-bb"))
        "client" "SHA256:key" "main" "demo" "run-1" "test" "slot-002"); [done|by vm_compute].
  - by vm_compute.
  - by vm_compute.
  - decide_now.
  - by vm_compute.
  - by vm_compute.
  - by vm_compute.
  - by vm_compute.
  - by vm_compute.
  - unfold Renew. apply H. by vm_compute.
Defined.

(** what an admission grants.  A successful [AcquireV2Slot] found the pool
    open and the requested slot available; afterwards the slot is provisioning
    in the next lease epoch, the returned grant owns it and carries its slot,
    generation, epoch and deadline, and the lease of every other slot is the one
    it had. *)
Theorem acquire_grants store o o' tokens d client fp yard project run purpose id d' g p p' :
  AcquireV2Slot store o o' tokens d client fp yard project run purpose id = Ok (d', g) →
  load d = Ok p → load d' = Ok p' → canonical (pool_Slots p) → Forall countable (pool_Slots p) →
  store_SlotCount store ≤ 999 →
  pool_AdmissionClosed p = false ∧
  ∃ i s', slot_State (origin p i) = SlotAvailable ∧ pool_Slots p' !! i = Some s' ∧
    slot_SlotID s' = id ∧ slot_State s' = SlotProvisioning ∧
    slot_LeaseEpoch s' = slot_LeaseEpoch (origin p i) + 1 ∧
    slot_ResourceGeneration s' = slot_ResourceGeneration (origin p i) ∧
    slot_ExpiresAt s' = obs_now o' + ProvisioningTTL ∧ owns g s' = true ∧
    grant_SlotID g = id ∧ grant_LeaseEpoch g = slot_LeaseEpoch s' ∧ grant_ExpiresAt g = slot_ExpiresAt s' ∧
    ∀ j t', j ≠ i → pool_Slots p' !! j = Some t' → same_lease (origin p j) t'.
Proof.
  intros H Hl Hl' Hcan Hcnt Hcount.
  apply bind_Ok in H as (? & _ & H). apply bind_Ok in H as (? & _ & H).
  destruct (acquireSlot_inv _ _ _ _ _ _ _ _ _ H Hl Hcan Hcount)
    as (i & q & l & c & Hopen & Hav & _ & -> & Hh & Hcq & (Hi & -> & Hid) & Hrest).
  apply load_writePool in Hl'; [|done|by apply canonical_NoDup]. subst p'. split; [done|].
  exists i. eexists. split; [done|]. split; [simpl; by rewrite list_lookup_fmap, Hi|].
  assert (countable (origin p i)) as [Hep _].
  { unfold origin. destruct (pool_Slots p !! i) as [t|] eqn:Ht; simpl.
    - rewrite Forall_forall in Hcnt. apply Hcnt. by eapply list_elem_of_lookup_2.
    - unfold countable, max_u64. simpl. lia. }
  split_and!; try done.
  - simpl. apply u64_small. lia.
  - etrans; [apply owns_same, json_slot_same|apply acquire_update_owned].
  - intros j t' Hj Ht. simpl in Ht. rewrite list_lookup_fmap in Ht.
    destruct (pool_Slots q !! j) as [t|] eqn:Htq; [|done]. injection Ht as <-.
    rewrite (Hrest j t Hj Htq). destruct (expire_slot_same o (origin p j)) as (? & ? & ? & ? & ?).
    destruct (expire_slot_same o' (expire_slot o (origin p j))) as (? & ? & ? & ? & ?).
    split_and!; simpl; congruence.
Qed.

Lemma acquire_grants_witness :
  ∃ i s', slot_State (origin (pool_of disk4) i) = SlotAvailable ∧
    pool_Slots (pool_of disk5) !! i = Some s' ∧ slot_LeaseEpoch s' = slot_LeaseEpoch (origin (pool_of disk4) i) + 1.
Proof.
  destruct (acquire_grants (sample_store 2) sample_obs sample_obs (Some ("bb", "cap-bb")) disk4
    "client" "SHA256:key" "main" "demo" "run-1" "test" "slot-002" disk5
    (grant_or_zero (sample_acquire disk4 "slot-002" "bb")) (pool_of disk4) (pool_of disk5))
    as (_ & i & s' & H1 & H2 & _ & _ & H3 & _).
  - by vm_compute.
  - by vm_compute.
  - by vm_compute.
  - decide_now.
  - decide_now.
  - by vm_compute.
  - exists i, s'. split; [exact H1|]. split; [exact H2|exact H3].
Defined.

(** a fenced pool admits nobody.  After [FenceExpectedPool] succeeded the
    pool loads with admission closed, also when it is loaded again from its
    file, and every admission is refused until [OpenAdmission]. *)
Theorem fence_closes_admission store o d expected d' u p p' :
  FenceExpectedPool store o d expected = Ok (d', u) → load d = Ok p → load d' = Ok p' →
  canonical (pool_Slots p) → Forall countable (pool_Slots p) → store_SlotCount store ≤ 999 →
  pool_AdmissionClosed p' = true ∧
  ∀ store' o1 o2 tokens req, store_SlotCount store' ≤ 999 →
    is_ok (acquireSlot store' o1 o2 tokens d' req) = false.
Proof.
  intros H Hl Hl' Hcan Hcnt Hcount.
  destruct (FenceExpectedPool_sim store o d d' p p' Hl Hl' Hcan Hcnt Hcount _ _ H) as [Hcan' _].
  assert (pool_AdmissionClosed p' = true) as Hclosed.
  { unfold FenceExpectedPool, withLock, withPoolLock in H. apply bind_Ok in H as (? & _ & H). rewrite Hl in H.
    cbn [mbind result_bind] in H. apply bind_Ok in H as (q & Hq & H).
    destruct (reconcile_canonical p q _ Hcan Hcount Hq) as (extra & -> & _ & Hc2 & _).
    apply bind_Ok in H as ([r b] & Hr & H). apply bind_Ok in Hr as (? & _ & Hr).
    apply Ok_inj, pair_eq in Hr as [<- <-]. apply Ok_inj, pair_eq in H as [<- _].
    apply load_writePool in Hl'; [by subst| |].
    - split; [by left|]. by destruct (load_header _ _ Hl) as [_ ?].
    - apply canonical_NoDup. simpl. eapply path_canonical; [apply expire_path|done]. }
  split; [done|]. intros store' o1 o2 tokens req Hcount'.
  apply not_true_iff_false. rewrite is_ok_spec. intros [[d2 g] Ha].
  destruct (acquireSlot_inv _ _ _ _ _ _ _ _ _ Ha Hl' Hcan' Hcount') as (? & ? & ? & ? & ? & _). congruence.
Qed.

Lemma fence_closes_admission_witness :
  let d' := disk_of (FenceExpectedPool (sample_store 2) sample_obs disk2 (PoolOperationBinding (pool_of disk2))) in
  is_ok (acquireSlot (sample_store 2) sample_obs sample_obs (Some ("cc", "cap"))
    d' (mkRequest "client" "key" "" "" None "slot-001" None)) = false.
Proof.
  intros d'. edestruct (fence_closes_admission (sample_store 2) sample_obs disk2
    (PoolOperationBinding (pool_of disk2)) d' tt (pool_of disk2)) as [_ H].
  - by vm_compute.
  - by vm_compute.
  - by vm_compute.
  - decide_now.
  - decide_now.
  - by vm_compute.
  - apply H. by vm_compute.
Defined.

(** a missed deadline ends a lease.  When the clock has reached the expiry of
    a provisioning or held slot, neither [Renew] nor [MarkHeld] with its grant
    succeeds any more: the slot can only be drained. *)
Theorem deadline_ends_lease store o o' d p i s g :
  load d = Ok p → canonical (pool_Slots p) → pool_Slots p !! i = Some s →
  grant_SlotID g = slot_name (Z.of_nat i + 1) → store_SlotCount store ≤ 999 →
  active s → slot_ExpiresAt s ≠ 0 → slot_ExpiresAt s ≤ obs_now o →
  is_ok (Renew store o o' d g) = false ∧ is_ok (MarkHeld store o o' d g) = false.
Proof.
  intros Hl Hcan Hs Hg Hcount Ha Hz Hx.
  assert (slot_State (expire_slot o s) = SlotDraining) as Hdrain.
  { unfold expire_slot, time_is_zero. rewrite (proj2 (Z.eqb_neq _ _)) by done.
    rewrite (proj2 (Z.ltb_ge _ _)) by done. simpl. destruct Ha as [Ha|Ha]; rewrite Ha; by case_match. }
  assert (∀ A (f : LeaseSlot → Z → result lease_error (LeaseSlot * A)),
    (∀ t, slot_State t = SlotDraining → is_ok (f t (obs_now o')) = false) →
    is_ok (mutateOwned store o o' d g f) = false) as Hf.
  { intros A f Hstep. apply not_true_iff_false. rewrite is_ok_spec. intros [[d' a] H].
    unfold mutateOwned, withLock, withPoolLock in H. apply bind_Ok in H as (? & _ & H). rewrite Hl in H.
    cbn [mbind result_bind] in H. apply bind_Ok in H as (q & Hq & H).
    destruct (reconcile_canonical p q _ Hcan Hcount Hq) as (extra & -> & Hex & Hcan' & _).
    apply bind_Ok in H as ([r b] & Hr & _). apply bind_Ok in Hr as ([j t] & Hfind%expect_Ok & Hr).
    apply bind_Ok in Hr as ([t' c] & Hm & _). rewrite Hg in Hfind. simpl in Hfind.
    rewrite (canonical_findSlot _ i (expire_slot o s)) in Hfind.
    - injection Hfind as <- <-. apply bind_Ok in Hm as (? & _ & Hm).
      specialize (Hstep _ Hdrain). by rewrite Hm in Hstep.
    - eapply path_canonical; [apply expire_path|done].
    - rewrite list_lookup_fmap, lookup_app_l by (by eapply lookup_lt_Some). by rewrite Hs. }
  split; apply Hf; intros t ->; done.
Qed.

Lemma deadline_ends_lease_witness :
  is_ok (Renew (sample_store 2) (mkObs (1000 + LeaseTTL) (λ _, true)) sample_obs disk2 grant1) = false.
Proof.
  apply (deadline_ends_lease (sample_store 2) (mkObs (1000 + LeaseTTL) (λ _, true)) sample_obs disk2
    (pool_of disk2) 1 (default (fresh_slot 0) (pool_Slots (pool_of disk2) !! 1%nat)) grant1).
  - by vm_compute.
  - decide_now.
  - by vm_compute.
  - by vm_compute.
  - by vm_compute.
  - right. by vm_compute.
  - by vm_compute.
  - by vm_compute.
Defined.
