(* ===== verification/LeaseDurability.v ===== *)
(** * Test-VM leases: durability

    The store keeps recovery metadata of its slots in a second file, the recovery
    journal, and refuses to load when a journal entry is in a state that the
    journal does not allow.  This file proves that the operations of the broker
    keep the files loadable, that a write cut short between the two files keeps
    them loadable, and shows the two operations that do not. *)

From S2P Require Import Prelude GoStrings GoSort Names Sha256 LeaseData LeaseStore LeaseMachine.

(** ** Slots that can be written *)

Definition record_id_ok (id : string) : Prop := id ≠ "" → brokerRecordID id = true.

Lemma record_id_ok_empty : record_id_ok "".
Proof. by intros []. Qed.

(** Outside the states of the journal a slot has no recovery metadata. *)
Definition slot_ok (s : LeaseSlot) : Prop :=
  1 ≤ slot_ResourceGeneration s ∧ record_id_ok (slot_LastFailureEventID s) ∧ record_id_ok (slot_IncidentID s) ∧
  (journal_state (slot_State s) = false →
   slot_LastFailureEventID s = "" ∧ slot_IncidentID s = "" ∧ slot_RecoveryAttempt s = 0 ∧
   slot_NextRecoveryAt s = 0 ∧ slot_RecoveryStartedAt s = 0).

Lemma slot_names_broker :
  forallb (λ n, brokerSlotID (slot_name n)) (seqZ 1 999) = true.
Proof. by vm_compute. Qed.

Lemma canonical_broker slots s : canonical slots → s ∈ slots → brokerSlotID (slot_SlotID s) = true.
Proof.
  intros [Hids Hlen] Hs. assert (slot_SlotID s ∈ slot_names (length slots)) as Hin.
  { rewrite <-Hids. by apply list_elem_of_fmap_2. }
  apply list_elem_of_fmap in Hin as (n & -> & Hn%elem_of_seqZ).
  pose proof slot_names_broker as H. rewrite forallb_forall in H. apply H.
  rewrite <-list_elem_of_In, elem_of_seqZ. lia.
Qed.

Lemma slot_ok_journalable slots s : canonical slots → s ∈ slots → slot_ok s → journalable s.
Proof.
  intros Hcan Hs (Hg & He & Hi & Hm) Hmeta. split_and!; [by eapply canonical_broker|lia|done|done|].
  destruct (journal_state (slot_State s)) eqn:Hj; [done|exfalso].
  destruct (Hm eq_refl) as (H1 & H2 & H3 & H4 & H5). unfold slotHasRecoveryMetadata in Hmeta.
  unfold journal_state in Hj. apply orb_false_iff in Hj as [[_ Hq]%orb_false_iff Hr].
  by rewrite Hq, Hr, H1, H2, H3, H4, H5 in Hmeta.
Qed.

(** A slot in a state of the journal. *)
Lemma slot_ok_journal s :
  journal_state (slot_State s) = true → 1 ≤ slot_ResourceGeneration s →
  record_id_ok (slot_LastFailureEventID s) → record_id_ok (slot_IncidentID s) → slot_ok s.
Proof. intros Hj ???. split_and!; [done..|]. by rewrite Hj. Qed.

(** A slot that left the states outside the journal for another one of them. *)
Lemma slot_ok_same s s' :
  slot_ok s → slot_ResourceGeneration s' = slot_ResourceGeneration s →
  slot_LastFailureEventID s' = slot_LastFailureEventID s → slot_IncidentID s' = slot_IncidentID s →
  slot_RecoveryAttempt s' = slot_RecoveryAttempt s → slot_NextRecoveryAt s' = slot_NextRecoveryAt s →
  slot_RecoveryStartedAt s' = slot_RecoveryStartedAt s →
  (journal_state (slot_State s') = false → journal_state (slot_State s) = false) → slot_ok s'.
Proof. unfold slot_ok. intros (H1 & H2 & H3 & H4) -> -> -> -> -> -> Hj. split_and!; auto. Qed.

Lemma active_not_journal s : active s → journal_state (slot_State s) = false.
Proof. by intros [->| ->]. Qed.

Lemma slot_ok_expire o s : slot_ok s → slot_ok (expire_slot o s).
Proof.
  intros Hs. assert (∀ r, active s →
    slot_ok (s <| slot_State := SlotDraining |> <| slot_FailureReason := r |>)) as Hd.
  { intros r Ha. eapply slot_ok_same; [done..|]. intros _. by apply active_not_journal. }
  unfold expire_slot.
  match goal with |- slot_ok (if _ then _ else ?rest) => assert (slot_ok rest) as Hrest end.
  { case_match; [done|]. case_bool_decide; [apply Hd; by right|]. case_bool_decide; [apply Hd; by left|done]. }
  destruct (slot_AcquireOwner s) as [owner|]; [|done].
  destruct ((_ || _) && _) eqn:Hb; [|done]. apply Hd. bools. done.
Qed.

Lemma slot_ok_json s : slot_ok s → slot_ok (json_slot s).
Proof. intros Hs. by eapply slot_ok_same. Qed.

Lemma slot_ok_clear s (state : SlotState) :
  1 ≤ slot_ResourceGeneration s → slot_ok ((clearLease s) <| slot_State := state |>).
Proof. intros Hg. split_and!; [done|apply record_id_ok_empty..|done]. Qed.

Lemma slot_ok_fresh n : slot_ok (fresh_slot n).
Proof. split_and!; [done|apply record_id_ok_empty..|done]. Qed.

(** ** Operations keep the files loadable *)

Definition keeps {A} (op : LeasePool → result lease_error (LeasePool * A)) : Prop :=
  ∀ pool pool' a, Forall countable (pool_Slots pool) → Forall slot_ok (pool_Slots pool) →
  op pool = Ok (pool', a) → Forall slot_ok (pool_Slots pool').

Lemma on_slot_keeps {A} id (step : LeaseSlot → result lease_error (LeaseSlot * A)) :
  (∀ s s' a, countable s → slot_ok s → step s = Ok (s', a) → slot_ok s') → keeps (λ pool, on_slot pool id step).
Proof.
  intros Hstep pool pool' a Hc Hok H. unfold on_slot in H.
  apply bind_Ok in H as ([i s] & Hf%expect_Ok & H). apply bind_Ok in H as ([s' b] & Hs & H).
  apply Ok_inj in H. apply pair_eq in H as [<- <-]. apply list_find_Some in Hf as (Hi & _).
  rewrite Forall_forall in Hc. simpl. apply Forall_insert; [done|].
  eapply Hstep; [apply Hc; by eapply list_elem_of_lookup_2| |done].
  rewrite Forall_forall in Hok. apply Hok. by eapply list_elem_of_lookup_2.
Qed.

(** A pool that the store can write and load again. *)
Definition pool_ok (p : LeasePool) : Prop := canonical (pool_Slots p) ∧ Forall slot_ok (pool_Slots p).

Lemma written_loads d p : header_ok p → pool_ok p → load (writePool d p) = Ok (json_pool p) ∧ pool_ok (json_pool p).
Proof.
  intros Hh [Hcan Hok]. split.
  - apply load_writePool_total; [done|by apply canonical_NoDup|].
    rewrite Forall_forall in *. intros s Hs. eapply slot_ok_journalable; [done..|]. by apply Hok.
  - split; [eapply path_canonical; [apply json_path|done]|]. simpl. apply Forall_fmap.
    eapply Forall_impl; [done|]. intros s. apply slot_ok_json.
Qed.

(** The pool that a locked operation starts from and the one that it writes. *)
Lemma withLock_writes {A} store o d (op : LeasePool → result lease_error (LeasePool * A)) d' a p :
  moves op → withLock store o d op = Ok (d', a) → load d = Ok p →
  pool_ok p → Forall countable (pool_Slots p) → store_SlotCount store ≤ 999 →
  ∃ q r, op q = Ok (r, a) ∧ Forall countable (pool_Slots q) ∧ Forall slot_ok (pool_Slots q) ∧
    d' = writePool d r ∧ header_ok r ∧ canonical (pool_Slots r).
Proof.
  intros Hmv H Hl [Hcan Hok] Hcnt Hcount. unfold withLock, withPoolLock in H.
  apply bind_Ok in H as ([] & _ & H). rewrite Hl in H. cbn [mbind result_bind] in H.
  apply bind_Ok in H as (q & Hq & H).
  destruct (reconcile_canonical p q _ Hcan Hcount Hq) as (extra & -> & Hex & Hcan' & _).
  apply bind_Ok in H as ([r b] & Hr & H). apply Ok_inj, pair_eq in H as [<- <-].
  assert (Forall (λ s, countable s ∧ slot_ok s) (pool_Slots p ++ extra)) as Hall.
  { apply Forall_app. split; [by apply Forall_and|]. rewrite Hex. apply Forall_fmap, Forall_forall.
    intros n _. split; [split; unfold max_u64; simpl; lia|apply slot_ok_fresh]. }
  assert (Forall (λ s, countable s ∧ slot_ok s)
    (pool_Slots (expireStale o (p <| pool_Slots := pool_Slots p ++ extra |>)))) as Hall'.
  { unfold expireStale. simpl. apply Forall_fmap. eapply Forall_impl; [done|].
    intros s [? ?]. split; [by apply countable_expire|by apply slot_ok_expire]. }
  apply Forall_and in Hall' as [Hc2 Hok2].
  edestruct Hmv as [Hh' H2]; [|exact Hc2|exact Hr|]; [exact (load_header _ _ Hl)|].
  eexists _, r. split_and!; [exact Hr|exact Hc2|exact Hok2|done|done|].
  eapply path_canonical; [exact H2|]. simpl. eapply path_canonical; [apply expire_path|done].
Qed.

Lemma withLock_loads {A} store o d (op : LeasePool → result lease_error (LeasePool * A)) d' a p :
  moves op → keeps op → withLock store o d op = Ok (d', a) → load d = Ok p →
  pool_ok p → Forall countable (pool_Slots p) → store_SlotCount store ≤ 999 →
  ∃ p', load d' = Ok p' ∧ pool_ok p'.
Proof.
  intros Hmv Hop H Hl Hp Hcnt Hcount.
  destruct (withLock_writes store o d op d' a p Hmv H Hl Hp Hcnt Hcount) as (q & r & Hr & Hc & Hok & -> & Hh & Hcan).
  edestruct (written_loads d r Hh) as [Hload Hpool]; [|by eauto]. split; [done|by eapply Hop].
Qed.

(** *** Automation for one slot *)

(** A slot written by a step is well formed: it kept its recovery metadata, was
    cleared, or is in a state of the journal. *)
Ltac slot_keep :=
  repeat match goal with H : owns _ _ = true |- _ => apply owns_spec in H as (? & ? & ? & ?) end;
  unfold busy_state in *; bools;
  match goal with Hok : slot_ok ?s |- slot_ok _ =>
    first [ exact Hok
          | solve [apply slot_ok_clear; apply Hok]
          | solve [refine (slot_ok_same s _ Hok _ _ _ _ _ _ _); try done; simpl; intros _;
                   apply active_not_journal; unfold active; tauto]
          | solve [destruct Hok as (? & ? & ? & ?); apply slot_ok_journal; simpl; try done;
                   slot_states; congruence] ]
  end.

Ltac loads_by_slot H :=
  eapply withLock_loads; [| |exact H|done..];
  [ apply on_slot_moves; intros ? ? ? ? Hs; peel Hs; slot_move
  | apply on_slot_keeps; intros ? ? ? ? ? Hs; peel Hs; slot_keep ].

(** *** Slots that the journal refuses *)

(** The slot that loses its place in the journal. *)
Definition stranded (s : LeaseSlot) : Prop :=
  slot_State s = SlotDraining ∧ slotHasRecoveryMetadata s = true.

#[export] Instance stranded_dec s : Decision (stranded s).
Proof. unfold stranded. apply _. Defined.

Lemma slot_ok_drained s s' :
  slot_ok s → slot_ResourceGeneration s' = slot_ResourceGeneration s → slot_State s' = SlotDraining →
  ¬ stranded s' → slot_ok s'.
Proof.
  intros (Hg & _) Hgen Hst Hno. unfold stranded, slotHasRecoveryMetadata, time_is_zero in Hno. rewrite Hst in Hno.
  assert (slot_LastFailureEventID s' = "" ∧ slot_IncidentID s' = "" ∧ slot_RecoveryAttempt s' = 0 ∧
   slot_NextRecoveryAt s' = 0 ∧ slot_RecoveryStartedAt s' = 0) as Hz.
  { apply not_and_l in Hno as [[]|Hno]; [done|]. apply not_true_is_false in Hno. bools. tauto. }
  destruct Hz as (H1 & H2 & H3 & H4 & H5). split_and!; [by rewrite Hgen|..|done].
  - rewrite H1. apply record_id_ok_empty.
  - rewrite H2. apply record_id_ok_empty.
Qed.

Lemma merge_recovery_corrupt st r e : merge_recovery st r = Err e → e = CorruptLeaseState.
Proof.
  destruct st as [slots known]. unfold merge_recovery.
  intros [[_ H]%refuse_Err|(? & _ & [[_ H]%refuse_Err|(? & _ & H)]%bind_Err)]%bind_Err; [done|done|].
  by repeat case_match.
Qed.

(** A draining slot with recovery metadata makes the files unreadable. *)
Lemma stranded_corrupt d q s :
  header_ok q → s ∈ pool_Slots q → stranded s → load (writePool d q) = Err CorruptLeaseState.
Proof.
  intros Hh Hs [Hst Hm]. rewrite load_written, write_journal_merge by done.
  destruct (for_range merge_recovery (own_entries (pool_Slots q)) (json_slot <$> pool_Slots q, ∅))
    as [st|e] eqn:H.
  - exfalso. assert (recovery_of s ∈ own_entries (pool_Slots q)) as Hin.
    { apply list_elem_of_fmap_2. by apply list_elem_of_filter. }
    destruct (for_range_elem _ _ _ _ _ H Hin) as ([ss known] & t' & Ht). unfold merge_recovery in Ht.
    apply bind_Ok in Ht as (? & _ & Ht). apply bind_Ok in Ht as (? & Hj%refuse_Ok & _).
    cbn [recovery_of rec_State] in Hj. by rewrite Hst in Hj.
  - simpl. f_equal. apply for_range_Err in H as (t & x & _ & H). by apply merge_recovery_corrupt in H.
Qed.

Section durability.
Context (store : LeaseStore) (o o' : Observation) (d d' : disk) (p : LeasePool).
Context (Hload : load d = Ok p) (Hpool : pool_ok p) (Hcnt : Forall countable (pool_Slots p)).
Context (Hcount : store_SlotCount store ≤ 999).

Definition loadable (d : disk) : Prop := ∃ p, load d = Ok p ∧ pool_ok p.

Lemma AbortProvisioning_loads g u : AbortProvisioning store o o' d g = Ok (d', u) → loadable d'.
Proof. intros H. loads_by_slot H. Qed.

Lemma MarkHeld_loads g u : MarkHeld store o o' d g = Ok (d', u) → loadable d'.
Proof. intros H. loads_by_slot H. Qed.

Lemma Renew_loads g u : Renew store o o' d g = Ok (d', u) → loadable d'.
Proof. intros H. loads_by_slot H. Qed.

Lemma BeginDrain_loads g u : BeginDrain store o o' d g = Ok (d', u) → loadable d'.
Proof. intros H. loads_by_slot H. Qed.

Lemma Quarantine_loads g cause u : Quarantine store o o' d g cause = Ok (d', u) → loadable d'.
Proof. intros H. loads_by_slot H. Qed.

Lemma handoff_loads g u : handoff store o o' d g = Ok (d', u) → loadable d'.
Proof. intros H. loads_by_slot H. Qed.

Lemma dropLegacyRetained_loads g u : dropLegacyRetained store o o' d g = Ok (d', u) → loadable d'.
Proof. intros H. loads_by_slot H. Qed.

Lemma pinBase_loads g f u : pinBase store o d g f = Ok (d', u) → loadable d'.
Proof. intros H. loads_by_slot H. Qed.

Lemma FinishDrain_loads id err u : FinishDrain store o o' d id err = Ok (d', u) → loadable d'.
Proof. intros H. loads_by_slot H. Qed.

Lemma BeginDrainSlot_loads id reason u : BeginDrainSlot store o d id reason = Ok (d', u) → loadable d'.
Proof. intros H. loads_by_slot H. Qed.

Lemma BeginExpectedDrain_loads e reason u : BeginExpectedDrain store o d e reason = Ok (d', u) → loadable d'.
Proof. intros H. apply bind_Ok in H as (? & _ & H). loads_by_slot H. Qed.

Lemma InterruptRecovery_loads id cause u : InterruptRecovery store o o' d id cause = Ok (d', u) → loadable d'.
Proof. intros H. apply bind_Ok in H as (? & _ & H). loads_by_slot H. Qed.

Lemma BeginScheduledRecovery_loads id force r :
  BeginScheduledRecovery store o o' d id force = Ok (d', r) → loadable d'.
Proof. intros H. loads_by_slot H. Qed.

Lemma BeginExpectedRecovery_loads e r : BeginExpectedRecovery store o o' d e = Ok (d', r) → loadable d'.
Proof. intros H. apply bind_Ok in H as (? & _ & H). loads_by_slot H. Qed.

Lemma finishRetireLegacy_loads e u : finishRetireLegacy store o d e = Ok (d', u) → loadable d'.
Proof. intros H. loads_by_slot H. Qed.

(** *** Operations on the whole pool *)

Lemma same_slots_keep {A} (op : LeasePool → result lease_error (LeasePool * A)) :
  (∀ q q' a, op q = Ok (q', a) → pool_Slots q' = pool_Slots q) → keeps op.
Proof. intros Hop r r' a _ Hok Hr. by rewrite (Hop r r' a Hr). Qed.

Lemma Status_loads q : Status store o d = Ok (d', q) → loadable d'.
Proof.
  intros H. eapply withLock_loads; [apply status_moves| |exact H|done..].
  apply same_slots_keep. intros r r' a Hr. by peel Hr.
Qed.

Lemma FenceExpectedPool_loads e u : FenceExpectedPool store o d e = Ok (d', u) → loadable d'.
Proof.
  intros H. eapply withLock_loads; [apply fence_moves| |exact H|done..].
  apply same_slots_keep. intros r r' a Hr. by peel Hr.
Qed.

Lemma OpenAdmission_loads u : OpenAdmission store o d = Ok (d', u) → loadable d'.
Proof.
  intros H. eapply withLock_loads; [apply open_moves| |exact H|done..].
  apply same_slots_keep. intros r r' a Hr. by peel Hr.
Qed.

Lemma BeginDrainAll_loads reason u : BeginDrainAll store o d reason = Ok (d', u) → loadable d'.
Proof.
  intros H. eapply withLock_loads; [apply drain_all_moves| |exact H|done..].
  intros r r' a _ Hok Hr. apply Ok_inj, pair_eq in Hr as [<- _]. simpl. apply Forall_fmap.
  eapply Forall_impl; [done|]. intros s Hs. unfold drain_busy. simpl. case_match eqn:Hb; [done|].
  unfold busy_state in Hb. slot_keep.
Qed.

(** *** Operations on recovery metadata and admission *)

Lemma record_id_ok_valid id : brokerRecordID id = true → record_id_ok id.
Proof. by intros H _. Qed.

Lemma SetQuarantineIncident_loads id ev inc u :
  SetQuarantineIncident store o o' d id ev inc = Ok (d', u) → loadable d'.
Proof.
  intros H. apply bind_Ok in H as (? & Hid%refuse_Ok & H). bools.
  eapply withLock_loads; [apply incident_moves| |exact H|done..].
  apply on_slot_keeps. intros s s' a _ (Hg & _) Hs. unfold incident_slot in Hs. peel Hs.
  assert (journal_state (slot_State s) = true) as Hj by (unfold journal_state; bools; tauto).
  apply slot_ok_journal; case_match; simpl; auto using record_id_ok_valid.
Qed.

Lemma FinishRecovery_loads id cause ev inc r :
  FinishRecovery store o o' d id cause ev inc = Ok (d', r) → loadable d'.
Proof.
  intros H. eapply withLock_loads; [apply finish_recovery_moves| |exact H|done..].
  apply on_slot_keeps. intros s s' a [_ Hc] (Hg & Hev & Hinc & _) Hs. destruct cause as [message|].
  - apply finish_recovery_failed in Hs as ((_ & Hgen & _) & _ & Hst & He & Hi).
    apply slot_ok_journal; [by rewrite Hst|by rewrite Hgen|..].
    + destruct He as [->|He]; auto using record_id_ok_valid.
    + destruct Hi as [->|Hi]; auto using record_id_ok_valid.
  - apply bind_Ok in Hs as ([] & _ & Hs). apply Ok_inj, pair_eq in Hs as [<- _].
    apply slot_ok_journal; [done| |done|done]. simpl. rewrite u64_small by lia. lia.
Qed.

Lemma slot_ok_acquired owner req l c now s :
  countable s → slot_ok s → slot_ok (acquire_update owner req l c now s).
Proof.
  intros [_ Hc] (Hg & _). unfold acquire_update.
  destruct (req_Environment req), (req_Context req); (split_and!; [simpl|apply record_id_ok_empty..|done]).
  all: rewrite ?u64_small by lia; lia.
Qed.

Lemma origin_ok i : countable (origin p i) ∧ slot_ok (origin p i).
Proof.
  unfold origin. destruct (pool_Slots p !! i) as [s|] eqn:Hs; simpl.
  - apply list_elem_of_lookup_2 in Hs. destruct Hpool as [_ Hok]. rewrite Forall_forall in Hok, Hcnt. auto.
  - split; [split; unfold max_u64; simpl; lia|apply slot_ok_fresh].
Qed.

Lemma acquireSlot_loads tokens req g : acquireSlot store o o' tokens d req = Ok (d', g) → loadable d'.
Proof.
  intros H. destruct Hpool as [Hcan _].
  destruct (acquireSlot_inv _ _ _ _ _ _ _ _ _ H Hload Hcan Hcount)
    as (i & q & l & c & _ & _ & _ & -> & Hh & Hcq & (Hi & _) & Hrest).
  edestruct (written_loads d q Hh); [|eexists; eauto].
  split; [done|]. apply Forall_lookup. intros j s Hj. destruct (decide (j = i)) as [->|Hne].
  - rewrite Hi in Hj. injection Hj as <-. destruct (origin_ok i). by apply slot_ok_acquired.
  - rewrite (Hrest j s Hne Hj). apply slot_ok_expire, slot_ok_expire, origin_ok.
Qed.

Lemma AcquireSlot_loads tokens client fp label purpose id g :
  AcquireSlot store o o' tokens d client fp label purpose id = Ok (d', g) → loadable d'.
Proof. intros H. apply bind_Ok in H as (? & _ & H). by eapply acquireSlot_loads. Qed.

Lemma AcquireV2Slot_loads tokens client fp yard project run purpose id g :
  AcquireV2Slot store o o' tokens d client fp yard project run purpose id = Ok (d', g) → loadable d'.
Proof. intros H. do 2 apply bind_Ok in H as (? & _ & H). by eapply acquireSlot_loads. Qed.

Lemma AcquireV3Slot_loads tokens spec client fp yard project run purpose id g :
  AcquireV3Slot store o o' tokens d spec client fp yard project run purpose id = Ok (d', g) → loadable d'.
Proof. intros H. do 3 apply bind_Ok in H as (? & _ & H). by eapply acquireSlot_loads. Qed.

(** *** Resizing and legacy retirement *)

Lemma written_loadable q : writePool d q = d' → header_ok q → pool_ok q → loadable d'.
Proof. intros <- Hh Hq. destruct (written_loads d q Hh Hq). by eexists. Qed.

Lemma CommitResize_loads u : CommitResize store d = Ok (d', u) → loadable d'.
Proof.
  intros H. unfold CommitResize, withPoolLock in H. rewrite Hload in H. cbn [mbind result_bind] in H.
  apply bind_Ok in H as (? & _ & H). apply bind_Ok in H as (? & _ & H).
  apply Ok_inj, pair_eq in H as [Hd _]. eapply written_loadable; [done|exact (load_header _ _ Hload)|].
  destruct Hpool as [Hcan Hok]. split; simpl; [by apply canonical_take|by apply Forall_take].
Qed.

Lemma PrepareResize_loads r :
  PrepareResize store d = Ok (d', r) →
  loadable d' ∨ load d' = Err CorruptLeaseState ∧ ∃ s, s ∈ r ∧ stranded s.
Proof.
  intros H. unfold PrepareResize, withPoolLock in H. rewrite Hload in H. cbn [mbind result_bind] in H.
  cbv zeta in H. destruct Hpool as [Hcan Hok]. case_match eqn:Hlt; bools.
  { left. apply bind_Ok in H as (q & Hq & H). apply Ok_inj, pair_eq in H as [Hd _].
    destruct (reconcile_canonical p q _ Hcan Hcount Hq) as (extra & -> & Hex & Hc & _).
    eapply written_loadable; [done|exact (load_header _ _ Hload)|]. split; [done|]. simpl. apply Forall_app.
    split; [done|]. rewrite Hex. apply Forall_fmap, Forall_forall. intros n _. apply slot_ok_fresh. }
  case_match eqn:Heq; bools.
  { left. apply Ok_inj, pair_eq in H as [<- _]. by exists p. }
  apply bind_Ok in H as (? & Hret & H). apply Ok_inj, pair_eq in H as [Hd <-].
  match type of Hd with writePool d ?q = _ =>
    assert (canonical (pool_Slots q)) as Hc2;
    [|match goal with |- _ ∨ _ ∧ ∃ s, s ∈ ?r ∧ _ => destruct (decide (Exists stranded r)) as [Hex|Hno] end] end.
  - destruct Hcan as [Hids Hn]. unfold canonical. simpl. rewrite length_app, length_fmap, <-length_app, take_drop.
    split; [|done]. rewrite fmap_app, <-list_fmap_compose, <-Hids.
    rewrite <-(take_drop (Z.to_nat (store_SlotCount store)) (pool_Slots p)) at 3. by rewrite fmap_app.
  - right. apply Exists_exists in Hex as (s & Hs & Hstr). split; [|eauto].
    rewrite <-Hd. eapply stranded_corrupt; [exact (load_header _ _ Hload)| |exact Hstr].
    simpl. apply elem_of_app. by right.
  - left. eapply written_loadable; [done|exact (load_header _ _ Hload)|]. split; [done|].
    apply Forall_app. split; [by apply Forall_take|]. apply Forall_fmap, Forall_forall. intros s Hs.
    assert (slot_ok s) as Hs'. { apply (Forall_drop _ (Z.to_nat (store_SlotCount store))) in Hok.
      rewrite Forall_forall in Hok. by apply Hok. }
    eapply (slot_ok_drained s); [done..|].
    intros Hstr. apply Hno, Exists_exists. exists (resize_fence s). split; [|exact Hstr]. by apply list_elem_of_fmap_2.
Qed.

Lemma beginRetireLegacy_loads e u :
  beginRetireLegacy store o d e = Ok (d', u) → loadable d' ∨ load d' = Err CorruptLeaseState.
Proof.
  intros H. unfold beginRetireLegacy in H.
  eapply withLock_writes in H; [|apply on_slot_moves; intros ? ? ? ? Hs; peel Hs; slot_move|done..].
  destruct H as (q & r & Hr & _ & Hok & Hd & Hh & Hc). unfold on_slot in Hr.
  apply bind_Ok in Hr as ([i s] & Hf%expect_Ok & Hr). apply list_find_Some in Hf as (Hi & _).
  apply bind_Ok in Hr as ([s' x] & Hs & Hr). apply Ok_inj, pair_eq in Hr as [<- _].
  peel Hs. simpl in Hc.
  match type of Hc with canonical (<[_ := ?s']> _) => destruct (decide (stranded s')) as [Hstr|Hno] end.
  - right. rewrite Hd. eapply stranded_corrupt; [exact Hh| |exact Hstr]. simpl.
    eapply list_elem_of_lookup_2, list_lookup_insert_eq. by eapply lookup_lt_Some.
  - left. eapply written_loadable; [by symmetry|exact Hh|]. split; [done|]. simpl. apply Forall_insert; [done|].
    rewrite Forall_forall in Hok. eapply slot_ok_drained; [apply Hok; by eapply list_elem_of_lookup_2|done..].
Qed.
End durability.

(** Every step of the broker leaves files that load again, or is one of the two
    that strand a slot. *)
Lemma lease_step_loads d d' p :
  lease_step d d' → load d = Ok p → pool_ok p → Forall countable (pool_Slots p) →
  loadable d' ∨ load d' = Err CorruptLeaseState ∧
    ((∃ store r s, PrepareResize store d = Ok (d', r) ∧ s ∈ r ∧ stranded s) ∨
     (∃ store o e u, beginRetireLegacy store o d e = Ok (d', u))).
Proof.
  intros Hstep Hl Hp Hc. destruct Hstep as [| | | | | | | | | | | | | | | | | | | | | | |
    store o e u Hcount H| |store r Hcount H|].
  24:{ destruct (beginRetireLegacy_loads store o d d' p Hl Hp Hc Hcount e u H); [by left|].
       right. split; [done|]. right. eauto 10. }
  25:{ destruct (PrepareResize_loads store d d' p Hl Hp Hcount r H) as [?|(? & s & ? & ?)]; [by left|].
       right. split; [done|]. left. eauto 10. }
  all: left; eauto using Status_loads, AbortProvisioning_loads, MarkHeld_loads, Renew_loads, BeginDrain_loads,
    Quarantine_loads, handoff_loads, dropLegacyRetained_loads, pinBase_loads, FinishDrain_loads,
    BeginDrainAll_loads, BeginDrainSlot_loads, BeginExpectedDrain_loads, CommitResize_loads.
  all: eauto using FenceExpectedPool_loads, OpenAdmission_loads, SetQuarantineIncident_loads,
    InterruptRecovery_loads, BeginScheduledRecovery_loads, BeginExpectedRecovery_loads,
    FinishRecovery_loads, finishRetireLegacy_loads, AcquireSlot_loads, AcquireV2Slot_loads, AcquireV3Slot_loads.
Qed.

(** ** A write cut short *)

(** All fields but the five that the journal restores. *)
Definition same_but_recovery (s s' : LeaseSlot) : Prop := s' = restore_recovery (recovery_of s') s.

#[export] Instance same_but_recovery_preorder : PreOrder same_but_recovery.
Proof.
  split; [intros []; done|]. intros s1 s2 s3 H12 H23. unfold same_but_recovery in *. rewrite H23, H12. done.
Qed.

Lemma restore_same_but r s : same_but_recovery s (restore_recovery r s).
Proof. done. Qed.

Lemma merge_recovery_foreign ss known s :
  journalable s → slotHasRecoveryMetadata s = true → slot_SlotID s ∉ known →
  ∃ ss', merge_recovery (ss, known) (recovery_of s) = Ok (ss', {[slot_SlotID s]} ∪ known) ∧
    Forall2 same_but_recovery ss ss'.
Proof.
  intros Hj Hm Hk. destruct (Hj Hm) as (H1 & H2 & H3 & H4 & H5).
  assert (valid_recovery known (recovery_of s) = true) as Hv.
  { unfold valid_recovery, seen. cbn [recovery_of rec_SlotID rec_ResourceGeneration
      rec_LastFailureEventID rec_IncidentID]. bools. split_and!; [done|done|done|..].
    - destruct (decide (slot_LastFailureEventID s = "")); [by left|right; by apply H3].
    - destruct (decide (slot_IncidentID s = "")); [by left|right; by apply H4]. }
  unfold merge_recovery. rewrite Hv. cbn [recovery_of rec_State rec_SlotID]. rewrite H5. simpl.
  destruct (findSlot ss (slot_SlotID s)) as [[i t]|] eqn:Hf.
  - apply list_find_Some in Hf as (Hi & _). case_match.
    + eexists. split; [done|]. reflexivity.
    + eexists. split; [done|]. rewrite <-(list_insert_id ss i t Hi) at 1.
      apply Forall2_insert; [reflexivity|apply restore_same_but].
  - eexists. split; [done|]. reflexivity.
Qed.

Lemma merge_foreign (slots ss : list LeaseSlot) :
  NoDup (slot_SlotID <$> slots) → Forall journalable slots →
  ∃ ss' known, for_range merge_recovery (own_entries slots) (ss, ∅) = Ok (ss', known) ∧
    Forall2 same_but_recovery ss ss'.
Proof.
  intros Hnd Hj. cut (∃ st, for_range merge_recovery (own_entries slots) (ss, ∅) = Ok st ∧
    st.2 = list_to_set (rec_SlotID <$> own_entries slots) ∧ Forall2 same_but_recovery ss st.1).
  { intros ([ss' known] & ? & _ & ?). eauto. }
  apply (for_range_total (λ pre st, st.2 = list_to_set (rec_SlotID <$> pre) ∧ Forall2 same_but_recovery ss st.1)).
  { split; [done|reflexivity]. }
  intros pre r post [ss1 known] He [Hk H2]. simpl in Hk, H2. subst known.
  assert (r ∈ own_entries slots) as Hin by (rewrite He; set_solver).
  apply list_elem_of_fmap in Hin as (s & -> & Hs). apply list_elem_of_filter in Hs as [Hm Hs].
  destruct (merge_recovery_foreign ss1 (list_to_set (rec_SlotID <$> pre)) s) as (ss2 & Hrun & H3).
  - rewrite Forall_forall in Hj. by apply Hj.
  - done.
  - rewrite elem_of_list_to_set. intros Hdup. pose proof (own_entries_NoDup slots Hnd) as Hnd'.
    rewrite He, fmap_app, fmap_cons in Hnd'. apply NoDup_app in Hnd' as (_ & Hx & _).
    apply (Hx _ Hdup). by left.
  - eexists. split; [exact Hrun|]. simpl. split; [|by etrans].
    rewrite fmap_app, list_to_set_app_L. cbn. set_solver.
Qed.

Lemma journal_first p q :
  header_ok p → pool_ok q →
  ∃ p', load (mkDisk (Doc (json_pool p)) (write_journal q)) = Ok p' ∧
    Forall2 same_but_recovery (json_slot <$> pool_Slots p) (pool_Slots p') ∧
    pool_AdmissionClosed p' = pool_AdmissionClosed p.
Proof.
  intros Hh [Hcan Hok].
  assert (load (mkDisk (Doc (json_pool p)) (write_journal q)) =
    mergeRecoveryJournal (write_journal q) (json_pool p)) as ->.
  { by apply load_written_any. }
  destruct (merge_foreign (pool_Slots q) (json_slot <$> pool_Slots p)) as (ss & known & Hrun & H2).
  { by apply canonical_NoDup. }
  { rewrite Forall_forall in *. intros s Hs. eapply slot_ok_journalable; [done..|]. by apply Hok. }
  unfold mergeRecoveryJournal, write_journal. case_bool_decide as He; simpl.
  - unfold own_entries in Hrun. rewrite Hrun. simpl. eexists. split; [done|]. by split.
  - eexists. split; [done|]. simpl. split; [reflexivity|done].
Qed.

(** ** Claims *)

#[export] Instance record_id_ok_dec id : Decision (record_id_ok id).
Proof. unfold record_id_ok. apply _. Defined.

#[export] Instance slot_ok_dec s : Decision (slot_ok s).
Proof. unfold slot_ok. apply _. Defined.

#[export] Instance pool_ok_dec p : Decision (pool_ok p).
Proof. unfold pool_ok. apply _. Defined.

(** slot-002 is quarantined and recovered; the pool is then shrunk to one slot. *)
Definition disk_q : disk := disk_of (Quarantine (sample_store 2) sample_obs sample_obs disk2 grant1 "boot failed").
Definition disk_r : disk :=
  disk_of (BeginScheduledRecovery (sample_store 2) sample_obs sample_obs disk_q "slot-002" true).
Definition disk_a : disk :=
  disk_of (FinishRecovery (sample_store 2) sample_obs sample_obs disk_r "slot-002" None "" "").
Definition disk_s : disk := disk_of (PrepareResize (sample_store 1) disk_a).

(** writing a pool and loading it back gives the pool: for every pool with
    canonical slots whose recovery metadata is well formed, the two files that
    [writePool] leaves load to the pool that was written, with text that is not
    valid UTF-8 repaired. *)
Theorem write_load_roundtrip d p :
  header_ok p → pool_ok p → load (writePool d p) = Ok (json_pool p) ∧ pool_ok (json_pool p).
Proof. apply written_loads. Qed.

Lemma write_load_roundtrip_witness : load (writePool no_disk (pool_of disk_q)) = Ok (json_pool (pool_of disk_q)).
Proof.
  apply (write_load_roundtrip no_disk (pool_of disk_q)); [|decide_now].
  split; [right; by vm_compute|by vm_compute].
Defined.

(** C31: the broker keeps its files readable.  Every successful operation on a
    well-formed pool leaves files that load to a well-formed pool again, with
    two exceptions: preparing a shrink that retires a slot with recovery
    metadata, and beginning the retirement of a legacy slot. *)
Theorem lease_step_durable d d' p :
  lease_step d d' → load d = Ok p → pool_ok p → Forall countable (pool_Slots p) →
  loadable d' ∨ load d' = Err CorruptLeaseState ∧
    ((∃ store r s, PrepareResize store d = Ok (d', r) ∧ s ∈ r ∧ stranded s) ∨
     (∃ store o e u, beginRetireLegacy store o d e = Ok (d', u))).
Proof. apply lease_step_loads. Qed.

Lemma lease_step_durable_witness : loadable disk_q.
Proof.
  edestruct (lease_step_durable disk2 disk_q (pool_of disk2)) as [H|[H _]].
  - apply (step_quarantine _ _ (sample_store 2) sample_obs sample_obs grant1 "boot failed" tt); [done|by vm_compute].
  - by vm_compute.
  - decide_now.
  - decide_now.
  - exact H.
  - exfalso. revert H. by vm_compute.
Defined.

(** a crash between the two files of a write is harmless.  With the new
    journal in place and the old pool file still there, the files load, and the
    pool differs from the old one at most in recovery metadata: states, leases,
    owners and admission are the old ones. *)
Theorem crash_between_files p q :
  header_ok p → pool_ok q →
  ∃ p', load (mkDisk (Doc (json_pool p)) (write_journal q)) = Ok p' ∧
    Forall2 same_but_recovery (json_slot <$> pool_Slots p) (pool_Slots p') ∧
    pool_AdmissionClosed p' = pool_AdmissionClosed p.
Proof. apply journal_first. Qed.

Lemma crash_between_files_witness :
  ∃ p', load (mkDisk (Doc (json_pool (pool_of disk_r))) (write_journal (pool_of disk_a))) = Ok p'.
Proof.
  destruct (crash_between_files (pool_of disk_r) (pool_of disk_a)) as (p' & H & _).
  - split; [right; by vm_compute|by vm_compute].
  - decide_now.
  - exists p'. exact H.
Defined.

(** C34: shrinking the pool over a recovered slot destroys it.  When
    [PrepareResize] retires a slot that still carries recovery metadata (an
    available slot that was recovered before does), the journal it writes holds
    an entry in state draining, which the next load refuses: the pool is corrupt
    and [CommitResize] and every other operation fail. *)
Theorem prepare_resize_corrupts store d d' r s p :
  PrepareResize store d = Ok (d', r) → load d = Ok p → s ∈ r → slotHasRecoveryMetadata s = true →
  load d' = Err CorruptLeaseState ∧
  (∀ store', CommitResize store' d' = Err CorruptLeaseState) ∧
  (∀ A store' o (op : LeasePool → result lease_error (LeasePool * A)),
     1 ≤ store_SlotCount store' → withLock store' o d' op = Err CorruptLeaseState).
Proof.
  intros H Hl Hs Hm. assert (load d' = Err CorruptLeaseState) as Hbad.
  { unfold PrepareResize, withPoolLock in H. rewrite Hl in H. cbn [mbind result_bind] in H. cbv zeta in H.
    case_match; [apply bind_Ok in H as (q & _ & H); apply Ok_inj, pair_eq in H as [_ <-]; by apply elem_of_nil in Hs|].
    case_match; [apply Ok_inj, pair_eq in H as [_ <-]; by apply elem_of_nil in Hs|].
    apply bind_Ok in H as (? & _ & H). apply Ok_inj, pair_eq in H as [<- <-].
    eapply (stranded_corrupt _ _ s); [exact (load_header _ _ Hl)|simpl; apply elem_of_app; by right|].
    apply list_elem_of_fmap in Hs as (t & -> & _). by split. }
  split_and!; [done|intros store'; unfold CommitResize, withPoolLock; by rewrite Hbad|].
  intros A store' o op Hc. unfold withLock, withPoolLock. rewrite (proj2 (Z.ltb_ge _ _)) by lia. simpl.
  by rewrite Hbad.
Qed.

Lemma prepare_resize_corrupts_witness :
  load disk_s = Err CorruptLeaseState ∧ CommitResize (sample_store 1) disk_s = Err CorruptLeaseState.
Proof.
  destruct (PrepareResize (sample_store 1) disk_a) as [[d' r]|e] eqn:H.
  - destruct r as [|s r]; [exfalso; revert H; by vm_compute|].
    destruct (prepare_resize_corrupts (sample_store 1) disk_a d' (s :: r) s (pool_of disk_a) H) as (H1 & H2 & _).
    + by vm_compute.
    + by left.
    + revert H. vm_compute. by intros [= _ <- _].
    + unfold disk_s. rewrite H. simpl. split; [exact H1|apply H2].
  - exfalso. revert H. by vm_compute.
Defined.

(** the retirement of a legacy slot after a corrupt pool was rebuilt cannot
    finish.  [rebuildCorruptPoolForRecovery] quarantines every slot as legacy
    with a recovery time; [RetireLegacySlot], the way out that the code asks the
    operator to take, then fences the slot as draining and leaves files that do
    not load. *)
Theorem retire_after_rebuild_corrupts :
  ∃ d1 d2,
    rebuildCorruptPoolForRecovery (sample_store 2) sample_obs (mkDisk Garbage Absent) "slot-001" = Ok (d1, tt) ∧
    loadable d1 ∧
    beginRetireLegacy (sample_store 2) sample_obs d1 (mkIdentity "slot-001" 1 0) = Ok (d2, tt) ∧
    load d2 = Err CorruptLeaseState ∧
    finishRetireLegacy (sample_store 2) sample_obs d2 (mkIdentity "slot-001" 1 0) = Err CorruptLeaseState.
Proof.
  eexists _, _. split; [by vm_compute|]. split; [eexists; split; [by vm_compute|decide_now]|].
  split; [by vm_compute|]. by vm_compute.
Qed.

(** Shrinking over slot-002 and growing again, with a new lease on it. *)
Definition disk_c : disk := disk_of (CommitResize (sample_store 1) (disk_of (PrepareResize (sample_store 1) disk4))).
Definition disk_g : disk := disk_of (sample_acquire disk_c "slot-002" "bb").

