(* ===== verification/GoJson.v ===== *)
(** * Package encoding/json, the encoder

    What [json.Marshal] writes for the structs of the durable records: objects
    with the fields of the struct in declaration order, arrays, strings,
    integers, booleans and null.  Strings are escaped as the encoder escapes them
    (HTML-sensitive characters and U+2028/U+2029 included), and a byte that
    starts no UTF-8 encoding is written as the escape of U+FFFD.

    [marshal_inj] is what a digest of a JSON payload relies on: the text of a
    value determines the value, as long as its strings are valid UTF-8. *)

From S2P Require Import Prelude GoStrings Sha256.

Definition dquote : ascii := "034".
Definition backslash : ascii := "\".

(** ** Values and their text *)

#[warnings="-register-all"]
Inductive json :=
| JNull
| JBool (b : bool)
| JInt (n : Z)
| JString (s : string)
| JArray (items : list json)
| JObject (members : list (string * json)).

(** The escape of the byte [b]: backslash, the letter u and four hex digits. *)
Definition escape_u (b : Z) : string :=
  String backslash "u00" +:+ String (hex_digit (b / 16)) (String (hex_digit (b mod 16)) "").

Definition escape_short (c : ascii) : string := String backslash (String c "").

(** One encoding of the string, as [appendString] writes it. *)
Definition quote_segment (seg : Z * string) : string :=
  let r := seg.1 in
  if r =? 34 then escape_short dquote
  else if r =? 92 then escape_short backslash
  else if r =? 8 then escape_short "b"
  else if r =? 12 then escape_short "f"
  else if r =? 10 then escape_short "n"
  else if r =? 13 then escape_short "r"
  else if r =? 9 then escape_short "t"
  else if (r <? 32) || (r =? 60) || (r =? 62) || (r =? 38) then escape_u r
  else if bad_segment seg then String backslash "ufffd"
  else if r =? 0x2028 then String backslash "u2028"
  else if r =? 0x2029 then String backslash "u2029"
  else seg.2.

Definition quote_body (l : list (Z * string)) : string :=
  foldr (λ seg acc, quote_segment seg +:+ acc) "" l.

Definition quote (s : string) : string :=
  String dquote (quote_body (segments s) +:+ String dquote "").

Fixpoint marshal (v : json) : string :=
  match v with
  | JNull => "null"
  | JBool b => if b then "true" else "false"
  | JInt n => pretty n
  | JString s => quote s
  | JArray items => "[" +:+ Join (List.map marshal items) "," +:+ "]"
  | JObject members =>
      "{" +:+ Join (List.map (λ '(k, w), quote k +:+ ":" +:+ marshal w) members) "," +:+ "}"
  end.

(** A struct field, and one tagged [omitempty]. *)
Definition field (k : string) (v : json) : list (string * json) := [(k, v)].
Definition field_opt {A} (k : string) (f : A → json) (o : option A) : list (string * json) :=
  match o with Some a => [(k, f a)] | None => [] end.
Definition field_omitempty (k s : string) : list (string * json) :=
  if bool_decide (s = "") then [] else [(k, JString s)].

Example marshal_example :
  marshal (JObject (field "a" (JString (String dquote "<")) ++ field "b" (JArray [JInt (-3); JNull]))) =
  String "{" (String dquote ("a" +:+ String dquote ":" +:+
    String dquote (String backslash (String dquote (String backslash "u003c")))) +:+
    String dquote "," +:+ String dquote "b" +:+ String dquote ":[-3,null]}").
Proof. by vm_compute. Qed.

(** ** Reading a quoted string back *)

Definition hex_value (c : ascii) : Z :=
  let b := byteZ c in if is_digit b then b - 48 else b - 87.

Definition line_separator (c : ascii) : string :=
  String "226" (String "128" (String (ascii_of_N (160 + N_of_ascii c - 48)) "")).

Definition prepend (p : string) (o : option (string * string)) : option (string * string) :=
  match o with Some (s, rest) => Some (p +:+ s, rest) | None => None end.

Definition unescape (e : ascii) : ascii :=
  if bool_decide (e = "b"%char) then "008"
  else if bool_decide (e = "f"%char) then "012"
  else if bool_decide (e = "n"%char) then "010"
  else if bool_decide (e = "r"%char) then "013"
  else if bool_decide (e = "t"%char) then "009" else e.

(** The content of a quoted string that the encoder wrote, up to its closing
    quote, and what follows. *)
Fixpoint scan (s : string) : option (string * string) :=
  match s with
  | EmptyString => None
  | String c s1 =>
      if bool_decide (c = dquote) then Some ("", s1)
      else if bool_decide (c = backslash) then
        match s1 with
        | EmptyString => None
        | String e s2 =>
            if bool_decide (e = "u"%char) then
              match s2 with
              | String h1 (String _ (String h3 (String h4 s3))) =>
                  prepend (if bool_decide (h1 = "2"%char) then line_separator h4
                           else String (ascii_of_N (Z.to_N (hex_value h3 * 16 + hex_value h4))) "")
                    (scan s3)
              | _ => None
              end
            else prepend (String (unescape e) "") (scan s2)
        end
      else prepend (String c "") (scan s1)
  end.

Lemma prepend_app p q o : prepend p (prepend q o) = prepend (p +:+ q) o.
Proof. destruct o as [[s rest]|]; [|done]. simpl. by rewrite string_app_assoc. Qed.

Lemma scan_plain c s : c ≠ dquote → c ≠ backslash → scan (String c s) = prepend (String c "") (scan s).
Proof. intros ??. simpl. by rewrite !bool_decide_false. Qed.

Lemma scan_high t s : Forall (λ b, 0x80 ≤ b) (bytes t) → scan (t +:+ s) = prepend t (scan s).
Proof.
  induction t as [|a t IH].
  { intros _. change ("" +:+ s) with s. by destruct (scan s) as [[]|]. }
  intros [Ha Ht]%Forall_cons. rewrite string_app_cons, scan_plain.
  - by rewrite IH, prepend_app.
  - intros ->. vm_compute in Ha. congruence.
  - intros ->. vm_compute in Ha. congruence.
Qed.

(** What a segment is: a byte below 0x80, or an encoding all of whose bytes are
    above; the encoding of U+2028 and U+2029 is the one expected. *)
Definition segment_ok (seg : Z * string) : Prop :=
  (∃ a, seg = (byteZ a, String a "") ∧ byteZ a < 0x80) ∨
  (0x80 ≤ seg.1 ∧ Forall (λ b, 0x80 ≤ b) (bytes seg.2) ∧
   (seg.1 = 0x2028 → bytes seg.2 = [226; 128; 168]) ∧
   (seg.1 = 0x2029 → bytes seg.2 = [226; 128; 169])).

Lemma first_info_spec b n lo hi :
  first_info b = Some (n, lo, hi) →
  0x80 ≤ lo ∧ hi ≤ 0xBF ∧
  ((n = 2%nat ∧ 0xC2 ≤ b ≤ 0xDF) ∨
   (n = 3%nat ∧ 0xE0 ≤ b ≤ 0xEF ∧ (b = 0xE0 → lo = 0xA0)) ∨
   (n = 4%nat ∧ 0xF0 ≤ b ≤ 0xF4 ∧ (b = 0xF0 → lo = 0x90))).
Proof.
  unfold first_info. intros H.
  repeat (case_match; bools; [simplify_eq; naive_solver lia|]). done.
Qed.

Lemma decode_rune_bytes b0 rest r n :
  decode_rune b0 rest = (r, n) → 0x80 ≤ b0 →
  0x80 ≤ r ∧ Forall (λ b, 0x80 ≤ b) (take n (b0 :: rest)) ∧
  (r = 0x2028 → take n (b0 :: rest) = [226; 128; 168]) ∧
  (r = 0x2029 → take n (b0 :: rest) = [226; 128; 169]).
Proof.
  intros Hd Hb. assert (0x80 ≤ r) as Hr.
  { pose proof (decode_rune_high b0 rest Hb) as H. by rewrite Hd in H. }
  split; [done|]. unfold decode_rune in Hd. rewrite (proj2 (Z.ltb_ge b0 0x80) Hb) in Hd.
  assert (∀ r', (r', 1%nat) = (r, n) → r' = RuneError →
    Forall (λ b, 0x80 ≤ b) (take n (b0 :: rest)) ∧
    (r = 0x2028 → take n (b0 :: rest) = [226; 128; 168]) ∧
    (r = 0x2029 → take n (b0 :: rest) = [226; 128; 169])) as Herr.
  { intros r' [= -> <-] ->. simpl. split; [by repeat constructor|]. by split. }
  destruct (first_info b0) as [[[k lo] hi]|] eqn:Hf; [|by eapply Herr].
  apply first_info_spec in Hf as (Hlo & Hhi & [[-> ?]|[(-> & ? & ?)|(-> & ? & ?)]]).
  - destruct rest as [|b1 rest]; [by eapply Herr|]. case_match; [|by eapply Herr].
    unfold cont in *. bools. simplify_eq. simpl. split; [repeat constructor; lia|lia].
  - destruct rest as [|b1 [|b2 rest]]; [by eapply Herr..|]. case_match; [|by eapply Herr].
    unfold is_cont, cont in *. bools. simplify_eq. simpl. split; [repeat constructor; lia|].
    split; intros; repeat f_equal; lia.
  - destruct rest as [|b1 [|b2 [|b3 rest]]]; [by eapply Herr..|]. case_match; [|by eapply Herr].
    unfold is_cont, cont in *. bools. simplify_eq. simpl. split; [repeat constructor; lia|lia].
Qed.

Lemma bytes_string_take n s : bytes (string_take n s) = take n (bytes s).
Proof. revert n. induction s as [|a s IH]; intros [|n]; try done. simpl. by rewrite IH. Qed.

Lemma segments_ok s : Forall segment_ok (segments s).
Proof.
  apply (segments_ind (λ _ l, Forall segment_ok l)); [constructor|].
  intros a t r k Hd IH. constructor; [|done]. destruct (decide (byteZ a < 0x80)) as [Ha|Ha].
  - rewrite decode_rune_low in Hd by done. simplify_eq. left. exists a. split; [|done].
    by destruct t.
  - apply decode_rune_bytes in Hd as (Hr & Hb & H1 & H2); [|lia]. right. simpl in *.
    rewrite bytes_string_take. done.
Qed.

Lemma scan_segment seg rest :
  segment_ok seg → bad_segment seg = false →
  scan (quote_segment seg +:+ rest) = prepend seg.2 (scan rest).
Proof.
  intros [(a & -> & Ha)|(Hr & Hb & H1 & H2)] Hbad.
  - clear Hbad. simpl (_.2). by destruct a as [[] [] [] [] [] [] [] []]; vm_compute in Ha.
  - destruct seg as [r enc]. unfold quote_segment. simpl (_.1) in *. simpl (_.2) in *.
    do 7 (rewrite (proj2 (Z.eqb_neq r _)) by lia).
    rewrite (proj2 (Z.ltb_ge r 32)) by lia. do 3 (rewrite (proj2 (Z.eqb_neq r _)) by lia). simpl.
    rewrite Hbad. destruct (r =? 0x2028) eqn:E1; [|destruct (r =? 0x2029) eqn:E2].
    + bools. specialize (H1 E1). change [226; 128; 168] with (bytes (line_separator "8")) in H1.
      by apply (inj bytes) in H1 as ->.
    + bools. specialize (H2 E2). change [226; 128; 169] with (bytes (line_separator "9")) in H2.
      by apply (inj bytes) in H2 as ->.
    + by apply scan_high.
Qed.

Lemma scan_quote_body l rest :
  Forall segment_ok l → Forall (λ seg, bad_segment seg = false) l →
  scan (quote_body l +:+ String dquote rest) = Some (concat_segments l, rest).
Proof.
  induction l as [|seg l IH]; [done|]. intros [Hs Hl]%Forall_cons [Hb Hbl]%Forall_cons.
  simpl. rewrite <-string_app_assoc, scan_segment, IH by done. done.
Qed.

Lemma ValidString_segments s :
  ValidString s = true ↔ Forall (λ seg, bad_segment seg = false) (segments s).
Proof.
  unfold ValidString. rewrite Forall_forall, forallb_forall.
  setoid_rewrite list_elem_of_In. split.
  - intros H [r enc] Hin. apply (H _) in Hin. unfold bad_segment. simpl. by bools.
  - intros H [r enc] Hin. apply (H _) in Hin. unfold bad_segment in Hin. simpl in Hin. by rewrite Hin.
Qed.

(** A quoted string that is valid UTF-8 is read back, and ends where it ends. *)
Lemma quote_inj s s' r r' :
  ValidString s = true → ValidString s' = true →
  quote s +:+ r = quote s' +:+ r' → s = s' ∧ r = r'.
Proof.
  intros Hs%ValidString_segments Hs'%ValidString_segments H. unfold quote in H.
  rewrite !string_app_cons, <-!string_app_assoc in H. injection H as H.
  change (String dquote "" +:+ r) with (String dquote r) in H.
  change (String dquote "" +:+ r') with (String dquote r') in H.
  apply (f_equal scan) in H. rewrite !scan_quote_body in H by (done || apply segments_ok).
  rewrite !concat_segments_id in H. by simplify_eq.
Qed.

(** ** Integers *)

Definition num_char (c : ascii) : bool := is_digit (byteZ c) || bool_decide (c = "-"%char).

Fixpoint all_chars (f : ascii → bool) (s : string) : bool :=
  match s with EmptyString => true | String c s' => f c && all_chars f s' end.

Lemma pretty_N_char_num x : num_char (pretty_N_char x) = true.
Proof. by destruct x as [|[[[[]|[]|]|[[]|[]|]|]|[[[]|[]|]|[[]|[]|]|]|]]. Qed.

Lemma pretty_N_num (x : N) : all_chars num_char (pretty x) = true.
Proof.
  destruct (decide (x = 0%N)) as [->|Hx]; [done|].
  assert (∀ s, all_chars num_char s = true → all_chars num_char (pretty_N_go x s) = true) as H.
  { clear Hx. induction (N.lt_wf_0 x) as [x _ IH]. intros s Hs.
    destruct (decide (x = 0%N)) as [->|Hx]; [by rewrite pretty_N_go_0|].
    rewrite pretty_N_go_step by lia. apply IH; [apply N.div_lt; lia|].
    simpl. by rewrite pretty_N_char_num. }
  unfold pretty, pretty_N. rewrite decide_False by done. by apply H.
Qed.

Lemma pretty_Z_num (x : Z) : all_chars num_char (pretty x) = true.
Proof.
  destruct x as [|p|p]; [done|apply (pretty_N_num (Npos p))|].
  change (num_char "-" && all_chars num_char (pretty (Npos p)) = true). by rewrite pretty_N_num.
Qed.

Lemma pretty_Z_ne (x : Z) : pretty x ≠ "".
Proof.
  destruct x as [|p|p]; [done| |done].
  intros H. assert (pretty (Npos p) = "") as H' by done.
  pose proof (f_equal String.length H') as Hl. revert Hl. clear.
  unfold pretty, pretty_N. rewrite decide_False by done.
  assert (∀ x s, (String.length s ≤ String.length (pretty_N_go x s))%nat) as Hle.
  { intros x. induction (N.lt_wf_0 x) as [x _ IH]. intros s.
    destruct (decide (x = 0%N)) as [->|Hx]; [by rewrite pretty_N_go_0|].
    rewrite pretty_N_go_step by lia. etrans; [|apply IH, N.div_lt; lia]. simpl. lia. }
  rewrite pretty_N_go_step by lia. intros Hl.
  pose proof (Hle (Npos p `div` 10)%N (String (pretty_N_char (Npos p `mod` 10)) "")). simpl in *. lia.
Qed.

(** ** The text determines the value *)

Definition closer (c : ascii) : bool :=
  bool_decide (c = ","%char) || bool_decide (c = "]"%char) || bool_decide (c = "}"%char).

(** What may follow a value: the end of the text, a comma or a closing bracket. *)
Definition closes (r : string) : bool :=
  match r with EmptyString => true | String c _ => closer c end.

(** A value starts with a character that closes nothing. *)
Definition opens (s : string) : bool :=
  match s with EmptyString => false | String c _ => negb (closer c) end.

Lemma num_prefix_inj p p' r r' :
  all_chars num_char p = true → all_chars num_char p' = true → closes r = true → closes r' = true →
  p +:+ r = p' +:+ r' → p = p' ∧ r = r'.
Proof.
  assert (∀ c t z, num_char c = true → closes z = true → z ≠ String c t) as Hno.
  { intros c t z Hc Hz ->. simpl in Hz. unfold closer in Hz. bools.
    destruct Hz as [[-> | ->]| ->]; by vm_compute in Hc. }
  intros Hp Hp' Hr Hr'. revert p' Hp'. induction p as [|c p IH]; intros [|c' p'] Hp' H;
    rewrite ?string_app_cons in H; simpl in *; bools.
  - done.
  - exfalso. by eapply (Hno c' (p' +:+ r') r).
  - exfalso. by eapply (Hno c (p +:+ r) r').
  - injection H as -> H. destruct (IH ltac:(done) p' ltac:(done) H) as [-> ->]. done.
Qed.

Section lists.
Context {A : Type} (p : A → string) (ok : A → Prop).
Hypothesis p_opens : ∀ x, opens (p x) = true.

Definition reads (x : A) : Prop := ∀ y r r',
  ok x → ok y → closes r = true → closes r' = true →
  p x +:+ r = p y +:+ r' → x = y ∧ r = r'.

Lemma opens_app s z : opens s = true → opens (s +:+ z) = true.
Proof. by destruct s. Qed.

Definition list_tail (l : list A) (z : string) : string :=
  match l with [] => z | _ => "," +:+ Join (List.map p l) "," +:+ z end.

Lemma Join_cons_app x l z : Join (List.map p (x :: l)) "," +:+ z = p x +:+ list_tail l z.
Proof. destruct l as [|y l]; [done|]. simpl. by rewrite <-!string_app_assoc. Qed.

(** A comma-separated list is determined by its text up to the closing bracket. *)
Lemma Join_reads c l l' r r' :
  closer c = true → c ≠ ","%char →
  Forall reads l → Forall ok l → Forall ok l' →
  Join (List.map p l) "," +:+ String c r = Join (List.map p l') "," +:+ String c r' →
  l = l' ∧ r = r'.
Proof.
  intros Hc Hcomma Hl Hok. revert l'.
  assert (∀ x l z, String c z ≠ Join (List.map p (x :: l)) "," +:+ String c r) as Hend1.
  { intros x k z E. rewrite Join_cons_app in E.
    pose proof (opens_app (p x) (list_tail k (String c r)) (p_opens x)) as Ho.
    rewrite <-E in Ho. simpl in Ho. by rewrite Hc in Ho. }
  assert (∀ x l z, String c z ≠ Join (List.map p (x :: l)) "," +:+ String c r') as Hend2.
  { intros x k z E. rewrite Join_cons_app in E.
    pose proof (opens_app (p x) (list_tail k (String c r')) (p_opens x)) as Ho.
    rewrite <-E in Ho. simpl in Ho. by rewrite Hc in Ho. }
  assert (∀ k z, closes (list_tail k (String c z)) = true) as Hcl by (intros [|??] ?; done).
  induction l as [|x l IH]; intros [|y l'] Hok' H.
  - split; [done|]. simpl in H. by injection H.
  - by destruct (Hend2 _ _ _ H).
  - by destruct (Hend1 _ _ _ (eq_sym H)).
  - rewrite !Join_cons_app in H. decompose_Forall_hyps.
    match goal with Hx : reads x |- _ =>
      apply Hx in H as [<- H]; [|by try apply Hcl..] end.
    destruct l as [|x2 l], l' as [|y2 l']; simpl list_tail in H.
    + by injection H.
    + injection H as H. by simplify_eq.
    + injection H as H. by simplify_eq.
    + injection H as H. destruct (IH ltac:(done) ltac:(done) (y2 :: l') ltac:(done) H) as [-> ->]. done.
Qed.
End lists.

Section json_induction.
Variable P : json → Prop.
Hypothesis P_null : P JNull.
Hypothesis P_bool : ∀ b, P (JBool b).
Hypothesis P_int : ∀ n, P (JInt n).
Hypothesis P_string : ∀ s, P (JString s).
Hypothesis P_array : ∀ l, Forall P l → P (JArray l).
Hypothesis P_object : ∀ l, Forall (λ m, P m.2) l → P (JObject l).

Fixpoint json_nested_ind (v : json) : P v :=
  match v with
  | JNull => P_null
  | JBool b => P_bool b
  | JInt n => P_int n
  | JString s => P_string s
  | JArray l => P_array l
      ((fix go l : Forall P l :=
          match l with [] => Forall_nil_2 P | x :: l' => Forall_cons_2 P x l' (json_nested_ind x) (go l') end) l)
  | JObject l => P_object l
      ((fix go l : Forall (λ m, P m.2) l :=
          match l with
          | [] => Forall_nil_2 _
          | (k, x) :: l' => Forall_cons_2 (λ m, P m.2) (k, x) l' (json_nested_ind x) (go l')
          end) l)
  end.
End json_induction.

(** Every string of the value, keys included, is valid UTF-8. *)
Fixpoint json_valid (v : json) : bool :=
  match v with
  | JNull | JBool _ | JInt _ => true
  | JString s => ValidString s
  | JArray l => forallb json_valid l
  | JObject l => forallb (λ '(k, w), ValidString k && json_valid w) l
  end.

Definition member (m : string * json) : string := let '(k, w) := m in quote k +:+ ":" +:+ marshal w.

Lemma marshal_opens v : opens (marshal v) = true.
Proof.
  destruct v as [|[]|n| | |]; try done. simpl. pose proof (pretty_Z_num n) as Hn. pose proof (pretty_Z_ne n) as Hne.
  destruct (pretty n) as [|c s]; [done|]. simpl in *. bools. unfold num_char, closer in *.
  bools. destruct_or?; bools; destruct_and?; repeat split; intros ->;
    by match goal with H : _ ≤ byteZ _ |- _ => vm_compute in H | _ => idtac end.
Qed.

Lemma member_opens m : opens (member m) = true.
Proof. by destruct m. Qed.

Lemma member_reads m :
  reads marshal (λ v, json_valid v = true) m.2 →
  reads member (λ m, ValidString m.1 = true ∧ json_valid m.2 = true) m.
Proof.
  destruct m as [k v]. intros Hv [k' v'] r r' [Hk Hv1] [Hk' Hv2] Hr Hr' H. simpl in *.
  rewrite <-!string_app_assoc in H. apply quote_inj in H as [-> H]; [|done..].
  injection H as H. by apply Hv in H as [-> ->].
Qed.

(** The first character of the text tells the kind of the value. *)
Definition head_kind (s : string) : nat :=
  match s with
  | EmptyString => 9
  | String c _ =>
      if bool_decide (c = "n"%char) then 0
      else if bool_decide (c = "t"%char) || bool_decide (c = "f"%char) then 5
      else if num_char c then 1
      else if bool_decide (c = dquote) then 2
      else if bool_decide (c = "["%char) then 3 else 4
  end.

Definition kind (v : json) : nat :=
  match v with JNull => 0 | JBool _ => 5 | JInt _ => 1 | JString _ => 2 | JArray _ => 3 | JObject _ => 4 end.

Lemma head_kind_marshal v r : head_kind (marshal v +:+ r) = kind v.
Proof.
  destruct v as [|[]|n| | |]; try done. simpl. pose proof (pretty_Z_num n) as Hn. pose proof (pretty_Z_ne n) as Hne.
  destruct (pretty n) as [|c s]; [done|]. simpl in *. bools.
  match goal with H : num_char c = true |- _ => rename H into Hc end.
  rewrite !bool_decide_false, Hc; [done|..]; by intros ->.
Qed.

Lemma json_valid_members l :
  json_valid (JObject l) = true → Forall (λ m, ValidString m.1 = true ∧ json_valid m.2 = true) l.
Proof.
  simpl. intros H. apply Forall_forall. intros [k v] Hm. rewrite forallb_forall in H.
  apply list_elem_of_In, H in Hm. by bools.
Qed.

Lemma json_valid_items l :
  json_valid (JArray l) = true → Forall (λ v, json_valid v = true) l.
Proof.
  simpl. intros H. apply Forall_forall. intros v Hv. rewrite forallb_forall in H.
  by apply H, list_elem_of_In.
Qed.

Lemma marshal_array l r : marshal (JArray l) +:+ r = String "[" (Join (List.map marshal l) "," +:+ String "]" r).
Proof.
  change (String "[" ((Join (List.map marshal l) "," +:+ "]") +:+ r) =
          String "[" (Join (List.map marshal l) "," +:+ ("]" +:+ r))).
  by rewrite string_app_assoc.
Qed.

Lemma marshal_object l r : marshal (JObject l) +:+ r = String "{" (Join (List.map member l) "," +:+ String "}" r).
Proof.
  change (String "{" ((Join (List.map member l) "," +:+ "}") +:+ r) =
          String "{" (Join (List.map member l) "," +:+ ("}" +:+ r))).
  by rewrite string_app_assoc.
Qed.

(** A value followed by a comma, a closing bracket or nothing is determined by
    its text, and so is where it ends. *)
Lemma marshal_reads v : reads marshal (λ v, json_valid v = true) v.
Proof.
  induction v as [|b|n|s|l IH|l IH] using json_nested_ind; intros w r r' Hv Hw Hr Hr' H;
    pose proof (f_equal head_kind H) as Hk; rewrite !head_kind_marshal in Hk;
    destruct w as [|b'|n'|s'|l'|l']; try done; clear Hk.
  - by injection H.
  - destruct b, b'; try discriminate H; injection H as H; (split; [done|exact H]).
  - apply num_prefix_inj in H as [Hp ->]; [|done || apply pretty_Z_num..].
    change (pretty n = pretty n') in Hp. apply (inj pretty) in Hp. by rewrite Hp.
  - by apply quote_inj in H as [-> ->].
  - rewrite !marshal_array in H. injection H as H.
    eapply Join_reads in H as [-> ->]; [done|apply marshal_opens|done|done|exact IH| |];
      by apply json_valid_items.
  - rewrite !marshal_object in H. injection H as H.
    eapply Join_reads in H as [-> ->]; [done|apply member_opens|done|done| | |].
    + eapply Forall_impl; [exact IH|]. intros m. apply member_reads.
    + by apply json_valid_members.
    + by apply json_valid_members.
Qed.

(** Two valid values with the same text are equal. *)
Lemma marshal_inj v w :
  json_valid v = true → json_valid w = true → marshal v = marshal w → v = w.
Proof.
  intros Hv Hw H. apply (f_equal (λ s, s +:+ "")) in H.
  by apply (marshal_reads v) in H as [-> _].
Qed.

Lemma ValidString_ascii s : is_ascii s = true → ValidString s = true.
Proof.
  intros H. apply ValidString_segments. rewrite segments_ascii by done. apply Forall_fmap. clear H.
  apply Forall_forall. intros a _. unfold bad_segment. simpl.
  destruct (Z.eqb_spec (byteZ a) RuneError) as [E|]; [|done].
  pose proof (byteZ_range a). unfold RuneError in E. lia.
Qed.
