(* ===== verification/GoJsonDecode.v ===== *)
(** * Package encoding/json, the decoder

    What [json.Decoder] accepts and how it fills the structs of the durable records.  The
    text of one value becomes a [tree]; a struct is filled member by member, starting
    from the values that are there: a member may repeat, null leaves a struct, a string or
    a number as it is, a slice keeps the elements of its array.  Field names match without
    regard to case; an unknown name is an error ([DisallowUnknownFields]).

    The decoder goes on after an error in a value and reports the first one at the end;
    the records decoded here are dropped on every error, so one error is [None].

    [read_marshal] and the [Codec] laws give the round trip: what the encoder writes for a
    value with valid UTF-8 strings is read back as that value. *)

From S2P Require Import Prelude GoStrings Sha256 GoJson.

(** ** Strings *)

Definition of_bytes (l : list Z) : string :=
  foldr (λ b s, String (ascii_of_N (Z.to_N b)) s) "" l.

Definition surrogate (r : Z) : bool := between 0xD800 r 0xDFFF.

(** [utf8.AppendRune] *)
Definition encode_rune (r : Z) : string :=
  if between 0 r 0x7F then of_bytes [r]
  else if between 0 r 0x7FF then of_bytes [0xC0 + r / 64; 0x80 + r mod 64]
  else if negb (between 0 r 0x10FFFF) || surrogate r then replacement
  else if r <=? 0xFFFF then of_bytes [0xE0 + r / 4096; 0x80 + r / 64 mod 64; 0x80 + r mod 64]
  else of_bytes [0xF0 + r / 262144; 0x80 + r / 4096 mod 64; 0x80 + r / 64 mod 64; 0x80 + r mod 64].

(** A hexadecimal digit of either case. *)
Definition hex_digit_value (c : ascii) : option Z :=
  let b := byteZ c in
  if is_digit b then Some (b - 48)
  else if between 97 b 102 then Some (b - 87)
  else if between 65 b 70 then Some (b - 55) else None.

Definition read_hex4 (s : string) : option (Z * string) :=
  match s with
  | String a (String b (String c (String d rest))) =>
      a ← hex_digit_value a; b ← hex_digit_value b; c ← hex_digit_value c; d ← hex_digit_value d;
      Some (((a * 16 + b) * 16 + c) * 16 + d, rest)
  | _ => None
  end.

(** [getu4]: the escape of a code unit. *)
Definition read_u4 (s : string) : option (Z * string) :=
  match s with
  | String a (String b rest) => if bool_decide (a = backslash) && bool_decide (b = "u"%char) then read_hex4 rest else None
  | _ => None
  end.

(** [utf16.DecodeRune]: the rune of a surrogate pair. *)
Definition surrogate_pair (r1 r2 : Z) : option Z :=
  if between 0xD800 r1 0xDBFF && between 0xDC00 r2 0xDFFF
  then Some ((r1 - 0xD800) * 1024 + (r2 - 0xDC00) + 0x10000) else None.

(** The character of a short escape. *)
Definition short_escape (e : ascii) : option ascii :=
  if bool_decide (e = dquote) || bool_decide (e = backslash) || bool_decide (e = "/"%char) then Some e
  else if bool_decide (e ∈ ["b"%char; "f"%char; "n"%char; "r"%char; "t"%char]) then Some (unescape e) else None.

(** The content of a string after its opening quote, unquoted, and what follows its closing
    quote.  A byte below 0x20 is refused; a byte that starts no UTF-8 encoding and a
    surrogate without its other half become U+FFFD.  Every round consumes a byte, so the
    length of the text is enough fuel. *)
Fixpoint read_string (fuel : nat) (s : string) : option (string * string) :=
  match fuel, s with
  | S fuel, String c s1 =>
      if bool_decide (c = dquote) then Some ("", s1)
      else if bool_decide (c = backslash) then
        match read_u4 s with
        | Some (r, s2) =>
            match read_u4 s2 with
            | Some (r', s3) =>
                match surrogate_pair r r' with
                | Some both => prepend (encode_rune both) (read_string fuel s3)
                | None => prepend (encode_rune r) (read_string fuel s2)
                end
            | None => prepend (encode_rune r) (read_string fuel s2)
            end
        | None =>
            match s1 with
            | String e s2 => c ← short_escape e; prepend (String c "") (read_string fuel s2)
            | EmptyString => None
            end
        end
      else if byteZ c <? 32 then None
      else
        let '(r, size) := decode_rune (byteZ c) (bytes (string_take 3 s1)) in
        prepend (repair_segment (r, string_take size s)) (read_string fuel (string_drop size s))
  | _, _ => None
  end.

(** ** Numbers *)

Fixpoint span (f : ascii → bool) (s : string) : string * string :=
  match s with
  | String c s' => if f c then let '(p, r) := span f s' in (String c p, r) else ("", s)
  | EmptyString => ("", "")
  end.

Definition decimal_char (c : ascii) : bool := is_digit (byteZ c).

(** One digit at least. *)
Definition read_digits (s : string) : option (string * string) :=
  let '(p, r) := span decimal_char s in if bool_decide (p = "") then None else Some (p, r).

Definition read_integer (s : string) : option (string * string) :=
  match s with
  | String c s' => if bool_decide (c = "0"%char) then Some ("0", s') else read_digits s
  | EmptyString => None
  end.

Definition read_fraction (s : string) : option (string * string) :=
  match s with
  | String c s' => if bool_decide (c = "."%char) then prepend "." (read_digits s') else Some ("", s)
  | EmptyString => Some ("", s)
  end.

Definition read_exponent (s : string) : option (string * string) :=
  match s with
  | String c s' =>
      if bool_decide (c = "e"%char) || bool_decide (c = "E"%char) then
        match s' with
        | String sign s'' =>
            if bool_decide (sign = "+"%char) || bool_decide (sign = "-"%char)
            then prepend (String c (String sign "")) (read_digits s'') else prepend (String c "") (read_digits s')
        | EmptyString => None
        end
      else Some ("", s)
  | EmptyString => Some ("", s)
  end.

(** The text of a number and what follows. *)
Definition read_number (s : string) : option (string * string) :=
  let '(sign, s) := match s with
                    | String c s' => if bool_decide (c = "-"%char) then ("-", s') else ("", s)
                    | EmptyString => ("", s)
                    end in
  i ← read_integer s;
  f ← read_fraction i.2;
  e ← read_exponent f.2;
  Some (sign +:+ i.1 +:+ f.1 +:+ e.1, e.2).

(** ** Values *)

#[warnings="-register-all"]
Inductive tree :=
| TNull
| TBool (b : bool)
| TNumber (literal : string)
| TString (s : string)
| TArray (items : list tree)
| TObject (members : list (string * tree)).

Definition space_char (c : ascii) : bool :=
  bool_decide (c = " "%char) || bool_decide (c = "009"%char) || bool_decide (c = "010"%char) || bool_decide (c = "013"%char).

Definition skip_space (s : string) : string := (span space_char s).2.

(** The text of a literal is next. *)
Definition after_literal (literal s : string) : option string := CutPrefix s literal.

Definition read_scalar (s : string) : option (tree * string) :=
  match after_literal "null" s, after_literal "true" s, after_literal "false" s with
  | Some r, _, _ => Some (TNull, r)
  | _, Some r, _ => Some (TBool true, r)
  | _, _, Some r => Some (TBool false, r)
  | _, _, _ => n ← read_number s; Some (TNumber n.1, n.2)
  end.

(** The next value, the items of an array after its bracket or a comma, and the members of
    an object; at most [depth] more levels may be opened. *)
Fixpoint read_value (fuel : nat) (depth : Z) (s : string) : option (tree * string) :=
  match fuel, skip_space s with
  | S fuel, String c s =>
      if bool_decide (c = dquote) then
        v ← read_string (String.length s) s; Some (TString v.1, v.2)
      else if bool_decide (c = "["%char) then
        if depth <=? 0 then None
        else match skip_space s with
             | String c' s' =>
                 if bool_decide (c' = "]"%char) then Some (TArray [], s')
                 else v ← read_items fuel (depth - 1) s; Some (TArray v.1, v.2)
             | EmptyString => None
             end
      else if bool_decide (c = "{"%char) then
        if depth <=? 0 then None
        else match skip_space s with
             | String c' s' =>
                 if bool_decide (c' = "}"%char) then Some (TObject [], s')
                 else v ← read_members fuel (depth - 1) s; Some (TObject v.1, v.2)
             | EmptyString => None
             end
      else read_scalar (String c s)
  | _, _ => None
  end
with read_items (fuel : nat) (depth : Z) (s : string) : option (list tree * string) :=
  match fuel with
  | S fuel =>
      v ← read_value fuel depth s;
      match skip_space v.2 with
      | String c s =>
          if bool_decide (c = "]"%char) then Some ([v.1], s)
          else if bool_decide (c = ","%char) then l ← read_items fuel depth s; Some (v.1 :: l.1, l.2)
          else None
      | EmptyString => None
      end
  | O => None
  end
with read_members (fuel : nat) (depth : Z) (s : string) : option (list (string * tree) * string) :=
  match fuel, skip_space s with
  | S fuel, String q s =>
      if bool_decide (q = dquote) then
        key ← read_string (String.length s) s;
        match skip_space key.2 with
        | String c s =>
            if bool_decide (c = ":"%char) then
              v ← read_value fuel depth s;
              match skip_space v.2 with
              | String c s =>
                  if bool_decide (c = "}"%char) then Some ([(key.1, v.1)], s)
                  else if bool_decide (c = ","%char) then l ← read_members fuel depth s; Some ((key.1, v.1) :: l.1, l.2)
                  else None
              | EmptyString => None
              end
            else None
        | EmptyString => None
        end
      else None
  | _, _ => None
  end.

(** [maxNestingDepth] of the scanner. *)
Definition max_depth : Z := 10000.

(** One value and nothing but space after it: [Decode] followed by a [Decode] that reports
    the end of the text. *)
Definition read_text (s : string) : option tree :=
  v ← read_value (2 * String.length s + 1) max_depth s;
  if bool_decide (skip_space v.2 = "") then Some v.1 else None.


(** ** Reading what the encoder wrote: strings *)

Lemma read_string_plain fuel c s :
  c ≠ dquote → c ≠ backslash → 32 ≤ byteZ c < 0x80 →
  read_string (S fuel) (String c s) = prepend (String c "") (read_string fuel s).
Proof.
  intros H1 H2 [H3 H4]. simpl. rewrite !bool_decide_false by done. rewrite (proj2 (Z.ltb_ge _ _) H3).
  rewrite decode_rune_low by done. simpl. unfold repair_segment, bad_segment. simpl.
  rewrite (proj2 (Z.eqb_neq _ _)) by (unfold RuneError; lia). done.
Qed.

Lemma string_take_exact (s t : string) n : String.length s = n → string_take n (s +:+ t) = s.
Proof. intros <-. induction s as [|a s IH]; [by destruct t|]. rewrite string_app_cons. simpl. by rewrite IH. Qed.

Lemma string_drop_exact (s t : string) n : String.length s = n → string_drop n (s +:+ t) = t.
Proof. intros <-. induction s as [|a s IH]; [by destruct t|]. rewrite string_app_cons. simpl. by rewrite IH. Qed.

Lemma decode_rune_short b0 rest : ((decode_rune b0 rest).2 ≤ 4)%nat.
Proof. unfold decode_rune. repeat case_match; simpl; lia. Qed.

(** A successful decoding looks at its own bytes only. *)
Lemma decode_rune_local b0 rest r k rest' :
  decode_rune b0 rest = (r, S k) → bool_decide (r = RuneError) && bool_decide (k = 0%nat) = false →
  decode_rune b0 (take k rest ++ rest') = (r, S k).
Proof.
  unfold decode_rune. case_match; [intros [= -> <-] _; done|].
  destruct (first_info b0) as [[[[|[|[|[|[|n]]]]] lo] hi]|]; try (intros [= <- <-]; done).
  - destruct rest as [|b1 rest]; [intros [= <- <-]; done|]. case_match eqn:H1; intros [= <- <-]; [|done].
    simpl. by rewrite H1.
  - destruct rest as [|b1 [|b2 rest]]; [intros [= <- <-]; done..|]. case_match eqn:H1; intros [= <- <-]; [|done].
    simpl. by rewrite H1.
  - destruct rest as [|b1 [|b2 [|b3 rest]]]; [intros [= <- <-]; done..|]. case_match eqn:H1; intros [= <- <-]; [|done].
    simpl. by rewrite H1.
Qed.

(** An encoding of several bytes, whatever follows. *)
Definition encodes (seg : Z * string) : Prop :=
  ∃ a t, seg.2 = String a t ∧ 0x80 ≤ byteZ a ∧ (String.length t ≤ 3)%nat ∧
    ∀ rest, decode_rune (byteZ a) (bytes t ++ rest) = (seg.1, String.length seg.2).

Definition segment_good (seg : Z * string) : Prop :=
  (∃ a, seg = (byteZ a, String a "") ∧ byteZ a < 0x80) ∨
  (segment_ok seg ∧ 0x80 ≤ seg.1 ∧ encodes seg).

Lemma segments_good s : Forall (λ seg, bad_segment seg = false) (segments s) → Forall segment_good (segments s).
Proof.
  apply (segments_ind (λ _ l, Forall (λ seg, bad_segment seg = false) l → Forall segment_good l)); [constructor|].
  intros a t r k Hd IH [Hb Hl]%Forall_cons. constructor; [|by apply IH].
  destruct (decide (byteZ a < 0x80)) as [Ha|Ha].
  { rewrite decode_rune_low in Hd by done. simplify_eq. left. exists a. split; [|done]. by destruct t. }
  pose proof (decode_rune_fits (byteZ a) (bytes t)) as Hfit. rewrite Hd, length_bytes in Hfit. simpl in Hfit.
  pose proof (decode_rune_short (byteZ a) (bytes t)) as Hshort. rewrite Hd in Hshort. simpl in Hshort.
  assert (String.length (string_take k t) = k) as Hk by (apply length_string_take; lia).
  pose proof (decode_rune_high (byteZ a) (bytes t)) as Hr. rewrite Hd in Hr. simpl in Hr. specialize (Hr ltac:(lia)).
  right. split; [|split; [done|]].
  - pose proof (decode_rune_bytes (byteZ a) (bytes t) r (S k) Hd ltac:(lia)) as (H1 & H2 & H3 & H4). right.
    simpl in *. rewrite bytes_string_take. done.
  - exists a, (string_take k t). split_and!; [done|lia|lia|]. intros rest. simpl. rewrite Hk, bytes_string_take.
    apply decode_rune_local; [done|]. unfold bad_segment in Hb. simpl in Hb. rewrite Hk in Hb.
    apply not_true_is_false. intros [H1 H2]%andb_true_iff. apply bool_decide_eq_true in H1, H2. subst. done.
Qed.

Lemma read_escape fuel s r s2 :
  read_u4 s = Some (r, s2) → surrogate r = false →
  read_string (S fuel) s = prepend (encode_rune r) (read_string fuel s2).
Proof.
  intros Hu Hr. assert (∀ r', surrogate_pair r r' = None) as Hpair.
  { intros r'. unfold surrogate_pair, surrogate in *. destruct (between 0xD800 r 0xDBFF) eqn:H; [|done].
    bools. lia. }
  destruct s as [|a [|b s]]; [done..|]. assert (a = backslash) as ->.
  { unfold read_u4 in Hu. destruct (decide (a = backslash)); [done|]. by rewrite bool_decide_false in Hu. }
  cbn [read_string]. rewrite bool_decide_false, bool_decide_true by done. rewrite Hu.
  destruct (read_u4 s2) as [[r' s3]|]; [|done]. by rewrite Hpair.
Qed.

Lemma read_short fuel e c s :
  e ≠ "u"%char → short_escape e = Some c →
  read_string (S fuel) (String backslash (String e s)) = prepend (String c "") (read_string fuel s).
Proof.
  intros He Hc. cbn [read_string]. rewrite bool_decide_false, bool_decide_true by done.
  unfold read_u4. rewrite (bool_decide_false (e = _)) by done. rewrite andb_false_r. by rewrite Hc.
Qed.

Lemma hex_digit_back x : 0 ≤ x < 16 → hex_digit_value (hex_digit x) = Some x.
Proof.
  intros H. assert (x ∈ seqZ 0 16) as Hx by (apply elem_of_seqZ; lia). clear H. revert x Hx. apply Forall_forall.
  vm_compute. repeat constructor.
Qed.

Lemma read_escape_u fuel b rest :
  0 ≤ b < 0x80 → read_string (S fuel) (escape_u b +:+ rest) = prepend (String (ascii_of_N (Z.to_N b)) "") (read_string fuel rest).
Proof.
  intros Hb. rewrite (read_escape fuel (escape_u b +:+ rest) b rest).
  - unfold encode_rune. rewrite (proj2 (between_true 0 b 0x7F)) by lia. done.
  - unfold escape_u. rewrite <-string_app_assoc, !string_app_cons. change ("" +:+ ?s) with s.
    unfold read_u4, read_hex4. rewrite !bool_decide_true by done. cbn [andb]. change (hex_digit_value "0") with (Some 0).
    rewrite !hex_digit_back by (split; [apply Z.div_pos|apply Z.div_lt_upper_bound] || apply Z.mod_pos_bound; lia).
    cbn. repeat f_equal. pose proof (Z.div_mod b 16). lia.
  - unfold surrogate. apply between_false. lia.
Qed.

(** One character: copied, or escaped. *)
Lemma read_ascii fuel a rest :
  byteZ a < 0x80 →
  read_string (S fuel) (quote_segment (byteZ a, String a "") +:+ rest) = prepend (String a "") (read_string fuel rest).
Proof.
  intros Ha. pose proof (byteZ_range a) as Hp.
  assert (∀ n, byteZ a = n → a = ascii_of_N (Z.to_N n)) as Heq.
  { intros n <-. unfold byteZ. by rewrite N2Z.id, ascii_N_embedding. }
  unfold quote_segment. simpl (_.1). simpl (_.2).
  do 7 match goal with
  | |- context [byteZ a =? ?n] =>
      destruct (Z.eqb_spec (byteZ a) n) as [E|?]; [rewrite (Heq n E); by refine (read_short _ _ _ _ _ _)|]
  end.
  destruct ((byteZ a <? 32) || _ || _ || _) eqn:Hs.
  { rewrite read_escape_u by lia. by rewrite <-(Heq (byteZ a) eq_refl). }
  unfold bad_segment. simpl. rewrite !(proj2 (Z.eqb_neq (byteZ a) _)) by (unfold RuneError; lia). simpl.
  apply orb_false_iff in Hs as [[[Hs _]%orb_false_iff _]%orb_false_iff _]. apply Z.ltb_ge in Hs.
  rewrite string_app_cons. apply read_string_plain; [intros ->; by vm_compute in *..|lia].
Qed.

(** The first [n] bytes of a text that begins with at most [n]. *)
Lemma string_take_text s t n : (String.length s ≤ n)%nat → ∃ t', string_take n (s +:+ t) = s +:+ t'.
Proof.
  revert n. induction s as [|a s IH]; intros n Hn; [by exists (string_take n t)|]. destruct n as [|n]; simpl in Hn; [lia|].
  rewrite string_app_cons. simpl. destruct (IH n ltac:(lia)) as [t' ->]. by exists t'.
Qed.

Lemma read_high fuel a t r rest :
  encodes (r, String a t) → bad_segment (r, String a t) = false →
  read_string (S fuel) (String a t +:+ rest) = prepend (String a t) (read_string fuel rest).
Proof.
  intros (a' & t' & [= <- <-] & Ha & Hl & Hd) Hb. simpl in Hd. rewrite string_app_cons. cbn [read_string].
  rewrite !bool_decide_false by (intros ->; vm_compute in Ha; congruence).
  rewrite (proj2 (Z.ltb_ge _ _)) by lia.
  assert (decode_rune (byteZ a) (bytes (string_take 3 (t +:+ rest))) = (r, S (String.length t))) as ->.
  { destruct (string_take_text t rest 3 Hl) as [rest' ->]. rewrite bytes_app. apply Hd. }
  change (String a (t +:+ rest)) with (String a t +:+ rest). rewrite string_take_exact, string_drop_exact by done.
  unfold repair_segment. by rewrite Hb.
Qed.

Lemma read_segment fuel seg rest :
  segment_good seg → bad_segment seg = false →
  read_string (S fuel) (quote_segment seg +:+ rest) = prepend seg.2 (read_string fuel rest).
Proof.
  intros [(a & -> & Ha)|(Hok & Hr & He)] Hbad; [by apply read_ascii|].
  destruct Hok as [(a & -> & Ha)|(_ & Hb & H1 & H2)]; [simpl in Hr; lia|].
  destruct seg as [r enc]. unfold quote_segment. simpl (_.1) in *. simpl (_.2) in *.
  do 7 (rewrite (proj2 (Z.eqb_neq r _)) by lia).
  rewrite (proj2 (Z.ltb_ge r 32)) by lia. do 3 (rewrite (proj2 (Z.eqb_neq r _)) by lia). cbn [orb].
  rewrite Hbad. destruct (r =? 0x2028) eqn:E1; [|destruct (r =? 0x2029) eqn:E2].
  - bools. specialize (H1 E1). change [226; 128; 168] with (bytes (line_separator "8")) in H1. apply (inj bytes) in H1 as ->.
    rewrite (read_escape fuel _ 0x2028 rest); reflexivity.
  - bools. specialize (H2 E2). change [226; 128; 169] with (bytes (line_separator "9")) in H2. apply (inj bytes) in H2 as ->.
    rewrite (read_escape fuel _ 0x2029 rest); reflexivity.
  - pose proof He as (a & t & [= ->] & _). by apply read_high with (r := r).
Qed.

(** The fuel of a string: its length is enough. *)
Lemma read_quote_body fuel l rest :
  Forall segment_good l → Forall (λ seg, bad_segment seg = false) l → (length l < fuel)%nat →
  read_string fuel (quote_body l +:+ String dquote rest) = Some (concat_segments l, rest).
Proof.
  revert fuel. induction l as [|seg l IH]; intros [|fuel] Hg Hb Hf; simpl in Hf; [lia|done|lia|].
  apply Forall_cons in Hg as [Hs Hl], Hb as [Hbs Hbl].
  change (quote_body (seg :: l)) with (quote_segment seg +:+ quote_body l).
  rewrite <-string_app_assoc, read_segment, IH by (done || lia). by destruct seg.
Qed.

Lemma string_length_app s t : String.length (s +:+ t) = (String.length s + String.length t)%nat.
Proof. by rewrite <-!length_bytes, bytes_app, length_app. Qed.

Lemma quote_segment_length seg : segment_good seg → (1 ≤ String.length (quote_segment seg))%nat.
Proof.
  intros H. unfold quote_segment. repeat case_match; simpl; try lia.
  destruct H as [(a & -> & _)|(_ & _ & a & t & -> & _)]; simpl; lia.
Qed.

Lemma read_quote s rest :
  ValidString s = true →
  read_string (String.length (quote_body (segments s) +:+ String dquote rest)) (quote_body (segments s) +:+ String dquote rest) = Some (s, rest).
Proof.
  intros Hs%ValidString_segments. pose proof (segments_good s Hs) as Hg.
  rewrite read_quote_body; [by rewrite concat_segments_id|done|done|].
  rewrite string_length_app. simpl. enough (length (segments s) ≤ String.length (quote_body (segments s)))%nat by lia.
  clear Hs. induction Hg as [|seg l Hs _ IH]; [done|]. simpl. rewrite string_length_app.
  pose proof (quote_segment_length seg Hs). lia.
Qed.

(** ** Reading what the encoder wrote: numbers *)

Lemma span_app f p r :
  all_chars f p = true → (∀ c r', r = String c r' → f c = false) → span f (p +:+ r) = (p, r).
Proof.
  intros Hp Hr. induction p as [|c p IH]; simpl in Hp.
  - change ("" +:+ r) with r. destruct r as [|c r]; [done|]. simpl. by rewrite (Hr c r).
  - apply andb_true_iff in Hp as [Hc Hp]. rewrite string_app_cons. simpl. by rewrite Hc, IH.
Qed.

(** What cannot continue a number. *)
Definition number_end (r : string) : bool :=
  match r with
  | EmptyString => true
  | String c _ => negb (decimal_char c || bool_decide (c = "."%char) || bool_decide (c = "e"%char) || bool_decide (c = "E"%char))
  end.

Definition decimal (s : string) : Prop := all_chars decimal_char s = true ∧ s ≠ "" ∧ (HasPrefix s "0" = true → s = "0").

Lemma pretty_N_char_digit x : decimal_char (pretty_N_char x) = true.
Proof. by destruct x as [|[[[[]|[]|]|[[]|[]|]|]|[[[]|[]|]|[[]|[]|]|]|]]. Qed.

Lemma pretty_N_char_value x : (x < 10)%N → byteZ (pretty_N_char x) - 48 = Z.of_N x.
Proof. intros H. by destruct x as [|[[[[]|[]|]|[[]|[]|]|]|[[[]|[]|]|[[]|[]|]|]|]]; try lia. Qed.

(** The digits of a positive number before those of [s]. *)
Lemma pretty_go_decimal x s :
  (0 < x)%N → all_chars decimal_char s = true →
  all_chars decimal_char (pretty_N_go x s) = true ∧ HasPrefix (pretty_N_go x s) "0" = false ∧ pretty_N_go x s ≠ "" ∧
  foldl (λ acc b, acc * 10 + (b - 48)) 0 (bytes (pretty_N_go x s)) = foldl (λ acc b, acc * 10 + (b - 48)) (Z.of_N x) (bytes s).
Proof.
  revert s. induction (N.lt_wf_0 x) as [x _ IH]. intros s Hx Hs. rewrite pretty_N_go_step by done.
  set (c := pretty_N_char (x `mod` 10)).
  assert (all_chars decimal_char (String c s) = true) as Hc by (simpl; unfold c; by rewrite pretty_N_char_digit).
  assert (byteZ c - 48 = Z.of_N (x `mod` 10)) as Hv by (apply pretty_N_char_value, N.mod_lt; done).
  pose proof (N.div_mod x 10 ltac:(done)) as Hdm.
  destruct (decide (x `div` 10 = 0)%N) as [H0|H0].
  - rewrite H0, pretty_N_go_0. rewrite H0 in Hdm. split_and!; [done| |done|].
    + apply not_true_is_false. intros [t E]%HasPrefix_spec. injection E as E _. rewrite E in Hv. change (byteZ "0" - 48) with 0 in Hv. lia.
    + simpl. f_equal. lia.
  - destruct (IH (x `div` 10)%N ltac:(apply N.div_lt; lia) (String c s)) as (H1 & H2 & H3 & H4); [by apply N.neq_0_lt_0|done|].
    split_and!; [done..|]. rewrite H4. simpl. f_equal. lia.
Qed.

Lemma pretty_decimal (x : N) : decimal (pretty x) ∧ decimal_value (pretty x) = Z.of_N x.
Proof.
  destruct (decide (x = 0%N)) as [->|Hx]; [by vm_compute|].
  destruct (pretty_go_decimal x "") as (H1 & H2 & H3 & H4); [by apply N.neq_0_lt_0|done|].
  unfold pretty, pretty_N. rewrite decide_False by done. unfold decimal, decimal_value. rewrite H2. by split_and!.
Qed.

Lemma read_decimal s r : decimal s → number_end r = true → read_number (s +:+ r) = Some (s, r) ∧ read_number ("-" +:+ s +:+ r) = Some ("-" +:+ s, r).
Proof.
  intros (Hd & Hne & H0) Hr.
  assert (read_integer (s +:+ r) = Some (s, r)) as Hi.
  { destruct s as [|c s]; [done|]. rewrite string_app_cons. unfold read_integer. case_bool_decide as Hc.
    - subst. specialize (H0 (HasPrefix_app "0" s)). by injection H0 as ->.
    - unfold read_digits. change (String c (s +:+ r)) with (String c s +:+ r). rewrite span_app; [by rewrite bool_decide_false|done|].
      intros c' r' ->. simpl in Hr. by destruct (decimal_char c'). }
  assert (read_fraction r = Some ("", r)) as Hf.
  { destruct r as [|c r]; [done|]. unfold read_fraction. rewrite bool_decide_false; [done|]. intros ->. by vm_compute in Hr. }
  assert (read_exponent r = Some ("", r)) as He.
  { destruct r as [|c r]; [done|]. unfold read_exponent. rewrite !bool_decide_false; [done|intros ->; by vm_compute in Hr..]. }
  unfold read_number. split.
  - destruct s as [|c s]; [done|]. rewrite string_app_cons in *. rewrite bool_decide_false.
    + rewrite Hi. simpl. rewrite Hf. simpl. rewrite He. simpl. change ("" +:+ ?s) with s. by rewrite string_app_nil_r.
    + intros ->. by vm_compute in Hd.
  - rewrite string_app_cons, bool_decide_true by done. change ("" +:+ ?s) with s. rewrite Hi. simpl. rewrite Hf. simpl. rewrite He.
    simpl. change ("" +:+ ?s) with s. by rewrite string_app_nil_r.
Qed.

Lemma read_pretty (n : Z) r : number_end r = true → read_number (pretty n +:+ r) = Some (pretty n, r).
Proof.
  intros Hr. destruct n as [|p|p].
  - apply (read_decimal "0" r); [by vm_compute|done].
  - apply (read_decimal (pretty (Npos p)) r); [apply pretty_decimal|done].
  - apply (read_decimal (pretty (Npos p)) r); [apply pretty_decimal|done].
Qed.

Lemma Atoi_pretty (n : Z) : min_i64 ≤ n ≤ max_i64 → Atoi (pretty n) = Some n.
Proof.
  intros Hn. assert (∀ x : N, bool_decide (pretty x = "") = false ∧ forallb is_digit (bytes (pretty x)) = true) as Hd.
  { intros x. destruct (pretty_decimal x) as [(H1 & H2 & _) _]. split; [by apply bool_decide_eq_false|].
    revert H1. generalize (pretty x). induction s as [|c s IH]; [done|]. simpl. intros [Hc ?]%andb_true_iff. unfold decimal_char in Hc. rewrite Hc. by apply IH. }
  destruct n as [|p|p]; [done| |].
  - change (pretty (Z.pos p)) with (pretty (N.pos p)). destruct (pretty_decimal (N.pos p)) as [(H1 & H2 & _) Hv].
    destruct (Hd (N.pos p)) as [Hb Hf]. unfold Atoi. destruct (pretty (N.pos p)) as [|c s] eqn:E; [done|].
    rewrite !(bool_decide_false (c = _)) by (intros ->; by vm_compute in H1). rewrite Hb, Hf, Hv. cbn [negb orb].
    rewrite (proj2 (between_true _ _ _)) by done. done.
  - change (pretty (Z.neg p)) with (String "-" (pretty (N.pos p))). destruct (pretty_decimal (N.pos p)) as [_ Hv].
    destruct (Hd (N.pos p)) as [Hb Hf]. unfold Atoi. rewrite bool_decide_true by done. rewrite Hb, Hf, Hv. cbn [negb orb].
    rewrite (proj2 (between_true _ _ _)) by done. done.
Qed.

(** ** Reading what the encoder wrote: values *)

(** The value that the decoder sees. *)
Fixpoint tree_of (v : json) : tree :=
  match v with
  | JNull => TNull
  | JBool b => TBool b
  | JInt n => TNumber (pretty n)
  | JString s => TString s
  | JArray l => TArray (List.map tree_of l)
  | JObject l => TObject (List.map (λ '(k, w), (k, tree_of w)) l)
  end.

(** How deep arrays and objects nest. *)
Fixpoint json_depth (v : json) : Z :=
  match v with
  | JNull | JBool _ | JInt _ | JString _ => 0
  | JArray l => 1 + foldr (λ w d, Z.max (json_depth w) d) 0 l
  | JObject l => 1 + foldr (λ '(_, w) d, Z.max (json_depth w) d) 0 l
  end.

Lemma skip_space_head c s : space_char c = false → skip_space (String c s) = String c s.
Proof. intros H. unfold skip_space. simpl. by rewrite H. Qed.

(** The first character of a value. *)
Definition starts (c : ascii) : bool :=
  negb (space_char c) && negb (bool_decide (c = "]"%char)) && negb (bool_decide (c = "}"%char)).

Lemma marshal_head v : ∃ c s, marshal v = String c s ∧ starts c = true.
Proof.
  destruct v as [|[]|n|s|l|l]; try (by eexists _, _); [].
  pose proof (pretty_Z_num n) as Hn. pose proof (pretty_Z_ne n) as Hne. simpl. destruct (pretty n) as [|c s] eqn:E; [done|].
  exists c, s. split; [done|]. simpl in Hn. apply andb_true_iff in Hn as [Hc _]. clear -Hc.
  destruct c as [[] [] [] [] [] [] [] []]; vm_compute in Hc; try discriminate; by vm_compute.
Qed.

Lemma read_quoted fuel depth s rest :
  ValidString s = true → read_value (S fuel) depth (quote s +:+ rest) = Some (TString s, rest).
Proof.
  intros Hs. unfold quote. rewrite string_app_cons, <-string_app_assoc.
  change (String dquote "" +:+ rest) with (String dquote rest). cbn [read_value].
  rewrite skip_space_head by done. rewrite bool_decide_true by done. by rewrite read_quote.
Qed.

Lemma read_scalar_number (n : Z) rest : number_end rest = true → read_scalar (pretty n +:+ rest) = Some (TNumber (pretty n), rest).
Proof.
  intros Hr. pose proof (pretty_Z_num n) as Hn. pose proof (pretty_Z_ne n) as Hne.
  assert (∀ p, match p with String c _ => num_char c = false | "" => False end → after_literal p (pretty n +:+ rest) = None) as Hlit.
  { intros [|c p] Hp; [done|]. unfold after_literal, CutPrefix. destruct (HasPrefix _ _) eqn:H; [|done].
    apply HasPrefix_spec in H as [t H]. destruct (pretty n) as [|c' s]; [done|]. injection H as -> _. simpl in Hn. by rewrite Hp in Hn. }
  unfold read_scalar. rewrite !Hlit by done. by rewrite read_pretty.
Qed.

Lemma number_read fuel depth (n : Z) rest :
  number_end rest = true → read_value (S fuel) depth (pretty n +:+ rest) = Some (TNumber (pretty n), rest).
Proof.
  intros Hr. destruct (marshal_head (JInt n)) as (c & s & E & Hc). simpl in E. pose proof (pretty_Z_num n) as Hn.
  pose proof (read_scalar_number n rest Hr) as Hs. rewrite E in *. simpl in Hn. apply andb_true_iff in Hn as [Hn _].
  rewrite string_app_cons in *. cbn [read_value]. rewrite skip_space_head.
  - rewrite !bool_decide_false by (intros ->; by vm_compute in Hn). done.
  - unfold starts in Hc. by destruct (space_char c).
Qed.

Lemma read_literal fuel depth rest :
  read_value (S fuel) depth ("null" +:+ rest) = Some (TNull, rest) ∧
  read_value (S fuel) depth ("true" +:+ rest) = Some (TBool true, rest) ∧
  read_value (S fuel) depth ("false" +:+ rest) = Some (TBool false, rest).
Proof. split_and!; by destruct rest. Qed.

(** The equations of the two loops. *)
Lemma read_items_S fuel depth s :
  read_items (S fuel) depth s =
  (v ← read_value fuel depth s;
   match skip_space v.2 with
   | String c s =>
       if bool_decide (c = "]"%char) then Some ([v.1], s)
       else if bool_decide (c = ","%char) then l ← read_items fuel depth s; Some (v.1 :: l.1, l.2) else None
   | EmptyString => None
   end).
Proof. reflexivity. Qed.

(** A value is read back, whatever ends it. *)
Definition readable (v : json) : Prop := ∀ fuel depth rest,
  json_valid v = true → json_depth v ≤ depth → (2 * String.length (marshal v) + 1 ≤ fuel)%nat → number_end rest = true →
  read_value fuel depth (marshal v +:+ rest) = Some (tree_of v, rest).

Lemma Join_cons2 x y l sep : Join (x :: y :: l) sep = x +:+ sep +:+ Join (y :: l) sep.
Proof. done. Qed.

Lemma items_read l v fuel depth rest :
  Forall readable (v :: l) → forallb json_valid (v :: l) = true → foldr (λ w d, Z.max (json_depth w) d) 0 (v :: l) ≤ depth →
  (2 * String.length (Join (List.map marshal (v :: l)) ",") + 2 ≤ fuel)%nat →
  read_items fuel depth (Join (List.map marshal (v :: l)) "," +:+ String "]" rest) = Some (List.map tree_of (v :: l), rest).
Proof.
  revert v fuel. induction l as [|w l IH]; intros v [|fuel] Hr Hv Hd Hf; try lia.
  - apply Forall_cons in Hr as [Hr _]. cbn [List.map Join] in *. simpl in Hv, Hd. rewrite andb_true_r in Hv. rewrite read_items_S.
    rewrite (Hr fuel depth (String "]" rest)) by (done || lia). cbn. done.
  - apply Forall_cons in Hr as [Hrv Hr]. cbn [forallb] in Hv. apply andb_true_iff in Hv as [Hvv Hv].
    cbn [foldr] in Hd. cbn [List.map] in Hf |- *. rewrite Join_cons2 in Hf |- *. rewrite !string_length_app in Hf. simpl (String.length ",") in Hf.
    rewrite <-!string_app_assoc. rewrite read_items_S. rewrite (Hrv fuel depth) by (done || lia).
    cbn [mbind option_bind fst snd]. change ("," +:+ ?s) with (String "," s). rewrite skip_space_head by done.
    rewrite bool_decide_false, bool_decide_true by done.
    change (marshal w :: List.map marshal l) with (List.map marshal (w :: l)). rewrite (IH w fuel) by (done || (cbn [List.map foldr] in *; lia)). done.
Qed.

Lemma members_read l m fuel depth rest :
  Forall (λ m, readable m.2) (m :: l) → forallb (λ '(k, w), ValidString k && json_valid w) (m :: l) = true →
  foldr (λ '(_, w) d, Z.max (json_depth w) d) 0 (m :: l) ≤ depth →
  (2 * String.length (Join (List.map member (m :: l)) ",") + 2 ≤ fuel)%nat →
  read_members fuel depth (Join (List.map member (m :: l)) "," +:+ String "}" rest) =
    Some (List.map (λ '(k, w), (k, tree_of w)) (m :: l), rest).
Proof.
  assert (∀ k w fuel z, ValidString k = true → json_valid w = true → readable w → json_depth w ≤ depth →
    (2 * String.length (member (k, w)) ≤ fuel)%nat → number_end z = true →
    read_members (S fuel) depth (member (k, w) +:+ z) =
    match skip_space z with
    | String c s => if bool_decide (c = "}"%char) then Some ([(k, tree_of w)], s)
                    else if bool_decide (c = ","%char) then l ← read_members fuel depth s; Some ((k, tree_of w) :: l.1, l.2)
                    else None
    | EmptyString => None
    end) as Hone.
  { intros k w f z Hk Hw Hr Hd Hf Hz. unfold member, quote. rewrite !string_app_cons, <-!string_app_assoc. cbn [read_members].
    rewrite skip_space_head by done. rewrite bool_decide_true by done. change (String dquote "" +:+ ?s) with (String dquote s).
    rewrite read_quote by done. cbn [mbind option_bind snd fst]. rewrite !string_app_cons, skip_space_head by done.
    rewrite bool_decide_true by done. change ("" +:+ ?s) with s. rewrite Hr; [reflexivity|exact Hw|exact Hd| |exact Hz].
    unfold member in Hf. rewrite !string_length_app in Hf. simpl in Hf. lia. }
  revert m fuel. induction l as [|m' l IH]; intros [k w] [|fuel] Hr Hv Hd Hf; try lia.
  - apply Forall_cons in Hr as [Hr _]. cbn [forallb] in Hv. rewrite andb_true_r in Hv. apply andb_true_iff in Hv as [Hk Hw].
    cbn [List.map Join] in *. cbn [foldr] in Hd. rewrite Hone by (done || lia). done.
  - apply Forall_cons in Hr as [Hrv Hr]. cbn [forallb] in Hv. apply andb_true_iff in Hv as [[Hk Hw]%andb_true_iff Hv].
    cbn [foldr] in Hd. cbn [List.map] in Hf |- *. rewrite Join_cons2 in Hf |- *. rewrite !string_length_app in Hf. simpl (String.length ",") in Hf.
    rewrite <-!string_app_assoc. rewrite Hone by (done || lia).
    change ("," +:+ ?s) with (String "," s). rewrite skip_space_head by done. rewrite bool_decide_false, bool_decide_true by done.
    change (member m' :: List.map member l) with (List.map member (m' :: l)).
    rewrite (IH m' fuel) by (done || (cbn [List.map foldr] in *; lia)). done.
Qed.

(** What the encoder writes is read back. *)
Lemma read_marshal v : readable v.
Proof.
  induction v as [|[]|n|s|l IH|l IH] using json_nested_ind; intros [|fuel] depth rest Hv Hd Hf Hr; try lia.
  - apply read_literal.
  - apply read_literal.
  - apply read_literal.
  - by apply number_read.
  - by apply read_quoted.
  - rewrite marshal_array. cbn [read_value]. rewrite skip_space_head by done. rewrite bool_decide_false, bool_decide_true by done.
    cbn [json_depth] in Hd. assert (0 ≤ foldr (λ w d, Z.max (json_depth w) d) 0 l) as H0 by (clear; induction l; simpl; lia).
    rewrite (proj2 (Z.leb_gt depth 0)) by lia.
    destruct l as [|v l]; [done|]. destruct (marshal_head v) as (c & s & Hm & Hc).
    assert (∃ t, Join (List.map marshal (v :: l)) "," +:+ String "]" rest = String c t) as [t Ht].
    { rewrite Join_cons_app, Hm, string_app_cons. by eexists. }
    rewrite Ht. unfold starts in Hc. rewrite skip_space_head by (by destruct (space_char c)).
    rewrite bool_decide_false by (intros ->; by vm_compute in Hc). rewrite <-Ht.
    rewrite items_read; [done|done|done|cbn [foldr] in *; lia|].
    cbn [marshal] in Hf. rewrite !string_length_app in Hf. simpl (String.length "[") in Hf. simpl (String.length "]") in Hf. lia.
  - rewrite marshal_object. cbn [read_value]. rewrite skip_space_head by done. rewrite !bool_decide_false, bool_decide_true by done.
    cbn [json_depth] in Hd. assert (0 ≤ foldr (λ '(_, w) d, Z.max (json_depth w) d) 0 l) as H0 by (clear; induction l as [|[]]; simpl; lia).
    rewrite (proj2 (Z.leb_gt depth 0)) by lia.
    destruct l as [|m l]; [done|].
    assert (∃ t, Join (List.map member (m :: l)) "," +:+ String "}" rest = String dquote t) as [t Ht].
    { rewrite Join_cons_app. destruct m. unfold member at 1, quote. rewrite !string_app_cons. by eexists. }
    rewrite Ht, skip_space_head by done. rewrite bool_decide_false by done. rewrite <-Ht.
    rewrite members_read; [done|done|done|cbn [foldr] in *; destruct m; lia|].
    change (marshal (JObject (m :: l))) with ("{" +:+ Join (List.map member (m :: l)) "," +:+ "}") in Hf.
    rewrite !string_length_app in Hf. simpl (String.length "{") in Hf. simpl (String.length "}") in Hf. lia.
Qed.

(** A text that is one encoded value and space. *)
Lemma read_text_marshal v space :
  json_valid v = true → json_depth v ≤ max_depth → skip_space space = "" → number_end space = true →
  read_text (marshal v +:+ space) = Some (tree_of v).
Proof.
  intros Hv Hd Hs Hr. unfold read_text. rewrite read_marshal; [|done..| |done].
  - simpl. by rewrite Hs.
  - rewrite string_length_app. lia.
Qed.

(** ** Filling values *)

(** What a value becomes; the value that is there before is an argument. *)
Definition decoder (A : Type) : Type := tree → A → option A.

Definition decode_string : decoder string := λ t old,
  match t with TNull => Some old | TString s => Some s | _ => None end.

Definition decode_bool : decoder bool := λ t old,
  match t with TNull => Some old | TBool b => Some b | _ => None end.

(** An [int]: no fraction, no exponent, 64 bits. *)
Definition decode_int : decoder Z := λ t old,
  match t with TNull => Some old | TNumber literal => Atoi literal | _ => None end.

(** A pointer: null makes it nil; a value behind a pointer that is not nil is filled. *)
Definition decode_ptr {A} (zero : A) (d : decoder A) : decoder (option A) := λ t old,
  match t with TNull => Some None | _ => Some <$> d t (default zero old) end.

(** A slice while it is decoded: its elements, and those that are in its array behind them
    from a longer slice before.  An element is decoded into what is there. *)
Record json_slice (A : Type) := mkSlice { sl_items : option (list A); sl_stale : list A }.
Arguments mkSlice {_} _ _.
Arguments sl_items {_} _.
Arguments sl_stale {_} _.

Definition decode_items {A} (zero : A) (d : decoder A) : list tree → list A → option (list A * list A) :=
  fix go l old :=
    match l with
    | [] => Some ([], old)
    | t :: l =>
        x ← d t (default zero (head old));
        r ← go l (tail old);
        Some (x :: r.1, r.2)
    end.

Definition decode_slice {A} (zero : A) (d : decoder A) : decoder (json_slice A) := λ t old,
  match t with
  | TNull => Some (mkSlice None [])
  | TArray [] => Some (mkSlice (Some []) [])
  | TArray l => r ← decode_items zero d l (default [] (sl_items old) ++ sl_stale old); Some (mkSlice (Some r.1) r.2)
  | _ => None
  end.

(** ** Structs *)

(** A field: its name and how its value is filled in the struct. *)
Definition at_field {R A} (f : R → A) `{!Setter f} (d : decoder A) : decoder R := λ t r,
  a ← d t (f r); Some (set_field f a r).

(** [foldName]: runes that differ in case only have one folded form.  Besides the letters, two
    runes fold to an ASCII letter, U+017F and U+212A; the names of fields are ASCII, so
    that the form of every other rune does not matter. *)
Definition fold_key_rune (r : Z) : Z :=
  if between 97 r 122 then r - 32 else if r =? 0x17F then 83 else if r =? 0x212A then 75 else r.

Definition fold_name (s : string) : list Z := fold_key_rune <$> runes s.

(** The field of a key: the one of that name, or else the first that folds to the same. *)
Definition find_field {R} (fields : list (string * decoder R)) (key : string) : option (decoder R) :=
  match filter (λ f, f.1 = key) fields with
  | f :: _ => Some f.2
  | [] => snd <$> head (filter (λ f, fold_name f.1 = fold_name key) fields)
  end.

Definition decode_members {R} (fields : list (string * decoder R)) : list (string * tree) → R → option R :=
  fix go members r :=
    match members with
    | [] => Some r
    | (key, t) :: members => d ← find_field fields key; r ← d t r; go members r
    end.

Definition decode_struct {R} (fields : list (string * decoder R)) : decoder R := λ t r,
  match t with TNull => Some r | TObject members => decode_members fields members r | _ => None end.

(** A strict decoder with one bounded text: every error is one. *)
Definition decode_text {R} (fields : list (string * decoder R)) (zero : R) (text : string) : option R :=
  t ← read_text text; decode_struct fields t zero.

(** ** Round trips *)

(** What the encoder writes for [a] is filled in as [a]. *)
Class Codec {A} (to : A → json) (from : decoder A) (zero : A) (ok : A → Prop) :=
  codec a : ok a → from (tree_of (to a)) zero = Some a.

#[export] Instance codec_string : Codec JString decode_string "" (λ _, True).
Proof. done. Qed.

#[export] Instance codec_int : Codec JInt decode_int 0 (λ n, min_i64 ≤ n ≤ max_i64).
Proof. intros n Hn. by apply Atoi_pretty. Qed.

Lemma decode_items_codec {A} (to : A → json) from zero ok `{!Codec to from zero ok} l :
  Forall ok l → decode_items zero from (List.map tree_of (List.map to l)) [] = Some (l, []).
Proof.
  induction 1 as [|a l Ha _ IH]; [done|]. cbn [List.map decode_items head tail default]. rewrite (codec a Ha).
  cbn [mbind option_bind]. rewrite IH. done.
Qed.

(** A slice in a struct that starts at its zero value. *)
Lemma decode_slice_codec {A} (to : A → json) from zero ok `{!Codec to from zero ok} l :
  Forall ok l → decode_slice zero from (tree_of (JArray (List.map to l))) (mkSlice None []) = Some (mkSlice (Some l) []).
Proof.
  intros Hl. destruct l as [|a l]; [done|]. pose proof (decode_items_codec to from zero ok (a :: l) Hl) as H.
  cbn [tree_of List.map decode_slice] in *. cbn [sl_items sl_stale default app]. by rewrite H.
Qed.

(** ** What is read is valid UTF-8 *)

Lemma string_take_app_le k s t : (k ≤ String.length s)%nat → string_take k (s +:+ t) = string_take k s.
Proof. revert s. induction k as [|k IH]; intros s Hk; [reflexivity|]. destruct s as [|a s]; simpl in *; [lia|]. by rewrite IH by lia. Qed.

Lemma string_drop_app_le k s t : (k ≤ String.length s)%nat → string_drop k (s +:+ t) = string_drop k s +:+ t.
Proof. revert s. induction k as [|k IH]; intros s Hk; [reflexivity|]. destruct s as [|a s]; simpl in *; [lia|]. by rewrite IH by lia. Qed.

(** After valid text the encodings start anew. *)
Lemma segments_app s t :
  Forall (λ seg, bad_segment seg = false) (segments s) → segments (s +:+ t) = segments s ++ segments t.
Proof.
  apply (segments_ind (λ s l, Forall (λ seg, bad_segment seg = false) l → segments (s +:+ t) = l ++ segments t)); [done|].
  intros a s' r k Hd IH [Hb Hl]%Forall_cons. pose proof (decode_rune_fits (byteZ a) (bytes s')) as Hfit.
  rewrite Hd, length_bytes in Hfit. simpl in Hfit.
  rewrite string_app_cons, segments_cons, bytes_app.
  assert (decode_rune (byteZ a) (bytes s' ++ bytes t) = (r, S k)) as ->.
  { rewrite <-(take_drop k (bytes s')), <-app_assoc. apply decode_rune_local; [done|]. unfold bad_segment in Hb. simpl in Hb.
    rewrite length_string_take in Hb by lia. apply not_true_is_false. intros [H1 H2]%andb_true_iff.
    apply bool_decide_eq_true in H1, H2. by subst. }
  cbn [string_take string_drop app]. rewrite string_take_app_le, string_drop_app_le by lia. f_equal. by apply IH.
Qed.

Lemma ValidString_app s t : ValidString s = true → ValidString t = true → ValidString (s +:+ t) = true.
Proof. rewrite !ValidString_segments. intros Hs Ht. rewrite segments_app by done. by apply Forall_app. Qed.

Lemma ValidString_encoding a t r :
  (byteZ a <? 0x80) = false → decode_rune (byteZ a) (bytes t) = (r, S (String.length t)) → (0 < String.length t)%nat → ValidString (String a t) = true.
Proof.
  intros Ha Hd Hl. apply ValidString_segments. rewrite segments_cons, Hd. cbn [string_take string_drop].
  assert (string_drop (String.length t) t = "") as Hdrop by (clear; induction t; simpl; auto).
  rewrite Hdrop. constructor; [|constructor]. unfold bad_segment. cbn [fst snd String.length]. rewrite length_string_take by lia.
  destruct (String.length t); [lia|]. by rewrite andb_false_r.
Qed.

Lemma byteZ_of b : 0 ≤ b < 256 → byteZ (ascii_of_N (Z.to_N b)) = b.
Proof. intros H. unfold byteZ. rewrite N_ascii_embedding by lia. lia. Qed.

(** The first byte of an encoding and the second byte it admits. *)
Lemma first_info_admits b b1 n :
  0x80 ≤ b1 ≤ 0xBF →
  (n = 2%nat ∧ 0xC2 ≤ b ≤ 0xDF) ∨
  (n = 3%nat ∧ 0xE0 ≤ b ≤ 0xEF ∧ (b = 0xE0 → 0xA0 ≤ b1) ∧ (b = 0xED → b1 ≤ 0x9F)) ∨
  (n = 4%nat ∧ 0xF0 ≤ b ≤ 0xF4 ∧ (b = 0xF0 → 0x90 ≤ b1) ∧ (b = 0xF4 → b1 ≤ 0x8F)) →
  ∃ lo hi, first_info b = Some (n, lo, hi) ∧ between lo b1 hi = true.
Proof.
  intros Hb1 Hb. unfold first_info.
  repeat (case_match; [bools; eexists _, _; split; [repeat f_equal; lia|apply between_true; lia]|]). bools. lia.
Qed.

Lemma encode_rune_valid r : ValidString (encode_rune r) = true.
Proof.
  unfold encode_rune. destruct (between 0 r 0x7F) eqn:H1.
  { bools. apply ValidString_ascii. unfold is_ascii. cbn [of_bytes foldr bytes forallb]. rewrite byteZ_of by lia.
    rewrite (proj2 (Z.ltb_lt _ _)) by lia. done. }
  destruct (between 0 r 0x7FF) eqn:H2; [|destruct (negb _ || _) eqn:H3; [done|destruct (r <=? 0xFFFF) eqn:H4]]; bools;
    unfold surrogate in *; bools; cbn [of_bytes foldr].
  - assert (0xC2 ≤ 0xC0 + r / 64 ≤ 0xDF ∧ 0x80 ≤ 0x80 + r mod 64 ≤ 0xBF) as [Ha Hb] by (Z.to_euclidean_division_equations; lia).
    destruct (first_info_admits (0xC0 + r / 64) (0x80 + r mod 64) 2) as (lo & hi & Hf & Hin); [lia|by left|].
    eapply ValidString_encoding; [rewrite byteZ_of; lia| |simpl; lia]. cbn [bytes]. rewrite !byteZ_of by lia.
    unfold decode_rune. rewrite (proj2 (Z.ltb_ge _ _)) by lia. rewrite Hf, Hin. reflexivity.
  - assert (0xE0 ≤ 0xE0 + r / 4096 ≤ 0xEF ∧ 0x80 ≤ 0x80 + r / 64 mod 64 ≤ 0xBF ∧ 0x80 ≤ 0x80 + r mod 64 ≤ 0xBF ∧
      (r / 4096 = 0 → 0x20 ≤ r / 64 mod 64) ∧ (r / 4096 = 13 → r / 64 mod 64 ≤ 0x1F)) as (Ha & Hb & Hc & Q5 & Q6)
      by (Z.to_euclidean_division_equations; lia).
    destruct (first_info_admits (0xE0 + r / 4096) (0x80 + r / 64 mod 64) 3) as (lo & hi & Hf & Hin); [lia|right; left; lia|].
    eapply ValidString_encoding; [rewrite byteZ_of; lia| |simpl; lia]. cbn [bytes]. rewrite !byteZ_of by lia.
    unfold decode_rune. rewrite (proj2 (Z.ltb_ge _ _)) by lia. rewrite Hf, Hin. unfold is_cont. rewrite (proj2 (between_true _ _ _)) by lia. reflexivity.
  - assert (0xF0 ≤ 0xF0 + r / 262144 ≤ 0xF4 ∧ 0x80 ≤ 0x80 + r / 4096 mod 64 ≤ 0xBF ∧ 0x80 ≤ 0x80 + r / 64 mod 64 ≤ 0xBF ∧ 0x80 ≤ 0x80 + r mod 64 ≤ 0xBF ∧
      (r / 262144 = 0 → 0x10 ≤ r / 4096 mod 64) ∧ (r / 262144 = 4 → r / 4096 mod 64 ≤ 0xF)) as (Ha & Hb & Hc & Hd & Q5 & Q6)
      by (Z.to_euclidean_division_equations; lia).
    destruct (first_info_admits (0xF0 + r / 262144) (0x80 + r / 4096 mod 64) 4) as (lo & hi & Hf & Hin); [lia|right; right; lia|].
    eapply ValidString_encoding; [rewrite byteZ_of; lia| |simpl; lia]. cbn [bytes]. rewrite !byteZ_of by lia.
    unfold decode_rune. rewrite (proj2 (Z.ltb_ge _ _)) by lia. rewrite Hf, Hin. unfold is_cont. rewrite !(proj2 (between_true _ _ _)) by lia. reflexivity.
Qed.

Lemma prepend_Some p o v : prepend p o = Some v → ∃ s, o = Some (s, v.2) ∧ v.1 = p +:+ s.
Proof. destruct o as [[s rest]|]; [|done]. intros [= <-]. by exists s. Qed.

Lemma short_escape_valid e c : short_escape e = Some c → ValidString (String c "") = true.
Proof.
  unfold short_escape. case_match eqn:H1.
  - intros [= ->]. bools. destruct H1 as [[-> | ->]| ->]; vm_compute; reflexivity.
  - clear H1. case_bool_decide as H2; [|done]. intros [= <-].
    repeat (apply elem_of_cons in H2 as [-> |H2]; [vm_compute; reflexivity|]). by apply elem_of_nil in H2.
Qed.

Lemma repair_segment_valid a t r k :
  decode_rune (byteZ a) (bytes t) = (r, S k) → ValidString (repair_segment (r, String a (string_take k t))) = true.
Proof.
  intros Hd. unfold repair_segment. destruct (bad_segment _) eqn:Hb; [done|]. cbn [snd].
  pose proof (decode_rune_fits (byteZ a) (bytes t)) as Hfit. rewrite Hd, length_bytes in Hfit. simpl in Hfit.
  apply ValidString_segments. rewrite segments_cons.
  assert (decode_rune (byteZ a) (bytes (string_take k t)) = (r, S k)) as ->.
  { rewrite bytes_string_take. rewrite <-(app_nil_r (take k (bytes t))). apply decode_rune_local; [done|].
    unfold bad_segment in Hb. simpl in Hb. rewrite length_string_take in Hb by lia. apply not_true_is_false.
    intros [H1 H2]%andb_true_iff. apply bool_decide_eq_true in H1, H2. by subst. }
  cbn [string_take string_drop]. assert (string_take k (string_take k t) = string_take k t ∧ string_drop k (string_take k t) = "") as [-> ->].
  { clear. revert t. induction k as [|k IH]; intros [|b t]; simpl; try done. destruct (IH t) as [-> ->]. done. }
  by constructor.
Qed.

Lemma read_string_valid fuel s v : read_string fuel s = Some v → ValidString v.1 = true.
Proof.
  revert s v. induction fuel as [|fuel IH]; intros [|c s] v; [done..|]. cbn [read_string].
  assert (∀ p s', ValidString p = true → prepend p (read_string fuel s') = Some v → ValidString v.1 = true) as Hp.
  { intros p s' Hp (t & Hr & ->)%prepend_Some. apply ValidString_app; [done|]. by apply (IH s' (t, v.2)). }
  case_bool_decide; [by intros [= <-]|]. case_bool_decide.
  - destruct (read_u4 (String c s)) as [[r s2]|].
    + destruct (read_u4 s2) as [[r' s3]|]; [|by apply Hp, encode_rune_valid].
      destruct (surrogate_pair r r'); by apply Hp, encode_rune_valid.
    + destruct s as [|e s]; [done|]. destruct (short_escape e) as [c'|] eqn:He; [|done]. cbn [mbind option_bind].
      apply Hp. by eapply short_escape_valid.
  - case_match; [done|]. pose proof (decode_rune_size (byteZ c) (bytes (string_take 3 s))) as Hk.
    destruct (decode_rune (byteZ c) (bytes (string_take 3 s))) as [r [|k]] eqn:Hd; cbn [snd] in Hk; [lia|].
    apply Hp. pose proof (repair_segment_valid c (string_take 3 s) r k Hd) as Hv.
    pose proof (decode_rune_short (byteZ c) (bytes (string_take 3 s))) as Hs. rewrite Hd in Hs. cbn [snd] in Hs.
    assert (string_take k (string_take 3 s) = string_take k s) as Ht; [|by rewrite Ht in Hv].
    destruct k as [|[|[|[|k]]]]; [| | | |lia]; destruct s as [|? [|? [|? s]]]; done.
Qed.

(** Every string of the tree, keys included, is valid UTF-8. *)
Fixpoint tree_valid (t : tree) : bool :=
  match t with
  | TNull | TBool _ | TNumber _ => true
  | TString s => ValidString s
  | TArray l => forallb tree_valid l
  | TObject l => forallb (λ '(k, w), ValidString k && tree_valid w) l
  end.

Lemma read_scalar_valid s v : read_scalar s = Some v → tree_valid v.1 = true.
Proof. unfold read_scalar. repeat case_match; try (by intros [= <-]). destruct (read_number s); [|done]. by intros [= <-]. Qed.

Lemma read_value_valid fuel :
  (∀ depth s v, read_value fuel depth s = Some v → tree_valid v.1 = true) ∧
  (∀ depth s v, read_items fuel depth s = Some v → forallb tree_valid v.1 = true) ∧
  (∀ depth s v, read_members fuel depth s = Some v → forallb (λ '(k, w), ValidString k && tree_valid w) v.1 = true).
Proof.
  induction fuel as [|fuel (IHv & IHi & IHm)]; [done|]. split_and!; intros depth s v.
  - cbn [read_value]. destruct (skip_space s) as [|c s1]; [done|]. case_bool_decide.
    { destruct (read_string _ s1) as [w|] eqn:Hs; [|done]. intros [= <-]. by apply read_string_valid in Hs. }
    case_bool_decide; [|case_bool_decide; [|by apply read_scalar_valid]]; (case_match; [done|]);
      (destruct (skip_space s1) as [|c' s2]; [done|]); (case_bool_decide; [by intros [= <-]|]).
    + destruct (read_items _ _ _) as [w|] eqn:Hs; [|done]. intros [= <-]. by apply IHi in Hs.
    + destruct (read_members _ _ _) as [w|] eqn:Hs; [|done]. intros [= <-]. by apply IHm in Hs.
  - rewrite read_items_S. destruct (read_value _ _ _) as [w|] eqn:Hw; [|done]. cbn [mbind option_bind]. apply IHv in Hw.
    destruct (skip_space w.2) as [|c s1]; [done|]. case_bool_decide; [intros [= <-]; simpl; by rewrite Hw|].
    case_bool_decide; [|done]. destruct (read_items _ _ s1) as [l|] eqn:Hl; [|done]. intros [= <-]. simpl. rewrite Hw. by apply IHi in Hl.
  - cbn [read_members]. destruct (skip_space s) as [|q s1]; [done|]. case_bool_decide; [|done].
    destruct (read_string _ s1) as [key|] eqn:Hk; [|done]. cbn [mbind option_bind]. apply read_string_valid in Hk.
    destruct (skip_space key.2) as [|c s2]; [done|]. case_bool_decide; [|done].
    destruct (read_value _ _ s2) as [w|] eqn:Hw; [|done]. cbn [mbind option_bind]. apply IHv in Hw.
    destruct (skip_space w.2) as [|c' s3]; [done|]. case_bool_decide; [intros [= <-]; simpl; by rewrite Hk, Hw|].
    case_bool_decide; [|done]. destruct (read_members _ _ s3) as [l|] eqn:Hl; [|done]. intros [= <-]. simpl. rewrite Hk, Hw. by apply IHm in Hl.
Qed.

Lemma read_text_valid s t : read_text s = Some t → tree_valid t = true.
Proof.
  unfold read_text. destruct (read_value _ _ _) as [v|] eqn:Hv; [|done]. cbn [mbind option_bind]. case_bool_decide; [|done].
  intros [= <-]. by apply read_value_valid in Hv.
Qed.

(** A property of structs that every field keeps is kept by the decoder. *)
Definition keeps_field {R} (P : R → Prop) (d : decoder R) : Prop :=
  ∀ t r r', tree_valid t = true → P r → d t r = Some r' → P r'.

Lemma decode_struct_keeps {R} (P : R → Prop) (fields : list (string * decoder R)) :
  Forall (λ f, keeps_field P f.2) fields → keeps_field P (decode_struct fields).
Proof.
  intros Hf t r r' Ht Hr. destruct t as [| | | | |members]; try done; [by intros [= <-]|]. cbn [decode_struct tree_valid] in *.
  assert (∀ key d, find_field fields key = Some d → keeps_field P d) as Hfind.
  { rewrite Forall_forall in Hf. intros key d. unfold find_field. destruct (filter _ fields) as [|f l] eqn:E.
    - destruct (filter (λ f, fold_name _ = _) fields) as [|f l] eqn:E'; [done|]. intros [= <-]. apply Hf.
      assert (f ∈ filter (λ f, fold_name f.1 = fold_name key) fields) as Hin by (rewrite E'; left). by apply list_elem_of_filter in Hin as [_ ?].
    - intros [= <-]. apply Hf. assert (f ∈ filter (λ f, f.1 = key) fields) as Hin by (rewrite E; left). by apply list_elem_of_filter in Hin as [_ ?]. }
  revert r Hr. induction members as [|[key t] members IH]; intros r Hr; [by intros [= <-]|].
  cbn [forallb] in Ht. apply andb_true_iff in Ht as [[_ Ht]%andb_true_iff Hm]. cbn [decode_members].
  destruct (find_field fields key) as [d|] eqn:Hd; [|done]. cbn [mbind option_bind].
  destruct (d t r) as [r1|] eqn:H1; [|done]. cbn [mbind option_bind]. apply IH; [done|]. by eapply Hfind.
Qed.

Lemma decode_string_valid t old s : tree_valid t = true → ValidString old = true → decode_string t old = Some s → ValidString s = true.
Proof. destruct t; try done; cbn [decode_string tree_valid]; by intros ? ? [= <-]. Qed.
