(* ===== verification/JournalV2.v ===== *)
(** * The frozen release journal

    internal/releasetransition/journal/v2: the durable record of one release
    transition (record.go) and its encoder (codec.go).  A journal carries the
    migration steps that were authorized, how far each of them got, and a digest
    that binds the steps to the authorization.

    Go distinguishes a nil [Steps] slice from an empty one, because the encoder
    writes [null] for the first; the field is therefore an option. *)

From S2P Require Import Prelude GoStrings GoPath Sha256 Names GoJson.

(** The error returns of the package, all of which wrap [ErrInvalid].  Where the
    code ranges over a Go map the iteration order is unspecified: the model says
    that a field of the map is invalid, not which one is met first. *)
Inductive journal_error :=
| FieldInvalid (field : string)
| SomeFieldInvalid
| UnsupportedSchema (schema : Z)
| UnknownValue (what value : string)
| DuplicateStep (id : string)
| InvalidRecord (what : string).

(** ** Data *)

(** internal/releasetransition/journal/v2/record.go:18-23 [SchemaVersion, ArchiveSchemaVersion, MaxSteps] *)
Definition SchemaVersion : Z := 2.
Definition ArchiveSchemaVersion : Z := 1.
Definition MaxSteps : nat := 256.

(** internal/releasetransition/journal/v2/record.go:30-33 [Goal] *)
Record V2Goal := mkV2Goal { v2g_Target : string; v2g_Direction : string }.

(** internal/releasetransition/journal/v2/record.go:35-39 [ReleasePair] *)
Record V2ReleasePair := mkV2ReleasePair {
  v2p_From : string; v2p_Previous : option string; v2p_Target : string }.

(** internal/releasetransition/journal/v2/record.go:41-49 [SourceIngress] *)
Record V2SourceIngress := mkV2SourceIngress {
  v2i_SchemaVersion : Z; v2i_Kind : string; v2i_SourceRoot : string; v2i_DataHome : string;
  v2i_BinDir : string; v2i_RC : string; v2i_LoginRC : string }.

(** internal/releasetransition/journal/v2/record.go:80-90 [Evidence] *)
Record V2Evidence := mkV2Evidence {
  v2e_SchemaVersion : Z; v2e_Transaction : string; v2e_Releases : V2ReleasePair;
  v2e_Step : string; v2e_Expected : string; v2e_Desired : string; v2e_Observed : string;
  v2e_Recovery : string; v2e_Checkpoint : string }.

(** internal/releasetransition/journal/v2/record.go:69-78 [Step] *)
Record V2Step := mkV2Step {
  v2s_ID : string; v2s_Migration : string; v2s_Resource : string; v2s_Decision : string;
  v2s_Expected : string; v2s_Desired : string; v2s_Checkpoint : string;
  v2s_Evidence : option V2Evidence }.

(** internal/releasetransition/journal/v2/record.go:51-67 [Record] *)
Record V2Record := mkV2Record {
  v2_SchemaVersion : Z; v2_Transaction : string; v2_Goal : V2Goal; v2_Releases : V2ReleasePair;
  v2_AuthorizationPlan : string; v2_ResumePlan : string; v2_ArtifactDigest : string;
  v2_RegistryDigest : string; v2_CatalogDigest : string; v2_ObservationScope : string;
  v2_AuthorizationDigest : string; v2_IntentDigest : string;
  v2_SourceIngress : option V2SourceIngress; v2_Checkpoint : string;
  v2_Steps : option (list V2Step) }.

(** internal/releasetransition/journal/v2/record.go:101-106 [Replacement] *)
Record V2Replacement := mkV2Replacement {
  v2r_Transaction : string; v2r_Fingerprint : string; v2r_Reason : string;
  v2r_SourceVersion : string }.

(** internal/releasetransition/journal/v2/record.go:92-99 [Archive] *)
Record V2Archive := mkV2Archive {
  v2a_SchemaVersion : Z; v2a_AuthorizationPlan : string; v2a_Replacement : V2Replacement;
  v2a_Journal : V2Record }.

#[export] Instance V2ReleasePair_eq_dec : EqDecision V2ReleasePair.
Proof. solve_decision. Defined.
#[export] Instance V2Evidence_eq_dec : EqDecision V2Evidence.
Proof. solve_decision. Defined.
#[export] Instance V2Step_eq_dec : EqDecision V2Step.
Proof. solve_decision. Defined.
#[export] Instance V2Goal_eq_dec : EqDecision V2Goal.
Proof. solve_decision. Defined.
#[export] Instance V2SourceIngress_eq_dec : EqDecision V2SourceIngress.
Proof. solve_decision. Defined.
#[export] Instance V2Record_eq_dec : EqDecision V2Record.
Proof. solve_decision. Defined.

(** The steps that [range record.Steps] and [len(record.Steps)] see. *)
Definition v2_steps (record : V2Record) : list V2Step := default [] (v2_Steps record).

(** ** Values *)

Definition hex_rune (char : Z) : bool := between 48 char 57 || between 97 char 102.

(** internal/releasetransition/journal/v2/record.go:448-458 [validFingerprint] *)
Definition v2_validFingerprint (value : string) : bool :=
  (len value =? 64) && forallb hex_rune (runes value).

(** internal/releasetransition/journal/v2/record.go:460-471 [validateSafeID] *)
Definition v2_validateSafeID (value field : string) : result journal_error unit :=
  refuse ((len value =? 0) || (128 <? len value) || bool_decide (value = ".") ||
          bool_decide (value = "..") || HasPrefix value "-") (FieldInvalid field);;
  for_each (λ char, refuse (negb (safe_id_rune char)) (FieldInvalid field)) (runes value).

(** internal/releasetransition/journal/v2/record.go:411-413 [validToken] *)
Definition v2_validToken (value prefix : string) : bool :=
  HasPrefix value prefix && v2_validFingerprint (TrimPrefix value prefix).

(** internal/releasetransition/journal/v2/record.go:384-391 [validJournalCheckpoint] *)
Definition v2_validJournalCheckpoint (value : string) : bool :=
  bool_decide (value ∈ ["authorized"; "migrating"; "activation-intent"; "target-active";
                        "reconciling"; "complete"]).

(** internal/releasetransition/journal/v2/record.go:393-395 [validStepCheckpoint] *)
Definition v2_validStepCheckpoint (value : string) : bool :=
  bool_decide (value ∈ ["intent"; "evidence"; "applied"; "verified"]).

(** internal/releasetransition/journal/v2/record.go:397-399 [journalAfterMigrations] *)
Definition v2_journalAfterMigrations (value : string) : bool :=
  bool_decide (value ∈ ["activation-intent"; "target-active"; "reconciling"; "complete"]).

(** internal/releasetransition/journal/v2/record.go:401-409 [releasePairsEqual] *)
Definition v2_releasePairsEqual (left right : V2ReleasePair) : bool :=
  if bool_decide (v2p_From left ≠ v2p_From right) || bool_decide (v2p_Target left ≠ v2p_Target right)
  then false
  else match v2p_Previous left, v2p_Previous right with
       | Some l, Some r => bool_decide (l = r)
       | None, None => true
       | _, _ => false
       end.

(** [strconv.ParseUint(s, 10, 64)] on a text: digits whose value fits. *)
Definition parses_uint64 (s : string) : bool :=
  negb (bool_decide (s = "")) && forallb is_digit (bytes s) && (decimal_value s <=? max_u64).

Definition leading_zero (s : string) : bool := (1 <? len s) && HasPrefix s "0".

(** The group [0|[1-9][0-9]*] of the version expression. *)
Definition numeric_core (s : string) : bool :=
  negb (bool_decide (s = "")) && forallb is_digit (bytes s) && negb (leading_zero s).

(** The repeated group of dotted identifiers. *)
Definition semver_ids (s : string) : bool :=
  forallb (λ id, negb (bool_decide (id = "")) &&
                 forallb (λ c, is_digit c || is_upper c || is_lower c || (c =? 45)) (bytes id))
    (Split s ".").

(** internal/releasetransition/journal/v2/record.go:25-28 [semverRE]: the groups
    of a match.  The core holds neither "-" nor "+", and the pre-release class no
    "+", so that the first "+" starts the build and the first "-" before it the
    pre-release. *)
Definition semverRE (value : string) : option (list string * string) :=
  let '(version, build_ok) :=
    match Cut value "+" with Some (v, b) => (v, semver_ids b) | None => (value, true) end in
  let '(core, pre, pre_ok) :=
    match Cut version "-" with Some (c, p) => (c, p, semver_ids p) | None => (version, "", true) end in
  match Split core "." with
  | [major; minor; patch] =>
      if build_ok && pre_ok && numeric_core major && numeric_core minor && numeric_core patch
      then Some ([major; minor; patch], pre) else None
  | _ => None
  end.

(** internal/releasetransition/journal/v2/record.go:415-441 [validCanonicalSemver] *)
Definition validCanonicalSemver (value : string) : bool :=
  match semverRE value with
  | None => false
  | Some (components, pre) =>
      forallb parses_uint64 components &&
      (bool_decide (pre = "") ||
       forallb (λ identifier,
         if forallb is_digit (runes identifier)
         then negb ((1 <? len identifier) && HasPrefix identifier "0") && parses_uint64 identifier
         else true) (Split pre "."))
  end.

Example semver_examples :
  validCanonicalSemver <$> ["0.11.1"; "1.2.3-rc.1+x-y.7"; "01.2.3"; "1.2"; "1.2.3-01"; "1.2.3-"; "1.2.3+a+b";
                            "18446744073709551616.0.0"; "1.2.3-0a"; "1.2.3+-"] =
  [true; true; false; false; false; false; false; false; true; true].
Proof. by vm_compute. Qed.

(** internal/releasetransition/journal/v2/record.go:443-446 [fingerprint] *)
Definition v2_fingerprint (payload : string) : string := EncodeToString (Sum256 payload).

(** ** JSON *)

Definition V2Goal_json (g : V2Goal) : json :=
  JObject (field "target" (JString (v2g_Target g)) ++ field "direction" (JString (v2g_Direction g))).

Definition V2ReleasePair_json (p : V2ReleasePair) : json :=
  JObject (field "from" (JString (v2p_From p)) ++ field_opt "previous" JString (v2p_Previous p) ++
           field "target" (JString (v2p_Target p))).

Definition V2SourceIngress_json (i : V2SourceIngress) : json :=
  JObject (field "schemaVersion" (JInt (v2i_SchemaVersion i)) ++ field "kind" (JString (v2i_Kind i)) ++
           field "sourceRoot" (JString (v2i_SourceRoot i)) ++ field "dataHome" (JString (v2i_DataHome i)) ++
           field "binDir" (JString (v2i_BinDir i)) ++ field "rc" (JString (v2i_RC i)) ++
           field "loginRC" (JString (v2i_LoginRC i))).

Definition V2Evidence_json (e : V2Evidence) : json :=
  JObject (field "schemaVersion" (JInt (v2e_SchemaVersion e)) ++
           field "transaction" (JString (v2e_Transaction e)) ++
           field "releases" (V2ReleasePair_json (v2e_Releases e)) ++
           field "step" (JString (v2e_Step e)) ++
           field "expectedFingerprint" (JString (v2e_Expected e)) ++
           field "desiredFingerprint" (JString (v2e_Desired e)) ++
           field "observedFingerprint" (JString (v2e_Observed e)) ++
           field_omitempty "recoveryFingerprint" (v2e_Recovery e) ++
           field "checkpoint" (JString (v2e_Checkpoint e))).

Definition V2Step_json (s : V2Step) : json :=
  JObject (field "id" (JString (v2s_ID s)) ++ field "migration" (JString (v2s_Migration s)) ++
           field "resource" (JString (v2s_Resource s)) ++ field "decision" (JString (v2s_Decision s)) ++
           field "expectedFingerprint" (JString (v2s_Expected s)) ++
           field "desiredFingerprint" (JString (v2s_Desired s)) ++
           field "checkpoint" (JString (v2s_Checkpoint s)) ++
           field_opt "evidence" V2Evidence_json (v2s_Evidence s)).

Definition V2Record_json (r : V2Record) : json :=
  JObject (field "schemaVersion" (JInt (v2_SchemaVersion r)) ++
           field "transaction" (JString (v2_Transaction r)) ++
           field "goal" (V2Goal_json (v2_Goal r)) ++
           field "releases" (V2ReleasePair_json (v2_Releases r)) ++
           field "authorizationPlan" (JString (v2_AuthorizationPlan r)) ++
           field "resumePlan" (JString (v2_ResumePlan r)) ++
           field "artifactDigest" (JString (v2_ArtifactDigest r)) ++
           field "registryDigest" (JString (v2_RegistryDigest r)) ++
           field "catalogDigest" (JString (v2_CatalogDigest r)) ++
           field "observationScope" (JString (v2_ObservationScope r)) ++
           field "authorizationDigest" (JString (v2_AuthorizationDigest r)) ++
           field "intentDigest" (JString (v2_IntentDigest r)) ++
           field_opt "sourceIngress" V2SourceIngress_json (v2_SourceIngress r) ++
           field "checkpoint" (JString (v2_Checkpoint r)) ++
           field "steps" (match v2_Steps r with
                          | Some steps => JArray (List.map V2Step_json steps)
                          | None => JNull
                          end)).

Definition V2Archive_json (a : V2Archive) : json :=
  let r := v2a_Replacement a in
  JObject (field "schemaVersion" (JInt (v2a_SchemaVersion a)) ++
           field "authorizationPlan" (JString (v2a_AuthorizationPlan a)) ++
           field "replacement" (JObject
             (field "transaction" (JString (v2r_Transaction r)) ++
              field "fingerprint" (JString (v2r_Fingerprint r)) ++
              field "reason" (JString (v2r_Reason r)) ++
              field_omitempty "sourceVersion" (v2r_SourceVersion r))) ++
           field "journal" (V2Record_json (v2a_Journal a))).

(** ** Validation *)

(** internal/releasetransition/journal/v2/record.go:213-221 [Goal.validate] *)
Definition V2Goal_validate (goal : V2Goal) : result journal_error unit :=
  v2_validateSafeID (v2g_Target goal) "target release";;
  refuse (bool_decide (v2g_Direction goal ≠ "activate-target") &&
          bool_decide (v2g_Direction goal ≠ "activate-previous"))
    (UnknownValue "direction" (v2g_Direction goal)).

(** internal/releasetransition/journal/v2/record.go:223-239 [ReleasePair.validate] *)
Definition V2ReleasePair_validate (pair : V2ReleasePair) : result journal_error unit :=
  v2_validateSafeID (v2p_From pair) "source release";;
  v2_validateSafeID (v2p_Target pair) "target release";;
  match v2p_Previous pair with
  | Some previous =>
      v2_validateSafeID previous "previous release";;
      refuse (bool_decide (previous = v2p_From pair))
        (InvalidRecord "previous release equals source release")
  | None => Ok tt
  end.

Definition v2_path_bad (value : string) : bool :=
  (len value =? 0) || (4096 <? len value) || negb (IsAbs value) || bool_decide (value = "/") ||
  bool_decide (Clean value ≠ value) || ContainsFunc value IsControl.

(** internal/releasetransition/journal/v2/record.go:241-259 [SourceIngress.validate] *)
Definition V2SourceIngress_validate (source : V2SourceIngress) : result journal_error unit :=
  refuse (negb (v2i_SchemaVersion source =? 1) || bool_decide (v2i_Kind source ≠ "pre-go-source-v1"))
    (InvalidRecord "unknown source ingress schema or kind");;
  for_each (λ value, refuse (v2_path_bad value) SomeFieldInvalid)
    [v2i_SourceRoot source; v2i_DataHome source; v2i_BinDir source; v2i_RC source; v2i_LoginRC source].

(** internal/releasetransition/journal/v2/record.go:318-351 [Evidence.validate] *)
Definition V2Evidence_validate (evidence : V2Evidence) : result journal_error unit :=
  refuse (negb (v2e_SchemaVersion evidence =? SchemaVersion))
    (UnsupportedSchema (v2e_SchemaVersion evidence));;
  v2_validateSafeID (v2e_Transaction evidence) "evidence transaction ID";;
  V2ReleasePair_validate (v2e_Releases evidence);;
  v2_validateSafeID (v2e_Step evidence) "evidence step ID";;
  refuse (negb (v2_validFingerprint (v2e_Expected evidence)) ||
          negb (v2_validFingerprint (v2e_Desired evidence)) ||
          negb (v2_validFingerprint (v2e_Observed evidence)))
    (InvalidRecord "evidence fingerprints are invalid");;
  refuse (bool_decide (v2e_Recovery evidence ≠ "") && negb (v2_validFingerprint (v2e_Recovery evidence)))
    (InvalidRecord "recovery fingerprint is invalid");;
  if bool_decide (v2e_Checkpoint evidence = "captured") then
    refuse (bool_decide (v2e_Observed evidence ≠ v2e_Expected evidence))
      (InvalidRecord "captured evidence does not match expected state")
  else if bool_decide (v2e_Checkpoint evidence = "applied") ||
          bool_decide (v2e_Checkpoint evidence = "verified") then
    refuse (bool_decide (v2e_Observed evidence ≠ v2e_Desired evidence))
      (InvalidRecord "post-apply evidence does not match desired state")
  else Err (UnknownValue "evidence checkpoint" (v2e_Checkpoint evidence)).

(** The map literal that names the evidence a step checkpoint wants, with Go's
    zero value for a missing key. *)
Definition v2_want (checkpoint : string) : string :=
  if bool_decide (checkpoint = "evidence") then "captured"
  else if bool_decide (checkpoint = "applied") then "applied"
  else if bool_decide (checkpoint = "verified") then "verified" else "".

(** internal/releasetransition/journal/v2/record.go:261-316 [Step.validate]: the
    set of step identifiers seen so far is threaded through. *)
Definition V2Step_validate (journal : V2Record) (ids : gset string) (step : V2Step) :
    result journal_error (gset string) :=
  v2_validateSafeID (v2s_ID step) "step ID";;
  refuse (seen (v2s_ID step) ids) (DuplicateStep (v2s_ID step));;
  v2_validateSafeID (v2s_Migration step) "migration ID";;
  v2_validateSafeID (v2s_Resource step) "resource ID";;
  refuse (negb (bool_decide (v2s_Decision step ∈
            ["preserve"; "transform"; "canonicalize"; "reset"; "quarantine"])))
    (UnknownValue "step decision" (v2s_Decision step));;
  refuse (negb (v2_validFingerprint (v2s_Expected step)) || negb (v2_validFingerprint (v2s_Desired step)))
    (InvalidRecord "step fingerprints are invalid");;
  refuse (negb (v2_validStepCheckpoint (v2s_Checkpoint step)))
    (UnknownValue "step checkpoint" (v2s_Checkpoint step));;
  (if bool_decide (v2s_Checkpoint step = "intent") then
     refuse (bool_decide (v2s_Evidence step ≠ None)) (InvalidRecord "intent step has premature evidence")
   else
     evidence ← expect (v2s_Evidence step) (InvalidRecord "step is missing evidence");
     V2Evidence_validate evidence;;
     refuse (bool_decide (v2e_Transaction evidence ≠ v2_Transaction journal) ||
             negb (v2_releasePairsEqual (v2e_Releases evidence) (v2_Releases journal)) ||
             bool_decide (v2e_Step evidence ≠ v2s_ID step) ||
             bool_decide (v2e_Expected evidence ≠ v2s_Expected step) ||
             bool_decide (v2e_Desired evidence ≠ v2s_Desired step))
       (InvalidRecord "step evidence does not match journal intent");;
     refuse (bool_decide (v2e_Checkpoint evidence ≠ v2_want (v2s_Checkpoint step)))
       (InvalidRecord "evidence checkpoint does not match step checkpoint"));;
  refuse (v2_journalAfterMigrations (v2_Checkpoint journal) &&
          bool_decide (v2s_Checkpoint step ≠ "verified"))
    (InvalidRecord "activation starts before step is verified");;
  Ok ({[ v2s_ID step ]} ∪ ids).

Definition v2_intent_step (step : V2Step) : json :=
  JObject (field "id" (JString (v2s_ID step)) ++ field "migration" (JString (v2s_Migration step)) ++
           field "resource" (JString (v2s_Resource step)) ++ field "decision" (JString (v2s_Decision step)) ++
           field "expected" (JString (v2s_Expected step)) ++ field "desired" (JString (v2s_Desired step))).

Definition v2_intent_json (record : V2Record) : json :=
  JObject (field "authorizationPlan" (JString (v2_AuthorizationPlan record)) ++
           field "resumePlan" (JString (v2_ResumePlan record)) ++
           field "observationScope" (JString (v2_ObservationScope record)) ++
           field "steps" (JArray (List.map v2_intent_step (v2_steps record)))).

(** internal/releasetransition/journal/v2/record.go:353-382 [bindIntent] *)
Definition bindIntent (record : V2Record) : string :=
  EncodeToString (Sum256 (marshal (v2_intent_json record))).

(** internal/releasetransition/journal/v2/record.go:108-168 [Record.Validate] *)
Definition V2Record_Validate (record : V2Record) : result journal_error unit :=
  refuse (negb (v2_SchemaVersion record =? SchemaVersion)) (UnsupportedSchema (v2_SchemaVersion record));;
  v2_validateSafeID (v2_Transaction record) "transaction ID";;
  V2Goal_validate (v2_Goal record);;
  V2ReleasePair_validate (v2_Releases record);;
  refuse (bool_decide (v2g_Target (v2_Goal record) ≠ v2p_Target (v2_Releases record)))
    (InvalidRecord "goal does not match release pair");;
  refuse (negb (v2_validToken (v2_AuthorizationPlan record) "plan-v1-"))
    (InvalidRecord "authorization plan is invalid");;
  refuse (negb (v2_validToken (v2_ResumePlan record) "resume-v1-"))
    (InvalidRecord "resume plan is invalid");;
  refuse (bool_decide (v2_AuthorizationPlan record = v2_ResumePlan record))
    (InvalidRecord "authorization and resume plans are not independent");;
  for_each (λ value, refuse (negb (v2_validFingerprint value)) SomeFieldInvalid)
    [v2_ArtifactDigest record; v2_RegistryDigest record; v2_CatalogDigest record;
     v2_ObservationScope record; v2_AuthorizationDigest record];;
  match v2_SourceIngress record with
  | Some source => V2SourceIngress_validate source
  | None => Ok tt
  end;;
  refuse (negb (v2_validJournalCheckpoint (v2_Checkpoint record)))
    (UnknownValue "journal checkpoint" (v2_Checkpoint record));;
  refuse (MaxSteps <? length (v2_steps record))%nat (InvalidRecord "too many steps");;
  for_range (V2Step_validate record) (v2_steps record) ∅ ≫= λ _,
  refuse (negb (v2_validFingerprint (v2_IntentDigest record))) (InvalidRecord "intent digest is invalid");;
  refuse (bool_decide (v2_IntentDigest record ≠ bindIntent record))
    (InvalidRecord "intent digest does not match journal intent").

(** internal/releasetransition/journal/v2/codec.go:33-44 [Encode]: [json.Marshal]
    fails on none of these structs. *)
Definition V2Encode (record : V2Record) : result journal_error string :=
  V2Record_Validate record;; Ok (marshal (V2Record_json record)).

(** internal/releasetransition/journal/v2/record.go:197-211 [Replacement.validate] *)
Definition V2Replacement_validate (replacement : V2Replacement) : result journal_error unit :=
  v2_validateSafeID (v2r_Transaction replacement) "replacement transaction ID";;
  refuse (negb (v2_validFingerprint (v2r_Fingerprint replacement)))
    (InvalidRecord "replacement fingerprint is invalid");;
  refuse (bool_decide (v2r_Reason replacement ≠ "post-activation-scope-v0.11.1"))
    (UnknownValue "archive replacement reason" (v2r_Reason replacement));;
  refuse (negb (validCanonicalSemver (v2r_SourceVersion replacement)))
    (InvalidRecord "replacement source version is invalid").

(** internal/releasetransition/journal/v2/record.go:170-195 [Archive.Validate] *)
Definition V2Archive_Validate (archive : V2Archive) : result journal_error unit :=
  refuse (negb (v2a_SchemaVersion archive =? ArchiveSchemaVersion))
    (UnsupportedSchema (v2a_SchemaVersion archive));;
  refuse (negb (v2_validToken (v2a_AuthorizationPlan archive) "plan-v1-"))
    (InvalidRecord "archive authorization plan is invalid");;
  V2Replacement_validate (v2a_Replacement archive);;
  V2Record_Validate (v2a_Journal archive);;
  refuse (bool_decide (v2r_Transaction (v2a_Replacement archive) ≠ v2_Transaction (v2a_Journal archive)))
    (InvalidRecord "archive transaction does not match replacement");;
  journal ← V2Encode (v2a_Journal archive);
  refuse (bool_decide (v2r_Fingerprint (v2a_Replacement archive) ≠
                       v2_fingerprint (journal +:+ String "010" "")))
    (InvalidRecord "archive fingerprint does not match canonical journal").

(** internal/releasetransition/journal/v2/codec.go:71-82 [EncodeArchive] *)
Definition V2EncodeArchive (archive : V2Archive) : result journal_error string :=
  V2Archive_Validate archive;; Ok (marshal (V2Archive_json archive)).

(** ** What a valid journal is *)

Definition safe_id (value : string) : Prop := SafeID value = true ∧ len value ≤ 128.
Definition fingerprint_ok (value : string) : Prop := v2_validFingerprint value = true.

Definition pair_ok (p : V2ReleasePair) : Prop :=
  safe_id (v2p_From p) ∧ safe_id (v2p_Target p) ∧
  ∀ previous, v2p_Previous p = Some previous → safe_id previous ∧ previous ≠ v2p_From p.

Definition path_ok (value : string) : Prop := v2_path_bad value = false.

Definition ingress_ok (i : V2SourceIngress) : Prop :=
  v2i_SchemaVersion i = 1 ∧ v2i_Kind i = "pre-go-source-v1" ∧
  path_ok (v2i_SourceRoot i) ∧ path_ok (v2i_DataHome i) ∧ path_ok (v2i_BinDir i) ∧
  path_ok (v2i_RC i) ∧ path_ok (v2i_LoginRC i).

(** The evidence belongs to the step of the journal it is stored in. *)
Definition evidence_binds (j : V2Record) (s : V2Step) (e : V2Evidence) : Prop :=
  v2e_SchemaVersion e = SchemaVersion ∧ v2e_Transaction e = v2_Transaction j ∧
  v2e_Releases e = v2_Releases j ∧ v2e_Step e = v2s_ID s ∧
  v2e_Expected e = v2s_Expected s ∧ v2e_Desired e = v2s_Desired s ∧
  fingerprint_ok (v2e_Observed e) ∧ (v2e_Recovery e = "" ∨ fingerprint_ok (v2e_Recovery e)).

(** How far a step got, and the evidence that it is there. *)
Inductive step_progress (j : V2Record) (s : V2Step) : Prop :=
| at_intent : v2s_Checkpoint s = "intent" → v2s_Evidence s = None → step_progress j s
| at_evidence e :
    v2s_Checkpoint s = "evidence" → v2s_Evidence s = Some e → evidence_binds j s e →
    v2e_Checkpoint e = "captured" → v2e_Observed e = v2s_Expected s → step_progress j s
| at_desired e :
    (v2s_Checkpoint s = "applied" ∨ v2s_Checkpoint s = "verified") →
    v2s_Evidence s = Some e → evidence_binds j s e →
    v2e_Checkpoint e = v2s_Checkpoint s → v2e_Observed e = v2s_Desired s → step_progress j s.

Definition decisions : list string := ["preserve"; "transform"; "canonicalize"; "reset"; "quarantine"].

Definition step_ok (j : V2Record) (s : V2Step) : Prop :=
  safe_id (v2s_ID s) ∧ safe_id (v2s_Migration s) ∧ safe_id (v2s_Resource s) ∧
  v2s_Decision s ∈ decisions ∧ fingerprint_ok (v2s_Expected s) ∧ fingerprint_ok (v2s_Desired s) ∧
  step_progress j s ∧
  (v2_journalAfterMigrations (v2_Checkpoint j) = true → v2s_Checkpoint s = "verified").

Record journal_ok (j : V2Record) : Prop := {
  ok_schema : v2_SchemaVersion j = SchemaVersion;
  ok_transaction : safe_id (v2_Transaction j);
  ok_goal : safe_id (v2g_Target (v2_Goal j)) ∧
            v2g_Direction (v2_Goal j) ∈ ["activate-target"; "activate-previous"];
  ok_releases : pair_ok (v2_Releases j) ∧ v2g_Target (v2_Goal j) = v2p_Target (v2_Releases j);
  ok_plans : v2_validToken (v2_AuthorizationPlan j) "plan-v1-" = true ∧
             v2_validToken (v2_ResumePlan j) "resume-v1-" = true ∧
             v2_AuthorizationPlan j ≠ v2_ResumePlan j;
  ok_digests : fingerprint_ok (v2_ArtifactDigest j) ∧ fingerprint_ok (v2_RegistryDigest j) ∧
               fingerprint_ok (v2_CatalogDigest j) ∧ fingerprint_ok (v2_ObservationScope j) ∧
               fingerprint_ok (v2_AuthorizationDigest j);
  ok_ingress : ∀ i, v2_SourceIngress j = Some i → ingress_ok i;
  ok_checkpoint : v2_validJournalCheckpoint (v2_Checkpoint j) = true;
  ok_bound : (length (v2_steps j) ≤ MaxSteps)%nat;
  ok_unique : NoDup (v2s_ID <$> v2_steps j);
  ok_steps : ∀ s, s ∈ v2_steps j → step_ok j s;
  ok_intent : v2_IntentDigest j = bindIntent j }.

(** *** The parts of the validator *)

Lemma v2_validateSafeID_Ok value field u :
  v2_validateSafeID value field = Ok u ↔ safe_id value.
Proof.
  unfold v2_validateSafeID, safe_id, SafeID. rewrite bind_Ok. setoid_rewrite for_each_Ok.
  setoid_rewrite refuse_Ok. setoid_rewrite negb_false_iff.
  assert (len value = 0 ↔ value = "") as Hlen.
  { unfold len. destruct value; simpl; [done|split; [lia|done]]. }
  split.
  - intros ([] & Hg & Hr). bools. destruct_and?. split; [|lia]. split_and!; try done; [naive_solver|].
    apply forallb_forall. intros x Hx. by apply Hr, list_elem_of_In.
  - intros [Hs Hl]. bools. destruct_and?. exists tt. split.
    + bools. rewrite Hlen. split_and!; try done; lia.
    + intros x Hx. match goal with H : forallb _ _ = true |- _ => rewrite forallb_forall in H; by apply H, list_elem_of_In end.
Qed.

Lemma v2_releasePairsEqual_true l r : v2_releasePairsEqual l r = true ↔ l = r.
Proof.
  unfold v2_releasePairsEqual. destruct l as [f p t], r as [f' p' t']; simpl. split.
  - destruct (decide (f = f')) as [->|]; [|by rewrite bool_decide_true].
    destruct (decide (t = t')) as [->|]; [|by rewrite (bool_decide_true (t ≠ t')), orb_true_r].
    rewrite !bool_decide_false by naive_solver. simpl.
    destruct p, p'; try done. rewrite bool_decide_eq_true. by intros ->.
  - intros [= -> -> ->]. rewrite !bool_decide_false by naive_solver. simpl.
    case_match; [by apply bool_decide_true|done].
Qed.

Lemma V2ReleasePair_validate_Ok p u : V2ReleasePair_validate p = Ok u ↔ pair_ok p.
Proof.
  destruct u. unfold V2ReleasePair_validate, pair_ok. rewrite !bind_Ok.
  setoid_rewrite v2_validateSafeID_Ok. setoid_rewrite bind_Ok. setoid_rewrite v2_validateSafeID_Ok.
  destruct (v2p_Previous p) as [q|].
  - setoid_rewrite bind_Ok. setoid_rewrite v2_validateSafeID_Ok. setoid_rewrite refuse_Ok.
    setoid_rewrite bool_decide_eq_false. naive_solver.
  - naive_solver.
Qed.

Lemma V2Goal_validate_Ok g u :
  V2Goal_validate g = Ok u ↔
  safe_id (v2g_Target g) ∧ v2g_Direction g ∈ ["activate-target"; "activate-previous"].
Proof.
  destruct u. unfold V2Goal_validate. rewrite bind_Ok. setoid_rewrite v2_validateSafeID_Ok.
  setoid_rewrite refuse_Ok. rewrite !elem_of_cons, elem_of_nil. split.
  - intros ([] & ? & H). split; [done|]. apply andb_false_iff in H as [H|H]; bools; destruct (decide (v2g_Direction g = "activate-target")), (decide (v2g_Direction g = "activate-previous")); tauto.
  - intros [? H]. exists tt. split; [done|]. apply andb_false_iff. rewrite !bool_decide_eq_false. tauto.
Qed.

Lemma V2SourceIngress_validate_Ok i u : V2SourceIngress_validate i = Ok u ↔ ingress_ok i.
Proof.
  destruct u. unfold V2SourceIngress_validate, ingress_ok, path_ok. rewrite bind_Ok.
  setoid_rewrite refuse_Ok. setoid_rewrite for_each_Ok. setoid_rewrite refuse_Ok.
  setoid_rewrite orb_false_iff. setoid_rewrite negb_false_iff. setoid_rewrite Z.eqb_eq.
  setoid_rewrite bool_decide_eq_false. split.
  - intros (_ & [Hs Hk] & H). destruct (decide (v2i_Kind i = "pre-go-source-v1")); [|done].
    split_and!; try done; apply H; set_solver.
  - intros (Hs & Hk & H). exists tt. split; [naive_solver|]. intros x Hx.
    destruct_and?. set_solver.
Qed.

Lemma V2Evidence_validate_Ok e u :
  V2Evidence_validate e = Ok u ↔
  v2e_SchemaVersion e = SchemaVersion ∧ safe_id (v2e_Transaction e) ∧ pair_ok (v2e_Releases e) ∧
  safe_id (v2e_Step e) ∧ fingerprint_ok (v2e_Expected e) ∧ fingerprint_ok (v2e_Desired e) ∧
  fingerprint_ok (v2e_Observed e) ∧ (v2e_Recovery e = "" ∨ fingerprint_ok (v2e_Recovery e)) ∧
  ((v2e_Checkpoint e = "captured" ∧ v2e_Observed e = v2e_Expected e) ∨
   ((v2e_Checkpoint e = "applied" ∨ v2e_Checkpoint e = "verified") ∧ v2e_Observed e = v2e_Desired e)).
Proof.
  destruct u. unfold V2Evidence_validate, fingerprint_ok. split.
  - intros H. ok_inv. rewrite v2_validateSafeID_Ok, ?V2ReleasePair_validate_Ok in *. bools.
    split_and!; try done.
    + destruct (decide (v2e_Recovery e = "")); tauto.
    + repeat case_bool_decide; simpl in *; ok_inv; bools; tauto.
  - intros (Hs & Ht & Hp & Hst & -> & -> & -> & Hrec & Hc).
    rewrite Hs, Z.eqb_refl. simpl.
    rewrite (proj2 (v2_validateSafeID_Ok _ _ tt) Ht), (proj2 (V2ReleasePair_validate_Ok _ tt) Hp),
      (proj2 (v2_validateSafeID_Ok _ _ tt) Hst). simpl.
    replace (bool_decide _ && negb _) with false
      by (symmetry; apply andb_false_iff; rewrite bool_decide_eq_false, negb_false_iff; tauto).
    simpl. destruct Hc as [[-> Ho]|[[->| ->] Ho]]; simpl; apply refuse_Ok, bool_decide_eq_false; tauto.
Qed.

(** The evidence part of a step. *)
Lemma step_evidence_Ok j s :
  safe_id (v2_Transaction j) → pair_ok (v2_Releases j) → safe_id (v2s_ID s) →
  fingerprint_ok (v2s_Expected s) → fingerprint_ok (v2s_Desired s) →
  (v2_validStepCheckpoint (v2s_Checkpoint s) = true ∧
   ((v2s_Checkpoint s = "intent" ∧ v2s_Evidence s = None) ∨
    (v2s_Checkpoint s ≠ "intent" ∧ ∃ e, v2s_Evidence s = Some e ∧ V2Evidence_validate e = Ok tt ∧
       v2e_Transaction e = v2_Transaction j ∧ v2e_Releases e = v2_Releases j ∧
       v2e_Step e = v2s_ID s ∧ v2e_Expected e = v2s_Expected s ∧ v2e_Desired e = v2s_Desired s ∧
       v2e_Checkpoint e = v2_want (v2s_Checkpoint s)))) ↔ step_progress j s.
Proof.
  intros Ht Hp Hid He Hd. split.
  - intros [Hc [[? ?]|(Hni & e & Hev & Hval & H1 & H2 & H3 & H4 & H5 & H6)]]; [by apply at_intent|].
    apply V2Evidence_validate_Ok in Hval as (Hv1 & _ & _ & _ & _ & _ & Hv2 & Hv3 & Hv4).
    assert (evidence_binds j s e) as Hb by done.
    unfold v2_validStepCheckpoint in Hc. apply bool_decide_eq_true in Hc.
    rewrite !elem_of_cons, elem_of_nil in Hc.
    rewrite H4, H5 in Hv4. destruct Hc as [Hc|[Hc|[Hc|[Hc|[]]]]]; [done|..]; rewrite Hc in H6;
      [change (v2_want "evidence") with "captured" in H6|change (v2_want "applied") with "applied" in H6|
       change (v2_want "verified") with "verified" in H6]; rewrite H6 in Hv4.
    + eapply at_evidence; [done..|]. destruct Hv4 as [[_ Hv4]|[[Hv4|Hv4] _]]; done.
    + eapply (at_desired _ _ e); [by left|done..|by rewrite Hc|].
      destruct Hv4 as [[Hv4 _]|[_ Hv4]]; done.
    + eapply (at_desired _ _ e); [by right|done..|by rewrite Hc|].
      destruct Hv4 as [[Hv4 _]|[_ Hv4]]; done.
  - intros [Hc Hev|e Hc Hev (B1&B2&B3&B4&B5&B6&B7&B8) Hck Ho|e Hc Hev (B1&B2&B3&B4&B5&B6&B7&B8) Hck Ho].
    + rewrite Hc. split; [done|by left].
    + rewrite Hc. split; [done|]. right. split; [done|]. exists e. split_and!; try done.
      apply V2Evidence_validate_Ok. rewrite B2, B3, B4, B5, B6. split_and!; try done. left. by split.
    + assert (v2_want (v2s_Checkpoint s) = v2s_Checkpoint s) as Hw by (by destruct Hc as [->| ->]).
      assert (v2s_Checkpoint s ≠ "intent") by (by destruct Hc as [->| ->]).
      split; [by destruct Hc as [->| ->]|]. right. split; [done|]. exists e.
      split_and!; try done; [|by rewrite Hw].
      apply V2Evidence_validate_Ok. rewrite B2, B3, B4, B5, B6. split_and!; try done.
      right. by rewrite Hck.
Qed.

Lemma V2Step_validate_Ok j ids s ids' :
  safe_id (v2_Transaction j) → pair_ok (v2_Releases j) →
  V2Step_validate j ids s = Ok ids' ↔
  step_ok j s ∧ (v2s_ID s ∉ ids) ∧ ids' = {[ v2s_ID s ]} ∪ ids.
Proof.
  intros Ht Hp. unfold V2Step_validate, step_ok, seen. split.
  - intros H. ok_inv. rewrite v2_validateSafeID_Ok in *. bools.
    assert (step_progress j s) as Hprog.
    { apply step_evidence_Ok; try done. split; [done|].
      case_bool_decide as Hc; ok_inv; bools.
      - left. split; [done|]. by apply dec_stable.
      - right. split; [done|]. eexists. split; [done|].
        rewrite v2_releasePairsEqual_true in *.
        repeat match goal with H : ¬ (_ ≠ _) |- _ => pose proof (dec_stable H); clear H end. done. }
    split; [|by split]. split_and!; try done.
    intros Ha. match goal with H : _ ∨ ¬ (v2s_Checkpoint s ≠ "verified") |- _ =>
      destruct H as [H|H%dec_stable]; [congruence|done] end.
  - intros ((Hid & Hm & Hr & Hdec & He & Hd & Hprog & Hver) & Hfresh & ->).
    apply step_evidence_Ok in Hprog as [Hck Hev]; try done.
    rewrite !(proj2 (v2_validateSafeID_Ok _ _ tt)) by done. simpl.
    unfold fingerprint_ok in *. rewrite He, Hd, Hck. simpl.
    rewrite (bool_decide_false (_ ∈ ids)) by done. simpl.
    rewrite (bool_decide_true (_ ∈ _)) by done. simpl.
    replace (v2_journalAfterMigrations _ && _) with false; cycle 1.
    { symmetry. apply andb_false_iff. rewrite bool_decide_eq_false.
      destruct (v2_journalAfterMigrations _); [|by left]. right. rewrite Hver by done. tauto. }
    destruct Hev as [[Hc ->]|(Hc & e & -> & Hval & E1 & E2 & E3 & E4 & E5 & E6)].
    + by rewrite (bool_decide_true (_ = "intent")).
    + rewrite (bool_decide_false (_ = "intent")) by done. simpl. rewrite Hval. simpl.
      rewrite E1, E2, E3, E4, E5, E6.
      rewrite (proj2 (v2_releasePairsEqual_true _ _) eq_refl).
      rewrite !bool_decide_false by naive_solver. done.
Qed.

Lemma digest_fingerprint_ok payload : fingerprint_ok (EncodeToString (Sum256 payload)).
Proof.
  unfold fingerprint_ok, v2_validFingerprint. apply andb_true_iff. split.
  - unfold len. by rewrite length_EncodeToString, length_Sum256.
  - rewrite runes_ascii_forall; [apply EncodeToString_hex, Sum256_bytes|].
    intros r Hr. unfold hex_rune. bools. lia.
Qed.

Lemma fingerprints_Ok l :
  for_each (λ value, refuse (negb (v2_validFingerprint value)) SomeFieldInvalid) l = Ok tt ↔
  Forall fingerprint_ok l.
Proof.
  rewrite for_each_Ok, Forall_forall. setoid_rewrite refuse_Ok. by setoid_rewrite negb_false_iff.
Qed.

Lemma steps_Ok j :
  safe_id (v2_Transaction j) → pair_ok (v2_Releases j) →
  (∃ ids, for_range (V2Step_validate j) (v2_steps j) ∅ = Ok ids) ↔
  NoDup (v2s_ID <$> v2_steps j) ∧ (∀ s, s ∈ v2_steps j → step_ok j s).
Proof.
  intros Ht Hp. rewrite (for_range_distinct v2s_ID (step_ok j)).
  - set_solver.
  - intros. by apply V2Step_validate_Ok.
Qed.

(** The validator and the specification agree. *)
Lemma journal_ok_spec j : V2Record_Validate j = Ok tt ↔ journal_ok j.
Proof.
  unfold V2Record_Validate. split.
  - intros H. ok_inv.
    match goal with H : match v2_SourceIngress _ with _ => _ end = _ |- _ => rename H into Hing end.
    match goal with H : for_range _ _ _ = _ |- _ => rename H into Hsteps end.
    rewrite v2_validateSafeID_Ok, V2Goal_validate_Ok, V2ReleasePair_validate_Ok, fingerprints_Ok in *.
    bools. repeat match goal with H : ¬ (_ ≠ _) |- _ => pose proof (dec_stable H); clear H end.
    destruct (proj1 (steps_Ok j ltac:(done) ltac:(done)) (ex_intro _ _ Hsteps)) as [Hnd Hst].
    decompose_Forall_hyps. split; try done.
    intros i Hi. rewrite Hi in Hing. by apply V2SourceIngress_validate_Ok in Hing.
  - intros []. destruct ok_goal0 as [Hg1 Hg2], ok_releases0 as [Hr1 Hr2], ok_plans0 as (Hp1 & Hp2 & Hp3).
    rewrite ok_schema0. simpl.
    rewrite (proj2 (v2_validateSafeID_Ok _ _ tt)) by done. simpl.
    rewrite (proj2 (V2Goal_validate_Ok _ tt)) by done. simpl.
    rewrite (proj2 (V2ReleasePair_validate_Ok _ tt)) by done. simpl.
    rewrite bool_decide_false, Hp1, Hp2 by naive_solver. simpl.
    rewrite bool_decide_false by done. simpl.
    rewrite (proj2 (fingerprints_Ok _)) by (destruct_and!; by repeat constructor). simpl.
    assert (match v2_SourceIngress j with Some source => V2SourceIngress_validate source | None => Ok tt end
            = Ok tt) as ->.
    { destruct (v2_SourceIngress j) as [i|]; [|done]. by apply V2SourceIngress_validate_Ok, ok_ingress0. }
    simpl. rewrite ok_checkpoint0. simpl. rewrite (proj2 (Nat.ltb_ge _ _)) by done. simpl.
    destruct (proj2 (steps_Ok j ok_transaction0 Hr1)) as [ids ->]; [done|]. simpl.
    rewrite ok_intent0. unfold bindIntent. rewrite digest_fingerprint_ok. simpl.
    by rewrite bool_decide_false by naive_solver.
Qed.

(** [Record.Validate] accepts a journal exactly when it is the record of a
    transition: identifiers, digests and paths are well formed; step identifiers
    are distinct; the checkpoint of every step comes with the evidence that
    proves it, bound to this journal and this step (captured evidence observed
    the expected state, applied and verified evidence the desired one); no step
    is behind once activation has started; and the intent digest is the digest
    of the authorized steps. *)
Theorem V2Record_Validate_spec j : V2Record_Validate j = Ok tt ↔ journal_ok j.
Proof. apply journal_ok_spec. Qed.

(** ** What the digests bind *)

(** Hides an injective encoding, so that inverting the enclosing object stops at it. *)
Ltac seal f x y H :=
  let HI := fresh "Hsealed" in
  pose proof (inj f x y) as HI; revert H HI;
  generalize (f x) (f y); intros ? ? H HI.

Ltac unseal :=
  repeat match goal with HI : ?x = ?x → _ |- _ => specialize (HI eq_refl) end.

#[export] Instance V2Goal_json_inj : Inj (=) (=) V2Goal_json.
Proof. intros [] [] [=]. simpl in *. by subst. Qed.

#[export] Instance V2ReleasePair_json_inj : Inj (=) (=) V2ReleasePair_json.
Proof. intros [? [] ?] [? [] ?] [=]; simpl in *; by subst. Qed.

#[export] Instance V2SourceIngress_json_inj : Inj (=) (=) V2SourceIngress_json.
Proof. intros [] [] [=]. simpl in *. by subst. Qed.

#[export] Instance V2Evidence_json_inj : Inj (=) (=) V2Evidence_json.
Proof.
  intros [s1 t1 r1 st1 e1 d1 o1 rec1 c1] [s2 t2 r2 st2 e2 d2 o2 rec2 c2] H.
  unfold V2Evidence_json, field_omitempty in H. cbn -[V2ReleasePair_json] in H.
  seal V2ReleasePair_json r1 r2 H. repeat case_bool_decide; cbn in H; simplify_eq; unseal; by subst.
Qed.

#[export] Instance V2Step_json_inj : Inj (=) (=) V2Step_json.
Proof.
  intros [a1 b1 c1 d1 e1 f1 g1 [h1|]] [a2 b2 c2 d2 e2 f2 g2 [h2|]] H;
    unfold V2Step_json in H; cbn -[V2Evidence_json] in H; try done; [|by simplify_eq].
  seal V2Evidence_json h1 h2 H. simplify_eq. unseal. by subst.
Qed.

#[export] Instance map_inj {A B} (f : A → B) : Inj (=) (=) f → Inj (=) (=) (List.map f).
Proof. intros ? l k H. by apply (inj (fmap f)) in H. Qed.

Definition steps_json (steps : option (list V2Step)) : json :=
  match steps with Some l => JArray (List.map V2Step_json l) | None => JNull end.

#[export] Instance steps_json_inj : Inj (=) (=) steps_json.
Proof.
  intros [l|] [k|] H; try done. injection H as H. by apply (inj (List.map V2Step_json)) in H as ->.
Qed.

#[export] Instance V2Record_json_inj : Inj (=) (=) V2Record_json.
Proof.
  intros [a1 b1 c1 d1 e1 f1 g1 h1 i1 k1 l1 m1 n1 o1 p1] [a2 b2 c2 d2 e2 f2 g2 h2 i2 k2 l2 m2 n2 o2 p2] H.
  unfold V2Record_json in H. fold (steps_json (v2_Steps (mkV2Record a1 b1 c1 d1 e1 f1 g1 h1 i1 k1 l1 m1 n1 o1 p1))) in H.
  fold (steps_json (v2_Steps (mkV2Record a2 b2 c2 d2 e2 f2 g2 h2 i2 k2 l2 m2 n2 o2 p2))) in H.
  cbn -[steps_json V2Goal_json V2ReleasePair_json V2SourceIngress_json] in H.
  seal steps_json p1 p2 H. seal V2Goal_json c1 c2 H. seal V2ReleasePair_json d1 d2 H.
  destruct n1 as [n1|], n2 as [n2|]; cbn -[V2SourceIngress_json] in H;
    try (seal V2SourceIngress_json n1 n2 H); simplify_eq; unseal; by subst.
Qed.

(** *** The strings of a journal are valid UTF-8, the ingress paths apart *)

Lemma is_ascii_app s t : is_ascii (s +:+ t) = is_ascii s && is_ascii t.
Proof. unfold is_ascii. by rewrite bytes_app, forallb_app. Qed.

Lemma fingerprint_utf8 s : fingerprint_ok s → is_ascii s = true.
Proof.
  unfold fingerprint_ok, v2_validFingerprint. intros H. bools.
  match goal with H : forallb _ _ = true |- _ => rewrite runes_ascii_forall in H; [rename H into Hf|] end.
  - apply bytes_ascii. intros b Hb%list_elem_of_In. rewrite forallb_forall in Hf. apply Hf in Hb.
    unfold hex_rune in Hb. bools. lia.
  - intros r Hr. unfold hex_rune. bools. lia.
Qed.

Lemma token_utf8 s p : v2_validToken s p = true → is_ascii p = true → is_ascii s = true.
Proof.
  unfold v2_validToken. intros H Hp. bools. match goal with H : HasPrefix _ _ = true |- _ =>
    apply HasPrefix_spec in H as [r ->] end.
  match goal with H : v2_validFingerprint _ = true |- _ => apply fingerprint_utf8 in H; revert H end.
  unfold TrimPrefix. rewrite HasPrefix_app, string_drop_app, is_ascii_app, Hp. done.
Qed.

Lemma safe_id_utf8 s : safe_id s → ValidString s = true.
Proof. intros [H _]. by apply ValidString_ascii, SafeID_ascii. Qed.

Lemma fingerprint_valid s : fingerprint_ok s → ValidString s = true.
Proof. intros H. by apply ValidString_ascii, fingerprint_utf8. Qed.

Lemma token_valid s p : v2_validToken s p = true → is_ascii p = true → ValidString s = true.
Proof. intros. eapply ValidString_ascii, token_utf8; done. Qed.

Lemma elem_valid s l : s ∈ l → forallb ValidString l = true → ValidString s = true.
Proof. rewrite forallb_forall. intros H Hl. by apply Hl, list_elem_of_In. Qed.

(** Proves the validity of a string from what the validator checked of it. *)
Ltac utf8 :=
  first [ assumption
        | apply safe_id_utf8; assumption
        | apply fingerprint_valid; assumption
        | eapply token_valid; [eassumption|reflexivity]
        | eapply elem_valid; [eassumption|reflexivity] ].

Lemma json_valid_app a b :
  json_valid (JObject (a ++ b)) = json_valid (JObject a) && json_valid (JObject b).
Proof. apply forallb_app. Qed.

Lemma json_valid_field k v :
  ValidString k = true → json_valid (JObject (field k v)) = json_valid v.
Proof. intros H. simpl. by rewrite H, andb_true_r. Qed.

Lemma json_valid_field_opt {A} k (f : A → json) o :
  ValidString k = true → (∀ a, o = Some a → json_valid (f a) = true) →
  json_valid (JObject (field_opt k f o)) = true.
Proof. intros H Ho. destruct o as [a|]; [|done]. simpl. by rewrite H, Ho. Qed.

Lemma json_valid_omitempty k s :
  ValidString k = true → s = "" ∨ ValidString s = true → json_valid (JObject (field_omitempty k s)) = true.
Proof.
  intros H Hs. unfold field_omitempty. case_bool_decide; [done|]. simpl. rewrite H.
  by destruct Hs as [->| ->].
Qed.

Lemma json_valid_array {A} (f : A → json) l :
  (∀ x, x ∈ l → json_valid (f x) = true) → json_valid (JArray (List.map f l)) = true.
Proof.
  intros H. simpl. apply forallb_forall. intros v (x & <- & Hx)%in_map_iff. by apply H, list_elem_of_In.
Qed.

(** Splits the validity of an object into that of its fields. *)
Ltac json_fields :=
  repeat match goal with
  | |- json_valid (JObject (_ ++ _)) = true => rewrite json_valid_app; apply andb_true_iff; split
  | |- json_valid (JObject (field _ _)) = true => rewrite json_valid_field by reflexivity
  | |- json_valid (JString ?s) = true => change (ValidString s = true)
  | |- json_valid (JInt _) = true => reflexivity
  end.

Lemma pair_utf8 p : pair_ok p → json_valid (V2ReleasePair_json p) = true.
Proof.
  intros (Hf & Ht & Hp). unfold V2ReleasePair_json. json_fields; try utf8.
  apply json_valid_field_opt; [done|]. intros a Ha. apply safe_id_utf8. by apply Hp.
Qed.

Lemma evidence_utf8 j s e :
  pair_ok (v2_Releases j) → safe_id (v2_Transaction j) → safe_id (v2s_ID s) →
  fingerprint_ok (v2s_Expected s) → fingerprint_ok (v2s_Desired s) → evidence_binds j s e →
  ValidString (v2e_Checkpoint e) = true → json_valid (V2Evidence_json e) = true.
Proof.
  intros Hp Ht Hid He Hd (B1&B2&B3&B4&B5&B6&B7&B8) Hc. unfold V2Evidence_json.
  rewrite B2, B3, B4, B5, B6. json_fields; try utf8; try by apply pair_utf8.
  apply json_valid_omitempty; [done|]. destruct B8; [by left|right; utf8].
Qed.

Lemma step_utf8 j s :
  pair_ok (v2_Releases j) → safe_id (v2_Transaction j) → step_ok j s → json_valid (V2Step_json s) = true.
Proof.
  intros Hp Ht (H1 & H2 & H3 & H4 & H5 & H6 & Hprog & _).
  assert (ValidString (v2s_Checkpoint s) = true ∧ ∀ e, v2s_Evidence s = Some e →
            json_valid (V2Evidence_json e) = true) as [Hc He].
  { destruct Hprog as [-> ->|e -> -> Hb Hc _|e Hs -> Hb Hc _].
    - done.
    - split; [done|]. intros ? [= <-]. eapply evidence_utf8; try done. by rewrite Hc.
    - assert (ValidString (v2s_Checkpoint s) = true) as Hv by (by destruct Hs as [->| ->]).
      split; [done|]. intros ? [= <-]. eapply evidence_utf8; try done. by rewrite Hc. }
  unfold V2Step_json. json_fields; try utf8.
  by apply json_valid_field_opt.
Qed.

(** The ingress paths of the journal, if it has any, are valid UTF-8. *)
Definition utf8_paths (j : V2Record) : Prop :=
  ∀ i, v2_SourceIngress j = Some i →
  ValidString (v2i_SourceRoot i) = true ∧ ValidString (v2i_DataHome i) = true ∧
  ValidString (v2i_BinDir i) = true ∧ ValidString (v2i_RC i) = true ∧ ValidString (v2i_LoginRC i) = true.

Lemma journal_utf8 j : journal_ok j → utf8_paths j → json_valid (V2Record_json j) = true.
Proof.
  intros [] Hu. destruct ok_goal0 as [Hg1 Hg2], ok_releases0 as [Hr1 Hr2], ok_plans0 as (Hp1 & Hp2 & Hp3).
  destruct_and!. unfold V2Record_json, V2Goal_json. json_fields; try utf8; try by apply pair_utf8.
  - rewrite ok_intent0. apply fingerprint_valid, digest_fingerprint_ok.
  - apply json_valid_field_opt; [done|]. intros i Hi. destruct (Hu i Hi) as (?&?&?&?&?).
    destruct (ok_ingress0 i Hi) as (_ & Hk & _). unfold V2SourceIngress_json. rewrite Hk. by json_fields.
  - unfold v2_validJournalCheckpoint in ok_checkpoint0. apply bool_decide_eq_true in ok_checkpoint0.
    utf8.
  - unfold v2_steps in ok_steps0. destruct (v2_Steps j) as [l|]; [|done].
    apply json_valid_array. intros s Hs. by eapply step_utf8, ok_steps0.
Qed.

Lemma intent_utf8 j : journal_ok j → json_valid (v2_intent_json j) = true.
Proof.
  intros []. destruct ok_plans0 as (Hp1 & Hp2 & Hp3). destruct_and!.
  unfold v2_intent_json. json_fields; try utf8.
  apply json_valid_array. intros s Hs. destruct (ok_steps0 s Hs) as (?&?&?&?&?&?&_&_).
  unfold v2_intent_step. json_fields; try utf8.
Qed.

(** What the authorization of a step fixes. *)
Definition step_intent (s : V2Step) : string * string * string * string * string * string :=
  (v2s_ID s, v2s_Migration s, v2s_Resource s, v2s_Decision s, v2s_Expected s, v2s_Desired s).

Definition same_intent (j1 j2 : V2Record) : Prop :=
  v2_AuthorizationPlan j1 = v2_AuthorizationPlan j2 ∧ v2_ResumePlan j1 = v2_ResumePlan j2 ∧
  v2_ObservationScope j1 = v2_ObservationScope j2 ∧
  (step_intent <$> v2_steps j1) = (step_intent <$> v2_steps j2).

(** Two texts that differ and have the same SHA-256 digest. *)
Definition collision (p1 p2 : string) : Prop := p1 ≠ p2 ∧ v2_fingerprint p1 = v2_fingerprint p2.

Lemma intent_json_inj j1 j2 : v2_intent_json j1 = v2_intent_json j2 → same_intent j1 j2.
Proof.
  intros H. unfold v2_intent_json, field in H. simpl in H. injection H as H1 H2 H3 H4.
  split_and!; [done..|]. revert H4. generalize (v2_steps j1) (v2_steps j2).
  induction l as [|s l IH]; intros [|t k] Hm; try done. simpl in Hm. injection Hm as ?????? Hm.
  apply IH in Hm. csimpl. rewrite Hm. f_equal. unfold step_intent. congruence.
Qed.

Section samples.

Definition hex64 (c : ascii) : string := String.concat "" (replicate 64 (String c "")).

Definition sample_pair : V2ReleasePair := mkV2ReleasePair "0.11.1-a" None "0.12.0-b".

Definition sample_step (id checkpoint ev observed : string) : V2Step :=
  mkV2Step id "migrate" "yard" "transform" (hex64 "1") (hex64 "2") checkpoint
    (Some (mkV2Evidence 2 "tx-1" sample_pair id (hex64 "1") (hex64 "2") observed "" ev)).

(** A journal over the given steps, with the digest its authorization binds. *)
Definition sample_journal (ingress : option V2SourceIngress) (checkpoint : string)
    (steps : option (list V2Step)) : V2Record :=
  let draft digest :=
    mkV2Record 2 "tx-1" (mkV2Goal "0.12.0-b" "activate-target") sample_pair
      ("plan-v1-" +:+ hex64 "a") ("resume-v1-" +:+ hex64 "b") (hex64 "3") (hex64 "4") (hex64 "5")
      (hex64 "6") (hex64 "7") digest ingress checkpoint steps in
  draft (bindIntent (draft "")).

Definition migrating_journal : V2Record :=
  sample_journal None "migrating"
    (Some [sample_step "s1" "verified" "verified" (hex64 "2");
           sample_step "s2" "evidence" "captured" (hex64 "1")]).

Definition applied_journal : V2Record :=
  sample_journal None "migrating"
    (Some [sample_step "s1" "verified" "verified" (hex64 "2");
           sample_step "s2" "applied" "applied" (hex64 "2")]).

Definition sample_archive (j : V2Record) : V2Archive :=
  mkV2Archive 1 ("plan-v1-" +:+ hex64 "c")
    (mkV2Replacement "tx-1" (v2_fingerprint (marshal (V2Record_json j) +:+ String "010" ""))
       "post-activation-scope-v0.11.1" "0.11.1") j.

End samples.

(** The intent digest binds the authorization.  Two valid journals with the
    same intent digest authorize the same plans, the same observation scope and
    the same steps in the same order, unless their two intent payloads collide
    under SHA-256. *)
Theorem bindIntent_binds j1 j2 :
  V2Record_Validate j1 = Ok tt → V2Record_Validate j2 = Ok tt →
  v2_IntentDigest j1 = v2_IntentDigest j2 →
  same_intent j1 j2 ∨ collision (marshal (v2_intent_json j1)) (marshal (v2_intent_json j2)).
Proof.
  intros H1%journal_ok_spec H2%journal_ok_spec Hd.
  rewrite (ok_intent _ H1), (ok_intent _ H2) in Hd.
  destruct (decide (marshal (v2_intent_json j1) = marshal (v2_intent_json j2))) as [E|E]; [left|by right].
  apply intent_json_inj. apply marshal_inj; [by apply intent_utf8..|done].
Qed.

Lemma bindIntent_binds_witness :
  same_intent migrating_journal applied_journal ∨
  collision (marshal (v2_intent_json migrating_journal)) (marshal (v2_intent_json applied_journal)).
Proof. apply bindIntent_binds; by vm_compute. Defined.

(** Encoding a journal loses nothing: two valid journals with the same
    encoded text are the same journal, when their ingress paths are valid
    UTF-8. *)
Theorem V2Encode_inj j1 j2 payload :
  utf8_paths j1 → utf8_paths j2 →
  V2Encode j1 = Ok payload → V2Encode j2 = Ok payload → j1 = j2.
Proof.
  intros Hu1 Hu2 H1 H2. unfold V2Encode in *. ok_inv. rewrite journal_ok_spec in *.
  apply (inj V2Record_json), marshal_inj; [by apply journal_utf8..|congruence].
Qed.

Lemma V2Encode_inj_witness :
  V2Encode migrating_journal = Ok (marshal (V2Record_json migrating_journal)) ∧
  migrating_journal = migrating_journal.
Proof.
  split; [by vm_compute|].
  apply (V2Encode_inj migrating_journal migrating_journal (marshal (V2Record_json migrating_journal)));
    [by intros ? [=]..|by vm_compute|by vm_compute].
Defined.

(** The fingerprint of an archive binds the archived journal: two valid
    archives with the same replacement fingerprint hold the same journal, unless
    the two canonical texts collide under SHA-256. *)
Theorem archive_binds_journal a1 a2 :
  utf8_paths (v2a_Journal a1) → utf8_paths (v2a_Journal a2) →
  V2Archive_Validate a1 = Ok tt → V2Archive_Validate a2 = Ok tt →
  v2r_Fingerprint (v2a_Replacement a1) = v2r_Fingerprint (v2a_Replacement a2) →
  v2a_Journal a1 = v2a_Journal a2 ∨
  collision (marshal (V2Record_json (v2a_Journal a1)) +:+ String "010" "")
            (marshal (V2Record_json (v2a_Journal a2)) +:+ String "010" "").
Proof.
  intros Hu1 Hu2 H1 H2 Hf. unfold V2Archive_Validate, V2Encode in *. ok_inv. bools.
  repeat match goal with H : ¬ (_ ≠ _) |- _ => pose proof (dec_stable H); clear H end.
  rewrite journal_ok_spec in *. subst.
  destruct (decide (marshal (V2Record_json (v2a_Journal a1)) = marshal (V2Record_json (v2a_Journal a2)))) as [E|E].
  - left. apply (inj V2Record_json), marshal_inj; [by apply journal_utf8..|done].
  - right. split; [|congruence]. intros E'. apply E.
    apply (f_equal bytes) in E'. rewrite !bytes_app in E'. by apply app_inv_tail, (inj bytes) in E'.
Qed.

Lemma archive_binds_journal_witness :
  v2a_Journal (sample_archive migrating_journal) = v2a_Journal (sample_archive migrating_journal) ∨
  collision (marshal (V2Record_json migrating_journal) +:+ String "010" "")
            (marshal (V2Record_json migrating_journal) +:+ String "010" "").
Proof.
  apply (archive_binds_journal (sample_archive migrating_journal) (sample_archive migrating_journal));
    [by intros ? [=]..|by vm_compute|by vm_compute|reflexivity].
Defined.

(** A journal whose source root ends in the given byte. *)
Definition byte_path_journal (b : ascii) : V2Record :=
  sample_journal
    (Some (mkV2SourceIngress 1 "pre-go-source-v1" ("/src" +:+ String b "") "/data" "/bin" "/rc" "/login"))
    "authorized" None.

