(* ===== verification/Transition.v ===== *)
(** * Release transitions

    internal/releasetransition: the journal as the transition uses it
    (records.go), its conversion to and from the frozen wire record
    (journal_codec.go), the validators (validation.go, contract.go, plan.go,
    process_protocol.go) and [Evaluate] (model.go), which decides from observed
    facts whether the target release is ready, whether an interrupted transition
    may resume, or whether an operator has to act.

    The string types of the package (ReleaseID, PlanToken, Fingerprint, ...) are
    strings; pointers to them are options. *)

From S2P Require Import Prelude GoStrings GoPath Sha256 Names GoJson JournalV2.

(** ** Data *)

(** internal/releasetransition/contract.go:69-72 [Goal] *)
Record ReleaseGoal := mkReleaseGoal { goal_Target : string; goal_Direction : string }.

(** internal/releasetransition/records.go:45-49 [ReleasePair] *)
Record ReleasePair := mkReleasePair {
  pair_From : string; pair_Previous : option string; pair_Target : string }.

(** internal/releasetransition/records.go:51-54 [ReleaseLinks] *)
Record ReleaseLinks := mkReleaseLinks { links_Active : string; links_Previous : option string }.

(** internal/releasetransition/process_protocol.go:32-40 [SourceIngressRequest] *)
Record SourceIngressRequest := mkSourceIngressRequest {
  ing_SchemaVersion : Z; ing_Kind : string; ing_SourceRoot : string; ing_DataHome : string;
  ing_BinDir : string; ing_RC : string; ing_LoginRC : string }.

(** internal/releasetransition/records.go:85-95 [EvidenceRecord] *)
Record EvidenceRecord := mkEvidenceRecord {
  ev_SchemaVersion : Z; ev_Transaction : string; ev_Releases : ReleasePair; ev_Step : string;
  ev_Expected : string; ev_Desired : string; ev_Observed : string; ev_Recovery : string;
  ev_Checkpoint : string }.

(** internal/releasetransition/records.go:74-83 [JournalStep] *)
Record JournalStep := mkJournalStep {
  step_ID : string; step_Migration : string; step_Resource : string; step_Decision : string;
  step_Expected : string; step_Desired : string; step_Checkpoint : string;
  step_Evidence : option EvidenceRecord }.

(** internal/releasetransition/records.go:56-72 [JournalRecord] *)
Record JournalRecord := mkJournalRecord {
  jr_SchemaVersion : Z; jr_Transaction : string; jr_Goal : ReleaseGoal; jr_Releases : ReleasePair;
  jr_AuthorizationPlan : string; jr_ResumePlan : string; jr_ArtifactDigest : string;
  jr_RegistryDigest : string; jr_CatalogDigest : string; jr_ObservationScope : string;
  jr_AuthorizationDigest : string; jr_IntentDigest : string;
  jr_SourceIngress : option SourceIngressRequest; jr_Checkpoint : string;
  jr_Steps : option (list JournalStep) }.

(** internal/releasetransition/plan.go:58-63 [JournalReplacement] *)
Record JournalReplacement := mkJournalReplacement {
  rep_Transaction : string; rep_Fingerprint : string; rep_Reason : string; rep_SourceVersion : string }.

(** internal/releasetransition/records.go:100-105 [SupersededJournalRecord] *)
Record SupersededJournalRecord := mkSupersededJournalRecord {
  sup_SchemaVersion : Z; sup_AuthorizationPlan : string; sup_Replacement : JournalReplacement;
  sup_Journal : JournalRecord }.

(** internal/releasetransition/plan.go:21-28 [PlannerStepIntent] *)
Record PlannerStepIntent := mkPlannerStepIntent {
  int_ID : string; int_Migration : string; int_Resource : string; int_Decision : string;
  int_Expected : string; int_Desired : string }.

(** internal/releasetransition/model.go:3-6 [StepObservation] *)
Record StepObservation := mkStepObservation { obs_Step : string; obs_Fingerprint : string }.

(** internal/releasetransition/model.go:8-24 [TransitionFacts] *)
Record TransitionFacts := mkTransitionFacts {
  f_Goal : ReleaseGoal; f_Releases : ReleasePair; f_Links : ReleaseLinks;
  f_Journal : option JournalRecord; f_Steps : list StepObservation; f_CurrentPlan : string;
  f_CurrentIntents : list PlannerStepIntent; f_VerifiedAuthorizationPlan : string;
  f_CurrentArtifactDigest : string; f_CurrentRegistryDigest : string;
  f_CurrentCatalogDigest : string; f_CurrentAuthorizationDigest : string;
  f_FixedPointVerified : bool }.

(** internal/releasetransition/contract.go:102-115 [Outcome] *)
Record Outcome := mkOutcome {
  o_Status : string; o_ReachedGoal : bool; o_Active : string; o_Previous : option string;
  o_Target : string; o_Code : string; o_Message : string; o_Retry : string;
  o_Transaction : option string; o_Warnings : list string }.

#[export] Instance ReleaseGoal_eq_dec : EqDecision ReleaseGoal.
Proof. solve_decision. Defined.
#[export] Instance Outcome_eq_dec : EqDecision Outcome.
Proof. solve_decision. Defined.

Definition jr_steps (record : JournalRecord) : list JournalStep := default [] (jr_Steps record).

(** internal/releasetransition/contract.go:31-36 [StatusReady, StatusMigrationRequired, StatusRecovering, StatusOperatorActionRequired] *)
Definition StatusReady : string := "ready".
Definition StatusMigrationRequired : string := "migration-required".
Definition StatusRecovering : string := "recovering".
Definition StatusOperatorActionRequired : string := "operator-action-required".

(** internal/releasetransition/contract.go:38-58 [CodeReady, CodeTransitionRequired, CodeRecoveryPending, CodePlanStale, CodeMigrationStale, CodeActivationAmbiguous, CodeRecoveryAmbiguous, CodeJournalInvalid] *)
Definition CodeReady : string := "ready".
Definition CodeTransitionRequired : string := "transition-required".
Definition CodeRecoveryPending : string := "recovery-pending".
Definition CodePlanStale : string := "plan-stale".
Definition CodeMigrationStale : string := "migration-stale".
Definition CodeActivationAmbiguous : string := "activation-ambiguous".
Definition CodeRecoveryAmbiguous : string := "recovery-ambiguous".
Definition CodeJournalInvalid : string := "journal-invalid".

(** ** Validators *)

(** internal/releasetransition/validation.go:27-32 [validateSafeID] *)
Definition validateSafeID (value field : string) : result journal_error unit :=
  refuse ((128 <? len value) || negb (SafeID value)) (FieldInvalid field).

(** internal/releasetransition/validation.go:34-36 [validateReleaseID] *)
Definition validateReleaseID (value field : string) : result journal_error unit :=
  validateSafeID value field.

(** internal/releasetransition/validation.go:38-40 [validateTransactionID] *)
Definition validateTransactionID (value : string) : result journal_error unit :=
  validateSafeID value "transaction ID".

(** internal/releasetransition/validation.go:42-52 [validFingerprint] *)
Definition validFingerprint (value : string) : bool :=
  (len value =? 64) && forallb hex_rune (runes value).

(** internal/releasetransition/validation.go:54-59 [validateFingerprint] *)
Definition validateFingerprint (value field : string) : result journal_error unit :=
  refuse (negb (validFingerprint value)) (FieldInvalid field).

(** internal/releasetransition/validation.go:61-68 [validatePlanToken] *)
Definition validatePlanToken (value : string) : result journal_error unit :=
  refuse (negb (HasPrefix value "plan-v1-") || negb (validFingerprint (TrimPrefix value "plan-v1-")))
    (InvalidRecord "plan token is invalid").

(** internal/releasetransition/validation.go:70-77 [validateResumePlanToken] *)
Definition validateResumePlanToken (value : string) : result journal_error unit :=
  refuse (negb (HasPrefix value "resume-v1-") || negb (validFingerprint (TrimPrefix value "resume-v1-")))
    (InvalidRecord "resume plan token is invalid").

(** internal/releasetransition/validation.go:97-102 [releaseIDsEqual] *)
Definition releaseIDsEqual (left right : option string) : bool :=
  match left, right with
  | Some l, Some r => bool_decide (l = r)
  | None, None => true
  | _, _ => false
  end.

(** internal/releasetransition/contract.go:127-129 [validDirection] *)
Definition validDirection (value : string) : bool :=
  bool_decide (value = "activate-target") || bool_decide (value = "activate-previous").

(** internal/releasetransition/contract.go:145-153 [validDecision] *)
Definition validDecision (value : string) : bool :=
  bool_decide (value ∈ ["preserve"; "transform"; "canonicalize"; "reset"; "quarantine"; "block"]).

(** internal/releasetransition/contract.go:117-125 [Goal.Validate] *)
Definition Goal_Validate (goal : ReleaseGoal) : result journal_error unit :=
  validateReleaseID (goal_Target goal) "target release";;
  refuse (negb (validDirection (goal_Direction goal)))
    (UnknownValue "release direction" (goal_Direction goal)).

(** internal/releasetransition/records.go:120-136 [ReleasePair.Validate] *)
Definition ReleasePair_Validate (pair : ReleasePair) : result journal_error unit :=
  validateReleaseID (pair_From pair) "source release";;
  validateReleaseID (pair_Target pair) "target release";;
  match pair_Previous pair with
  | Some previous =>
      validateReleaseID previous "previous release";;
      refuse (bool_decide (previous = pair_From pair))
        (InvalidRecord "previous release equals the source release")
  | None => Ok tt
  end.

(** internal/releasetransition/records.go:138-151 [ReleaseLinks.Validate] *)
Definition ReleaseLinks_Validate (links : ReleaseLinks) : result journal_error unit :=
  validateReleaseID (links_Active links) "active release";;
  match links_Previous links with
  | Some previous =>
      validateReleaseID previous "previous link release";;
      refuse (bool_decide (previous = links_Active links))
        (InvalidRecord "active and previous links resolve to the same release")
  | None => Ok tt
  end.

(** internal/releasetransition/process_protocol.go:150-158 [validateSourceIngressRolePath] *)
Definition validateSourceIngressRolePath (path : string) : result journal_error unit :=
  refuse (bool_decide (path = "") || (4096 <? len path) || negb (IsAbs path) ||
          bool_decide (path = "/") || bool_decide (Clean path ≠ path) || ContainsFunc path IsControl)
    (InvalidRecord "path must be clean, absolute, non-root, and bounded").

(** internal/releasetransition/process_protocol.go:127-148 [SourceIngressRequest.Validate] *)
Definition SourceIngressRequest_Validate (request : SourceIngressRequest) : result journal_error unit :=
  refuse (negb (ing_SchemaVersion request =? 1) || bool_decide (ing_Kind request ≠ "pre-go-source-v1"))
    (InvalidRecord "unknown source ingress descriptor schema or kind");;
  for_each validateSourceIngressRolePath
    [ing_SourceRoot request; ing_DataHome request; ing_BinDir request; ing_RC request;
     ing_LoginRC request].

(** internal/releasetransition/model.go:210-213 [releasePairsEqual] *)
Definition releasePairsEqual (left right : ReleasePair) : bool :=
  bool_decide (pair_From left = pair_From right) && bool_decide (pair_Target left = pair_Target right) &&
  releaseIDsEqual (pair_Previous left) (pair_Previous right).

(** internal/releasetransition/records.go:246-286 [EvidenceRecord.validate] *)
Definition EvidenceRecord_validate (record : EvidenceRecord) : result journal_error unit :=
  refuse (negb (ev_SchemaVersion record =? 2)) (UnsupportedSchema (ev_SchemaVersion record));;
  validateTransactionID (ev_Transaction record);;
  ReleasePair_Validate (ev_Releases record);;
  validateSafeID (ev_Step record) "evidence step ID";;
  for_each (λ value, map_err (λ _, SomeFieldInvalid) (validateFingerprint value ""))
    [ev_Expected record; ev_Desired record; ev_Observed record];;
  (if bool_decide (ev_Recovery record ≠ "")
   then validateFingerprint (ev_Recovery record) "recovery fingerprint" else Ok tt);;
  if bool_decide (ev_Checkpoint record = "captured") then
    refuse (bool_decide (ev_Observed record ≠ ev_Expected record))
      (InvalidRecord "captured evidence does not match expected-before")
  else if bool_decide (ev_Checkpoint record = "applied") ||
          bool_decide (ev_Checkpoint record = "verified") then
    refuse (bool_decide (ev_Observed record ≠ ev_Desired record))
      (InvalidRecord "post-apply evidence does not match desired-after")
  else Err (UnknownValue "evidence checkpoint" (ev_Checkpoint record)).

(** The map literal of [validateStepEvidence]. *)
Definition want_evidence (checkpoint : string) : string :=
  if bool_decide (checkpoint = "evidence") then "captured"
  else if bool_decide (checkpoint = "applied") then "applied"
  else if bool_decide (checkpoint = "verified") then "verified" else "".

(** internal/releasetransition/records.go:420-447 [validateStepEvidence] *)
Definition validateStepEvidence (journal : JournalRecord) (step : JournalStep) :
    result journal_error unit :=
  if bool_decide (step_Checkpoint step = "intent") then
    refuse (bool_decide (is_Some (step_Evidence step)))
      (InvalidRecord "intent-only step has premature evidence")
  else
    evidence ← expect (step_Evidence step) (InvalidRecord "step is missing evidence");
    EvidenceRecord_validate evidence;;
    refuse (bool_decide (ev_Transaction evidence ≠ jr_Transaction journal) ||
            negb (releasePairsEqual (ev_Releases evidence) (jr_Releases journal)) ||
            bool_decide (ev_Step evidence ≠ step_ID step) ||
            bool_decide (ev_Expected evidence ≠ step_Expected step) ||
            bool_decide (ev_Desired evidence ≠ step_Desired step))
      (InvalidRecord "step evidence does not match its exact journal intent");;
    refuse (bool_decide (ev_Checkpoint evidence ≠ want_evidence (step_Checkpoint step)))
      (InvalidRecord "step evidence checkpoint does not match journal checkpoint").

(** internal/releasetransition/records.go:449-457 [validJournalCheckpoint] *)
Definition validJournalCheckpoint (value : string) : bool :=
  bool_decide (value ∈ ["authorized"; "migrating"; "activation-intent"; "target-active";
                        "reconciling"; "complete"]).

(** internal/releasetransition/records.go:459-461 [validStepCheckpoint] *)
Definition validStepCheckpoint (value : string) : bool :=
  bool_decide (value = "intent") || bool_decide (value = "evidence") ||
  bool_decide (value = "applied") || bool_decide (value = "verified").

(** internal/releasetransition/records.go:463-466 [journalAfterMigrations] *)
Definition journalAfterMigrations (value : string) : bool :=
  bool_decide (value = "activation-intent") || bool_decide (value = "target-active") ||
  bool_decide (value = "reconciling") || bool_decide (value = "complete").

Definition intent_step_json (step : JournalStep) : json :=
  JObject (field "id" (JString (step_ID step)) ++ field "migration" (JString (step_Migration step)) ++
           field "resource" (JString (step_Resource step)) ++
           field "decision" (JString (step_Decision step)) ++
           field "expected" (JString (step_Expected step)) ++ field "desired" (JString (step_Desired step))).

(** internal/releasetransition/records.go:468-501 [bindJournalIntent] *)
Definition bindJournalIntent (authorizationPlan resumePlan observationScope : string)
    (steps : list JournalStep) : string :=
  EncodeToString (Sum256 (marshal (JObject
    (field "authorizationPlan" (JString authorizationPlan) ++ field "resumePlan" (JString resumePlan) ++
     field "observationScope" (JString observationScope) ++
     field "steps" (JArray (List.map intent_step_json steps)))))).

(** internal/releasetransition/records.go:201-234 [JournalRecord.Validate]: the
    body of the loop over the steps. *)
Definition validate_journal_step (record : JournalRecord) (ids : gset string) (step : JournalStep) :
    result journal_error (gset string) :=
  validateSafeID (step_ID step) "journal step ID";;
  refuse (seen (step_ID step) ids) (DuplicateStep (step_ID step));;
  validateSafeID (step_Migration step) "journal migration ID";;
  validateSafeID (step_Resource step) "journal resource ID";;
  refuse (negb (validDecision (step_Decision step)) || bool_decide (step_Decision step = "block"))
    (UnknownValue "decision" (step_Decision step));;
  validateFingerprint (step_Expected step) "expected step fingerprint";;
  validateFingerprint (step_Desired step) "desired step fingerprint";;
  refuse (negb (validStepCheckpoint (step_Checkpoint step)))
    (UnknownValue "step checkpoint" (step_Checkpoint step));;
  validateStepEvidence record step;;
  refuse (journalAfterMigrations (jr_Checkpoint record) && bool_decide (step_Checkpoint step ≠ "verified"))
    (InvalidRecord "journal activation starts before step is verified");;
  Ok ({[ step_ID step ]} ∪ ids).

(** internal/releasetransition/records.go:153-244 [JournalRecord.Validate] *)
Definition JournalRecord_Validate (record : JournalRecord) : result journal_error unit :=
  refuse (negb (jr_SchemaVersion record =? 2)) (UnsupportedSchema (jr_SchemaVersion record));;
  validateTransactionID (jr_Transaction record);;
  Goal_Validate (jr_Goal record);;
  ReleasePair_Validate (jr_Releases record);;
  refuse (bool_decide (goal_Target (jr_Goal record) ≠ pair_Target (jr_Releases record)))
    (InvalidRecord "journal goal does not match the exact release pair");;
  validatePlanToken (jr_AuthorizationPlan record);;
  validateResumePlanToken (jr_ResumePlan record);;
  refuse (bool_decide (jr_AuthorizationPlan record = jr_ResumePlan record))
    (InvalidRecord "authorization and resume plans must be independently bound");;
  for_each (λ value, map_err (λ _, SomeFieldInvalid) (validateFingerprint value ""))
    [jr_ArtifactDigest record; jr_RegistryDigest record; jr_CatalogDigest record;
     jr_ObservationScope record; jr_AuthorizationDigest record];;
  match jr_SourceIngress record with
  | Some source => SourceIngressRequest_Validate source
  | None => Ok tt
  end;;
  refuse (negb (validJournalCheckpoint (jr_Checkpoint record)))
    (UnknownValue "journal checkpoint" (jr_Checkpoint record));;
  refuse (256 <? length (jr_steps record))%nat (InvalidRecord "journal has too many steps");;
  for_range (validate_journal_step record) (jr_steps record) ∅ ≫= λ _,
  validateFingerprint (jr_IntentDigest record) "journal intent digest";;
  refuse (bool_decide (jr_IntentDigest record ≠
            bindJournalIntent (jr_AuthorizationPlan record) (jr_ResumePlan record)
              (jr_ObservationScope record) (jr_steps record)))
    (InvalidRecord "journal step intent does not match its authorized plan binding").

(** internal/releasetransition/plan.go:271-298 [validatePlannerIntents]: the body
    of its loop. *)
Definition validate_intent (ids : gset string) (intent : PlannerStepIntent) :
    result journal_error (gset string) :=
  validateSafeID (int_ID intent) "planner step intent ID";;
  refuse (seen (int_ID intent) ids) (DuplicateStep (int_ID intent));;
  validateSafeID (int_Migration intent) "planner migration ID";;
  validateSafeID (int_Resource intent) "planner resource ID";;
  refuse (negb (validDecision (int_Decision intent)) || bool_decide (int_Decision intent = "block"))
    (UnknownValue "decision" (int_Decision intent));;
  validateFingerprint (int_Expected intent) "planner expected fingerprint";;
  validateFingerprint (int_Desired intent) "planner desired fingerprint";;
  Ok ({[ int_ID intent ]} ∪ ids).

(** internal/releasetransition/plan.go:271-298 [validatePlannerIntents] *)
Definition validatePlannerIntents (intents : list PlannerStepIntent) : result journal_error unit :=
  for_range validate_intent intents ∅ ≫= λ _, Ok tt.

(** ** The wire form *)

(** internal/releasetransition/journal_codec.go:87-89 [goalToJournalV2] *)
Definition goalToJournalV2 (goal : ReleaseGoal) : V2Goal :=
  mkV2Goal (goal_Target goal) (goal_Direction goal).

(** internal/releasetransition/journal_codec.go:91-93 [goalFromJournalV2] *)
Definition goalFromJournalV2 (goal : V2Goal) : ReleaseGoal :=
  mkReleaseGoal (v2g_Target goal) (v2g_Direction goal).

(** internal/releasetransition/journal_codec.go:95-102 [releasePairToJournalV2] *)
Definition releasePairToJournalV2 (pair : ReleasePair) : V2ReleasePair :=
  mkV2ReleasePair (pair_From pair) (pair_Previous pair) (pair_Target pair).

(** internal/releasetransition/journal_codec.go:104-111 [releasePairFromJournalV2] *)
Definition releasePairFromJournalV2 (pair : V2ReleasePair) : ReleasePair :=
  mkReleasePair (v2p_From pair) (v2p_Previous pair) (v2p_Target pair).

(** internal/releasetransition/journal_codec.go:113-126 [sourceIngressToJournalV2] *)
Definition sourceIngressToJournalV2 (source : option SourceIngressRequest) : option V2SourceIngress :=
  match source with
  | None => None
  | Some s => Some (mkV2SourceIngress (ing_SchemaVersion s) (ing_Kind s) (ing_SourceRoot s)
                      (ing_DataHome s) (ing_BinDir s) (ing_RC s) (ing_LoginRC s))
  end.

(** internal/releasetransition/journal_codec.go:128-141 [sourceIngressFromJournalV2] *)
Definition sourceIngressFromJournalV2 (source : option V2SourceIngress) : option SourceIngressRequest :=
  match source with
  | None => None
  | Some s => Some (mkSourceIngressRequest (v2i_SchemaVersion s) (v2i_Kind s) (v2i_SourceRoot s)
                      (v2i_DataHome s) (v2i_BinDir s) (v2i_RC s) (v2i_LoginRC s))
  end.

(** internal/releasetransition/journal_codec.go:169-184 [evidenceToJournalV2] *)
Definition evidenceToJournalV2 (evidence : option EvidenceRecord) : option V2Evidence :=
  match evidence with
  | None => None
  | Some e => Some (mkV2Evidence (ev_SchemaVersion e) (ev_Transaction e)
                      (releasePairToJournalV2 (ev_Releases e)) (ev_Step e) (ev_Expected e) (ev_Desired e)
                      (ev_Observed e) (ev_Recovery e) (ev_Checkpoint e))
  end.

(** internal/releasetransition/journal_codec.go:186-201 [evidenceFromJournalV2] *)
Definition evidenceFromJournalV2 (evidence : option V2Evidence) : option EvidenceRecord :=
  match evidence with
  | None => None
  | Some e => Some (mkEvidenceRecord (v2e_SchemaVersion e) (v2e_Transaction e)
                      (releasePairFromJournalV2 (v2e_Releases e)) (v2e_Step e) (v2e_Expected e)
                      (v2e_Desired e) (v2e_Observed e) (v2e_Recovery e) (v2e_Checkpoint e))
  end.

(** internal/releasetransition/journal_codec.go:143-154 [journalStepToV2] *)
Definition journalStepToV2 (step : JournalStep) : V2Step :=
  mkV2Step (step_ID step) (step_Migration step) (step_Resource step) (step_Decision step)
    (step_Expected step) (step_Desired step) (step_Checkpoint step)
    (evidenceToJournalV2 (step_Evidence step)).

(** internal/releasetransition/journal_codec.go:156-167 [journalStepFromV2] *)
Definition journalStepFromV2 (step : V2Step) : JournalStep :=
  mkJournalStep (v2s_ID step) (v2s_Migration step) (v2s_Resource step) (v2s_Decision step)
    (v2s_Expected step) (v2s_Desired step) (v2s_Checkpoint step)
    (evidenceFromJournalV2 (v2s_Evidence step)).

(** internal/releasetransition/journal_codec.go:35-59 [journalRecordToV2] *)
Definition journalRecordToV2 (record : JournalRecord) : V2Record :=
  mkV2Record (jr_SchemaVersion record) (jr_Transaction record) (goalToJournalV2 (jr_Goal record))
    (releasePairToJournalV2 (jr_Releases record)) (jr_AuthorizationPlan record) (jr_ResumePlan record)
    (jr_ArtifactDigest record) (jr_RegistryDigest record) (jr_CatalogDigest record)
    (jr_ObservationScope record) (jr_AuthorizationDigest record) (jr_IntentDigest record)
    (sourceIngressToJournalV2 (jr_SourceIngress record)) (jr_Checkpoint record)
    (match jr_Steps record with Some steps => Some (journalStepToV2 <$> steps) | None => None end).

(** internal/releasetransition/journal_codec.go:61-85 [journalRecordFromV2] *)
Definition journalRecordFromV2 (wire : V2Record) : JournalRecord :=
  mkJournalRecord (v2_SchemaVersion wire) (v2_Transaction wire) (goalFromJournalV2 (v2_Goal wire))
    (releasePairFromJournalV2 (v2_Releases wire)) (v2_AuthorizationPlan wire) (v2_ResumePlan wire)
    (v2_ArtifactDigest wire) (v2_RegistryDigest wire) (v2_CatalogDigest wire)
    (v2_ObservationScope wire) (v2_AuthorizationDigest wire) (v2_IntentDigest wire)
    (sourceIngressFromJournalV2 (v2_SourceIngress wire)) (v2_Checkpoint wire)
    (match v2_Steps wire with Some steps => Some (journalStepFromV2 <$> steps) | None => None end).

(** internal/releasetransition/journal_codec.go:221-233 [supersededJournalToV1] *)
Definition supersededJournalToV1 (record : SupersededJournalRecord) : V2Archive :=
  let r := sup_Replacement record in
  mkV2Archive (sup_SchemaVersion record) (sup_AuthorizationPlan record)
    (mkV2Replacement (rep_Transaction r) (rep_Fingerprint r) (rep_Reason r) (rep_SourceVersion r))
    (journalRecordToV2 (sup_Journal record)).

(** internal/releasetransition/journal_codec.go:235-247 [supersededJournalFromV1] *)
Definition supersededJournalFromV1 (archive : V2Archive) : SupersededJournalRecord :=
  let r := v2a_Replacement archive in
  mkSupersededJournalRecord (v2a_SchemaVersion archive) (v2a_AuthorizationPlan archive)
    (mkJournalReplacement (v2r_Transaction r) (v2r_Fingerprint r) (v2r_Reason r) (v2r_SourceVersion r))
    (journalRecordFromV2 (v2a_Journal archive)).

(** internal/releasetransition/journal_codec.go:18-24 [marshalJournalV2JSON] *)
Definition marshalJournalV2JSON (record : JournalRecord) : result journal_error string :=
  V2Encode (journalRecordToV2 record).

(** internal/releasetransition/records.go:292-298 [MarshalJournal] *)
Definition MarshalJournal (record : JournalRecord) : result journal_error string :=
  payload ← marshalJournalV2JSON record; Ok (payload +:+ String "010" "").

(** internal/releasetransition/journal_codec.go:213-219 [marshalSupersededJournalV1JSON] *)
Definition marshalSupersededJournalV1JSON (record : SupersededJournalRecord) :
    result journal_error string :=
  V2EncodeArchive (supersededJournalToV1 record).

(** internal/releasetransition/records.go:338-344 [MarshalSupersededJournal] *)
Definition MarshalSupersededJournal (record : SupersededJournalRecord) : result journal_error string :=
  payload ← marshalSupersededJournalV1JSON record; Ok (payload +:+ String "010" "").

(** ** Evaluation *)

(** internal/releasetransition/model.go:206-208 [linksEqual] *)
Definition linksEqual (left right : ReleaseLinks) : bool :=
  bool_decide (links_Active left = links_Active right) &&
  releaseIDsEqual (links_Previous left) (links_Previous right).

(** internal/releasetransition/model.go:189-196 [readyOutcome] *)
Definition readyOutcome (outcome : Outcome) : Outcome :=
  mkOutcome StatusReady true (o_Active outcome) (o_Previous outcome) (o_Target outcome) CodeReady
    "the target release is active and the transition is verified" ""
    (o_Transaction outcome) (o_Warnings outcome).

(** internal/releasetransition/model.go:198-204 [operatorOutcome] *)
Definition operatorOutcome (outcome : Outcome) (code message : string) : Outcome :=
  mkOutcome StatusOperatorActionRequired (o_ReachedGoal outcome) (o_Active outcome)
    (o_Previous outcome) (o_Target outcome) code message "run yard update --check"
    (o_Transaction outcome) (o_Warnings outcome).

(** internal/releasetransition/model.go:173-187 [linksAllowed] *)
Definition linksAllowed (checkpoint : string) (initial staged activated sameRelease : bool) : bool :=
  if sameRelease then initial
  else if bool_decide (checkpoint ∈ ["authorized"; "migrating"]) then initial
  else if bool_decide (checkpoint = "activation-intent") then initial || staged || activated
  else if bool_decide (checkpoint ∈ ["target-active"; "reconciling"; "complete"]) then activated
  else false.

(** internal/releasetransition/model.go:115-128 [plannerIntentsMatchJournal] *)
Definition plannerIntentsMatchJournal (intents : list PlannerStepIntent) (steps : list JournalStep) : bool :=
  if negb (length intents =? length steps)%nat then false
  else forallb (λ '(intent, step),
    negb (bool_decide (int_ID intent ≠ step_ID step) ||
          bool_decide (int_Migration intent ≠ step_Migration step) ||
          bool_decide (int_Resource intent ≠ step_Resource step) ||
          bool_decide (int_Decision intent ≠ step_Decision step) ||
          bool_decide (int_Expected intent ≠ step_Expected step) ||
          bool_decide (int_Desired intent ≠ step_Desired step))) (zip intents steps).

(** internal/releasetransition/model.go:130-137 [validCurrentBindings] *)
Definition validCurrentBindings (facts : TransitionFacts) : bool :=
  is_ok (validateResumePlanToken (f_CurrentPlan facts)) &&
  is_ok (validatePlanToken (f_VerifiedAuthorizationPlan facts)) &&
  validFingerprint (f_CurrentArtifactDigest facts) && validFingerprint (f_CurrentRegistryDigest facts) &&
  validFingerprint (f_CurrentCatalogDigest facts) && validFingerprint (f_CurrentAuthorizationDigest facts).

(** internal/releasetransition/model.go:144-157 [validateObservedSteps]: the loop
    that collects the observations; the error is the returned code. *)
Definition observe_step (known : gmap string JournalStep) (actual : gmap string string)
    (observation : StepObservation) : result string (gmap string string) :=
  refuse (negb (is_ok (validateSafeID (obs_Step observation) "observed step ID")) ||
          negb (validFingerprint (obs_Fingerprint observation))) CodeRecoveryAmbiguous;;
  refuse (negb (bool_decide (is_Some (known !! obs_Step observation)))) CodeRecoveryAmbiguous;;
  refuse (bool_decide (is_Some (actual !! obs_Step observation))) CodeRecoveryAmbiguous;;
  Ok (<[ obs_Step observation := obs_Fingerprint observation ]> actual).

(** internal/releasetransition/model.go:158-169 [validateObservedSteps]: the loop
    over the journaled steps. *)
Definition check_observed (actual : gmap string string) (step : JournalStep) : result string unit :=
  if bool_decide (step_Checkpoint step = "verified") then Ok tt else
  fingerprint ← expect (actual !! step_ID step) CodeRecoveryAmbiguous;
  refuse (bool_decide (fingerprint ≠ step_Expected step) && bool_decide (fingerprint ≠ step_Desired step))
    CodeMigrationStale.

(** internal/releasetransition/model.go:139-171 [validateObservedSteps] *)
Definition validateObservedSteps (steps : list JournalStep) (observations : list StepObservation) :
    result string unit :=
  let known := foldl (λ m step, <[ step_ID step := step ]> m) ∅ steps in
  actual ← for_range (observe_step known) observations ∅;
  for_each (check_observed actual) steps.

Definition empty_outcome : Outcome := mkOutcome "" false "" None "" "" "" "" None [].

(** internal/releasetransition/model.go:26-113 [Evaluate] *)
Definition Evaluate (facts : TransitionFacts) : Outcome :=
  if negb (is_ok (Goal_Validate (f_Goal facts))) then
    operatorOutcome empty_outcome CodeJournalInvalid "release goal is invalid"
  else if negb (is_ok (ReleasePair_Validate (f_Releases facts))) ||
          bool_decide (goal_Target (f_Goal facts) ≠ pair_Target (f_Releases facts)) then
    operatorOutcome empty_outcome CodeJournalInvalid "release pair is invalid"
  else if negb (is_ok (ReleaseLinks_Validate (f_Links facts))) then
    operatorOutcome empty_outcome CodeActivationAmbiguous "release links are ambiguous"
  else
  let releases := f_Releases facts in
  let base := mkOutcome "" false (links_Active (f_Links facts)) (links_Previous (f_Links facts))
                (goal_Target (f_Goal facts)) "" "" "" None [] in
  let same := bool_decide (pair_From releases = pair_Target releases) in
  let initial := linksEqual (f_Links facts) (mkReleaseLinks (pair_From releases) (pair_Previous releases)) in
  let activated := linksEqual (f_Links facts)
                     (mkReleaseLinks (pair_Target releases) (Some (pair_From releases))) in
  let staged := negb same && linksEqual (f_Links facts)
                  (mkReleaseLinks (pair_From releases) (Some (pair_Target releases))) in
  match f_Journal facts with
  | None =>
      if f_FixedPointVerified facts && ((same && initial) || activated) then readyOutcome base
      else if initial then
        mkOutcome StatusMigrationRequired false (o_Active base) (o_Previous base) (o_Target base)
          CodeTransitionRequired "the inspected release transition has not started" "run yard update" None []
      else if activated then
        operatorOutcome base CodeRecoveryAmbiguous "the active target has no trusted completion evidence"
      else operatorOutcome base CodeActivationAmbiguous "release links do not match a known transition checkpoint"
  | Some journal =>
      if negb (is_ok (JournalRecord_Validate journal)) || bool_decide (jr_Goal journal ≠ f_Goal facts) ||
         negb (releasePairsEqual (jr_Releases journal) releases) then
        operatorOutcome base CodeJournalInvalid "release transition journal is invalid or foreign"
      else
      let base := mkOutcome "" false (o_Active base) (o_Previous base) (o_Target base) "" "" ""
                    (Some (jr_Transaction journal)) [] in
      if negb (validCurrentBindings facts) then
        operatorOutcome base CodeJournalInvalid "current release transition bindings are invalid"
      else if bool_decide (f_VerifiedAuthorizationPlan facts ≠ jr_AuthorizationPlan journal) ||
              bool_decide (f_CurrentPlan facts ≠ jr_ResumePlan journal) ||
              bool_decide (f_CurrentArtifactDigest facts ≠ jr_ArtifactDigest journal) ||
              bool_decide (f_CurrentRegistryDigest facts ≠ jr_RegistryDigest journal) ||
              bool_decide (f_CurrentCatalogDigest facts ≠ jr_CatalogDigest journal) ||
              bool_decide (f_CurrentAuthorizationDigest facts ≠ jr_AuthorizationDigest journal) then
        operatorOutcome base CodePlanStale "the authorized release transition plan is stale"
      else if negb (is_ok (validatePlannerIntents (f_CurrentIntents facts))) then
        operatorOutcome base CodeJournalInvalid "current planner step intents are invalid"
      else if negb (plannerIntentsMatchJournal (f_CurrentIntents facts) (jr_steps journal)) then
        operatorOutcome base CodePlanStale "current planner step intents do not match the authorized journal"
      else if negb (linksAllowed (jr_Checkpoint journal) initial staged activated same) then
        operatorOutcome base CodeActivationAmbiguous
          "release links do not match the journaled activation checkpoint"
      else match validateObservedSteps (jr_steps journal) (f_Steps facts) with
           | Err code =>
               operatorOutcome base code
                 (if bool_decide (code = CodeRecoveryAmbiguous)
                  then "observed migration resources are incomplete or foreign"
                  else "an observed migration resource does not match a journaled checkpoint")
           | Ok _ =>
               if bool_decide (jr_Checkpoint journal = "complete") && f_FixedPointVerified facts
               then readyOutcome base
               else mkOutcome StatusRecovering false (o_Active base) (o_Previous base) (o_Target base)
                      CodeRecoveryPending "the authorized release transition can resume from observed facts"
                      "run yard update" (o_Transaction base) []
           end
  end.

(** internal/releasetransition/transition_v2.go:3874-3878 [activatedReleaseLinks] *)
Definition activatedReleaseLinks (links : ReleaseLinks) (releases : ReleasePair) : bool :=
  linksEqual links (mkReleaseLinks (pair_Target releases) (Some (pair_From releases))).

(** internal/releasetransition/transition_v2.go:4045-4047 [initialReleaseLinks] *)
Definition initialReleaseLinks (links : ReleaseLinks) (pair : ReleasePair) : bool :=
  bool_decide (links_Active links = pair_From pair) &&
  releaseIDsEqual (links_Previous links) (pair_Previous pair).

(** internal/releasetransition/transition_v2.go:3861-3872 [journalLinksAllowed] *)
Definition journalLinksAllowed (journal : JournalRecord) (links : ReleaseLinks) : bool :=
  let releases := jr_Releases journal in
  let same := bool_decide (pair_From releases = pair_Target releases) in
  let initial := initialReleaseLinks links releases in
  let activated := activatedReleaseLinks links releases in
  let staged := negb same &&
    linksEqual links (mkReleaseLinks (pair_From releases) (Some (pair_Target releases))) in
  linksAllowed (jr_Checkpoint journal) initial staged activated same.

(** internal/releasetransition/transition_v2.go:4030-4043 [evidenceFor] *)
Definition evidenceFor (journal : JournalRecord) (step : JournalStep)
    (checkpoint observed recovery : string) : EvidenceRecord :=
  mkEvidenceRecord 2 (jr_Transaction journal) (jr_Releases journal) (step_ID step)
    (step_Expected step) (step_Desired step) observed recovery checkpoint.

(** ** The two validators agree *)

Lemma validateSafeID_Ok value field u : validateSafeID value field = Ok u ↔ safe_id value.
Proof. unfold validateSafeID, safe_id. rewrite refuse_Ok. bools. tauto. Qed.

Lemma validateFingerprint_Ok value field u : validateFingerprint value field = Ok u ↔ fingerprint_ok value.
Proof. unfold validateFingerprint. rewrite refuse_Ok, negb_false_iff. done. Qed.

Lemma validatePlanToken_Ok value u :
  validatePlanToken value = Ok u ↔ v2_validToken value "plan-v1-" = true.
Proof.
  unfold validatePlanToken, v2_validToken. rewrite refuse_Ok, orb_false_iff, !negb_false_iff, andb_true_iff. done.
Qed.

Lemma validateResumePlanToken_Ok value u :
  validateResumePlanToken value = Ok u ↔ v2_validToken value "resume-v1-" = true.
Proof.
  unfold validateResumePlanToken, v2_validToken.
  rewrite refuse_Ok, orb_false_iff, !negb_false_iff, andb_true_iff. done.
Qed.

Lemma ReleasePair_Validate_Ok p u :
  ReleasePair_Validate p = Ok u ↔ pair_ok (releasePairToJournalV2 p).
Proof.
  destruct u. unfold ReleasePair_Validate, validateReleaseID, pair_ok. simpl. rewrite bind_Ok.
  setoid_rewrite validateSafeID_Ok. setoid_rewrite bind_Ok. setoid_rewrite validateSafeID_Ok.
  destruct (pair_Previous p) as [q|].
  - setoid_rewrite bind_Ok. setoid_rewrite validateSafeID_Ok. setoid_rewrite refuse_Ok.
    setoid_rewrite bool_decide_eq_false. naive_solver.
  - naive_solver.
Qed.

Lemma Goal_Validate_Ok g u :
  Goal_Validate g = Ok u ↔
  safe_id (goal_Target g) ∧ goal_Direction g ∈ ["activate-target"; "activate-previous"].
Proof.
  destruct u. unfold Goal_Validate, validateReleaseID, validDirection. rewrite bind_Ok.
  setoid_rewrite validateSafeID_Ok. setoid_rewrite refuse_Ok. setoid_rewrite negb_false_iff.
  setoid_rewrite orb_true_iff. setoid_rewrite bool_decide_eq_true.
  rewrite !elem_of_cons, elem_of_nil. naive_solver.
Qed.

Lemma ReleaseLinks_Validate_Ok l u :
  ReleaseLinks_Validate l = Ok u ↔
  safe_id (links_Active l) ∧
  (∀ p, links_Previous l = Some p → safe_id p ∧ p ≠ links_Active l).
Proof.
  destruct u. unfold ReleaseLinks_Validate, validateReleaseID. rewrite bind_Ok.
  setoid_rewrite validateSafeID_Ok. destruct (links_Previous l) as [q|].
  - setoid_rewrite bind_Ok. setoid_rewrite validateSafeID_Ok. setoid_rewrite refuse_Ok.
    setoid_rewrite bool_decide_eq_false. naive_solver.
  - naive_solver.
Qed.

Lemma role_path_Ok path u : validateSourceIngressRolePath path = Ok u ↔ path_ok path.
Proof.
  unfold validateSourceIngressRolePath, path_ok, v2_path_bad. rewrite refuse_Ok.
  replace (bool_decide (path = "")) with (len path =? 0); [done|].
  unfold len. destruct path; [done|]. by rewrite bool_decide_false.
Qed.

Lemma SourceIngressRequest_Validate_Ok i i' u :
  sourceIngressToJournalV2 (Some i) = Some i' →
  SourceIngressRequest_Validate i = Ok u ↔ ingress_ok i'.
Proof.
  intros [= <-]. destruct u. unfold SourceIngressRequest_Validate, ingress_ok. simpl. rewrite bind_Ok.
  setoid_rewrite refuse_Ok. setoid_rewrite for_each_Ok. setoid_rewrite role_path_Ok.
  setoid_rewrite orb_false_iff. setoid_rewrite negb_false_iff. setoid_rewrite Z.eqb_eq.
  setoid_rewrite bool_decide_eq_false. split.
  - intros (_ & [Hs Hk] & H). destruct (decide (ing_Kind i = "pre-go-source-v1")); [|done].
    split_and!; try done; apply H; set_solver.
  - intros (Hs & Hk & H). exists tt. split; [naive_solver|]. intros x Hx. destruct_and!. set_solver.
Qed.

Lemma releaseIDsEqual_true l r : releaseIDsEqual l r = true ↔ l = r.
Proof. destruct l, r; simpl; rewrite ?bool_decide_eq_true; naive_solver. Qed.

Lemma releasePairsEqual_true l r : releasePairsEqual l r = true ↔ l = r.
Proof.
  unfold releasePairsEqual. bools. rewrite releaseIDsEqual_true. destruct l, r; simpl. naive_solver.
Qed.

Lemma linksEqual_true l r : linksEqual l r = true ↔ l = r.
Proof.
  unfold linksEqual. bools. rewrite releaseIDsEqual_true. destruct l, r; simpl. naive_solver.
Qed.

#[export] Instance releasePairToJournalV2_inj : Inj (=) (=) releasePairToJournalV2.
Proof. intros [] [] [=]. by subst. Qed.

Lemma some_fingerprints_Ok l u :
  for_each (λ value, map_err (λ _, SomeFieldInvalid) (validateFingerprint value "")) l = Ok u ↔
  Forall fingerprint_ok l.
Proof.
  rewrite for_each_Ok, Forall_forall. setoid_rewrite map_err_Ok. by setoid_rewrite validateFingerprint_Ok.
Qed.

Lemma EvidenceRecord_validate_Ok e e' u :
  evidenceToJournalV2 (Some e) = Some e' →
  EvidenceRecord_validate e = Ok u ↔ V2Evidence_validate e' = Ok u.
Proof.
  intros [= <-]. destruct u. rewrite V2Evidence_validate_Ok. unfold EvidenceRecord_validate, validateTransactionID. simpl.
  unfold SchemaVersion. split.
  - intros H. ok_inv. rewrite validateSafeID_Ok, ReleasePair_Validate_Ok, some_fingerprints_Ok in *.
    decompose_Forall_hyps. bools. split_and!; try done.
    + destruct (decide (ev_Recovery e = "")) as [|Hr]; [by left|right].
      rewrite (bool_decide_true (_ ≠ _)) in * by done. by eapply validateFingerprint_Ok.
    + repeat case_bool_decide; simpl in *; ok_inv; bools; tauto.
  - intros (Hs & Ht & Hp & Hst & He & Hd & Ho & Hrec & Hc). rewrite Hs. simpl.
    rewrite !(proj2 (validateSafeID_Ok _ _ tt)), (proj2 (ReleasePair_Validate_Ok _ tt)) by done. simpl.
    rewrite (proj2 (some_fingerprints_Ok _ tt)) by (by repeat constructor). simpl.
    assert ((if bool_decide (ev_Recovery e ≠ "")
             then validateFingerprint (ev_Recovery e) "recovery fingerprint" else Ok tt) = Ok tt) as ->.
    { case_bool_decide; [|done]. apply validateFingerprint_Ok. tauto. }
    simpl. destruct Hc as [[-> Ho']|[[->| ->] Ho']]; simpl; apply refuse_Ok, bool_decide_eq_false; tauto.
Qed.

Lemma decision_Ok value :
  negb (validDecision value) || bool_decide (value = "block") = false ↔ value ∈ decisions.
Proof.
  unfold validDecision, decisions. rewrite orb_false_iff, negb_false_iff, bool_decide_eq_true, bool_decide_eq_false.
  rewrite !elem_of_cons, elem_of_nil. split.
  - intros [H Hb]. tauto.
  - intros H. split; [tauto|]. intros ->. by repeat destruct H as [H|H].
Qed.

Lemma validStepCheckpoint_v2 value : validStepCheckpoint value = v2_validStepCheckpoint value.
Proof.
  apply eq_true_iff_eq. unfold validStepCheckpoint, v2_validStepCheckpoint. bools.
  rewrite !elem_of_cons, elem_of_nil. tauto.
Qed.

Lemma journalAfterMigrations_v2 value : journalAfterMigrations value = v2_journalAfterMigrations value.
Proof.
  apply eq_true_iff_eq. unfold journalAfterMigrations, v2_journalAfterMigrations. bools.
  rewrite !elem_of_cons, elem_of_nil. tauto.
Qed.

Lemma validateStepEvidence_Ok r s :
  validateStepEvidence r s = Ok tt ↔
  (v2s_Checkpoint (journalStepToV2 s) = "intent" ∧ v2s_Evidence (journalStepToV2 s) = None) ∨
  (v2s_Checkpoint (journalStepToV2 s) ≠ "intent" ∧ ∃ e, v2s_Evidence (journalStepToV2 s) = Some e ∧
     V2Evidence_validate e = Ok tt ∧
     v2e_Transaction e = v2_Transaction (journalRecordToV2 r) ∧
     v2e_Releases e = v2_Releases (journalRecordToV2 r) ∧
     v2e_Step e = v2s_ID (journalStepToV2 s) ∧ v2e_Expected e = v2s_Expected (journalStepToV2 s) ∧
     v2e_Desired e = v2s_Desired (journalStepToV2 s) ∧
     v2e_Checkpoint e = v2_want (v2s_Checkpoint (journalStepToV2 s))).
Proof.
  unfold validateStepEvidence. change want_evidence with v2_want. simpl. case_bool_decide as Hc.
  - rewrite refuse_Ok, bool_decide_eq_false, <-eq_None_not_Some.
    destruct (step_Evidence s); simpl; naive_solver.
  - destruct (step_Evidence s) as [e|] eqn:Hev; simpl; [|naive_solver]. rewrite bind_Ok.
    setoid_rewrite (EvidenceRecord_validate_Ok e _ _ eq_refl). split.
    + intros ([] & Hv & H). ok_inv. bools. rewrite releasePairsEqual_true in *.
      repeat match goal with H : ¬ (_ ≠ _) |- _ => pose proof (dec_stable H); clear H end.
      right. split; [done|]. eexists. split; [done|]. split; [done|]. simpl. split_and!; congruence.
    + intros [[? ?]|(_ & e' & [= <-] & Hv & H1 & H2 & H3 & H4 & H5 & H6)]; [done|].
      simpl in *. apply (inj releasePairToJournalV2) in H2. exists tt. split; [done|].
      rewrite (proj2 (releasePairsEqual_true _ _) H2).
      rewrite !bool_decide_false by naive_solver. done.
Qed.

Lemma validate_journal_step_Ok r ids s ids' :
  safe_id (jr_Transaction r) → pair_ok (releasePairToJournalV2 (jr_Releases r)) →
  validate_journal_step r ids s = Ok ids' ↔
  step_ok (journalRecordToV2 r) (journalStepToV2 s) ∧ (step_ID s ∉ ids) ∧ ids' = {[ step_ID s ]} ∪ ids.
Proof.
  intros Ht Hp. unfold validate_journal_step, step_ok, seen. simpl. split.
  - intros H. ok_inv.
    match goal with H : validateStepEvidence _ _ = _ |- _ => rename H into Hev end.
    match goal with H : negb (validDecision _) || _ = false |- _ => apply decision_Ok in H end.
    rewrite validateSafeID_Ok, validateFingerprint_Ok, validStepCheckpoint_v2, journalAfterMigrations_v2 in *.
    bools. assert (step_progress (journalRecordToV2 r) (journalStepToV2 s)).
    { apply step_evidence_Ok; try done. split; [done|]. by apply validateStepEvidence_Ok. }
    split; [|by split]. split_and!; try done.
    intros Ha. match goal with H : _ ∨ ¬ (step_Checkpoint s ≠ "verified") |- _ =>
      destruct H as [H|H]; [congruence|exact (dec_stable H)] end.
  - intros ((Hid & Hm & Hr & Hdec & He & Hd & Hprog & Hver) & Hfresh & ->).
    apply step_evidence_Ok in Hprog as [Hck Hev]; try done. simpl in Hck.
    rewrite !(proj2 (validateSafeID_Ok _ _ tt)), !(proj2 (validateFingerprint_Ok _ _ tt)) by done. simpl.
    rewrite (proj2 (decision_Ok _)), validStepCheckpoint_v2, Hck by done. simpl.
    rewrite (bool_decide_false (_ ∈ ids)) by done. simpl.
    rewrite (proj2 (validateStepEvidence_Ok r s) Hev). simpl.
    rewrite journalAfterMigrations_v2.
    destruct (v2_journalAfterMigrations _); [|done]. simpl.
    by rewrite bool_decide_false by (rewrite Hver by done; tauto).
Qed.

Lemma v2_steps_journalRecordToV2 r : v2_steps (journalRecordToV2 r) = journalStepToV2 <$> jr_steps r.
Proof. unfold v2_steps, jr_steps. simpl. by destruct (jr_Steps r). Qed.

Lemma bindJournalIntent_v2 r :
  bindJournalIntent (jr_AuthorizationPlan r) (jr_ResumePlan r) (jr_ObservationScope r) (jr_steps r) =
  bindIntent (journalRecordToV2 r).
Proof.
  assert (List.map intent_step_json (jr_steps r) =
          List.map v2_intent_step (v2_steps (journalRecordToV2 r))) as E.
  { rewrite v2_steps_journalRecordToV2. induction (jr_steps r) as [|s l IH]; [done|].
    csimpl. f_equal. exact IH. }
  unfold bindJournalIntent, bindIntent, v2_intent_json. by rewrite E.
Qed.

Lemma record_steps_Ok r :
  safe_id (jr_Transaction r) → pair_ok (releasePairToJournalV2 (jr_Releases r)) →
  (∃ ids, for_range (validate_journal_step r) (jr_steps r) ∅ = Ok ids) ↔
  NoDup (v2s_ID <$> v2_steps (journalRecordToV2 r)) ∧
  (∀ s, s ∈ v2_steps (journalRecordToV2 r) → step_ok (journalRecordToV2 r) s).
Proof.
  intros Ht Hp. rewrite v2_steps_journalRecordToV2, <-list_fmap_compose.
  rewrite (for_range_distinct step_ID (λ s, step_ok (journalRecordToV2 r) (journalStepToV2 s))).
  - change (v2s_ID ∘ journalStepToV2) with step_ID. split.
    + intros [Hn H]. split; [done|]. intros ? (s & -> & Hs)%list_elem_of_fmap. by apply H.
    + intros [Hn H]. split; [done|]. intros s Hs. split; [|set_solver].
      by apply H, list_elem_of_fmap_2.
  - intros. by apply validate_journal_step_Ok.
Qed.

(** The proofs below never look inside a digest. *)
#[local] Opaque Sum256.

Lemma record_ok_spec r : JournalRecord_Validate r = Ok tt ↔ journal_ok (journalRecordToV2 r).
Proof.
  unfold JournalRecord_Validate, validateTransactionID. split.
  - intros H. ok_inv.
    match goal with H : match jr_SourceIngress _ with _ => _ end = _ |- _ => rename H into Hing end.
    match goal with H : for_range _ _ _ = _ |- _ => rename H into Hsteps end.
    rewrite validateSafeID_Ok, Goal_Validate_Ok, ReleasePair_Validate_Ok, validatePlanToken_Ok,
      validateResumePlanToken_Ok, some_fingerprints_Ok, validateFingerprint_Ok in *.
    bools. repeat match goal with H : ¬ (_ ≠ _) |- _ => pose proof (dec_stable H); clear H end.
    rewrite bindJournalIntent_v2 in *.
    destruct (proj1 (record_steps_Ok r ltac:(done) ltac:(done)) (ex_intro _ _ Hsteps)) as [Hnd Hst].
    match goal with H : Forall fingerprint_ok _ |- _ => rewrite !Forall_cons in H; destruct_and! end.
    split; try done.
    + simpl. intros i Hi. destruct (jr_SourceIngress r) as [i0|]; [|done].
      by apply (SourceIngressRequest_Validate_Ok _ _ tt Hi).
    + by rewrite v2_steps_journalRecordToV2, length_fmap.
  - intros []. destruct ok_goal as [Hg1 Hg2], ok_releases as [Hr1 Hr2], ok_plans as (Hp1 & Hp2 & Hp3).
    simpl in *. rewrite ok_schema. simpl.
    rewrite (proj2 (validateSafeID_Ok _ _ tt)) by done. simpl.
    rewrite (proj2 (Goal_Validate_Ok _ tt)) by done. simpl.
    rewrite (proj2 (ReleasePair_Validate_Ok _ tt)) by done. simpl.
    rewrite (bool_decide_false (goal_Target _ ≠ _)) by (intros Hne; exact (Hne Hr2)). simpl.
    rewrite (proj2 (validatePlanToken_Ok _ tt)), (proj2 (validateResumePlanToken_Ok _ tt)) by done. simpl.
    rewrite (bool_decide_false (jr_AuthorizationPlan _ = _)) by done. simpl.
    rewrite (proj2 (some_fingerprints_Ok _ tt)) by (destruct_and!; by repeat constructor). simpl.
    assert (match jr_SourceIngress r with Some source => SourceIngressRequest_Validate source | None => Ok tt end
            = Ok tt) as ->.
    { destruct (jr_SourceIngress r) as [i|]; [|done].
      eapply SourceIngressRequest_Validate_Ok; [done|]. by apply ok_ingress. }
    simpl. unfold validJournalCheckpoint. unfold v2_validJournalCheckpoint in ok_checkpoint.
    rewrite ok_checkpoint. simpl. rewrite v2_steps_journalRecordToV2, length_fmap in ok_bound.
    rewrite (proj2 (Nat.ltb_ge _ _)) by exact ok_bound. simpl.
    destruct (proj2 (record_steps_Ok r ok_transaction Hr1)) as [ids ->]; [done|]. simpl.
    rewrite bindJournalIntent_v2, ok_intent. rewrite (proj2 (validateFingerprint_Ok _ _ tt)).
    + simpl. by rewrite bool_decide_false by (intros Hne; exact (Hne eq_refl)).
    + apply digest_fingerprint_ok.
Qed.

(** The transition's own validator and the validator of the frozen wire
    record are two pieces of code that accept the same journals. *)
Theorem validators_agree r :
  JournalRecord_Validate r = Ok tt ↔ V2Record_Validate (journalRecordToV2 r) = Ok tt.
Proof. by rewrite record_ok_spec, journal_ok_spec. Qed.

Lemma pair_roundtrip p : releasePairFromJournalV2 (releasePairToJournalV2 p) = p.
Proof. by destruct p. Qed.

Lemma pair_roundtrip_wire p : releasePairToJournalV2 (releasePairFromJournalV2 p) = p.
Proof. by destruct p. Qed.

Lemma step_roundtrip s : journalStepFromV2 (journalStepToV2 s) = s.
Proof.
  destruct s as [? ? ? ? ? ? ? [[]|]]; [|done]. unfold journalStepFromV2, journalStepToV2. simpl.
  by rewrite pair_roundtrip.
Qed.

Lemma step_roundtrip_wire s : journalStepToV2 (journalStepFromV2 s) = s.
Proof.
  destruct s as [? ? ? ? ? ? ? [[]|]]; [|done]. unfold journalStepFromV2, journalStepToV2. simpl.
  by rewrite pair_roundtrip_wire.
Qed.

Lemma fmap_self {A} (f : A → A) (l : list A) : (∀ x, f x = x) → f <$> l = l.
Proof. intros Hf. induction l as [|x l IH]; [done|]. csimpl. by rewrite Hf, IH. Qed.

Lemma record_roundtrip r : journalRecordFromV2 (journalRecordToV2 r) = r.
Proof.
  destruct r as [? ? [] ? ? ? ? ? ? ? ? ? ingress ? steps]. unfold journalRecordFromV2, journalRecordToV2. simpl.
  rewrite pair_roundtrip. f_equal; [by destruct ingress as [[]|]|].
  destruct steps as [l|]; [|done]. f_equal. rewrite <-list_fmap_compose. apply (fmap_self _ _ step_roundtrip).
Qed.

Lemma record_roundtrip_wire r : journalRecordToV2 (journalRecordFromV2 r) = r.
Proof.
  destruct r as [? ? [] ? ? ? ? ? ? ? ? ? ingress ? steps]. unfold journalRecordFromV2, journalRecordToV2. simpl.
  rewrite pair_roundtrip_wire. f_equal; [by destruct ingress as [[]|]|].
  destruct steps as [l|]; [|done]. f_equal. rewrite <-list_fmap_compose. apply (fmap_self _ _ step_roundtrip_wire).
Qed.

(** Converting a journal, or a superseded journal, to its wire record and
    back changes nothing, in both directions; a nil list of steps stays nil. *)
Theorem journal_codec_roundtrip :
  (∀ r, journalRecordFromV2 (journalRecordToV2 r) = r) ∧
  (∀ w, journalRecordToV2 (journalRecordFromV2 w) = w) ∧
  (∀ s, supersededJournalFromV1 (supersededJournalToV1 s) = s) ∧
  (∀ a, supersededJournalToV1 (supersededJournalFromV1 a) = a).
Proof.
  split_and!; [apply record_roundtrip|apply record_roundtrip_wire| |].
  - intros [? ? [] ?]. unfold supersededJournalFromV1, supersededJournalToV1. simpl.
    by rewrite record_roundtrip.
  - intros [? ? [] ?]. unfold supersededJournalFromV1, supersededJournalToV1. simpl.
    by rewrite record_roundtrip_wire.
Qed.

(** ** What an evaluation means *)

Definition facts_ok (f : TransitionFacts) : Prop :=
  Goal_Validate (f_Goal f) = Ok tt ∧ ReleasePair_Validate (f_Releases f) = Ok tt ∧
  goal_Target (f_Goal f) = pair_Target (f_Releases f) ∧ ReleaseLinks_Validate (f_Links f) = Ok tt.

Definition initial_links (f : TransitionFacts) : ReleaseLinks :=
  mkReleaseLinks (pair_From (f_Releases f)) (pair_Previous (f_Releases f)).

Definition activated_links (f : TransitionFacts) : ReleaseLinks :=
  mkReleaseLinks (pair_Target (f_Releases f)) (Some (pair_From (f_Releases f))).

(** The links point at the target: activated, or already there when source and
    target are one release. *)
Definition at_target (f : TransitionFacts) : Prop :=
  f_Links f = activated_links f ∨
  (pair_From (f_Releases f) = pair_Target (f_Releases f) ∧ f_Links f = initial_links f).

(** The intent that a planner would plan today is the one the step was
    authorized with. *)
Definition intent_of (s : JournalStep) : PlannerStepIntent :=
  mkPlannerStepIntent (step_ID s) (step_Migration s) (step_Resource s) (step_Decision s)
    (step_Expected s) (step_Desired s).

Definition bindings_current (f : TransitionFacts) (j : JournalRecord) : Prop :=
  f_VerifiedAuthorizationPlan f = jr_AuthorizationPlan j ∧ f_CurrentPlan f = jr_ResumePlan j ∧
  f_CurrentArtifactDigest f = jr_ArtifactDigest j ∧ f_CurrentRegistryDigest f = jr_RegistryDigest j ∧
  f_CurrentCatalogDigest f = jr_CatalogDigest j ∧
  f_CurrentAuthorizationDigest f = jr_AuthorizationDigest j.

(** Every observation is of a journaled step, at most one per step, and every
    step that is not verified was observed in its expected or desired state. *)
Definition observed (steps : list JournalStep) (obs : list StepObservation) : Prop :=
  NoDup (obs_Step <$> obs) ∧
  (∀ o, o ∈ obs → safe_id (obs_Step o) ∧ fingerprint_ok (obs_Fingerprint o) ∧
                  obs_Step o ∈ step_ID <$> steps) ∧
  (∀ s, s ∈ steps → step_Checkpoint s = "verified" ∨
     ∃ o, o ∈ obs ∧ obs_Step o = step_ID s ∧
          (obs_Fingerprint o = step_Expected s ∨ obs_Fingerprint o = step_Desired s)).

(** The journal authorizes this transition, nothing it was authorized against has
    changed, and the machine is in a state the journal accounts for. *)
Definition resumable (f : TransitionFacts) (j : JournalRecord) : Prop :=
  facts_ok f ∧ JournalRecord_Validate j = Ok tt ∧ jr_Goal j = f_Goal f ∧
  jr_Releases j = f_Releases f ∧ bindings_current f j ∧
  f_CurrentIntents f = intent_of <$> jr_steps j ∧
  journalLinksAllowed j (f_Links f) = true ∧ observed (jr_steps j) (f_Steps f).

(** *** The observations *)

Lemma known_steps_lookup (steps : list JournalStep) (m : gmap string JournalStep) id :
  is_Some (foldl (λ m step, <[ step_ID step := step ]> m) m steps !! id) ↔
  is_Some (m !! id) ∨ id ∈ step_ID <$> steps.
Proof.
  revert m. induction steps as [|s steps IH]; intros m; simpl.
  - rewrite elem_of_nil. tauto.
  - rewrite IH, lookup_insert_is_Some, elem_of_cons. destruct (decide (step_ID s = id)); naive_solver.
Qed.

Lemma observe_loop known obs m m' :
  for_range (observe_step known) obs m = Ok m' →
  NoDup (obs_Step <$> obs) ∧
  (∀ o, o ∈ obs → safe_id (obs_Step o) ∧ fingerprint_ok (obs_Fingerprint o) ∧
     is_Some (known !! obs_Step o) ∧ m !! obs_Step o = None) ∧
  (∀ id v, m' !! id = Some v ↔ m !! id = Some v ∨ ∃ o, o ∈ obs ∧ obs_Step o = id ∧ obs_Fingerprint o = v).
Proof.
  revert m. induction obs as [|o obs IH]; intros m H; simpl in H.
  - ok_inv. subst. split; [constructor|]. split; [by intros ? ?%elem_of_nil|].
    intros id v. split; [by left|]. intros [?|(o & ?%elem_of_nil & _)]; done.
  - apply bind_Ok in H as (t & Ht & H). unfold observe_step in Ht. ok_inv. bools.
    rewrite is_ok_spec in *. destruct_and?.
    match goal with H : ∃ a, validateSafeID _ _ = Ok a |- _ => destruct H as [? Hsafe%validateSafeID_Ok] end.
    match goal with H : ¬ is_Some (m !! _) |- _ => apply eq_None_not_Some in H end.
    apply IH in H as (Hnd & Hall & Hm). subst t. split; [|split].
    + csimpl. constructor; [|done]. intros (o' & E & Ho')%list_elem_of_fmap.
      apply Hall in Ho' as (_ & _ & _ & Hn). rewrite <-E, lookup_insert_eq in Hn. done.
    + intros o' [->|Ho']%elem_of_cons; [done|]. apply Hall in Ho' as (? & ? & ? & Hn).
      apply lookup_insert_None in Hn as [? ?]. done.
    + intros id v. rewrite Hm, lookup_insert_Some. split.
      * intros [[[<- <-]|[? ?]]|(o' & ? & ? & ?)]; [right; exists o; set_solver|by left|right; exists o'; set_solver].
      * intros [Hv|(o' & [->|Ho']%elem_of_cons & <- & <-)]; [|by left; left|right; by exists o'].
        destruct (decide (obs_Step o = id)) as [<-|]; [congruence|]. left. right. done.
Qed.

Lemma observe_loop_total known obs m :
  NoDup (obs_Step <$> obs) →
  (∀ o, o ∈ obs → safe_id (obs_Step o) ∧ fingerprint_ok (obs_Fingerprint o) ∧
     is_Some (known !! obs_Step o) ∧ m !! obs_Step o = None) →
  ∃ m', for_range (observe_step known) obs m = Ok m'.
Proof.
  revert m. induction obs as [|o obs IH]; intros m Hnd Hall; simpl; [by eauto|].
  apply NoDup_cons in Hnd as [Ho Hnd]. destruct (Hall o) as (Hs & Hf & Hk & Hm); [by left|].
  assert (observe_step known m o = Ok (<[ obs_Step o := obs_Fingerprint o ]> m)) as ->.
  { unfold observe_step. rewrite (proj2 (validateSafeID_Ok (obs_Step o) "observed step ID" tt) Hs).
    change (validFingerprint (obs_Fingerprint o)) with (v2_validFingerprint (obs_Fingerprint o)).
    rewrite Hf. simpl. rewrite (bool_decide_true (is_Some (known !! _))) by done. simpl.
    by rewrite Hm, bool_decide_false by (by intros [? ?]). }
  simpl. apply IH; [done|].
  intros o' Ho'. destruct (Hall o') as (? & ? & ? & ?); [by right|]. split_and!; try done.
  apply lookup_insert_None. split; [done|]. intros E. apply Ho. rewrite E. by apply list_elem_of_fmap_2.
Qed.

Lemma check_observed_Ok actual s u :
  check_observed actual s = Ok u ↔
  step_Checkpoint s = "verified" ∨
  ∃ v, actual !! step_ID s = Some v ∧ (v = step_Expected s ∨ v = step_Desired s).
Proof.
  destruct u. unfold check_observed. case_bool_decide as Hc; [naive_solver|].
  rewrite bind_Ok. setoid_rewrite expect_Ok. setoid_rewrite refuse_Ok. split.
  - intros (v & Hv & H). right. exists v. split; [done|].
    apply andb_false_iff in H as [H|H]; apply bool_decide_eq_false in H; apply dec_stable in H; tauto.
  - intros [|(v & Hv & H)]; [done|]. exists v. split; [done|]. apply andb_false_iff.
    rewrite !bool_decide_eq_false. tauto.
Qed.

Lemma validateObservedSteps_Ok steps obs u :
  validateObservedSteps steps obs = Ok u ↔ observed steps obs.
Proof.
  destruct u. unfold validateObservedSteps, observed. split.
  - intros H. apply bind_Ok in H as (m & Hm & H). apply observe_loop in Hm as (Hnd & Hall & Hlk).
    split; [done|]. split.
    + intros o Ho. destruct (Hall o Ho) as (? & ? & Hk & _). split_and!; try done.
      apply known_steps_lookup in Hk as [[? Hk]|]; [by rewrite lookup_empty in Hk|done].
    + intros s Hs. rewrite for_each_Ok in H. apply H, check_observed_Ok in Hs as [?|(v & Hv & Hd)]; [by left|right].
      apply Hlk in Hv as [Hv|(o & ? & ? & <-)]; [by rewrite lookup_empty in Hv|by exists o].
  - intros (Hnd & Hall & Hs).
    destruct (observe_loop_total (foldl (λ m step, <[ step_ID step := step ]> m) ∅ steps) obs ∅) as [m Hm]; [done| |].
    { intros o Ho. destruct (Hall o Ho) as (? & ? & ?). split_and!; try done.
      apply known_steps_lookup. by right. }
    rewrite Hm. simpl. apply for_each_Ok. intros s Hin. apply check_observed_Ok.
    destruct (Hs s Hin) as [?|(o & Ho & E & Hd)]; [by left|right]. exists (obs_Fingerprint o).
    split; [|done]. apply observe_loop in Hm as (_ & _ & Hlk). apply Hlk. right. by exists o.
Qed.

(** *** The planner's intents *)

Lemma plannerIntentsMatchJournal_true intents steps :
  plannerIntentsMatchJournal intents steps = true ↔ intents = intent_of <$> steps.
Proof.
  unfold plannerIntentsMatchJournal. revert steps.
  induction intents as [|i intents IH]; intros [|s steps]; simpl; try done.
  specialize (IH steps). change (Nat.eqb (length intents) (length steps)) with
    (length intents =? length steps)%nat in *.
  assert (negb (bool_decide (int_ID i ≠ step_ID s) || bool_decide (int_Migration i ≠ step_Migration s) ||
          bool_decide (int_Resource i ≠ step_Resource s) || bool_decide (int_Decision i ≠ step_Decision s) ||
          bool_decide (int_Expected i ≠ step_Expected s) || bool_decide (int_Desired i ≠ step_Desired s)) = true
          ↔ i = intent_of s) as Hhd.
  { rewrite negb_true_iff, !orb_false_iff, !bool_decide_eq_false. unfold intent_of.
    destruct i as [a b c d e g]; simpl. split; [|intros [=]; subst; tauto].
    intros [[[[[H1 H2] H3] H4] H5] H6].
    by rewrite (dec_stable H1), (dec_stable H2), (dec_stable H3), (dec_stable H4), (dec_stable H5), (dec_stable H6). }
  destruct (length intents =? length steps)%nat eqn:Hl; simpl in *.
  - rewrite andb_true_iff, Hhd, IH. csimpl. split; [by intros [-> ->]|by intros [= -> ->]].
  - split; [done|]. intros [= -> ->]. rewrite length_fmap, Nat.eqb_refl in Hl. done.
Qed.

Lemma journal_intents_valid j :
  JournalRecord_Validate j = Ok tt → validatePlannerIntents (intent_of <$> jr_steps j) = Ok tt.
Proof.
  intros Hj%record_ok_spec. pose proof (ok_unique _ Hj) as Hnd. pose proof (ok_steps _ Hj) as Hst.
  rewrite v2_steps_journalRecordToV2 in Hnd, Hst. rewrite <-list_fmap_compose in Hnd.
  change (v2s_ID ∘ journalStepToV2) with step_ID in Hnd.
  unfold validatePlannerIntents. set (good i := ∀ ids, int_ID i ∉ ids → validate_intent ids i = Ok ({[ int_ID i ]} ∪ ids)).
  assert (∀ l ids, NoDup (int_ID <$> l) → (∀ i, i ∈ l → good i ∧ (int_ID i ∉ ids)) →
            ∃ ids', for_range validate_intent l ids = Ok ids') as Hloop.
  { induction l as [|i l IH]; intros ids Hn Hg; simpl; [by eauto|].
    apply NoDup_cons in Hn as [Hi Hn]. destruct (Hg i) as [Hgi Hi']; [by left|]. rewrite Hgi by done. simpl.
    apply IH; [done|]. intros k Hk. destruct (Hg k) as [Hgk Hk']; [by right|]. split; [done|].
    apply not_elem_of_union. split; [|done]. rewrite elem_of_singleton. intros E. apply Hi. rewrite <-E.
    by apply list_elem_of_fmap_2. }
  destruct (Hloop (intent_of <$> jr_steps j) ∅) as [ids ->]; [by rewrite <-list_fmap_compose| |done].
  intros i (s & -> & Hs)%list_elem_of_fmap. split; [|set_solver].
  destruct (Hst (journalStepToV2 s)) as (H1 & H2 & H3 & H4 & H5 & H6 & _ & _); [by apply list_elem_of_fmap_2|].
  intros ids Hid. unfold validate_intent. simpl in *.
  rewrite !(proj2 (validateSafeID_Ok _ _ tt)), !(proj2 (validateFingerprint_Ok _ _ tt)) by done. simpl.
  unfold seen. rewrite (bool_decide_false (_ ∈ ids)) by done. simpl.
  by rewrite (proj2 (decision_Ok _)) by done.
Qed.

Lemma journal_bindings_valid f j :
  JournalRecord_Validate j = Ok tt → bindings_current f j → validCurrentBindings f = true.
Proof.
  intros Hj%record_ok_spec (E1 & E2 & E3 & E4 & E5 & E6). destruct Hj. simpl in *.
  destruct ok_plans as (Hp1 & Hp2 & _). destruct_and!. unfold validCurrentBindings.
  rewrite E1, E2, E3, E4, E5, E6.
  rewrite (proj2 (validateResumePlanToken_Ok _ tt)), (proj2 (validatePlanToken_Ok _ tt)) by done. simpl.
  unfold fingerprint_ok in *. change validFingerprint with v2_validFingerprint.
  by rewrite !andb_true_iff.
Qed.

(** *** Evaluation, branch by branch *)

Definition base_outcome (f : TransitionFacts) (transaction : option string) : Outcome :=
  mkOutcome "" false (links_Active (f_Links f)) (links_Previous (f_Links f)) (goal_Target (f_Goal f))
    "" "" "" transaction [].

Definition recovering_outcome (f : TransitionFacts) (j : JournalRecord) : Outcome :=
  mkOutcome StatusRecovering false (links_Active (f_Links f)) (links_Previous (f_Links f))
    (goal_Target (f_Goal f)) CodeRecoveryPending
    "the authorized release transition can resume from observed facts" "run yard update"
    (Some (jr_Transaction j)) [].

Lemma is_ok_Ok {E} (m : result E unit) : is_ok m = true ↔ m = Ok tt.
Proof. destruct m as [[]|]; naive_solver. Qed.

Lemma is_ok_not_Ok {E} (m : result E unit) : is_ok m = false ↔ m ≠ Ok tt.
Proof. destruct m as [[]|]; naive_solver. Qed.

Lemma facts_ok_dec f : facts_ok f ∨
  (¬ facts_ok f ∧ ∃ code message, Evaluate f = operatorOutcome empty_outcome code message).
Proof.
  unfold facts_ok, Evaluate.
  destruct (is_ok (Goal_Validate _)) eqn:H1; simpl; [apply is_ok_Ok in H1|apply is_ok_not_Ok in H1; right; split; [tauto|eauto]].
  destruct (is_ok (ReleasePair_Validate _)) eqn:H2; simpl; [apply is_ok_Ok in H2|apply is_ok_not_Ok in H2; right; split; [tauto|eauto]].
  case_bool_decide as H3; [right; split; [tauto|eauto]|].
  destruct (is_ok (ReleaseLinks_Validate _)) eqn:H4; simpl; [apply is_ok_Ok in H4; by left|].
  apply is_ok_not_Ok in H4; right; split; [tauto|eauto].
Qed.

Lemma Evaluate_journal f j :
  f_Journal f = Some j →
  (resumable f j ∧ Evaluate f =
     if bool_decide (jr_Checkpoint j = "complete") && f_FixedPointVerified f
     then readyOutcome (base_outcome f (Some (jr_Transaction j))) else recovering_outcome f j) ∨
  (¬ resumable f j ∧ ∃ base code message, Evaluate f = operatorOutcome base code message ∧
                                         o_ReachedGoal base = false).
Proof.
  intros Hj. destruct (facts_ok_dec f) as [Hf|(Hf & code & message & E)]; cycle 1.
  { right. split; [by intros [? _]|]. exists empty_outcome. eauto. }
  pose proof Hf as (H1 & H2 & H3 & H4). unfold Evaluate, resumable. rewrite H1, H2, H4. simpl.
  rewrite bool_decide_false by (intros Hne; exact (Hne H3)). rewrite Hj. simpl.
  destruct (is_ok (JournalRecord_Validate j)) eqn:Hv; simpl; cycle 1.
  { right. apply is_ok_not_Ok in Hv. split; [tauto|eauto 10]. }
  apply is_ok_Ok in Hv. case_bool_decide as Hg; simpl.
  { right. split; [tauto|eauto 10]. }
  destruct (releasePairsEqual _ _) eqn:Hr; simpl; cycle 1.
  { right. split; [|eauto 10]. intros (_ & _ & _ & E & _). rewrite E in Hr.
    by rewrite (proj2 (releasePairsEqual_true _ _)) in Hr. }
  apply releasePairsEqual_true in Hr.
  match goal with |- context [?b1 || ?b2 || ?b3 || ?b4 || ?b5 || ?b6] =>
    assert ((b1 || b2 || b3 || b4 || b5 || b6) = false ↔ bindings_current f j) as Hb;
      [|destruct (b1 || b2 || b3 || b4 || b5 || b6) eqn:Hb0] end.
  { rewrite !orb_false_iff, !bool_decide_eq_false. unfold bindings_current. split.
    - intros [[[[[E1 E2] E3] E4] E5] E6]. split_and!; by apply dec_stable.
    - intros (E1 & E2 & E3 & E4 & E5 & E6). rewrite E1, E2, E3, E4, E5, E6. tauto. }
  { right. split.
    - intros (_ & _ & _ & _ & Hb' & _). apply Hb in Hb'. congruence.
    - destruct (validCurrentBindings f); eauto 10. }
  pose proof (proj1 Hb eq_refl) as Hbind. rewrite (journal_bindings_valid f j) by done. simpl.
  destruct (is_ok (validatePlannerIntents _)) eqn:Hpi; simpl; cycle 1.
  { right. apply is_ok_not_Ok in Hpi. split; [|eauto 10]. intros (_ & _ & _ & _ & _ & E & _).
    rewrite E in Hpi. by apply Hpi, journal_intents_valid. }
  destruct (plannerIntentsMatchJournal _ _) eqn:Hpm; simpl; cycle 1.
  { right. split; [|eauto 10]. intros (_ & _ & _ & _ & _ & E & _).
    by rewrite (proj2 (plannerIntentsMatchJournal_true _ _) E) in Hpm. }
  apply plannerIntentsMatchJournal_true in Hpm.
  match goal with |- context [negb (linksAllowed ?a ?b ?c ?d ?e)] =>
    assert (linksAllowed a b c d e = journalLinksAllowed j (f_Links f)) as -> end.
  { unfold journalLinksAllowed, initialReleaseLinks, activatedReleaseLinks. by rewrite Hr. }
  destruct (journalLinksAllowed j (f_Links f)) eqn:Hl; simpl; cycle 1.
  { right. split; [|eauto 10]. intros (_ & _ & _ & _ & _ & _ & E & _). done. }
  destruct (validateObservedSteps _ _) as [[]|code] eqn:Ho.
  - left. apply validateObservedSteps_Ok in Ho. split; [by split_and!|].
    by destruct (bool_decide (jr_Checkpoint j = "complete") && f_FixedPointVerified f).
  - right. split; [|eauto 10]. intros (_ & _ & _ & _ & _ & _ & _ & E).
    by rewrite (proj2 (validateObservedSteps_Ok _ _ tt) E) in Ho.
Qed.

Lemma links_at_target f :
  (bool_decide (pair_From (f_Releases f) = pair_Target (f_Releases f)) &&
     linksEqual (f_Links f) (initial_links f)) || linksEqual (f_Links f) (activated_links f) = true ↔
  at_target f.
Proof. rewrite orb_true_iff, andb_true_iff, bool_decide_eq_true, !linksEqual_true. unfold at_target. tauto. Qed.

(** The outcomes without a journal. *)
Inductive fresh_outcome (f : TransitionFacts) : Outcome → Prop :=
| fresh_ready : f_FixedPointVerified f = true → at_target f →
    fresh_outcome f (readyOutcome (base_outcome f None))
| fresh_initial : ¬ (f_FixedPointVerified f = true ∧ at_target f) → f_Links f = initial_links f →
    fresh_outcome f (mkOutcome StatusMigrationRequired false (links_Active (f_Links f))
      (links_Previous (f_Links f)) (goal_Target (f_Goal f)) CodeTransitionRequired
      "the inspected release transition has not started" "run yard update" None [])
| fresh_operator code message : ¬ (f_FixedPointVerified f = true ∧ at_target f) →
    f_Links f ≠ initial_links f → code ≠ CodeReady →
    fresh_outcome f (operatorOutcome (base_outcome f None) code message).

Lemma Evaluate_fresh f : f_Journal f = None → facts_ok f → fresh_outcome f (Evaluate f).
Proof.
  intros Hj (H1 & H2 & H3 & H4). unfold Evaluate. rewrite H1, H2, H4. simpl.
  rewrite bool_decide_false by (intros Hne; exact (Hne H3)). rewrite Hj. simpl.
  fold (initial_links f) (activated_links f) (base_outcome f None).
  pose proof (links_at_target f) as Ht. destruct (f_FixedPointVerified f) eqn:Hfp.
  - destruct (_ || linksEqual (f_Links f) (activated_links f)) eqn:Hat; simpl; [constructor; tauto|].
    assert (¬ at_target f) as Hn by (rewrite <-Ht; congruence).
    destruct (linksEqual (f_Links f) (initial_links f)) eqn:Hi.
    + apply linksEqual_true in Hi. constructor; [tauto|done].
    + assert (f_Links f ≠ initial_links f) by (intros E%linksEqual_true; congruence).
      destruct (linksEqual (f_Links f) (activated_links f)); constructor; (tauto || done).
  - simpl. destruct (linksEqual (f_Links f) (initial_links f)) eqn:Hi.
    + apply linksEqual_true in Hi. apply fresh_initial; [intros [? _]; congruence|done].
    + assert (f_Links f ≠ initial_links f) by (intros E%linksEqual_true; congruence).
      destruct (linksEqual (f_Links f) (activated_links f));
        (apply fresh_operator; [intros [? _]; congruence|done|done]).
Qed.

Lemma Evaluate_ready_iff f :
  o_Status (Evaluate f) = StatusReady ↔
  facts_ok f ∧ f_FixedPointVerified f = true ∧
  match f_Journal f with
  | None => at_target f
  | Some j => resumable f j ∧ jr_Checkpoint j = "complete"
  end.
Proof.
  destruct (f_Journal f) as [j|] eqn:Hj.
  - destruct (Evaluate_journal f j Hj) as [[Hr ->]|(Hr & base & code & message & -> & _)].
    + pose proof Hr as (Hf & _). destruct (f_FixedPointVerified f), (decide (jr_Checkpoint j = "complete")) as [Hc|Hc];
        [rewrite bool_decide_true by done|rewrite bool_decide_false by done|rewrite andb_false_r..]; simpl; naive_solver.
    + split; [done|tauto].
  - destruct (facts_ok_dec f) as [Hf|(Hf & code & message & ->)]; [|split; [done|tauto]].
    destruct (Evaluate_fresh f Hj Hf); simpl; [tauto|split; [done|tauto]..].
Qed.

(** C5: [Evaluate] says "ready" exactly when the observed facts are consistent,
    the fixed point was verified, and either there is no journal and the links
    already point at the target, or the journal of this transition is complete
    and everything it was authorized against still holds. *)
Theorem Evaluate_ready_spec f :
  o_Status (Evaluate f) = StatusReady ↔
  facts_ok f ∧ f_FixedPointVerified f = true ∧
  match f_Journal f with
  | None => at_target f
  | Some j => resumable f j ∧ jr_Checkpoint j = "complete"
  end.
Proof. apply Evaluate_ready_iff. Qed.

(** C6: [Evaluate] lets an interrupted transition resume exactly when its journal
    is valid and authorizes this goal and this release pair, every plan and
    digest it was authorized against is unchanged, the current plan has the
    journaled steps, the links are ones that its checkpoint allows, and every
    step that is not verified was observed in its expected or its desired
    state; and the transition is not finished. *)
Theorem Evaluate_recovering_spec f :
  o_Status (Evaluate f) = StatusRecovering ↔
  ∃ j, f_Journal f = Some j ∧ resumable f j ∧
       (jr_Checkpoint j ≠ "complete" ∨ f_FixedPointVerified f = false).
Proof.
  destruct (f_Journal f) as [j|] eqn:Hj.
  - destruct (Evaluate_journal f j Hj) as [[Hr ->]|(Hr & base & code & message & -> & _)].
    + destruct (f_FixedPointVerified f), (decide (jr_Checkpoint j = "complete")) as [Hc|Hc];
        [rewrite bool_decide_true by done|rewrite bool_decide_false by done|rewrite andb_false_r..]; simpl; naive_solver.
    + split; [done|naive_solver].
  - split; [|naive_solver]. destruct (facts_ok_dec f) as [Hf|(Hf & code & message & ->)]; [|done].
    by destruct (Evaluate_fresh f Hj Hf).
Qed.

(** The outcome is consistent in itself: its status is one of the four public
    ones, it claims the goal reached exactly when it is ready, and it names the
    action to retry exactly when it is not. *)
Theorem Evaluate_shape f :
  o_Status (Evaluate f) ∈
    [StatusReady; StatusMigrationRequired; StatusRecovering; StatusOperatorActionRequired] ∧
  (o_ReachedGoal (Evaluate f) = true ↔ o_Status (Evaluate f) = StatusReady) ∧
  (o_Retry (Evaluate f) = "" ↔ o_Status (Evaluate f) = StatusReady).
Proof.
  assert (∀ base code message, o_ReachedGoal base = false →
    let o := operatorOutcome base code message in
    o_Status o ∈ [StatusReady; StatusMigrationRequired; StatusRecovering; StatusOperatorActionRequired] ∧
    (o_ReachedGoal o = true ↔ o_Status o = StatusReady) ∧ (o_Retry o = "" ↔ o_Status o = StatusReady)) as Hop.
  { intros base code message Hb. simpl. rewrite Hb. split; [set_solver|done]. }
  destruct (f_Journal f) as [j|] eqn:Hj.
  - destruct (Evaluate_journal f j Hj) as [[Hr ->]|(Hr & base & code & message & -> & Hb)]; [|by apply Hop].
    destruct (bool_decide _ && _); simpl; (split; [set_solver|done]).
  - destruct (facts_ok_dec f) as [Hf|(Hf & code & message & ->)]; [|by apply Hop].
    destruct (Evaluate_fresh f Hj Hf); [..|by apply Hop]; simpl; (split; [set_solver|done]).
Qed.

#[local] Transparent Sum256.

Section samples.

Definition sample_record (checkpoint : string) (steps : list V2Step) : JournalRecord :=
  journalRecordFromV2 (sample_journal None checkpoint (Some steps)).

Definition complete_record : JournalRecord :=
  sample_record "complete" [sample_step "s1" "verified" "verified" (hex64 "2")].

Definition sample_facts (j : JournalRecord) (links : ReleaseLinks) (obs : list StepObservation) : TransitionFacts :=
  mkTransitionFacts (jr_Goal j) (jr_Releases j) links (Some j) obs (jr_ResumePlan j)
    (intent_of <$> jr_steps j) (jr_AuthorizationPlan j) (jr_ArtifactDigest j) (jr_RegistryDigest j)
    (jr_CatalogDigest j) (jr_AuthorizationDigest j) true.

End samples.

(** "Ready" is safe to believe: the active link is the goal's target, and
    when a journal led there, every one of its steps is verified and carries
    evidence, bound to this journal, that the resource was observed in its
    desired state. *)
Theorem Evaluate_ready_safe f :
  o_Status (Evaluate f) = StatusReady →
  links_Active (f_Links f) = goal_Target (f_Goal f) ∧
  ∀ j s, f_Journal f = Some j → s ∈ jr_steps j →
    step_Checkpoint s = "verified" ∧
    ∃ e, step_Evidence s = Some e ∧ ev_Observed e = step_Desired s ∧
         ev_Transaction e = jr_Transaction j ∧ ev_Releases e = jr_Releases j ∧ ev_Step e = step_ID s.
Proof.
  intros (Hf & Hfp & H)%Evaluate_ready_iff. pose proof Hf as (_ & _ & Hgt & _).
  assert (at_target f) as Hat.
  { destruct (f_Journal f) as [j|]; [|done]. destruct H as [Hr Hc].
    destruct Hr as (_ & _ & _ & Hrel & _ & _ & Hl & _). revert Hl.
    unfold journalLinksAllowed, linksAllowed, at_target. rewrite Hrel, Hc.
    case_bool_decide as Hs.
    - unfold initialReleaseLinks. intros Hi. right. split; [done|]. bools.
      rewrite releaseIDsEqual_true in *. unfold initial_links. destruct (f_Links f); simpl in *. congruence.
    - simpl. intros Hact. left. by apply linksEqual_true in Hact. }
  split.
  - rewrite Hgt. by destruct Hat as [->|[E ->]].
  - intros j s Hj Hs. rewrite Hj in H. destruct H as [(_ & Hv%record_ok_spec & _) Hc].
    destruct (ok_steps _ Hv (journalStepToV2 s)) as (_ & _ & _ & _ & _ & _ & Hprog & Hver).
    { rewrite v2_steps_journalRecordToV2. by apply list_elem_of_fmap_2. }
    simpl in Hver. rewrite Hc in Hver. specialize (Hver eq_refl). split; [done|].
    destruct Hprog as [E _|e E|e _ He (_ & B2 & B3 & B4 & _) _ Ho]; simpl in *; [congruence..|].
    destruct (step_Evidence s) as [e0|]; [|done]. injection He as <-. exists e0. simpl in *.
    split_and!; try done. by apply (inj releasePairToJournalV2).
Qed.

Lemma Evaluate_ready_safe_witness :
  links_Active (mkReleaseLinks "0.12.0-b" (Some "0.11.1-a")) = "0.12.0-b".
Proof.
  apply (Evaluate_ready_safe
    (sample_facts complete_record (mkReleaseLinks "0.12.0-b" (Some "0.11.1-a")) [])). by vm_compute.
Defined.
