(* ===== verification/MigrationHistory.v ===== *)
(** * Migration history

    internal/migrationhistory/history.go: a registry of one-time migrations, one
    path of consecutive epochs per domain, with dependencies across domains; an
    authority, which is a validated frontier of what was applied; the edges and
    traces between frontiers.

    A registry is a pointer to data that nothing modifies once [NewRegistry]
    returned it.  A pointer is modelled by its address together with the data it
    points to, so two pointers are equal exactly when they are the same object;
    nil is [None].  [NewRegistry] takes the address it allocates. *)

From S2P Require Import Prelude GoStrings Names JournalV2.

Inductive history_error :=
| DomainEpochsRequired
| InvalidRetiredBinding
| InvalidEpochRange
| UnknownRegistryDomain
| UnsafeMigration
| DuplicateMigration (id : string)
| UnknownMigrationDomain (id domain : string)
| MigrationGap (id : string)
| InvalidDependency (id dep : string)
| UnorderedDependency (id dep : string)
| PathNotCurrent
| UninitializedRegistry
| LedgerDomainsDiffer
| LedgerEpochRange
| LedgerNotPrefix
| AppliedBeforeDependency (id dep : string)
| ForeignAuthority
| HistoryComplete
| NotNextTransition
| OutsidePath
| ForeignEdge
| BadTraceMigration (id : string)
| NotTraceCut
| NotDomainPrefix
| NotCanonicalNext (id : string)
| HistoryIncomplete
| InvalidProjection
| ForeignRegistry
| IndexPanic.

(** ** Data *)

(** internal/migrationhistory/history.go:15-22 [Migration] *)
Record Migration := mkMigration {
  m_ID : string; m_Domain : string; m_FromEpoch : Z; m_ToEpoch : Z; m_Kind : string;
  m_DependsOn : list string }.

(** internal/migrationhistory/history.go:24-27 [DomainState] *)
Record DomainState := mkDomainState { ds_Epoch : Z; ds_Applied : list string }.

(** internal/migrationhistory/history.go:29-34 [registryData] *)
Record registryData := mkRegistryData {
  rd_minimum : gmap string Z; rd_current : gmap string Z; rd_retired : gmap string string;
  rd_migrations : list Migration; rd_ids : gmap string nat }.

#[export] Instance Migration_eq_dec : EqDecision Migration.
Proof. solve_decision. Defined.
#[export] Instance DomainState_eq_dec : EqDecision DomainState.
Proof. solve_decision. Defined.
#[export] Instance registryData_eq_dec : EqDecision registryData.
Proof. solve_decision. Defined.

(** A pointer to registry data. *)
Record handle := mkHandle { h_addr : Z; h_data : registryData }.

#[export] Instance handle_eq_dec : EqDecision handle.
Proof. solve_decision. Defined.

(** internal/migrationhistory/history.go:35-35 [Registry] *)
Definition Registry : Type := option handle.

Notation domains_map := (gmap string DomainState).

(** internal/migrationhistory/history.go:37-42 [Authority] *)
Record Authority := mkAuthority {
  au_registry : option handle; au_domains : option domains_map }.

(** internal/migrationhistory/history.go:44-49 [CompatibilityProjection] *)
Record CompatibilityProjection := mkCompatibilityProjection {
  cp_epochs : gmap string Z; cp_pin : string }.

(** internal/migrationhistory/history.go:51-56 [Edge] *)
Record Edge := mkEdge { e_before : Authority; e_after : Authority; e_migration : Migration }.

(** internal/migrationhistory/history.go:57-60 [Trace] *)
Record Trace := mkTrace { t_initial : Authority; t_terminal : Authority; t_edges : list Edge }.

(** internal/migrationhistory/history.go:62-64 [Completion] *)
Record Completion := mkCompletion { c_terminal : Authority }.

#[export] Instance Authority_eq_dec : EqDecision Authority.
Proof. solve_decision. Defined.
#[export] Instance Edge_eq_dec : EqDecision Edge.
Proof. solve_decision. Defined.
#[export] Instance Trace_eq_dec : EqDecision Trace.
Proof. solve_decision. Defined.

(** ** Registries *)

(** A test of every entry of a map; the order of the range decides at most which
    offending entry the message names. *)
Definition map_all {A} (f : string → A → bool) (m : gmap string A) : bool :=
  forallb (λ '(k, v), f k v) (map_to_list m).

(** internal/migrationhistory/history.go:119-119 [safeID] *)
Definition safeID (id : string) : bool := (len id <=? 128) && SafeID id.

(** internal/migrationhistory/history.go:382-392 [validPin] *)
Definition validPin (pin : string) : bool := (len pin =? 64) && forallb hex_rune (runes pin).

Definition has {A} (k : string) (m : gmap string A) : bool := bool_decide (is_Some (m !! k)).

(** internal/migrationhistory/history.go:101-109 [NewRegistry]: the loop over the
    dependencies of one migration. *)
Definition check_dependency (ids : gmap string nat) (id : string) (deps : gset string) (dep : string) :
    result history_error (gset string) :=
  refuse (negb (safeID dep) || seen dep deps) (InvalidDependency id dep);;
  refuse (negb (has dep ids)) (UnorderedDependency id dep);;
  Ok ({[ dep ]} ∪ deps).

(** internal/migrationhistory/history.go:87-113 [NewRegistry]: the loop over the
    migrations; the state is the expected epochs, the identifiers and the
    migrations registered so far. *)
Definition register_migration (minimum : gmap string Z)
    (st : gmap string Z * gmap string nat * list Migration) (im : nat * Migration) :
    result history_error (gmap string Z * gmap string nat * list Migration) :=
  let '(expected, ids, migrations) := st in
  let '(i, m) := im in
  refuse (negb (safeID (m_ID m)) || negb (safeID (m_Kind m))) UnsafeMigration;;
  refuse (has (m_ID m) ids) (DuplicateMigration (m_ID m));;
  refuse (negb (has (m_Domain m) minimum)) (UnknownMigrationDomain (m_ID m) (m_Domain m));;
  refuse (negb (m_ToEpoch m =? i64 (m_FromEpoch m + 1)) ||
          negb (m_FromEpoch m =? get_default 0 (m_Domain m) expected)) (MigrationGap (m_ID m));;
  for_range (check_dependency ids (m_ID m)) (m_DependsOn m) ∅ ≫= λ _,
  Ok (<[ m_Domain m := m_ToEpoch m ]> expected, <[ m_ID m := i ]> ids, migrations ++ [m]).

(** internal/migrationhistory/history.go:66-118 [NewRegistry] *)
Definition NewRegistry (addr : Z) (minimum current : gmap string Z) (migrations : list Migration)
    (retired : gmap string string) : result history_error Registry :=
  refuse ((size minimum =? 0)%nat || negb (size minimum =? size current)%nat) DomainEpochsRequired;;
  refuse (negb (map_all (λ name pin, has name minimum && validPin pin) retired)) InvalidRetiredBinding;;
  refuse (negb (map_all (λ name floor, safeID name && (1 <=? floor) &&
                                       (floor <=? get_default 0 name current)) minimum)) InvalidEpochRange;;
  refuse (negb (map_all (λ name _, has name minimum) current)) UnknownRegistryDomain;;
  st ← for_range (register_migration minimum) (zip (seq 0 (length migrations)) migrations) (minimum, ∅, []);
  let '(expected, ids, registered) := st in
  refuse (negb (bool_decide (expected = current))) PathNotCurrent;;
  Ok (Some (mkHandle addr (mkRegistryData minimum current retired registered ids))).

(** ** Authorities *)

(** internal/migrationhistory/history.go:187-202 [Applied] *)
Definition Applied (r : Registry) (name : string) (after through : Z) :
    result history_error (list string) :=
  h ← expect r UninitializedRegistry;
  let d := h_data h in
  refuse (negb (has name (rd_minimum d)) || (after <? get_default 0 name (rd_minimum d)) ||
          (through <? after) || (get_default 0 name (rd_current d) <? through)) OutsidePath;;
  Ok (m_ID <$> filter (λ m, bool_decide (m_Domain m = name) && (after <=? m_FromEpoch m) &&
                            (m_ToEpoch m <=? through) = true) (rd_migrations d)).

(** The identifiers that the domains of a ledger list as applied. *)
Definition completed_ids (domains : domains_map) : list string :=
  map_to_list domains ≫= λ '(_, state), ds_Applied state.

(** internal/migrationhistory/history.go:137-149 [History]: the checks of one
    domain of the ledger. *)
Definition history_domain_ok (r : Registry) (d : registryData) (name : string) (state : DomainState) :
    result history_error unit :=
  refuse (negb (has name (rd_minimum d)) || (ds_Epoch state <? get_default 0 name (rd_minimum d)) ||
          (get_default 0 name (rd_current d) <? ds_Epoch state)) LedgerEpochRange;;
  let expected := match Applied r name (get_default 0 name (rd_minimum d)) (ds_Epoch state) with
                  | Ok l => l | Err _ => [] end in
  refuse (negb (bool_decide (ds_Applied state = expected))) LedgerNotPrefix.

(** internal/migrationhistory/history.go:129-160 [History] *)
Definition History (r : Registry) (domains : option domains_map) : result history_error Authority :=
  h ← expect r UninitializedRegistry;
  let d := h_data h in
  domains ← expect domains LedgerDomainsDiffer;
  refuse (negb (size domains =? size (rd_minimum d))%nat) LedgerDomainsDiffer;;
  for_each (λ '(name, state), history_domain_ok r d name state) (map_to_list domains);;
  let completed id := bool_decide (id ∈ completed_ids domains) in
  for_each (λ m,
    if completed (m_ID m)
    then for_each (λ dep, refuse (negb (completed dep)) (AppliedBeforeDependency (m_ID m) dep)) (m_DependsOn m)
    else Ok tt) (rd_migrations d);;
  Ok (mkAuthority (Some h) (Some domains)).

(** internal/migrationhistory/history.go:161-163 [owns] *)
Definition owns_authority (r : Registry) (a : Authority) : bool :=
  bool_decide (is_Some r) && bool_decide (au_registry a = r) && bool_decide (is_Some (au_domains a)).

(** internal/migrationhistory/history.go:164-173 [Baseline] *)
Definition Baseline (r : Registry) : result history_error Authority :=
  h ← expect r UninitializedRegistry;
  History r (Some ((λ floor, mkDomainState floor []) <$> rd_minimum (h_data h))).

(** internal/migrationhistory/history.go:174-174 [Domains] *)
Definition Domains (a : Authority) : domains_map := default ∅ (au_domains a).

(** The read [a.domains[name].Epoch]. *)
Definition epoch_of (a : Authority) (name : string) : Z :=
  ds_Epoch (get_default (mkDomainState 0 []) name (Domains a)).

(** internal/migrationhistory/history.go:175-186 [Pending] *)
Definition Pending (r : Registry) (a : Authority) : result history_error (list Migration) :=
  refuse (negb (owns_authority r a)) ForeignAuthority;;
  h ← expect r UninitializedRegistry;
  Ok (filter (λ m, (epoch_of a (m_Domain m) <? m_ToEpoch m) = true) (rd_migrations (h_data h))).

(** internal/migrationhistory/history.go:203-217 [Path] *)
Definition Path (r : Registry) (name : string) (from : Z) : result history_error (list Migration) :=
  h ← expect r UninitializedRegistry;
  Applied r name from (get_default 0 name (rd_current (h_data h))) ≫= λ _,
  Ok (filter (λ m, bool_decide (m_Domain m = name) && (from <=? m_FromEpoch m) = true)
        (rd_migrations (h_data h))).

(** internal/migrationhistory/history.go:228-242 [advance] *)
Definition advance (r : Registry) (a : Authority) (m : Migration) : result history_error Edge :=
  refuse (negb (owns_authority r a) || negb (epoch_of a (m_Domain m) =? m_FromEpoch m)) NotNextTransition;;
  let states := Domains a in
  let state := get_default (mkDomainState 0 []) (m_Domain m) states in
  after ← History r (Some (<[ m_Domain m := mkDomainState (m_ToEpoch m) (ds_Applied state ++ [m_ID m]) ]> states));
  Ok (mkEdge a after m).

(** internal/migrationhistory/history.go:218-227 [Next] *)
Definition Next (r : Registry) (a : Authority) : result history_error Edge :=
  pending ← Pending r a;
  m ← expect (head pending) HistoryComplete;
  advance r a m.

(** internal/migrationhistory/history.go:324-333 [Complete] *)
Definition Complete (r : Registry) (a : Authority) : result history_error Completion :=
  pending ← Pending r a;
  refuse (negb (length pending =? 0)%nat) HistoryIncomplete;;
  Ok (mkCompletion a).

(** internal/migrationhistory/history.go:371-380 [CheckCompletion] *)
Definition CheckCompletion (r : Registry) (completion : Completion) : result history_error unit :=
  pending ← Pending r (c_terminal completion);
  refuse (negb (length pending =? 0)%nat) HistoryIncomplete.

(** ** Edges and traces *)

(** internal/migrationhistory/history.go:248-253 [CheckEdge] *)
Definition CheckEdge (r : Registry) (e : Edge) : result history_error unit :=
  refuse (negb (owns_authority r (e_before e)) || negb (owns_authority r (e_after e)) ||
          bool_decide (m_ID (e_migration e) = "")) ForeignEdge.

(** internal/migrationhistory/history.go:348-348 [Edge.Validate] *)
Definition Edge_Validate (e : Edge) : result history_error unit :=
  CheckEdge (au_registry (e_before e)) e.

(** internal/migrationhistory/history.go:354-369 [CheckEdgeBinding] *)
Definition CheckEdgeBinding (r : Registry) (e : Edge) : result history_error unit :=
  Edge_Validate e;;
  match r, au_registry (e_before e) with
  | Some h, Some other =>
      let d := h_data h in let o := h_data other in
      refuse (negb (bool_decide (rd_minimum d = rd_minimum o)) ||
              negb (bool_decide (rd_current d = rd_current o)) ||
              negb (bool_decide (rd_retired d = rd_retired o)) ||
              negb (length (rd_migrations d) =? length (rd_migrations o))%nat) ForeignRegistry;;
      for_each (λ '(m, n), refuse (negb (bool_decide (m = n))) ForeignRegistry)
        (zip (rd_migrations d) (rd_migrations o))
  | _, _ => Err ForeignRegistry
  end.

(** The migration an identifier of the registry stands for; [None] where the
    code would index out of range. *)
Definition migration_of (d : registryData) (id : string) : option Migration :=
  rd_migrations d !! get_default 0%nat id (rd_ids d).

(** internal/migrationhistory/history.go:264-278 [TraceFrom]: finding the cut.
    The cut is [None] as long as it equals the length of the trace. *)
Definition find_cut (d : registryData) (observed : Authority) (st : gset string * option nat)
    (ii : nat * string) : result history_error (gset string * option nat) :=
  let '(ids, cut) := st in
  let '(i, id) := ii in
  refuse (negb (has id (rd_ids d)) || seen id ids) (BadTraceMigration id);;
  m ← expect (migration_of d id) IndexPanic;
  if epoch_of observed (m_Domain m) <? m_ToEpoch m
  then Ok ({[ id ]} ∪ ids, match cut with Some c => Some c | None => Some i end)
  else refuse (bool_decide (is_Some cut)) NotTraceCut;; Ok ({[ id ]} ∪ ids, cut).

(** internal/migrationhistory/history.go:280-298 [TraceFrom]: undoing one step of
    the observed frontier. *)
Definition undo_step (r : Registry) (d : registryData) (initial : Authority) (id : string) :
    result history_error Authority :=
  m ← expect (migration_of d id) IndexPanic;
  let states := Domains initial in
  let state := get_default (mkDomainState 0 []) (m_Domain m) states in
  refuse (negb (ds_Epoch state =? m_ToEpoch m) || negb (bool_decide (last (ds_Applied state) = Some (m_ID m))))
    NotDomainPrefix;;
  History r (Some (<[ m_Domain m := mkDomainState (m_FromEpoch m) (removelast (ds_Applied state)) ]> states)).

(** internal/migrationhistory/history.go:301-317 [TraceFrom]: replaying one step. *)
Definition replay_step (r : Registry) (d : registryData) (cut : nat) (st : list Edge * Authority)
    (ii : nat * string) : result history_error (list Edge * Authority) :=
  let '(edges, cursor) := st in
  let '(index, id) := ii in
  edge ← (if (index <? cut)%nat then m ← expect (migration_of d id) IndexPanic; advance r cursor m
          else edge ← Next r cursor;
               refuse (bool_decide (m_ID (e_migration edge) ≠ id)) (NotCanonicalNext id);; Ok edge);
  Ok (edges ++ [edge], e_after edge).

(** internal/migrationhistory/history.go:258-320 [TraceFrom] *)
Definition TraceFrom (r : Registry) (observed : Authority) (ids : list string) :
    result history_error Trace :=
  refuse (negb (owns_authority r observed)) ForeignAuthority;;
  h ← expect r UninitializedRegistry;
  let d := h_data h in
  found ← for_range (find_cut d observed) (zip (seq 0 (length ids)) ids) (∅, None);
  let cut := default (length ids) found.2 in
  initial ← for_range (undo_step r d) (rev (take cut ids)) observed;
  replayed ← for_range (replay_step r d cut) (zip (seq 0 (length ids)) ids) ([], initial);
  Ok (mkTrace initial replayed.2 replayed.1).

(** internal/migrationhistory/history.go:334-344 [NewCompatibilityProjection] *)
Definition NewCompatibilityProjection (epochs : option (gmap string Z)) (pin : string) :
    result history_error CompatibilityProjection :=
  epochs ← expect epochs InvalidProjection;
  refuse (negb (validPin pin)) InvalidProjection;;
  refuse (negb (map_all (λ name epoch, safeID name && (1 <=? epoch)) epochs)) InvalidProjection;;
  Ok (mkCompatibilityProjection epochs pin).

(** ** Well-formed registries *)

(** The migrations of a domain, in registry order. *)
Definition domain_path (migrations : list Migration) (name : string) : list Migration :=
  filter (λ m, m_Domain m = name) migrations.

Record registry_ok (d : registryData) : Prop := {
  ro_domains : ∀ n, is_Some (rd_minimum d !! n) ↔ is_Some (rd_current d !! n);
  ro_range : ∀ n f c, rd_minimum d !! n = Some f → rd_current d !! n = Some c → 1 ≤ f ≤ c;
  ro_domain : ∀ m, m ∈ rd_migrations d → is_Some (rd_minimum d !! m_Domain m);
  ro_path : ∀ n f c, rd_minimum d !! n = Some f → rd_current d !! n = Some c →
    (m_FromEpoch <$> domain_path (rd_migrations d) n) = seqZ f (c - f);
  ro_step : ∀ m, m ∈ rd_migrations d → m_ToEpoch m = m_FromEpoch m + 1;
  ro_unique : NoDup (m_ID <$> rd_migrations d);
  ro_ids : ∀ id i, rd_ids d !! id = Some i ↔ (m_ID <$> rd_migrations d) !! i = Some id;
  ro_deps : ∀ l1 m l2 dep, rd_migrations d = l1 ++ m :: l2 → dep ∈ m_DependsOn m →
    dep ∈ m_ID <$> l1;
  ro_safe : ∀ m, m ∈ rd_migrations d → safeID (m_ID m) = true ∧ safeID (m_Kind m) = true;
  ro_names : ∀ n, is_Some (rd_minimum d !! n) → safeID n = true }.

(** *** Paths of consecutive epochs *)

Lemma filter_ext_in {A} (P Q : A → Prop) `{∀ x, Decision (P x), ∀ x, Decision (Q x)} (l : list A) :
  (∀ x, x ∈ l → P x ↔ Q x) → filter P l = filter Q l.
Proof.
  induction l as [|x l IH]; intros HPQ; [done|]. rewrite !filter_cons.
  rewrite IH by (intros y Hy; apply HPQ; by right).
  destruct (HPQ x) as [H1 H2]; [by left|]. repeat case_decide; naive_solver.
Qed.

Lemma seqZ_take_filter (l : list Migration) f k e :
  (m_FromEpoch <$> l) = seqZ f k → f ≤ e →
  filter (λ m, m_FromEpoch m < e) l = take (Z.to_nat (e - f)) l.
Proof.
  revert f k. induction l as [|m l IH]; intros f k Hl He; [by rewrite take_nil|].
  destruct (decide (0 < k)) as [Hk|Hk]; [|rewrite seqZ_nil in Hl by lia; csimpl in Hl; discriminate Hl].
  rewrite seqZ_cons in Hl by done. csimpl in Hl. injection Hl as Hm Hl. rewrite filter_cons.
  destruct (decide (m_FromEpoch m < e)) as [Hlt|Hge].
  - replace (Z.to_nat (e - f)) with (S (Z.to_nat (e - Z.succ f))) by lia. simpl.
    f_equal. apply (IH _ (Z.pred k)); [done|lia].
  - replace (Z.to_nat (e - f)) with 0%nat by lia. simpl.
    rewrite (filter_ext_in _ (λ _, False)); [clear; by induction l|].
    intros x Hx. split; [|done]. apply (list_elem_of_fmap_2 m_FromEpoch) in Hx. rewrite Hl in Hx.
    apply elem_of_seqZ in Hx. lia.
Qed.

Section registry.
Context (d : registryData) (Hd : registry_ok d).

Lemma path_elem m :
  m ∈ rd_migrations d → m ∈ domain_path (rd_migrations d) (m_Domain m).
Proof. intros Hm. by apply list_elem_of_filter. Qed.

Lemma path_bounds m :
  m ∈ rd_migrations d → ∃ f c, rd_minimum d !! m_Domain m = Some f ∧ rd_current d !! m_Domain m = Some c ∧
    f ≤ m_FromEpoch m < c.
Proof.
  intros Hm. destruct (ro_domain d Hd m Hm) as [f Hf].
  destruct (proj1 (ro_domains d Hd _) (ex_intro _ _ Hf)) as [c Hc]. exists f, c. split; [done|]. split; [done|].
  pose proof (list_elem_of_fmap_2 m_FromEpoch _ _ (path_elem m Hm)) as Hin.
  rewrite (ro_path d Hd _ _ _ Hf Hc) in Hin. apply elem_of_seqZ in Hin. lia.
Qed.

Lemma path_lookup n f c k :
  rd_minimum d !! n = Some f → rd_current d !! n = Some c → 0 ≤ k < c - f →
  ∃ m, domain_path (rd_migrations d) n !! Z.to_nat k = Some m ∧ m ∈ rd_migrations d ∧
       m_Domain m = n ∧ m_FromEpoch m = f + k.
Proof.
  intros Hf Hc Hk. pose proof (ro_path d Hd _ _ _ Hf Hc) as Hp.
  assert ((m_FromEpoch <$> domain_path (rd_migrations d) n) !! Z.to_nat k = Some (f + k)) as Hl.
  { rewrite Hp. apply lookup_seqZ. lia. }
  apply list_lookup_fmap_Some in Hl as (m & E & Hm). exists m. split; [done|].
  apply list_elem_of_lookup_2, list_elem_of_filter in Hm as [? ?]. done.
Qed.

(** A migration is where its epoch says in the path of its domain. *)
Lemma path_position m f :
  m ∈ rd_migrations d → rd_minimum d !! m_Domain m = Some f →
  domain_path (rd_migrations d) (m_Domain m) !! Z.to_nat (m_FromEpoch m - f) = Some m.
Proof.
  intros Hm Hf. destruct (path_bounds m Hm) as (f' & c & Hf' & Hc & Hb).
  assert (f' = f) as -> by congruence.
  destruct (path_lookup _ _ _ (m_FromEpoch m - f) Hf Hc ltac:(lia)) as (m' & Hl & _ & _ & E).
  pose proof (path_elem m Hm) as Hin. apply list_elem_of_lookup in Hin as [i Hi].
  assert (seqZ f (c - f) !! i = Some (m_FromEpoch m)) as Hs.
  { by rewrite <-(ro_path d Hd _ _ _ Hf Hc), list_lookup_fmap, Hi. }
  apply lookup_seqZ in Hs. rewrite <-Hi. f_equal. lia.
Qed.

(** Earlier epochs of a domain come earlier in the registry. *)
Lemma path_before l1 m l2 f e :
  rd_migrations d = l1 ++ m :: l2 → rd_minimum d !! m_Domain m = Some f → f ≤ e < m_FromEpoch m →
  ∃ m', m' ∈ l1 ∧ m_Domain m' = m_Domain m ∧ m_FromEpoch m' = e.
Proof.
  intros Hl Hf He. assert (m ∈ rd_migrations d) as Hm by (rewrite Hl; set_solver).
  destruct (path_bounds m Hm) as (f' & c & Hf' & Hc & Hb). assert (f' = f) as -> by congruence.
  pose proof (ro_path d Hd _ _ _ Hf Hc) as Hp. unfold domain_path in Hp.
  rewrite Hl, filter_app, filter_cons_True, fmap_app in Hp by done. csimpl in Hp.
  set (p1 := m_FromEpoch <$> filter (λ x, m_Domain x = m_Domain m) l1) in Hp.
  assert (seqZ f (c - f) !! length p1 = Some (m_FromEpoch m)) as Hs.
  { by rewrite <-Hp, lookup_app_r, Nat.sub_diag. }
  apply lookup_seqZ in Hs.
  assert (p1 !! Z.to_nat (e - f) = Some e) as He1.
  { assert (seqZ f (c - f) !! Z.to_nat (e - f) = Some e) as E by (apply lookup_seqZ; lia).
    rewrite <-Hp, lookup_app_l in E by lia. done. }
  apply list_lookup_fmap_Some in He1 as (m' & -> & Hm').
  apply list_elem_of_lookup_2, list_elem_of_filter in Hm' as [? ?]. by exists m'.
Qed.

Lemma migration_unique m m' : m ∈ rd_migrations d → m' ∈ rd_migrations d → m_ID m = m_ID m' → m = m'.
Proof. apply NoDup_key, Hd. Qed.

Lemma migration_of_Some m : m ∈ rd_migrations d → migration_of d (m_ID m) = Some m ∧ is_Some (rd_ids d !! m_ID m).
Proof.
  intros [i Hi]%list_elem_of_lookup. assert (rd_ids d !! m_ID m = Some i) as E.
  { apply (ro_ids d Hd). by rewrite list_lookup_fmap, Hi. }
  unfold migration_of, get_default. rewrite E. simpl. split; [done|eauto].
Qed.

Lemma known_id id : is_Some (rd_ids d !! id) → ∃ m, m ∈ rd_migrations d ∧ m_ID m = id.
Proof.
  intros [i Hi]. apply (ro_ids d Hd), list_lookup_fmap_Some in Hi as (m & -> & Hm).
  exists m. split; [by eapply list_elem_of_lookup_2|done].
Qed.

Lemma dependency_irrefl m : m ∈ rd_migrations d → m_ID m ∉ m_DependsOn m.
Proof.
  intros Hm Hdep. destruct (list_elem_of_split _ _ Hm) as (l1 & l2 & Hl).
  apply (ro_deps d Hd _ _ _ _ Hl) in Hdep. pose proof (ro_unique d Hd) as Hnd.
  rewrite Hl, fmap_app in Hnd. csimpl in Hnd. apply NoDup_app in Hnd as (_ & Hnd & _).
  destruct (Hnd _ Hdep). by left.
Qed.

(** The applied prefix of a domain at epoch [e]. *)
Definition prefix_at (name : string) (f e : Z) : list Migration :=
  take (Z.to_nat (e - f)) (domain_path (rd_migrations d) name).

Lemma prefix_filter n f c e :
  rd_minimum d !! n = Some f → rd_current d !! n = Some c → f ≤ e →
  filter (λ m, bool_decide (m_Domain m = n) && (f <=? m_FromEpoch m) && (m_ToEpoch m <=? e) = true)
    (rd_migrations d) = prefix_at n f e.
Proof.
  intros Hf Hc He. unfold prefix_at. rewrite <-(seqZ_take_filter _ f (c - f)) by (done || by apply Hd).
  unfold domain_path. rewrite list_filter_filter. apply filter_ext_in. intros m Hm. bools.
  rewrite (ro_step d Hd m Hm). destruct (path_bounds m Hm) as (f' & c' & Hf' & _ & Hb).
  split; [intros; split_and!; lia || tauto|]. intros [? E]. rewrite E in Hf'. assert (f' = f) by congruence.
  split_and!; [done|lia|lia].
Qed.

Lemma elem_of_prefix m n f e :
  rd_minimum d !! n = Some f → f ≤ e →
  m ∈ prefix_at n f e ↔ m ∈ rd_migrations d ∧ m_Domain m = n ∧ m_FromEpoch m < e.
Proof.
  intros Hf He. destruct (proj1 (ro_domains d Hd _) (ex_intro _ _ Hf)) as [c Hc].
  unfold prefix_at. rewrite <-(seqZ_take_filter _ f (c - f)) by (done || by apply Hd).
  unfold domain_path. rewrite !list_elem_of_filter. tauto.
Qed.

Lemma prefix_snoc m f :
  m ∈ rd_migrations d → rd_minimum d !! m_Domain m = Some f →
  prefix_at (m_Domain m) f (m_FromEpoch m + 1) = prefix_at (m_Domain m) f (m_FromEpoch m) ++ [m].
Proof.
  intros Hm Hf. destruct (path_bounds m Hm) as (f' & c & Hf' & Hc & Hb). assert (f' = f) as -> by congruence.
  unfold prefix_at. replace (Z.to_nat (m_FromEpoch m + 1 - f)) with (S (Z.to_nat (m_FromEpoch m - f))) by lia.
  apply take_S_r. by apply path_position.
Qed.
End registry.

(** ** Frontiers *)

(** A migration is applied when the epoch of its domain is past it. *)
Definition applied (D : domains_map) (m : Migration) : Prop :=
  m_FromEpoch m < ds_Epoch (get_default (mkDomainState 0 []) (m_Domain m) D).

Record frontier (d : registryData) (D : domains_map) : Prop := {
  fr_domains : ∀ n, is_Some (D !! n) ↔ is_Some (rd_minimum d !! n);
  fr_range : ∀ n s f c, D !! n = Some s → rd_minimum d !! n = Some f → rd_current d !! n = Some c →
    f ≤ ds_Epoch s ≤ c;
  fr_prefix : ∀ n s f, D !! n = Some s → rd_minimum d !! n = Some f →
    ds_Applied s = m_ID <$> prefix_at d n f (ds_Epoch s);
  fr_closed : ∀ m m', m ∈ rd_migrations d → m' ∈ rd_migrations d → m_ID m' ∈ m_DependsOn m →
    applied D m → applied D m' }.

Section frontiers.
Context (d : registryData) (Hd : registry_ok d).

Lemma map_to_list_keys {A} (P : string → A → Prop) (m : gmap string A) :
  (∀ kv, kv ∈ map_to_list m → P kv.1 kv.2) ↔ (∀ k v, m !! k = Some v → P k v).
Proof.
  split.
  - intros H k v Hk. apply (H (k, v)). by apply elem_of_map_to_list.
  - intros H [k v] Hk. apply H. by apply elem_of_map_to_list.
Qed.

(** What the first loop of [History] establishes. *)
Lemma history_domain_Ok addr n s :
  history_domain_ok (Some (mkHandle addr d)) d n s = Ok tt ↔
  ∃ f c, rd_minimum d !! n = Some f ∧ rd_current d !! n = Some c ∧ f ≤ ds_Epoch s ≤ c ∧
    ds_Applied s = m_ID <$> prefix_at d n f (ds_Epoch s).
Proof.
  unfold history_domain_ok, Applied, has, get_default. simpl. split.
  - intros H. ok_inv. bools. destruct (rd_minimum d !! n) as [f|] eqn:Hf; [|by destruct H0 as [? ?]].
    destruct (proj1 (ro_domains d Hd n) ltac:(eauto)) as [c Hc]. rewrite Hc in *. simpl in *.
    exists f, c. split; [done|]. split; [done|]. split; [lia|]. revert H.
    rewrite (proj2 (Z.ltb_ge f f)), (proj2 (Z.ltb_ge (ds_Epoch s) f)), (proj2 (Z.ltb_ge c _)) by lia. simpl.
    by rewrite (prefix_filter d Hd n f c) by (done || lia).
  - intros (f & c & Hf & Hc & Hr & Happ). rewrite Hf, Hc. simpl.
    rewrite (proj2 (Z.ltb_ge f f)), (proj2 (Z.ltb_ge (ds_Epoch s) f)), (proj2 (Z.ltb_ge c _)) by lia. simpl.
    rewrite (prefix_filter d Hd n f c) by (done || lia). by rewrite bool_decide_true.
Qed.

Lemma completed_spec D id :
  (∀ n, is_Some (D !! n) ↔ is_Some (rd_minimum d !! n)) →
  (∀ n s f c, D !! n = Some s → rd_minimum d !! n = Some f → rd_current d !! n = Some c →
     f ≤ ds_Epoch s ≤ c) →
  (∀ n s f, D !! n = Some s → rd_minimum d !! n = Some f →
     ds_Applied s = m_ID <$> prefix_at d n f (ds_Epoch s)) →
  id ∈ completed_ids D ↔ ∃ m, m ∈ rd_migrations d ∧ m_ID m = id ∧ applied D m.
Proof.
  intros Hdom Hrange Hpre. unfold completed_ids. rewrite list_elem_of_bind. split.
  - intros ([n s] & Hid & Hn%elem_of_map_to_list).
    destruct (proj1 (Hdom n) (ex_intro _ _ Hn)) as [f Hf].
    destruct (proj1 (ro_domains d Hd n) (ex_intro _ _ Hf)) as [c Hc].
    rewrite (Hpre n s f Hn Hf) in Hid. apply list_elem_of_fmap in Hid as (m & -> & Hm).
    pose proof (Hrange n s f c Hn Hf Hc). apply elem_of_prefix in Hm as (Hm & Hmd & He); [|done..|lia].
    exists m. split; [done|]. split; [done|]. unfold applied, get_default. by rewrite Hmd, Hn.
  - intros (m & Hm & <- & Happ). destruct (path_bounds d Hd m Hm) as (f & c & Hf & Hc & Hb).
    destruct (proj2 (Hdom (m_Domain m)) (ex_intro _ _ Hf)) as [s Hs]. exists (m_Domain m, s).
    split; [|by apply elem_of_map_to_list]. rewrite (Hpre _ _ _ Hs Hf). apply list_elem_of_fmap_2.
    unfold applied, get_default in Happ. rewrite Hs in Happ. simpl in Happ.
    pose proof (Hrange _ s f c Hs Hf Hc). apply elem_of_prefix; [done..|lia|done].
Qed.

Lemma History_Ok addr D a :
  History (Some (mkHandle addr d)) (Some D) = Ok a ↔
  frontier d D ∧ a = mkAuthority (Some (mkHandle addr d)) (Some D).
Proof.
  unfold History. simpl. split.
  - intros H. ok_inv. bools. rewrite !for_each_Ok in *.
    match goal with H : ∀ x, x ∈ map_to_list D → _ |- _ => rename H into Hdom end.
    match goal with H : ∀ x, x ∈ rd_migrations d → _ |- _ => rename H into Hdeps end.
    assert (∀ n s, D !! n = Some s → ∃ f c, rd_minimum d !! n = Some f ∧ rd_current d !! n = Some c ∧
      f ≤ ds_Epoch s ≤ c ∧ ds_Applied s = m_ID <$> prefix_at d n f (ds_Epoch s)) as Hall.
    { intros n s Hn. apply (history_domain_Ok addr). by apply (Hdom (n, s)), elem_of_map_to_list. }
    assert (dom D = dom (rd_minimum d)) as Hdd.
    { apply set_subseteq_size_eq; [|rewrite !size_dom; lia].
      intros n [s Hn]%elem_of_dom. destruct (Hall n s Hn) as (f & c & Hf & _). apply elem_of_dom. eauto. }
    assert (∀ n, is_Some (D !! n) ↔ is_Some (rd_minimum d !! n)) as Hiff.
    { intros n. by rewrite <-!elem_of_dom, Hdd. }
    assert (∀ n s f c, D !! n = Some s → rd_minimum d !! n = Some f → rd_current d !! n = Some c →
      f ≤ ds_Epoch s ≤ c) as Hrange.
    { intros n s f c Hn Hf Hc. destruct (Hall n s Hn) as (f' & c' & Hf' & Hc' & Hr & _). simplify_eq. done. }
    assert (∀ n s f, D !! n = Some s → rd_minimum d !! n = Some f →
      ds_Applied s = m_ID <$> prefix_at d n f (ds_Epoch s)) as Hpre.
    { intros n s f Hn Hf. destruct (Hall n s Hn) as (f' & c' & Hf' & _ & _ & Hp). by simplify_eq. }
    split; [|congruence]. split; try done.
    intros m m' Hm Hm' Hdep Happ. specialize (Hdeps m Hm).
    rewrite bool_decide_true in Hdeps by (apply completed_spec; eauto).
    rewrite for_each_Ok in Hdeps. specialize (Hdeps _ Hdep). apply refuse_Ok in Hdeps. bools.
    apply completed_spec in Hdeps as (m2 & Hm2 & E & Happ2); [|done..].
    by rewrite <-(migration_unique d Hd m2 m').
  - intros [Hf ->]. destruct Hf as [Hdom Hrange Hpre Hclosed].
    assert (size D = size (rd_minimum d)) as ->.
    { rewrite <-!size_dom. f_equal. apply set_eq. intros n. by rewrite !elem_of_dom. }
    rewrite Nat.eqb_refl. simpl.
    rewrite (for_each_total (λ '(name, state), _)); cycle 1.
    { intros [n s] Hn%elem_of_map_to_list. apply history_domain_Ok.
      destruct (proj1 (Hdom n) (ex_intro _ _ Hn)) as [f Hf].
      destruct (proj1 (ro_domains d Hd n) (ex_intro _ _ Hf)) as [c Hc]. exists f, c.
      split; [done|]. split; [done|]. split; [by eapply Hrange|by apply Hpre]. }
    simpl. rewrite for_each_total; [done|]. intros m Hm. case_bool_decide as Hc; [|done].
    apply for_each_total. intros dep Hdep. apply refuse_Ok, negb_false_iff, bool_decide_true.
    apply completed_spec in Hc as (m2 & Hm2 & E & Happ); [|done..].
    apply (migration_unique d Hd) in E as ->; [|done..].
    destruct (list_elem_of_split _ _ Hm) as (l1 & l2 & Hl).
    apply (ro_deps d Hd _ _ _ _ Hl) in Hdep as Hd1.
    apply list_elem_of_fmap in Hd1 as (m' & -> & Hm'). apply completed_spec; [done..|].
    assert (m' ∈ rd_migrations d) by (rewrite Hl; set_solver). exists m'. split; [done|]. split; [done|].
    by apply (Hclosed m m').
Qed.
End frontiers.

(** ** Steps between frontiers *)

(** Applying one migration. *)
Definition bump (D : domains_map) (m : Migration) : domains_map :=
  <[ m_Domain m := mkDomainState (m_ToEpoch m)
       (ds_Applied (get_default (mkDomainState 0 []) (m_Domain m) D) ++ [m_ID m]) ]> D.

#[export] Instance applied_dec D m : Decision (applied D m).
Proof. unfold applied. apply _. Defined.

(** A migration can be applied: its domain is at its epoch and what it depends on
    is applied. *)
Definition enabled (d : registryData) (D : domains_map) (m : Migration) : Prop :=
  m ∈ rd_migrations d ∧ ds_Epoch (get_default (mkDomainState 0 []) (m_Domain m) D) = m_FromEpoch m ∧
  ∀ m', m' ∈ rd_migrations d → m_ID m' ∈ m_DependsOn m → applied D m'.

Fixpoint enabled_path (d : registryData) (D : domains_map) (ms : list Migration) : Prop :=
  match ms with
  | [] => True
  | m :: ms' => enabled d D m ∧ enabled_path d (bump D m) ms'
  end.

Definition pending (d : registryData) (D : domains_map) : list Migration :=
  filter (λ m, ¬ applied D m) (rd_migrations d).

Section moves.
Context (d : registryData) (Hd : registry_ok d).

Lemma applied_bump D m x :
  m ∈ rd_migrations d → x ∈ rd_migrations d →
  ds_Epoch (get_default (mkDomainState 0 []) (m_Domain m) D) = m_FromEpoch m →
  applied (bump D m) x ↔ applied D x ∨ x = m.
Proof.
  intros Hm Hx He. unfold applied, bump, get_default in *.
  destruct (decide (m_Domain x = m_Domain m)) as [E|E].
  - rewrite E, lookup_insert_eq. simpl. rewrite He, (ro_step d Hd m Hm). split.
    + intros Hlt. destruct (decide (m_FromEpoch x = m_FromEpoch m)) as [Ef|]; [|left; lia]. right.
      destruct (ro_domain d Hd m Hm) as [f Hf].
      pose proof (path_position d Hd m f Hm Hf) as H1.
      pose proof (path_position d Hd x f Hx ltac:(by rewrite E)) as H2. rewrite E, Ef in H2. congruence.
    + intros [?| ->]; lia.
  - rewrite lookup_insert_ne by congruence. split; [by left|]. intros [?| ->]; done.
Qed.

Lemma enabled_not_applied D m : enabled d D m → ¬ applied D m.
Proof. intros (_ & He & _). unfold applied. lia. Qed.

Lemma enabled_frontier D m : frontier d D → enabled d D m → frontier d (bump D m).
Proof.
  intros [Hdom Hrange Hpre Hclosed] (Hm & He & Hdeps).
  destruct (path_bounds d Hd m Hm) as (f & c & Hf & Hc & Hb).
  destruct (proj2 (Hdom (m_Domain m)) (ex_intro _ _ Hf)) as [s Hs].
  pose proof He as He'. unfold get_default in He. rewrite Hs in He. simpl in He.
  split.
  - intros n. unfold bump. destruct (decide (m_Domain m = n)) as [<-|].
    + rewrite lookup_insert_eq. split; eauto.
    + by rewrite lookup_insert_ne.
  - intros n s' f' c'. unfold bump. destruct (decide (m_Domain m = n)) as [<-|].
    + rewrite lookup_insert_eq. intros [= <-] ? ?. simplify_eq. simpl. rewrite (ro_step d Hd m Hm). lia.
    + rewrite lookup_insert_ne by done. apply Hrange.
  - intros n s' f'. unfold bump. destruct (decide (m_Domain m = n)) as [<-|].
    + rewrite lookup_insert_eq. intros [= <-] ?. simplify_eq. simpl.
      unfold get_default. rewrite Hs, (ro_step d Hd m Hm). simpl.
      rewrite (prefix_snoc d Hd m f Hm Hf), fmap_app, (Hpre _ _ _ Hs Hf), He. done.
    + rewrite lookup_insert_ne by done. apply Hpre.
  - intros x x' Hx Hx' Hdep. rewrite !applied_bump by done.
    intros [Ha| ->]; left; [by apply (Hclosed x x')|by apply Hdeps].
Qed.

(** The first pending migration is always enabled. *)
Lemma first_pending D m rest : frontier d D → pending d D = m :: rest → enabled d D m.
Proof.
  intros HD Hp. assert (head (pending d D) = Some m) as Hh by (by rewrite Hp).
  apply head_filter_Some in Hh as (l1 & l2 & Hl & Hbefore).
  assert (m ∈ rd_migrations d) as Hm by (rewrite Hl; set_solver).
  assert (¬ applied D m) as Hn.
  { assert (m ∈ pending d D) as Hin by (rewrite Hp; by left). by apply list_elem_of_filter in Hin as [? _]. }
  assert (∀ x, x ∈ l1 → applied D x) as Hall.
  { intros x Hx. rewrite Forall_forall in Hbefore. apply dec_stable. by apply Hbefore. }
  destruct (path_bounds d Hd m Hm) as (f & c & Hf & Hc & Hb).
  destruct (proj2 (fr_domains _ _ HD (m_Domain m)) (ex_intro _ _ Hf)) as [s Hs].
  pose proof (fr_range _ _ HD _ _ _ _ Hs Hf Hc) as Hr.
  split_and!; [done| |].
  - unfold applied, get_default in *. rewrite Hs in *. simpl in *.
    destruct (decide (ds_Epoch s = m_FromEpoch m)); [done|].
    destruct (path_before d Hd l1 m l2 f (ds_Epoch s) Hl Hf ltac:(lia)) as (m' & Hm' & E & Ef).
    specialize (Hall m' Hm'). rewrite E, Hs in Hall. simpl in Hall. lia.
  - intros m' Hm' Hdep. apply (ro_deps d Hd _ _ _ _ Hl) in Hdep.
    apply list_elem_of_fmap in Hdep as (m2 & E & Hm2).
    rewrite (migration_unique d Hd m' m2); [by apply Hall|done|rewrite Hl; set_solver|done].
Qed.

Lemma pending_bump D m rest :
  frontier d D → pending d D = m :: rest → pending d (bump D m) = rest.
Proof.
  intros HD Hp. pose proof (first_pending D m rest HD Hp) as (Hm & He & _).
  assert (pending d (bump D m) = filter (λ x, x ≠ m) (pending d D)) as ->.
  { unfold pending. rewrite list_filter_filter. apply filter_ext_in. intros x Hx.
    rewrite applied_bump by done. tauto. }
  rewrite Hp, filter_cons_False by tauto.
  assert (NoDup (pending d D)) as Hnd.
  { apply NoDup_filter, (NoDup_fmap_1 m_ID), Hd. }
  rewrite Hp in Hnd. apply NoDup_cons in Hnd as [Hnin _].
  rewrite (filter_ext_in _ (λ _, True)); [clear; induction rest as [|x l IH]; [done|]; by rewrite filter_cons_True, IH|].
  intros x Hx. split; [done|]. intros _ ->. done.
Qed.

End moves.

Section steps.
Context (addr : Z) (d : registryData) (Hd : registry_ok d).
Let r : Registry := Some (mkHandle addr d).
Let auth (D : domains_map) : Authority := mkAuthority r (Some D).

Lemma owns_auth a : owns_authority r a = true ↔ ∃ D, a = auth D.
Proof.
  unfold owns_authority. bools. split.
  - intros [[_ Hr] [D HD]]. exists D. destruct a; simpl in *. by subst.
  - intros [D ->]. simpl. split; [split|]; eauto.
Qed.

Lemma Pending_auth D : Pending r (auth D) = Ok (pending d D).
Proof.
  unfold Pending. rewrite (proj2 (owns_auth _)) by eauto. simpl. f_equal.
  apply filter_ext_in. intros m Hm. unfold applied, epoch_of, Domains. simpl. bools.
  rewrite (ro_step d Hd m Hm). lia.
Qed.

Lemma advance_auth D m e :
  frontier d D → m ∈ rd_migrations d →
  advance r (auth D) m = Ok e ↔ enabled d D m ∧ e = mkEdge (auth D) (auth (bump D m)) m.
Proof.
  intros HD Hm. unfold advance. rewrite (proj2 (owns_auth _)) by eauto. simpl.
  unfold epoch_of, Domains. simpl. fold (bump D m). split.
  - intros H. ok_inv. bools. match goal with H : History _ _ = Ok ?v |- _ =>
      apply (History_Ok d Hd) in H as [Hf ->] end.
    split; [|done]. split_and!; [done|done|]. intros m' Hm' Hdep.
    assert (applied (bump D m) m') as Ha.
    { apply (fr_closed _ _ Hf m m'); [done..|]. apply (applied_bump d Hd); auto. }
    apply (applied_bump d Hd) in Ha as [?| ->]; [done| |done..]. by destruct (dependency_irrefl d Hd m Hm).
  - intros [Hen ->]. pose proof Hen as (_ & He & _). rewrite He, Z.eqb_refl. simpl.
    fold (bump D m). assert (History r (Some (bump D m)) = Ok (auth (bump D m))) as ->; [|done].
    apply (History_Ok d Hd). split; [by apply (enabled_frontier d Hd)|done].
Qed.

Lemma Next_auth D m rest :
  frontier d D → pending d D = m :: rest →
  Next r (auth D) = Ok (mkEdge (auth D) (auth (bump D m)) m).
Proof.
  intros HD Hp. unfold Next. rewrite Pending_auth, Hp. simpl.
  pose proof (first_pending d Hd D m rest HD Hp) as Hen. apply advance_auth; [done|apply Hen|done].
Qed.

Lemma Next_complete D : pending d D = [] → Next r (auth D) = Err HistoryComplete.
Proof. intros Hp. unfold Next. by rewrite Pending_auth, Hp. Qed.
End steps.

(** ** Construction of a registry *)

Lemma zip_seq_split {A} (l : list A) pre i x post :
  zip (seq 0 (length l)) l = pre ++ (i, x) :: post → i = length pre.
Proof.
  intros E. assert (zip (seq 0 (length l)) l !! length pre = Some (i, x)) as H.
  { by rewrite E, lookup_app_r, Nat.sub_diag. }
  apply lookup_zip_with_Some in H as (j & y & [= <- <-] & Hj & _).
  apply lookup_seq in Hj as [-> _]. done.
Qed.

Lemma domain_path_snoc l m n :
  domain_path (l ++ [m]) n = domain_path l n ++ if decide (m_Domain m = n) then [m] else [].
Proof. unfold domain_path. rewrite filter_app, filter_cons. by case_decide. Qed.

Lemma i64_succ z k : i64 (i64 z + k) = i64 (z + k).
Proof.
  unfold i64. f_equal.
  replace ((z + 2 ^ 63) mod 2 ^ 64 - 2 ^ 63 + k + 2 ^ 63) with ((z + 2 ^ 63) mod 2 ^ 64 + k) by lia.
  rewrite Zplus_mod_idemp_l. f_equal. lia.
Qed.

(** What the loop over the migrations maintains: the expected epoch of a domain
    is its floor plus the number of its migrations, in 64 bits. *)
Record registering (minimum : gmap string Z) (pre : list Migration)
    (expected : gmap string Z) (ids : gmap string nat) : Prop := {
  rg_expected : ∀ n, expected !! n =
    (λ f, i64 (f + Z.of_nat (length (domain_path pre n)))) <$> (minimum !! n);
  rg_from : ∀ n f, minimum !! n = Some f →
    (m_FromEpoch <$> domain_path pre n) =
    (λ k, i64 (f + k)) <$> seqZ 0 (Z.of_nat (length (domain_path pre n)));
  rg_domain : ∀ m, m ∈ pre → is_Some (minimum !! m_Domain m);
  rg_step : ∀ m, m ∈ pre → m_ToEpoch m = i64 (m_FromEpoch m + 1);
  rg_unique : NoDup (m_ID <$> pre);
  rg_ids : ∀ id i, ids !! id = Some i ↔ (m_ID <$> pre) !! i = Some id;
  rg_deps : ∀ l1 m l2 dep, pre = l1 ++ m :: l2 → dep ∈ m_DependsOn m → dep ∈ m_ID <$> l1;
  rg_safe : ∀ m, m ∈ pre → safeID (m_ID m) = true ∧ safeID (m_Kind m) = true }.

Lemma check_dependency_Ok ids id deps dep deps' :
  check_dependency ids id deps dep = Ok deps' → is_Some (ids !! dep).
Proof. unfold check_dependency, has. intros H. ok_inv. bools. done. Qed.

Lemma registering_ids_elem minimum pre expected ids dep :
  registering minimum pre expected ids → is_Some (ids !! dep) ↔ dep ∈ m_ID <$> pre.
Proof.
  intros Hr. rewrite list_elem_of_lookup. split; intros [i Hi]; exists i; by apply (rg_ids _ _ _ _ Hr).
Qed.

(** What [register_migration] checks. *)
Lemma register_migration_Ok minimum expected ids ms i m st :
  register_migration minimum (expected, ids, ms) (i, m) = Ok st →
  (safeID (m_ID m) = true ∧ safeID (m_Kind m) = true) ∧ ids !! m_ID m = None ∧
  is_Some (minimum !! m_Domain m) ∧ m_ToEpoch m = i64 (m_FromEpoch m + 1) ∧
  m_FromEpoch m = get_default 0 (m_Domain m) expected ∧
  (∀ dep, dep ∈ m_DependsOn m → is_Some (ids !! dep)) ∧
  st = (<[ m_Domain m := m_ToEpoch m ]> expected, <[ m_ID m := i ]> ids, ms ++ [m]).
Proof.
  unfold register_migration, has. intros H. ok_inv.
  match goal with H : for_range _ _ _ = Ok _ |- _ => rename H into Hdeps end.
  bools. split_and!; try done.
  - by apply eq_None_not_Some.
  - intros dep Hdep. destruct (for_range_elem _ _ _ _ _ Hdeps Hdep) as (t & t' & Ht).
    by apply check_dependency_Ok in Ht.
Qed.

Lemma registering_step minimum pre expected ids m st :
  registering minimum pre expected ids →
  register_migration minimum (expected, ids, pre) (length pre, m) = Ok st →
  ∃ expected' ids', st = (expected', ids', pre ++ [m]) ∧ registering minimum (pre ++ [m]) expected' ids'.
Proof.
  intros Hr (Hsafe & Hnew & [f Hf] & Hto & Hfrom & Hdeps & ->)%register_migration_Ok.
  eexists _, _. split; [done|].
  assert (m_FromEpoch m = i64 (f + Z.of_nat (length (domain_path pre (m_Domain m))))) as Hfrom'.
  { rewrite Hfrom. unfold get_default. by rewrite (rg_expected _ _ _ _ Hr), Hf. }
  assert (m_ID m ∉ m_ID <$> pre) as Hfresh.
  { rewrite <-(registering_ids_elem _ _ _ _ _ Hr), Hnew. by intros [? ?]. }
  split.
  - intros n. rewrite domain_path_snoc, length_app. destruct (decide (m_Domain m = n)) as [<-|Hn].
    + rewrite lookup_insert_eq, Hf, Hto, Hfrom', i64_succ. simpl. do 2 f_equal. lia.
    + rewrite lookup_insert_ne, (rg_expected _ _ _ _ Hr) by done. simpl. by rewrite Nat.add_0_r.
  - intros n f' Hf'. rewrite domain_path_snoc, length_app, fmap_app, (rg_from _ _ _ _ Hr n f' Hf').
    case_decide as Hn; simpl; [|by rewrite Nat.add_0_r, app_nil_r]. subst n.
    assert (f' = f) as -> by congruence.
    rewrite Nat2Z.inj_add, seqZ_app, fmap_app by lia. f_equal. by rewrite Hfrom'.
  - intros x [Hx| ->%list_elem_of_singleton]%elem_of_app; [by apply Hr|eauto].
  - intros x [Hx| ->%list_elem_of_singleton]%elem_of_app; [by apply Hr|done].
  - rewrite fmap_app. apply NoDup_app. split_and!; [apply Hr| |apply NoDup_singleton].
    intros x Hx ->%list_elem_of_singleton. done.
  - intros id i. rewrite fmap_app, lookup_app_Some, length_fmap, lookup_insert_Some, (rg_ids _ _ _ _ Hr).
    csimpl. split.
    + intros [[<- <-]|[_ H]]; [right; by rewrite Nat.sub_diag|by left].
    + intros [H|[Hle H]].
      * right. split; [|done]. intros E. apply Hfresh. rewrite E. by eapply list_elem_of_lookup_2.
      * apply list_lookup_singleton_Some in H as [H ->]. left. split; [done|lia].
  - intros l1 x l2 dep E Hdep. destruct l2 as [|y l2 _] using rev_ind.
    + apply app_inj_tail in E as [<- ->]. apply (registering_ids_elem _ _ _ _ _ Hr). by apply Hdeps.
    + rewrite app_comm_cons, app_assoc in E. apply app_inj_tail in E as [E _].
      by apply (rg_deps _ _ _ _ Hr _ _ _ _ E).
  - intros x [Hx| ->%list_elem_of_singleton]%elem_of_app; [by apply Hr|done].
Qed.

Lemma registering_loop minimum migrations expected ids registered :
  (∀ n f, minimum !! n = Some f → 1 ≤ f ≤ max_i64) →
  for_range (register_migration minimum) (zip (seq 0 (length migrations)) migrations) (minimum, ∅, []) =
    Ok (expected, ids, registered) →
  registered = migrations ∧ registering minimum migrations expected ids.
Proof.
  intros Hmin Hrun.
  apply (for_range_inv (λ pre st, ∃ e i, st = (e, i, pre.*2) ∧ registering minimum pre.*2 e i)) in Hrun.
  - rewrite snd_zip in Hrun by (rewrite length_seq; lia). destruct Hrun as (? & ? & [= -> -> ->] & ?). done.
  - exists minimum, ∅. split; [done|]. split.
    + intros n. destruct (minimum !! n) as [f|] eqn:Hf; [|done]. simpl. f_equal.
      specialize (Hmin n f Hf). rewrite Z.add_0_r, i64_small; [done|unfold min_i64; lia].
    + done.
    + by intros ??%elem_of_nil.
    + by intros ??%elem_of_nil.
    + constructor.
    + intros id i. split; [intros H; by rewrite lookup_empty in H|done].
    + intros [|??] ???; done.
    + by intros ??%elem_of_nil.
  - intros pre [i m] post t t' E (e & ids' & -> & Hr) Hstep. apply zip_seq_split in E as ->.
    rewrite <-(length_fmap snd pre) in Hstep.
    apply (registering_step _ _ _ _ _ _ Hr) in Hstep as (e' & i' & -> & Hr').
    exists e', i'. by rewrite fmap_app.
Qed.

Lemma map_all_true {A} (f : string → A → bool) (m : gmap string A) :
  map_all f m = true ↔ ∀ k v, m !! k = Some v → f k v = true.
Proof.
  unfold map_all. rewrite forallb_forall. split.
  - intros H k v Hk%elem_of_map_to_list. by apply (H (k, v)), list_elem_of_In.
  - intros H [k v] Hk%list_elem_of_In%elem_of_map_to_list. by apply H.
Qed.

(** No epoch of an accepted registry wraps around: the path of a domain is not
    longer than a slice, and it ends at an epoch above its floor. *)
Lemma registering_path minimum migrations expected ids n f c :
  registering minimum migrations expected ids → Z.of_nat (length migrations) ≤ max_i64 →
  minimum !! n = Some f → expected !! n = Some c → 1 ≤ f ≤ max_i64 → f ≤ c →
  Z.of_nat (length (domain_path migrations n)) = c - f ∧ c ≤ max_i64.
Proof.
  intros Hr Hlen Hf Hc Hb Hfc. pose proof (rg_expected _ _ _ _ Hr n) as E. rewrite Hf, Hc in E.
  simpl in E. injection E as E. pose proof (length_filter (λ m, m_Domain m = n) migrations) as Hk.
  unfold domain_path in *. set (k := length _) in E, Hk |- *.
  pose proof (i64_range (f + Z.of_nat k)) as Hrange.
  destruct (decide (f + Z.of_nat k ≤ max_i64)) as [Hs|Hs].
  - rewrite i64_small in E by (unfold min_i64; lia). lia.
  - exfalso. unfold i64, max_i64 in *.
    rewrite <-(Z_mod_plus_full _ (-1)), Z.mod_small in E by lia. lia.
Qed.

Lemma NewRegistry_Ok addr minimum current migrations retired r :
  (∀ n f, minimum !! n = Some f → f ≤ max_i64) → Z.of_nat (length migrations) ≤ max_i64 →
  NewRegistry addr minimum current migrations retired = Ok r →
  ∃ ids, r = Some (mkHandle addr (mkRegistryData minimum current retired migrations ids)) ∧
         registry_ok (mkRegistryData minimum current retired migrations ids).
Proof.
  intros Hmax Hlen H. unfold NewRegistry in H. ok_inv. 
  match goal with v : _ * _ * _ |- _ => destruct v as [[expected ids] registered] end.
  ok_inv. subst r.
  match goal with H : for_range _ _ _ = Ok _ |- _ => rename H into Hloop end.
  bools. subst expected. rewrite !map_all_true in *.
  match goal with H : ∀ k v, minimum !! k = Some v → _ |- _ => rename H into Hfloor end.
  match goal with H : ∀ k v, current !! k = Some v → _ |- _ => rename H into Hknown end.
  assert (∀ n f, minimum !! n = Some f → 1 ≤ f ∧ f ≤ get_default 0 n current) as Hrange.
  { intros n f Hn. specialize (Hfloor n f Hn). bools. lia. }
  apply registering_loop in Hloop as [-> Hr].
  2: { intros n f Hn. specialize (Hrange n f Hn). specialize (Hmax n f Hn). lia. }
  exists ids. split; [done|].
  assert (∀ n, is_Some (minimum !! n) ↔ is_Some (current !! n)) as Hdom.
  { intros n. split; intros [x Hx].
    - rewrite (rg_expected _ _ _ _ Hr), Hx. by eexists.
    - specialize (Hknown n x Hx). unfold has in Hknown. by bools. }
  assert (∀ n f c, minimum !! n = Some f → current !! n = Some c → 1 ≤ f ≤ c) as Hfc.
  { intros n f c Hf Hc. specialize (Hrange n f Hf). unfold get_default in Hrange. rewrite Hc in Hrange. done. }
  assert (∀ n f c, minimum !! n = Some f → current !! n = Some c →
    Z.of_nat (length (domain_path migrations n)) = c - f ∧ c ≤ max_i64) as Hcount.
  { intros n f c Hf Hc. eapply registering_path; [done..| |]; specialize (Hfc n f c Hf Hc);
      specialize (Hmax n f Hf); lia. }
  assert (∀ n f c, minimum !! n = Some f → current !! n = Some c →
    (m_FromEpoch <$> domain_path migrations n) = seqZ f (c - f)) as Hpath.
  { intros n f c Hf Hc. destruct (Hcount n f c Hf Hc) as [E Hc']. specialize (Hfc n f c Hf Hc).
    rewrite (rg_from _ _ _ _ Hr n f Hf), E. replace f with (f + 0) at 2 by lia. rewrite <-fmap_add_seqZ.
    apply list_fmap_ext. intros i k Hi%lookup_seqZ. apply i64_small. unfold min_i64. lia. }
  split; simpl; try done; try apply Hr.
  2: { intros n [f Hf]. specialize (Hfloor n f Hf). by bools. }
  intros m Hm. destruct (rg_domain _ _ _ _ Hr m Hm) as [f Hf].
  destruct (proj1 (Hdom _) (ex_intro _ _ Hf)) as [c Hc]. destruct (Hcount _ _ _ Hf Hc) as [_ Hc'].
  specialize (Hfc _ _ _ Hf Hc). rewrite (rg_step _ _ _ _ Hr m Hm), i64_small; [done|].
  assert (m_FromEpoch m ∈ seqZ f (c - f)) as Hin%elem_of_seqZ.
  { rewrite <-(Hpath _ _ _ Hf Hc). apply list_elem_of_fmap_2. by apply list_elem_of_filter. }
  unfold min_i64. lia.
Qed.

(** ** Paths of steps *)

Section paths.
Context (d : registryData) (Hd : registry_ok d).

Lemma frontier_lookup D m : frontier d D → m ∈ rd_migrations d → is_Some (D !! m_Domain m).
Proof. intros HD Hm. apply (fr_domains _ _ HD). by apply (ro_domain d Hd). Qed.

Lemma enabled_path_app D l1 l2 :
  enabled_path d D (l1 ++ l2) ↔ enabled_path d D l1 ∧ enabled_path d (foldl bump D l1) l2.
Proof. revert D. induction l1 as [|m l1 IH]; intros D; simpl; [tauto|]. rewrite IH. tauto. Qed.

Lemma enabled_path_frontier D ms :
  frontier d D → enabled_path d D ms → frontier d (foldl bump D ms).
Proof.
  revert D. induction ms as [|m ms IH]; intros D HD; simpl; [done|].
  intros [Hm Hms]. apply IH; [|done]. by apply (enabled_frontier d Hd).
Qed.

Lemma enabled_path_elem D ms m : enabled_path d D ms → m ∈ ms → m ∈ rd_migrations d.
Proof.
  revert D. induction ms as [|x ms IH]; intros D; simpl; [by intros _ ?%elem_of_nil|].
  intros [Hx Hms] [-> |Hm]%elem_of_cons; [apply Hx|by eapply IH].
Qed.

Lemma applied_path D ms x :
  enabled_path d D ms → x ∈ rd_migrations d → applied (foldl bump D ms) x ↔ applied D x ∨ x ∈ ms.
Proof.
  revert D. induction ms as [|m ms IH]; intros D; simpl.
  - intros _ _. rewrite elem_of_nil. tauto.
  - intros [Hm Hms] Hx. rewrite (IH _ Hms Hx), (applied_bump d Hd D m x) by (done || apply Hm).
    rewrite elem_of_cons. tauto.
Qed.

(** A path applies each of its migrations once. *)
Lemma enabled_path_NoDup D ms : enabled_path d D ms → NoDup ms ∧ Forall (λ m, ¬ applied D m) ms.
Proof.
  revert D. induction ms as [|m ms IH]; intros D; simpl; [split; constructor|].
  intros [Hm Hms]. destruct (IH _ Hms) as [Hnd Hall]. rewrite Forall_forall in Hall.
  assert (∀ x, x ∈ ms → ¬ applied D x ∧ x ≠ m) as Hx.
  { intros x Hx. specialize (Hall x Hx).
    rewrite (applied_bump d Hd) in Hall; [tauto|apply Hm|by eapply enabled_path_elem|apply Hm]. }
  split.
  - constructor; [|done]. intros Hin. by destruct (Hx m Hin).
  - constructor; [by apply (enabled_not_applied d)|]. apply Forall_forall. intros x Hin. by apply Hx.
Qed.

(** The canonical order of what is pending is a path. *)
Lemma pending_path D ms : frontier d D → ms `prefix_of` pending d D → enabled_path d D ms.
Proof.
  revert D. induction ms as [|m ms IH]; intros D HD [rest Hp]; simpl; [done|].
  assert (enabled d D m) as Hm by (by apply (first_pending d Hd D m (ms ++ rest))). split; [done|].
  apply IH; [by apply (enabled_frontier d Hd)|].
  exists rest. by apply (pending_bump d Hd).
Qed.

Lemma pending_after D ms rest :
  frontier d D → pending d D = ms ++ rest → pending d (foldl bump D ms) = rest.
Proof.
  revert D. induction ms as [|m ms IH]; intros D HD Hp; simpl; [done|].
  apply IH; [|by apply (pending_bump d Hd)].
  apply (enabled_frontier d Hd); [done..|]. by apply (first_pending d Hd D m (ms ++ rest)).
Qed.

(** With nothing pending every domain is at its current epoch. *)
Lemma pending_nil D n c :
  frontier d D → pending d D = [] → rd_current d !! n = Some c →
  ∃ s, D !! n = Some s ∧ ds_Epoch s = c.
Proof.
  intros HD Hp Hc. destruct (proj2 (ro_domains d Hd n) (ex_intro _ _ Hc)) as [f Hf].
  destruct (proj2 (fr_domains _ _ HD n) (ex_intro _ _ Hf)) as [s Hs]. exists s. split; [done|].
  pose proof (fr_range _ _ HD _ _ _ _ Hs Hf Hc) as Hr. destruct (decide (ds_Epoch s = c)); [done|exfalso].
  destruct (path_lookup d Hd n f c (ds_Epoch s - f) Hf Hc ltac:(lia)) as (m & _ & Hm & Hn & Hfrom).
  assert (m ∈ pending d D) as Hin; [|rewrite Hp in Hin; by apply elem_of_nil in Hin].
  apply list_elem_of_filter. split; [|done]. unfold applied, get_default. rewrite Hn, Hs. simpl. lia.
Qed.

Lemma baseline_frontier : frontier d ((λ floor, mkDomainState floor []) <$> rd_minimum d).
Proof.
  split.
  - intros n. by rewrite lookup_fmap, fmap_is_Some.
  - intros n s f c Hs Hf Hc. rewrite lookup_fmap, Hf in Hs. simplify_eq/=.
    pose proof (ro_range d Hd _ _ _ Hf Hc). lia.
  - intros n s f Hs Hf. rewrite lookup_fmap, Hf in Hs. simplify_eq/=.
    unfold prefix_at. by rewrite Z.sub_diag.
  - intros m m' Hm _ _. unfold applied, get_default. rewrite lookup_fmap.
    destruct (path_bounds d Hd m Hm) as (f & c & Hf & _ & Hb). rewrite Hf. simpl. lia.
Qed.
End paths.

(** ** Traces *)

Section traces.
Context (addr : Z) (d : registryData) (Hd : registry_ok d).
Let r : Registry := Some (mkHandle addr d).
Let auth (D : domains_map) : Authority := mkAuthority r (Some D).

Lemma Baseline_auth : Baseline r = Ok (auth ((λ floor, mkDomainState floor []) <$> rd_minimum d)).
Proof. apply (History_Ok d Hd). split; [by apply baseline_frontier|done]. Qed.

(** The edges of a path. *)
Fixpoint edges_from (D : domains_map) (ms : list Migration) : list Edge :=
  match ms with
  | [] => []
  | m :: ms' => mkEdge (auth D) (auth (bump D m)) m :: edges_from (bump D m) ms'
  end.

Lemma edges_from_app D l1 l2 :
  edges_from D (l1 ++ l2) = edges_from D l1 ++ edges_from (foldl bump D l1) l2.
Proof. revert D. induction l1 as [|m l1 IH]; intros D; simpl; [done|]. by rewrite IH. Qed.

(** Undoing a step inverts applying it. *)
Lemma undo_step_bump D m :
  frontier d D → enabled d D m → undo_step r d (auth (bump D m)) (m_ID m) = Ok (auth D).
Proof.
  intros HD Hen. pose proof Hen as (Hm & He & _). destruct (migration_of_Some d Hd m Hm) as [Hof _].
  unfold undo_step. rewrite Hof. simpl. unfold Domains, bump. simpl.
  destruct (frontier_lookup d Hd D m HD Hm) as [s Hs]. unfold get_default in *.
  rewrite Hs in *. rewrite lookup_insert_eq. simpl in *.
  rewrite Z.eqb_refl, last_snoc, bool_decide_true by done. simpl.
  rewrite insert_insert_eq, removelast_last, insert_id by (rewrite Hs; f_equal; destruct s; simpl in *; congruence).
  apply (History_Ok d Hd). done.
Qed.

Lemma undo_step_Ok D m a :
  frontier d D → m ∈ rd_migrations d → undo_step r d (auth D) (m_ID m) = Ok a →
  ∃ D', a = auth D' ∧ frontier d D' ∧ enabled d D' m ∧ bump D' m = D.
Proof.
  intros HD Hm. destruct (migration_of_Some d Hd m Hm) as [Hof _].
  unfold undo_step. rewrite Hof. simpl. unfold Domains. simpl.
  destruct (frontier_lookup d Hd D m HD Hm) as [s Hs]. unfold get_default. rewrite Hs. simpl.
  intros H. ok_inv. bools. apply (History_Ok d Hd) in H as [HD' ->].
  match goal with H : last _ = Some _ |- _ => apply last_Some in H as [l Hl] end.
  rewrite Hl, removelast_last in *. set (D' := <[m_Domain m := _]> D) in *.
  assert (bump D' m = D) as Hb.
  { unfold bump, D', get_default. rewrite lookup_insert_eq, insert_insert_eq. simpl.
    apply insert_id. rewrite Hs. f_equal. destruct s; simpl in *; congruence. }
  exists D'. split_and!; try done. split; [done|]. split.
  - unfold D', get_default. by rewrite lookup_insert_eq.
  - intros m' Hm' Hdep. assert (ds_Epoch (get_default (mkDomainState 0 []) (m_Domain m) D') = m_FromEpoch m) as He.
    { unfold D', get_default. by rewrite lookup_insert_eq. }
    assert (applied D m') as Ha.
    { apply (fr_closed _ _ HD m m'); [done..|]. rewrite <-Hb. apply (applied_bump d Hd); auto. }
    rewrite <-Hb in Ha. apply (applied_bump d Hd) in Ha as [?| ->]; [done| |done..].
    by destruct (dependency_irrefl d Hd m Hm).
Qed.

Lemma undo_loop D0 ms :
  frontier d D0 → enabled_path d D0 ms →
  for_range (undo_step r d) (rev (m_ID <$> ms)) (auth (foldl bump D0 ms)) = Ok (auth D0).
Proof.
  intros HD. induction ms as [|m ms IH] using rev_ind; [done|].
  intros [Hms [Hm _]]%enabled_path_app. rewrite fmap_app, rev_app_distr, foldl_app. simpl.
  rewrite undo_step_bump; [by apply IH|by apply enabled_path_frontier|done].
Qed.

Lemma undo_loop_Ok D ms a :
  frontier d D → (∀ m, m ∈ ms → m ∈ rd_migrations d) →
  for_range (undo_step r d) (rev (m_ID <$> ms)) (auth D) = Ok a →
  ∃ D0, a = auth D0 ∧ frontier d D0 ∧ enabled_path d D0 ms ∧ foldl bump D0 ms = D.
Proof.
  revert D. induction ms as [|m ms IH] using rev_ind; intros D HD Hin.
  - intros [= <-]. by exists D.
  - rewrite fmap_app, rev_app_distr. simpl. intros (t & Ht & Hr)%bind_Ok.
    apply undo_step_Ok in Ht as (D' & -> & HD' & Hen & <-); [|done|apply Hin; set_solver].
    apply IH in Hr as (D0 & -> & HD0 & Hp & <-); [|done|intros; apply Hin; set_solver].
    exists D0. rewrite foldl_app. split_and!; try done. apply enabled_path_app. simpl. done.
Qed.

Lemma replay_done D ms cut i es :
  frontier d D → enabled_path d D ms → (i + length ms ≤ cut)%nat →
  for_range (replay_step r d cut) (zip (seq i (length ms)) (m_ID <$> ms)) (es, auth D) =
  Ok (es ++ edges_from D ms, auth (foldl bump D ms)).
Proof.
  revert D i es. induction ms as [|m ms IH]; intros D i es HD; simpl; [by rewrite app_nil_r|].
  intros [Hm Hms] Hcut. rewrite (proj2 (Nat.ltb_lt i cut)) by lia.
  destruct (migration_of_Some d Hd m (proj1 Hm)) as [-> _]. simpl.
  assert (advance r (auth D) m = Ok (mkEdge (auth D) (auth (bump D m)) m)) as ->.
  { by apply (advance_auth addr d Hd D m _ HD (proj1 Hm)). }
  simpl.
  rewrite IH; [by rewrite <-app_assoc|by apply (enabled_frontier d Hd)|done|lia].
Qed.

Lemma replay_pending D ids cut i es st :
  frontier d D → (cut ≤ i)%nat →
  for_range (replay_step r d cut) (zip (seq i (length ids)) ids) (es, auth D) = Ok st ↔
  ∃ ms, ids = m_ID <$> ms ∧ ms `prefix_of` pending d D ∧
        st = (es ++ edges_from D ms, auth (foldl bump D ms)).
Proof.
  revert D i es. induction ids as [|id ids IH]; intros D i es HD Hcut; simpl.
  - split.
    + intros [= <-]. exists []. simpl. rewrite app_nil_r. split_and!; [done|apply prefix_nil|done].
    + intros ([|m ms] & [=] & _ & ->). simpl. by rewrite app_nil_r.
  - rewrite (proj2 (Nat.ltb_ge i cut)) by lia. destruct (pending d D) as [|m rest] eqn:Hp.
    + assert (Next r (auth D) = Err HistoryComplete) as -> by (by apply Next_complete). simpl. split; [done|].
      intros (ms & E & Hpre%prefix_nil_inv & _). by subst ms.
    + assert (Next r (auth D) = Ok (mkEdge (auth D) (auth (bump D m)) m)) as ->.
      { by apply (Next_auth addr d Hd D m rest). }
      simpl.
      pose proof (first_pending d Hd D m rest HD Hp) as Hen.
      pose proof (enabled_frontier d Hd D m HD Hen) as HD'.
      case_bool_decide as Hid; simpl.
      * split; [done|]. intros (ms & E & Hpre & _). destruct ms as [|m2 ms]; [done|].
        apply prefix_cons_inv_1 in Hpre as ->. by injection E as -> _.
      * subst id. rewrite IH by (done || lia).
        rewrite (pending_bump d Hd D m rest HD Hp). split.
        -- intros (ms & -> & Hpre & ->). exists (m :: ms). simpl. rewrite <-app_assoc.
           split_and!; [done|by apply prefix_cons|done].
        -- intros (ms & E & Hpre & ->). destruct ms as [|m2 ms]; [done|].
           pose proof (prefix_cons_inv_1 _ _ _ _ Hpre) as ->. apply prefix_cons_inv_2 in Hpre.
           injection E as ->. exists ms. simpl. by rewrite <-app_assoc.
Qed.
End traces.

Section trace_from.
Context (addr : Z) (d : registryData) (Hd : registry_ok d).
Let r : Registry := Some (mkHandle addr d).
Let auth (D : domains_map) : Authority := mkAuthority r (Some D).

Lemma find_cut_known a ids found :
  for_range (find_cut d a) (zip (seq 0 (length ids)) ids) (∅, None) = Ok found →
  (∃ ms, ids = m_ID <$> ms ∧ ∀ m, m ∈ ms → m ∈ rd_migrations d) ∧
  (default (length ids) found.2 ≤ length ids)%nat.
Proof.
  intros Hrun. apply (for_range_inv (λ pre st,
    (∃ ms, pre.*2 = m_ID <$> ms ∧ ∀ m, m ∈ ms → m ∈ rd_migrations d) ∧
    (∀ c, st.2 = Some c → (c < length pre)%nat))) in Hrun.
  - rewrite snd_zip in Hrun by (rewrite length_seq; lia). destruct Hrun as [Hms Hcut]. split; [done|].
    destruct found.2 as [c|]; simpl; [|done]. specialize (Hcut c eq_refl).
    rewrite length_zip_with, length_seq in Hcut. lia.
  - split; [|done]. exists []. split; [done|]. by intros ??%elem_of_nil.
  - intros pre [i id] post [s cut] st E [(ms & Hms & Hin) Hcut]. apply zip_seq_split in E as ->.
    unfold find_cut. intros Hstep. rewrite length_app. simpl. ok_inv. bools.
    assert (is_Some (rd_ids d !! id)) as Hknown by (unfold has in *; by bools).
    destruct (known_id d Hd id Hknown) as (m & Hm & <-). split.
    + exists (ms ++ [m]). rewrite !fmap_app, Hms. split; [done|].
      intros x [?| ->%list_elem_of_singleton]%elem_of_app; auto.
    + intros c Hc. destruct (_ <? _) in Hstep; ok_inv; subst st; simpl in Hc.
      * destruct cut as [c'|]; simplify_eq; [specialize (Hcut c eq_refl); simpl in *; lia|lia].
      * specialize (Hcut c Hc). lia.
Qed.

Lemma find_cut_total D before after :
  (∀ m, m ∈ before ++ after → m ∈ rd_migrations d) → NoDup (m_ID <$> before ++ after) →
  (∀ m, m ∈ before → applied D m) → (∀ m, m ∈ after → ¬ applied D m) →
  ∃ s, let ids := m_ID <$> before ++ after in
    for_range (find_cut d (auth D)) (zip (seq 0 (length ids)) ids) (∅, None) = Ok s ∧
    default (length ids) s.2 = length before.
Proof.
  intros Hin Hnd Hbefore Hafter. simpl. set (ids := m_ID <$> before ++ after).
  destruct (for_range_total (λ pre st, st = (list_to_set pre.*2 : gset string,
      if (length pre <=? length before)%nat then None else Some (length before)))
    (find_cut d (auth D)) (zip (seq 0 (length ids)) ids) (∅, None)) as (s & Hrun & Hs).
  - done.
  - intros pre [i id] post st E ->. pose proof (zip_seq_split _ _ _ _ _ E) as ->.
    assert (ids = pre.*2 ++ id :: post.*2) as Eids.
    { rewrite <-(snd_zip (seq 0 (length ids)) ids) by (rewrite length_seq; lia). by rewrite E, fmap_app. }
    assert (ids !! length pre = Some id) as Hl.
    { rewrite Eids, lookup_app_r by (by rewrite length_fmap). by rewrite length_fmap, Nat.sub_diag. }
    apply list_lookup_fmap_Some in Hl as (m & -> & Hm).
    assert (m ∈ rd_migrations d) as Hmig by (by eapply Hin, list_elem_of_lookup_2).
    assert (m_ID m ∉ pre.*2) as Hfresh.
    { fold ids in Hnd. rewrite Eids in Hnd. apply NoDup_app in Hnd as (_ & Hnd & _). intros Hx. apply (Hnd _ Hx). by left. }
    destruct (migration_of_Some d Hd m Hmig) as [Hof Hhas].
    exists ({[ m_ID m ]} ∪ list_to_set pre.*2,
      if (length pre + 1 <=? length before)%nat then None else Some (length before)). unfold find_cut, has, seen. rewrite (bool_decide_true (is_Some (rd_ids d !! m_ID m))) by done.
    rewrite (bool_decide_false (m_ID m ∈ _)) by (by rewrite elem_of_list_to_set). rewrite Hof. simpl. rewrite length_app. simpl.
    assert (epoch_of (auth D) (m_Domain m) <? m_ToEpoch m = negb (bool_decide (applied D m))) as ->.
    { rewrite (ro_step d Hd m Hmig). unfold applied, epoch_of, Domains. simpl.
      case_bool_decide; simpl; [apply Z.ltb_ge|apply Z.ltb_lt]; lia. }
    rewrite fmap_app, list_to_set_app_L. simpl. rewrite union_empty_r_L, (union_comm_L _ {[ _ ]}).
    destruct (decide (length pre < length before)%nat) as [Hlt|Hge].
    + rewrite lookup_app_l in Hm by done. apply list_elem_of_lookup_2 in Hm.
      rewrite bool_decide_true by auto. simpl.
      rewrite (proj2 (Nat.leb_le _ _)), (proj2 (Nat.leb_le _ _)) by lia. split; [reflexivity|done].
    + rewrite lookup_app_r in Hm by lia. apply list_elem_of_lookup_2 in Hm.
      rewrite bool_decide_false by auto. simpl.
      rewrite (proj2 (Nat.leb_gt (length pre + 1) _)) by lia. split; [|done]. do 2 f_equal.
      destruct (Nat.leb_spec (length pre) (length before)); [|done]. f_equal. lia.
  - exists s. split; [done|]. subst s. simpl. rewrite length_zip_with, length_seq.
    unfold ids. rewrite length_fmap, length_app, Nat.min_id.
    destruct (Nat.leb_spec (length before + length after) (length before)); simpl; [lia|done].
Qed.

Lemma zip_seq_app i (l1 l2 : list string) :
  zip (seq i (length (l1 ++ l2))) (l1 ++ l2) =
  zip (seq i (length l1)) l1 ++ zip (seq (i + length l1) (length l2)) l2.
Proof.
  rewrite length_app, seq_app, zip_with_app; [done|]. by rewrite length_seq.
Qed.

Lemma prefix_pending_elem D ms m :
  ms `prefix_of` pending d D → m ∈ ms → m ∈ rd_migrations d ∧ ¬ applied D m.
Proof.
  intros [rest Hp] Hm. assert (m ∈ pending d D) as H by (rewrite Hp; set_solver).
  by apply list_elem_of_filter in H as [? ?].
Qed.

Lemma path_ids_NoDup D0 before after :
  enabled_path d D0 before → after `prefix_of` pending d (foldl bump D0 before) →
  NoDup (m_ID <$> before ++ after).
Proof.
  intros Hb Ha. apply NoDup_fmap_2_strong.
  - intros x y Hx Hy. assert (∀ z, z ∈ before ++ after → z ∈ rd_migrations d) as Hin.
    { intros z [Hz|Hz]%elem_of_app; [by eapply enabled_path_elem|by eapply prefix_pending_elem]. }
    apply (migration_unique d Hd); by apply Hin.
  - apply NoDup_app. split_and!.
    + by apply (enabled_path_NoDup d Hd D0).
    + intros x Hx Hx'. apply (prefix_pending_elem _ _ _ Ha) in Hx' as [Hin Hn].
      apply Hn. apply (applied_path d Hd); [done..|by right].
    + destruct Ha as [rest Hp]. assert (NoDup (pending d (foldl bump D0 before))) as Hnd.
      { apply NoDup_filter, (NoDup_fmap_1 m_ID), Hd. }
      rewrite Hp in Hnd. by apply NoDup_app in Hnd as [? _].
Qed.

(** The result of a trace: a path from some frontier through the observed one,
    completed by what is next in the canonical order. *)
Lemma TraceFrom_Ok D ids t :
  frontier d D →
  TraceFrom r (auth D) ids = Ok t ↔
  ∃ D0 before after, ids = m_ID <$> before ++ after ∧ frontier d D0 ∧ enabled_path d D0 before ∧
    D = foldl bump D0 before ∧ after `prefix_of` pending d D ∧
    t = mkTrace (auth D0) (auth (foldl bump D0 (before ++ after))) (edges_from addr d D0 (before ++ after)).
Proof.
  intros HD. unfold TraceFrom. rewrite (proj2 (owns_auth addr d _)) by eauto. simpl. split.
  - intros H. apply bind_Ok in H as (found & Hf & H). apply bind_Ok in H as (initial & Hi & H).
    apply bind_Ok in H as ([es last] & Hr & [= <-]).
    apply find_cut_known in Hf as [(ms & -> & Hin) Hcut]. set (cut := default _ found.2) in *.
    rewrite length_fmap in Hcut. rewrite <-fmap_take in Hi.
    apply (undo_loop_Ok addr d Hd) in Hi as (D0 & -> & HD0 & Hp & HD1); [|done|].
    2: { intros m Hm. apply Hin. rewrite <-(take_drop cut ms). set_solver. }
    rewrite <-(take_drop cut ms) in Hr at 1 2. rewrite fmap_app, zip_seq_app, for_range_app in Hr.
    rewrite !length_fmap in Hr. rewrite (replay_done addr d Hd) in Hr by (done || rewrite length_take; lia).
    simpl in Hr. rewrite HD1, <-(length_fmap m_ID (drop cut ms)) in Hr.
    apply (replay_pending addr d Hd) in Hr as (after & E & Hpre & [= -> ->]); [|done|rewrite length_take; lia].
    exists D0, (take cut ms), after. rewrite foldl_app, HD1, edges_from_app, HD1. split_and!; try done.
    by rewrite fmap_app, <-E, <-fmap_app, take_drop.
  - intros (D0 & before & after & -> & HD0 & Hp & -> & Hpre & ->).
    destruct (find_cut_total (foldl bump D0 before) before after) as (s & Hf & Hcut).
    + intros z [Hz|Hz]%elem_of_app; [by eapply enabled_path_elem|by eapply prefix_pending_elem].
    + by apply (path_ids_NoDup D0).
    + intros m Hm. apply (applied_path d Hd); [done|by eapply enabled_path_elem|by right].
    + intros m Hm. by eapply prefix_pending_elem.
    + simpl in Hf. fold r auth. rewrite Hf. simpl. rewrite Hcut, fmap_app.
      rewrite take_app_length' by (by rewrite length_fmap).
      assert (for_range (undo_step r d) (rev (m_ID <$> before)) (auth (foldl bump D0 before)) = Ok (auth D0))
        as -> by (by apply undo_loop).
      simpl. rewrite zip_seq_app, for_range_app, !length_fmap. unfold auth, r.
      rewrite (replay_done addr d Hd) by (done || lia). simpl. rewrite <-(length_fmap m_ID after).
      match goal with |- context [for_range ?b ?l ?s] =>
        assert (for_range b l s = Ok (edges_from addr d D0 (before ++ after),
          auth (foldl bump D0 (before ++ after)))) as ->; [|done] end.
      apply (replay_pending addr d Hd); [done|lia|]. exists after. by rewrite foldl_app, edges_from_app.
Qed.
End trace_from.

(** ** Claims *)

(** The two domains and three migrations of the samples: the second migration of
    the settings waits for the first of the yards. *)
Module Sample.
Definition minimum : gmap string Z := <["settings" := 1]> (<["yards" := 2]> ∅).
Definition current : gmap string Z := <["settings" := 3]> (<["yards" := 3]> ∅).
Definition m1 := mkMigration "s1" "settings" 1 2 "policy" [].
Definition m2 := mkMigration "y2" "yards" 2 3 "layout" [].
Definition m3 := mkMigration "s2" "settings" 2 3 "policy" ["y2"].
Definition data : registryData :=
  mkRegistryData minimum current ∅ [m1; m2; m3]
    (<["s2" := 2%nat]> (<["y2" := 1%nat]> (<["s1" := 0%nat]> ∅))).
Definition registry : Registry := Some (mkHandle 7 data).
Definition start : domains_map :=
  <["settings" := mkDomainState 1 []]> (<["yards" := mkDomainState 2 []]> ∅).
Definition middle : domains_map :=
  <["settings" := mkDomainState 1 []]> (<["yards" := mkDomainState 3 ["y2"]]> ∅).
Definition finish : domains_map :=
  <["settings" := mkDomainState 3 ["s1"; "s2"]]> (<["yards" := mkDomainState 3 ["y2"]]> ∅).
End Sample.

Lemma sample_registry :
  NewRegistry 7 Sample.minimum Sample.current [Sample.m1; Sample.m2; Sample.m3] ∅ = Ok Sample.registry.
Proof. vm_compute. reflexivity. Qed.

Lemma sample_minimum n f : Sample.minimum !! n = Some f → f ≤ max_i64.
Proof.
  unfold Sample.minimum. rewrite !lookup_insert_Some, lookup_empty. unfold max_i64.
  intros [[_ <-]|[_ [[_ <-]|[_ ?]]]]; [lia|lia|done].
Qed.

Lemma sample_registry_ok : registry_ok Sample.data.
Proof.
  destruct (NewRegistry_Ok 7 Sample.minimum Sample.current [Sample.m1; Sample.m2; Sample.m3] ∅
    Sample.registry sample_minimum) as (ids & E & H).
  - unfold max_i64. simpl. lia.
  - exact sample_registry.
  - apply (f_equal (from_option h_data Sample.data)) in E. cbn [from_option h_data] in E.
    change (from_option h_data Sample.data Sample.registry) with Sample.data in E. by rewrite E.
Qed.

(** C29: A registry that the constructor accepts is well formed: the migrations of a
    domain step through consecutive epochs from its floor to its current epoch
    without a gap and without overflow, identifiers are unique and indexed, and a
    dependency is an earlier migration. *)
Theorem NewRegistry_spec addr minimum current migrations retired r :
  (∀ n f, minimum !! n = Some f → f ≤ max_i64) → Z.of_nat (length migrations) ≤ max_i64 →
  NewRegistry addr minimum current migrations retired = Ok r →
  ∃ ids, r = Some (mkHandle addr (mkRegistryData minimum current retired migrations ids)) ∧
         registry_ok (mkRegistryData minimum current retired migrations ids).
Proof. apply NewRegistry_Ok. Qed.

Lemma NewRegistry_spec_witness :
  ∃ ids, Sample.registry = Some (mkHandle 7 (mkRegistryData Sample.minimum Sample.current ∅
           [Sample.m1; Sample.m2; Sample.m3] ids)) ∧
         registry_ok (mkRegistryData Sample.minimum Sample.current ∅ [Sample.m1; Sample.m2; Sample.m3] ids).
Proof.
  apply (NewRegistry_spec 7 Sample.minimum Sample.current [Sample.m1; Sample.m2; Sample.m3] ∅).
  - exact sample_minimum.
  - unfold max_i64. simpl. lia.
  - exact sample_registry.
Defined.

(** A ledger is accepted exactly when it is a frontier: it has the domains of the
    registry, each at an epoch in range with exactly the prefix of its path as
    applied history, and no migration is applied before what it depends on. *)
Theorem History_spec addr d D a :
  registry_ok d →
  History (Some (mkHandle addr d)) (Some D) = Ok a ↔
  frontier d D ∧ a = mkAuthority (Some (mkHandle addr d)) (Some D).
Proof. intros Hd. by apply History_Ok. Qed.

Lemma sample_start : frontier Sample.data Sample.start.
Proof.
  apply (History_Ok Sample.data sample_registry_ok 7 Sample.start
    (mkAuthority Sample.registry (Some Sample.start))). vm_compute. reflexivity.
Qed.

Lemma History_spec_witness :
  frontier Sample.data Sample.middle ∧
  mkAuthority Sample.registry (Some Sample.middle) = mkAuthority (Some (mkHandle 7 Sample.data)) (Some Sample.middle).
Proof.
  apply (History_spec 7 Sample.data Sample.middle). { exact sample_registry_ok. }
  vm_compute. reflexivity.
Defined.

(** [Next] taken [n] times. *)
Fixpoint migrate (n : nat) (r : Registry) (a : Authority) : result history_error Authority :=
  match n with
  | O => Ok a
  | S n' => edge ← Next r a; migrate n' r (e_after edge)
  end.

Lemma migrate_pending addr d D ms rest :
  registry_ok d → frontier d D → pending d D = ms ++ rest →
  migrate (length ms) (Some (mkHandle addr d)) (mkAuthority (Some (mkHandle addr d)) (Some D)) =
  Ok (mkAuthority (Some (mkHandle addr d)) (Some (foldl bump D ms))).
Proof.
  intros Hd. revert D. induction ms as [|m ms IH]; intros D HD Hp; [done|]. simpl.
  rewrite (Next_auth addr d Hd D m (ms ++ rest) HD Hp). simpl. apply IH.
  - apply (enabled_frontier d Hd); [done|]. by apply (first_pending d Hd D m (ms ++ rest)).
  - by apply (pending_bump d Hd).
Qed.

(** C27: Migration never gets stuck: from any accepted ledger, taking the canonical
    next edge as often as there are pending migrations succeeds, applies exactly
    those, in registry order, and ends in a completed frontier with every domain
    at its current epoch; then there is no next edge. *)
Theorem migrate_completes addr d D a :
  registry_ok d → History (Some (mkHandle addr d)) (Some D) = Ok a →
  ∃ ms a', Pending (Some (mkHandle addr d)) a = Ok ms ∧
    migrate (length ms) (Some (mkHandle addr d)) a = Ok a' ∧
    Domains a' = foldl bump D ms ∧
    Complete (Some (mkHandle addr d)) a' = Ok (mkCompletion a') ∧
    Next (Some (mkHandle addr d)) a' = Err HistoryComplete ∧
    ∀ n c, rd_current d !! n = Some c → epoch_of a' n = c.
Proof.
  intros Hd Ha. apply (History_Ok d Hd) in Ha as [HD ->].
  assert (pending d D = pending d D ++ []) as Hp by (by rewrite app_nil_r).
  pose proof (pending_after d Hd D _ _ HD Hp) as Hnil.
  assert (frontier d (foldl bump D (pending d D))) as HD'.
  { apply (enabled_path_frontier d Hd); [done|]. by apply (pending_path d Hd). }
  exists (pending d D), (mkAuthority (Some (mkHandle addr d)) (Some (foldl bump D (pending d D)))).
  split_and!.
  - by apply Pending_auth.
  - by apply (migrate_pending addr d D _ []).
  - done.
  - unfold Complete. by rewrite Pending_auth, Hnil.
  - by apply Next_complete.
  - intros n c Hc. destruct (pending_nil d Hd _ n c HD' Hnil Hc) as (s & Hs & <-).
    unfold epoch_of, Domains, get_default. simpl. by rewrite Hs.
Qed.

Lemma migrate_completes_witness :
  ∃ ms a', Pending Sample.registry (mkAuthority Sample.registry (Some Sample.middle)) = Ok ms ∧
    migrate (length ms) Sample.registry (mkAuthority Sample.registry (Some Sample.middle)) = Ok a' ∧
    Domains a' = foldl bump Sample.middle ms ∧
    Complete Sample.registry a' = Ok (mkCompletion a') ∧
    Next Sample.registry a' = Err HistoryComplete ∧
    ∀ n c, rd_current Sample.data !! n = Some c → epoch_of a' n = c.
Proof.
  apply (migrate_completes 7 Sample.data Sample.middle). { exact sample_registry_ok. }
  vm_compute. reflexivity.
Defined.

(** The edge taken next. From an accepted ledger with something pending, the next
    edge goes from the authority to an accepted ledger that differs from it in the
    domain of the first pending migration only: one epoch up, its identifier
    appended; everything the migration depends on was applied before. *)
Theorem Next_spec addr d D a m rest :
  registry_ok d → History (Some (mkHandle addr d)) (Some D) = Ok a →
  Pending (Some (mkHandle addr d)) a = Ok (m :: rest) →
  Next (Some (mkHandle addr d)) a =
    Ok (mkEdge a (mkAuthority (Some (mkHandle addr d)) (Some (bump D m))) m) ∧
  frontier d (bump D m) ∧ (∀ n, n ≠ m_Domain m → bump D m !! n = D !! n) ∧
  (∀ m', m' ∈ rd_migrations d → m_ID m' ∈ m_DependsOn m → applied D m') ∧ ¬ applied D m ∧
  Pending (Some (mkHandle addr d)) (mkAuthority (Some (mkHandle addr d)) (Some (bump D m))) = Ok rest.
Proof.
  intros Hd Ha Hp. apply (History_Ok d Hd) in Ha as [HD ->]. rewrite (Pending_auth addr d Hd) in Hp.
  injection Hp as Hp. pose proof (first_pending d Hd D m rest HD Hp) as Hen. split_and!.
  - by apply (Next_auth addr d Hd D m rest).
  - by apply (enabled_frontier d Hd).
  - intros n Hn. unfold bump. by rewrite lookup_insert_ne by congruence.
  - apply Hen.
  - by apply (enabled_not_applied d).
  - rewrite (Pending_auth addr d Hd). by rewrite (pending_bump d Hd D m rest).
Qed.

Lemma Next_spec_witness :
  Next Sample.registry (mkAuthority Sample.registry (Some Sample.middle)) =
    Ok (mkEdge (mkAuthority Sample.registry (Some Sample.middle))
         (mkAuthority Sample.registry (Some (bump Sample.middle Sample.m1))) Sample.m1) ∧
  frontier Sample.data (bump Sample.middle Sample.m1) ∧
  (∀ n, n ≠ "settings" → bump Sample.middle Sample.m1 !! n = Sample.middle !! n) ∧
  (∀ m', m' ∈ rd_migrations Sample.data → m_ID m' ∈ m_DependsOn Sample.m1 → applied Sample.middle m') ∧
  ¬ applied Sample.middle Sample.m1 ∧
  Pending Sample.registry (mkAuthority Sample.registry (Some (bump Sample.middle Sample.m1))) = Ok [Sample.m3].
Proof.
  apply (Next_spec 7 Sample.data Sample.middle). { exact sample_registry_ok. }
  - vm_compute. reflexivity.
  - vm_compute. reflexivity.
Defined.

(** C28: A trace is exactly a dependency-respecting path: from an accepted observed
    frontier, [TraceFrom] succeeds on the identifiers of the paths that lead from
    some frontier to the observed one and go on with the canonical next
    migrations, and its edges are the steps of that path. *)
Theorem TraceFrom_spec addr d D a ids t :
  registry_ok d → History (Some (mkHandle addr d)) (Some D) = Ok a →
  TraceFrom (Some (mkHandle addr d)) a ids = Ok t ↔
  ∃ D0 before after, ids = m_ID <$> before ++ after ∧ frontier d D0 ∧ enabled_path d D0 before ∧
    D = foldl bump D0 before ∧ after `prefix_of` pending d D ∧
    t = mkTrace (mkAuthority (Some (mkHandle addr d)) (Some D0))
          (mkAuthority (Some (mkHandle addr d)) (Some (foldl bump D0 (before ++ after))))
          (edges_from addr d D0 (before ++ after)).
Proof.
  intros Hd Ha. apply (History_Ok d Hd) in Ha as [HD ->]. by apply TraceFrom_Ok.
Qed.

Lemma TraceFrom_spec_witness :
  ∃ D0 before after, ["y2"; "s1"; "s2"] = m_ID <$> before ++ after ∧ frontier Sample.data D0 ∧
    enabled_path Sample.data D0 before ∧ Sample.middle = foldl bump D0 before ∧
    after `prefix_of` pending Sample.data Sample.middle ∧
    mkTrace (mkAuthority Sample.registry (Some Sample.start)) (mkAuthority Sample.registry (Some Sample.finish))
      (edges_from 7 Sample.data Sample.start [Sample.m2; Sample.m1; Sample.m3]) =
    mkTrace (mkAuthority (Some (mkHandle 7 Sample.data)) (Some D0))
      (mkAuthority (Some (mkHandle 7 Sample.data)) (Some (foldl bump D0 (before ++ after))))
      (edges_from 7 Sample.data D0 (before ++ after)).
Proof.
  apply (TraceFrom_spec 7 Sample.data Sample.middle (mkAuthority Sample.registry (Some Sample.middle))).
  - exact sample_registry_ok.
  - vm_compute. reflexivity.
  - vm_compute. reflexivity.
Defined.

Lemma prefix_path d D ms k :
  registry_ok d → frontier d D → ms `prefix_of` pending d D →
  enabled_path d D (take k ms) ∧ frontier d (foldl bump D (take k ms)) ∧
  drop k ms `prefix_of` pending d (foldl bump D (take k ms)).
Proof.
  intros Hd HD Hpre. assert (enabled_path d D (take k ms)) as Hpath.
  { apply (pending_path d Hd); [done|]. transitivity ms; [apply prefix_take|done]. }
  split; [done|]. split; [by apply (enabled_path_frontier d Hd)|]. destruct Hpre as [rest Hp].
  rewrite (pending_after d Hd D (take k ms) (drop k ms ++ rest) HD); [by exists rest|].
  by rewrite app_assoc, take_drop.
Qed.

(** The trace of a planned path, from any of its cuts. *)
Lemma TraceFrom_cut addr d D ms k :
  registry_ok d → frontier d D → ms `prefix_of` pending d D →
  TraceFrom (Some (mkHandle addr d)) (mkAuthority (Some (mkHandle addr d)) (Some (foldl bump D (take k ms))))
    (m_ID <$> ms) =
  Ok (mkTrace (mkAuthority (Some (mkHandle addr d)) (Some D))
        (mkAuthority (Some (mkHandle addr d)) (Some (foldl bump D ms))) (edges_from addr d D ms)).
Proof.
  intros Hd HD Hpre. destruct (prefix_path d D ms k Hd HD Hpre) as (Hpath & HD' & Hrest).
  apply (TraceFrom_Ok addr d Hd _ _ _ HD'). exists D, (take k ms), (drop k ms).
  rewrite take_drop. split_and!; done.
Qed.

Lemma length_edges_from addr d D ms : length (edges_from addr d D ms) = length ms.
Proof. revert D. induction ms as [|m ms IH]; intros D; simpl; [done|]. by rewrite IH. Qed.

Lemma migrations_edges_from addr d D ms : e_migration <$> edges_from addr d D ms = ms.
Proof. revert D. induction ms as [|m ms IH]; intros D; csimpl; [done|]. by rewrite IH. Qed.

(** Resuming after an interruption: a trace planned from an accepted ledger is
    reconstructed, from the ledger as it is after any number of its steps, as the
    very same trace. *)
Theorem TraceFrom_resume addr d D a ms k :
  registry_ok d → History (Some (mkHandle addr d)) (Some D) = Ok a → ms `prefix_of` pending d D →
  (k ≤ length ms)%nat →
  ∃ a' t, migrate k (Some (mkHandle addr d)) a = Ok a' ∧
    TraceFrom (Some (mkHandle addr d)) a (m_ID <$> ms) = Ok t ∧
    TraceFrom (Some (mkHandle addr d)) a' (m_ID <$> ms) = Ok t ∧
    t_initial t = a ∧ length (t_edges t) = length ms.
Proof.
  intros Hd Ha Hpre Hk. apply (History_Ok d Hd) in Ha as [HD ->]. eexists _, _. split_and!.
  - destruct Hpre as [rest Hp]. rewrite <-(length_take_le ms k Hk) at 1.
    apply (migrate_pending addr d D _ (drop k ms ++ rest) Hd HD). by rewrite app_assoc, take_drop.
  - by apply (TraceFrom_cut addr d D ms 0).
  - by apply TraceFrom_cut.
  - done.
  - apply length_edges_from.
Qed.

Lemma TraceFrom_resume_witness :
  ∃ a' t, migrate 2 Sample.registry (mkAuthority Sample.registry (Some Sample.start)) = Ok a' ∧
    TraceFrom Sample.registry (mkAuthority Sample.registry (Some Sample.start)) ["s1"; "y2"; "s2"] = Ok t ∧
    TraceFrom Sample.registry a' ["s1"; "y2"; "s2"] = Ok t ∧
    t_initial t = mkAuthority Sample.registry (Some Sample.start) ∧ length (t_edges t) = 3%nat.
Proof.
  apply (TraceFrom_resume 7 Sample.data Sample.start _ [Sample.m1; Sample.m2; Sample.m3] 2).
  - exact sample_registry_ok.
  - vm_compute. reflexivity.
  - exists []. vm_compute. reflexivity.
  - simpl. lia.
Defined.

(** The whole registry, in its order, is a trace from the baseline that ends with
    nothing pending: every accepted registry can be replayed from scratch. *)
Theorem TraceFrom_canonical addr d :
  registry_ok d →
  ∃ a t, Baseline (Some (mkHandle addr d)) = Ok a ∧
    TraceFrom (Some (mkHandle addr d)) a (m_ID <$> rd_migrations d) = Ok t ∧
    t_initial t = a ∧ e_migration <$> t_edges t = rd_migrations d ∧
    Complete (Some (mkHandle addr d)) (t_terminal t) = Ok (mkCompletion (t_terminal t)).
Proof.
  intros Hd. set (D := (λ floor, mkDomainState floor []) <$> rd_minimum d).
  pose proof (baseline_frontier d Hd) as HD. fold D in HD.
  assert (pending d D = rd_migrations d ++ []) as Hp.
  { rewrite app_nil_r. unfold pending. rewrite (filter_ext_in _ (λ _, True)).
    - induction (rd_migrations d) as [|m l IH]; [done|]. by rewrite filter_cons_True, IH.
    - intros m Hm. split; [done|]. intros _. destruct (path_bounds d Hd m Hm) as (f & c & Hf & _ & Hb).
      unfold applied, get_default, D. rewrite lookup_fmap, Hf. simpl. lia. }
  exists (mkAuthority (Some (mkHandle addr d)) (Some D)).
  exists (mkTrace (mkAuthority (Some (mkHandle addr d)) (Some D))
    (mkAuthority (Some (mkHandle addr d)) (Some (foldl bump D (rd_migrations d))))
    (edges_from addr d D (rd_migrations d))). split_and!.
  - by apply Baseline_auth.
  - apply (TraceFrom_cut addr d D _ 0 Hd HD). by exists [].
  - done.
  - apply migrations_edges_from.
  - simpl. unfold Complete. rewrite (Pending_auth addr d Hd), (pending_after d Hd D _ _ HD Hp). done.
Qed.

Lemma TraceFrom_canonical_witness :
  ∃ a t, Baseline Sample.registry = Ok a ∧
    TraceFrom Sample.registry a (m_ID <$> rd_migrations Sample.data) = Ok t ∧
    t_initial t = a ∧ e_migration <$> t_edges t = rd_migrations Sample.data ∧
    Complete Sample.registry (t_terminal t) = Ok (mkCompletion (t_terminal t)).
Proof. apply (TraceFrom_canonical 7 Sample.data). exact sample_registry_ok. Defined.
