(* ===== verification/LedgerV2.v ===== *)
(** * Migration registries and ledgers of releases

    internal/releasetransition: the registry of a release (registry_v2.go), the
    ledger of applied migrations (ledger_v2.go), the compact checkpoint of a ledger
    (ledger_checkpoint_v1.go, ledger_checkpoint_store.go) and the traces that a
    journal pins (history_trace.go).  They wrap the semantics of
    [MigrationHistory]: every entry point rebuilds a checked registry from the
    record.  [addr] is the address of the registry a call allocates.

    The applied list of a ledger domain is a list: a ledger whose list is the null
    of JSON is not represented (the program writes none). *)

From S2P Require Import Prelude GoStrings GoSort Sha256 Names GoJson JournalV2 Transition MigrationHistory.

Inductive ledger_error :=
| LedgerInvalid (what : string)
| LedgerHistory (e : history_error).

(** ** Data *)

(** internal/releasetransition/registry_v2.go:26-29 [RetiredMigrationPrefixV2] *)
Record RetiredMigrationPrefixV2 := mkRetired { rp_ThroughEpoch : Z; rp_Digest : string }.

(** internal/releasetransition/registry_v2.go:15-21 [RegistryV2] *)
Record RegistryV2 := mkRegistryV2 {
  rv_SchemaVersion : Z; rv_MinimumEpochs : gmap string Z; rv_CurrentEpochs : gmap string Z;
  rv_Migrations : list Migration; rv_RetiredPrefixes : gmap string RetiredMigrationPrefixV2 }.

(** internal/releasetransition/ledger_v2.go:16-19 [LedgerV2] *)
Record LedgerV2 := mkLedgerV2 { lg_SchemaVersion : Z; lg_Domains : option domains_map }.

(** internal/releasetransition/catalog.go:15-21 [CapabilityDescriptor] *)
Record CapabilityDescriptor := mkCapabilityDescriptor {
  cd_Kind : string; cd_Domain : string; cd_Version : Z; cd_RollbackCompatibility : string;
  cd_LegacyMinimumVersion : string }.

(** internal/releasetransition/catalog.go:29-33 [CapabilityCatalog] *)
Record CapabilityCatalog := mkCapabilityCatalog {
  cc_descriptors : list CapabilityDescriptor; cc_byKind : gmap string CapabilityDescriptor;
  cc_digest : string }.

(** internal/releasetransition/ledger_checkpoint_v1.go:32-37 [DomainCheckpointV1] *)
Record DomainCheckpointV1 := mkDomainCheckpoint {
  dc_Epoch : Z; dc_CompactedThrough : Z; dc_PrefixDigest : string; dc_AppliedSuffix : list string }.

(** internal/releasetransition/ledger_checkpoint_v1.go:26-30 [LedgerProjectionBindingV1] *)
Record LedgerProjectionBindingV1 := mkProjectionBinding {
  pb_Exists : bool; pb_Fingerprint : string; pb_Epochs : gmap string Z }.

(** internal/releasetransition/ledger_checkpoint_v1.go:19-24 [LedgerCheckpointV1] *)
Record LedgerCheckpointV1 := mkLedgerCheckpoint {
  ck_SchemaVersion : Z; ck_RegistryDigest : string; ck_LegacyProjection : LedgerProjectionBindingV1;
  ck_Domains : gmap string DomainCheckpointV1 }.

(** internal/releasetransition/store_posix.go:25-29 [ProtectedSnapshot] *)
Record ProtectedSnapshot := mkProtectedSnapshot {
  ps_Exists : bool; ps_Payload : string; ps_Fingerprint : string }.

(** internal/releasetransition/source_metadata.go:247-253 [sourceLedgerEdge] *)
Record sourceLedgerEdge := mkSourceLedgerEdge {
  se_migration : Migration; se_before : string; se_after : string; se_witness : Edge;
  se_from : ProtectedSnapshot; se_to : string }.

#[export] Instance LedgerV2_eq_dec : EqDecision LedgerV2.
Proof. solve_decision. Defined.

Definition RegistrySchemaV2 : Z := 2.
Definition LedgerSchemaV2 : Z := 2.
Definition LedgerCheckpointSchemaV1 : Z := 1.

(** ** Registries *)

(** internal/releasetransition/catalog.go:219-222 [fingerprintPayload] *)
Definition fingerprintPayload (payload : string) : string := EncodeToString (Sum256 payload).

(** internal/releasetransition/catalog.go:158-161 [Supports] *)
Definition Supports (catalog : CapabilityCatalog) (kind domain : string) : bool :=
  match cc_byKind catalog !! kind with
  | Some descriptor => bool_decide (cd_Domain descriptor = domain)
  | None => false
  end.

Section ledger.
Context (addr : Z).

(** internal/releasetransition/registry_v2.go:49-71 [historyRegistry] *)
Definition historyRegistry (registry : RegistryV2) : result ledger_error Registry :=
  refuse (negb (rv_SchemaVersion registry =? RegistrySchemaV2)) (LedgerInvalid "unsupported registry schema");;
  refuse (negb (map_all (λ domain prefix,
    match rv_MinimumEpochs registry !! domain with
    | Some minimum => (rp_ThroughEpoch prefix =? minimum) && validFingerprint (rp_Digest prefix)
    | None => false
    end) (rv_RetiredPrefixes registry))) (LedgerInvalid "retired prefix");;
  map_err LedgerHistory
    (NewRegistry addr (rv_MinimumEpochs registry) (rv_CurrentEpochs registry) (rv_Migrations registry)
       (rp_Digest <$> rv_RetiredPrefixes registry)).

(** internal/releasetransition/registry_v2.go:72-82 [Validate] *)
Definition RegistryV2_Validate (registry : RegistryV2) (catalog : CapabilityCatalog) :
    result ledger_error unit :=
  historyRegistry registry ≫= λ _,
  for_each (λ m, refuse (negb (Supports catalog (m_Kind m) (m_Domain m)))
                   (LedgerInvalid "migration has unsupported kind")) (rv_Migrations registry).

(** The JSON of [Migration]. *)
Definition migration_json (m : Migration) : json :=
  JObject (field "id" (JString (m_ID m)) ++ field "domain" (JString (m_Domain m)) ++
           field "fromEpoch" (JInt (m_FromEpoch m)) ++ field "toEpoch" (JInt (m_ToEpoch m)) ++
           field "kind" (JString (m_Kind m)) ++
           (if decide (m_DependsOn m = []) then []
            else field "dependsOn" (JArray (JString <$> m_DependsOn m)))).

(** internal/releasetransition/registry_v2.go:141-150 [migrationPrefixSeed] *)
Definition migrationPrefixSeed (domain : string) (epoch : Z) : string :=
  fingerprintPayload (marshal (JObject (field "domain" (JString domain) ++ field "epoch" (JInt epoch)))).

(** internal/releasetransition/registry_v2.go:126-137 [MigrationPrefixDigest]: one
    link of the digest chain. *)
Definition prefix_payload (domain digest : string) (m : Migration) : string :=
  marshal (JObject (field "domain" (JString domain) ++ field "fromEpoch" (JInt (m_FromEpoch m)) ++
                    field "previous" (JString digest) ++ field "migration" (migration_json m))).

Definition prefix_link (domain digest : string) (m : Migration) : string :=
  fingerprintPayload (prefix_payload domain digest m).

(** internal/releasetransition/registry_v2.go:87-139 [MigrationPrefixDigest] *)
Definition MigrationPrefixDigest (registry : RegistryV2) (domain : string) (throughEpoch : Z) :
    result ledger_error string :=
  historyRegistry registry ≫= λ _,
  minimum ← expect (rv_MinimumEpochs registry !! domain) (LedgerInvalid "prefix is outside the registry path");
  refuse ((throughEpoch <? minimum) || (get_default 0 domain (rv_CurrentEpochs registry) <? throughEpoch))
    (LedgerInvalid "prefix is outside the registry path");;
  let '(baseEpoch, baseDigest, stop) :=
    match rv_RetiredPrefixes registry !! domain with
    | Some retired => (rp_ThroughEpoch retired, rp_Digest retired, throughEpoch =? rp_ThroughEpoch retired)
    | None => (minimum, migrationPrefixSeed domain minimum, false)
    end in
  if stop then Ok baseDigest else
  refuse (throughEpoch <? baseEpoch) (LedgerInvalid "prefix precedes existing checkpoint");;
  let entries := filter (λ m, bool_decide (m_Domain m = domain) && (baseEpoch <=? m_FromEpoch m) &&
                              (m_ToEpoch m <=? throughEpoch) = true) (rv_Migrations registry) in
  expectedEpoch ← for_range (λ expectedEpoch m,
    refuse (negb (m_FromEpoch m =? expectedEpoch)) (LedgerInvalid "prefix has a gap");;
    Ok (m_ToEpoch m)) entries baseEpoch;
  refuse (negb (expectedEpoch =? throughEpoch)) (LedgerInvalid "prefix is incomplete");;
  Ok (foldl (prefix_link domain) baseDigest entries).

(** internal/releasetransition/registry_v2.go:152-162 [Path] *)
Definition RegistryV2_Path (registry : RegistryV2) (domain : string) (fromEpoch : Z) :
    result ledger_error (list Migration) :=
  owner ← historyRegistry registry;
  map_err LedgerHistory (Path owner domain fromEpoch).

(** ** Ledgers *)

(** internal/releasetransition/ledger_v2.go:46-55 [BaselineLedgerV2] *)
Definition BaselineLedgerV2 (registry : RegistryV2) : LedgerV2 :=
  mkLedgerV2 LedgerSchemaV2 (Some ((λ minimum, mkDomainState minimum []) <$> rv_MinimumEpochs registry)).

(** internal/releasetransition/ledger_v2.go:57-70 [historyAuthority] *)
Definition historyAuthority (registry : RegistryV2) (ledger : LedgerV2) :
    result ledger_error (Registry * Authority) :=
  owner ← historyRegistry registry;
  refuse (negb (lg_SchemaVersion ledger =? LedgerSchemaV2)) (LedgerInvalid "unsupported ledger schema");;
  authority ← map_err LedgerHistory (History owner (lg_Domains ledger));
  Ok (owner, authority).

(** internal/releasetransition/ledger_v2.go:71-73 [ledgerFromAuthority] *)
Definition ledgerFromAuthority (authority : Authority) : LedgerV2 :=
  mkLedgerV2 LedgerSchemaV2 (Some (Domains authority)).

(** internal/releasetransition/ledger_v2.go:74-77 [ValidateLedger] *)
Definition ValidateLedger (registry : RegistryV2) (ledger : LedgerV2) : result ledger_error unit :=
  historyAuthority registry ledger ≫= λ _, Ok tt.

(** The JSON of [LedgerV2]; the members of a map are in the order of their keys. *)
Definition domain_state_json (s : DomainState) : json :=
  JObject (field "epoch" (JInt (ds_Epoch s)) ++ field "applied" (JArray (JString <$> ds_Applied s))).

Definition map_json {A} (f : A → json) (m : gmap string A) : json :=
  JObject (prod_map id f <$> sort_by_key fst (map_to_list m)).

Definition ledger_json (ledger : LedgerV2) : json :=
  JObject (field "schemaVersion" (JInt (lg_SchemaVersion ledger)) ++
           field "domains" (match lg_Domains ledger with
                            | Some domains => map_json domain_state_json domains
                            | None => JNull
                            end)).

(** internal/releasetransition/ledger_v2.go:34-44 [MarshalLedgerV2] *)
Definition MarshalLedgerV2 (ledger : LedgerV2) (registry : RegistryV2) : result ledger_error (string * string) :=
  ValidateLedger registry ledger;;
  let payload := marshal (ledger_json ledger) +:+ String "010" "" in
  Ok (payload, fingerprintPayload payload).

(** internal/releasetransition/ledger_v2.go:78-88 [PendingPath] *)
Definition PendingPath (registry : RegistryV2) (ledger : LedgerV2) : result ledger_error (list Migration) :=
  oa ← historyAuthority registry ledger;
  map_err LedgerHistory (Pending oa.1 oa.2).

(** internal/releasetransition/ledger_v2.go:89-99 [DomainState] *)
Definition LedgerV2_DomainState (ledger : LedgerV2) (registry : RegistryV2) (domain : string) :
    result ledger_error DomainState :=
  oa ← historyAuthority registry ledger;
  expect (Domains oa.2 !! domain) (LedgerInvalid "unknown migration domain").

(** internal/releasetransition/ledger_v2.go:110-112 [sameMigrationDefinition] *)
Definition sameMigrationDefinition (left right : Migration) : bool :=
  bool_decide (m_ID left = m_ID right) && bool_decide (m_Domain left = m_Domain right) &&
  (m_FromEpoch left =? m_FromEpoch right) && (m_ToEpoch left =? m_ToEpoch right) &&
  bool_decide (m_Kind left = m_Kind right) && bool_decide (m_DependsOn left = m_DependsOn right).

(** internal/releasetransition/history_trace.go:85-95 [nextLedgerEdge] *)
Definition nextLedgerEdge (registry : RegistryV2) (ledger : LedgerV2) (migration : Migration) :
    result ledger_error Edge :=
  oa ← historyAuthority registry ledger;
  match Next oa.1 oa.2 with
  | Ok edge =>
      if sameMigrationDefinition (e_migration edge) migration then Ok edge
      else Err (LedgerInvalid "not the exact next ledger transition")
  | Err _ => Err (LedgerInvalid "not the exact next ledger transition")
  end.

(** internal/releasetransition/ledger_v2.go:103-109 [Advance] *)
Definition LedgerV2_Advance (ledger : LedgerV2) (registry : RegistryV2) (migration : Migration) :
    result ledger_error LedgerV2 :=
  edge ← nextLedgerEdge registry ledger migration;
  Ok (ledgerFromAuthority (e_after edge)).

(** internal/releasetransition/ledger_v2.go:113-120 [appliedPrefix] *)
Definition appliedPrefix (registry : RegistryV2) (domain : string) (epoch : Z) : list string :=
  match historyRegistry registry with
  | Ok owner =>
      match Applied owner domain (get_default 0 domain (rv_MinimumEpochs registry)) epoch with
      | Ok applied => applied
      | Err _ => []
      end
  | Err _ => []
  end.

(** ** Compact checkpoints *)

(** internal/releasetransition/ledger_checkpoint_store.go:261-272 [sameLedgerV2] *)
Definition sameLedgerV2 (left right : LedgerV2) : bool :=
  let ldomains := default ∅ (lg_Domains left) in
  let rdomains := default ∅ (lg_Domains right) in
  (lg_SchemaVersion left =? lg_SchemaVersion right) && (size ldomains =? size rdomains)%nat &&
  map_all (λ domain state,
    match rdomains !! domain with
    | Some other => (ds_Epoch state =? ds_Epoch other) && bool_decide (ds_Applied state = ds_Applied other)
    | None => false
    end) ldomains.

(** internal/releasetransition/ledger_checkpoint_v1.go:176-193 [LedgerView] *)
Definition LedgerView (checkpoint : LedgerCheckpointV1) (registry : RegistryV2) :
    result ledger_error LedgerV2 :=
  refuse (negb (ck_SchemaVersion checkpoint =? LedgerCheckpointSchemaV1))
    (LedgerInvalid "unsupported checkpoint schema");;
  refuse (negb (map_all (λ domain _, has domain (rv_MinimumEpochs registry)) (ck_Domains checkpoint)))
    (LedgerInvalid "checkpoint contains unknown domain");;
  let ledger := mkLedgerV2 LedgerSchemaV2 (Some (
    map_imap (λ domain state, Some (mkDomainState (dc_Epoch state) (appliedPrefix registry domain (dc_Epoch state))))
      (ck_Domains checkpoint) ∪
    default ∅ (lg_Domains (BaselineLedgerV2 registry)))) in
  ValidateLedger registry ledger;;
  Ok ledger.

(** The domains of a new checkpoint; the order of the range decides at most which
    error is returned, and all of them are the same. *)
Definition checkpoint_domain (registry : RegistryV2) (st : gmap string DomainCheckpointV1)
    (entry : string * DomainState) : result ledger_error (gmap string DomainCheckpointV1) :=
  let '(domain, state) := entry in
  prefixDigest ← MigrationPrefixDigest registry domain (ds_Epoch state);
  Ok (<[ domain := mkDomainCheckpoint (ds_Epoch state) (ds_Epoch state) prefixDigest [] ]> st).

(** internal/releasetransition/ledger_checkpoint_v1.go:238-271 [newLedgerCheckpointV1] *)
Definition newLedgerCheckpointV1 (ledger : LedgerV2) (registry : RegistryV2) (registryDigest : string)
    (projection : ProtectedSnapshot) (legacyEpochs : gmap string Z) : result ledger_error LedgerCheckpointV1 :=
  ValidateLedger registry ledger;;
  domains ← for_range (checkpoint_domain registry) (map_to_list (default ∅ (lg_Domains ledger))) ∅;
  Ok (mkLedgerCheckpoint LedgerCheckpointSchemaV1 registryDigest
        (mkProjectionBinding (ps_Exists projection)
           (if ps_Exists projection then ps_Fingerprint projection else EmptyString) legacyEpochs) domains).

(** internal/releasetransition/ledger_checkpoint_v1.go:273-280 [appliedSuffix] *)
Definition appliedSuffix (registry : RegistryV2) (domain : string) (afterEpoch throughEpoch : Z) : list string :=
  match historyRegistry registry with
  | Ok owner => match Applied owner domain afterEpoch throughEpoch with Ok applied => applied | Err _ => [] end
  | Err _ => []
  end.

(** internal/releasetransition/ledger_checkpoint_v1.go:290-297 [ledgerCheckpointHasSuffix] *)
Definition ledgerCheckpointHasSuffix (checkpoint : LedgerCheckpointV1) : bool :=
  negb (map_all (λ _ domain, negb ((dc_CompactedThrough domain <? dc_Epoch domain) ||
                                   negb (length (dc_AppliedSuffix domain) =? 0)%nat)) (ck_Domains checkpoint)).

(** internal/releasetransition/ledger_checkpoint_store.go:211-231 [checkpointFullyCompactsLedger] *)
Definition checkpointFullyCompactsLedger (checkpoint : LedgerCheckpointV1) (ledger : LedgerV2)
    (registry : RegistryV2) : bool :=
  let domains := default ∅ (lg_Domains ledger) in
  (size (ck_Domains checkpoint) =? size domains)%nat &&
  map_all (λ domain state,
    match ck_Domains checkpoint !! domain with
    | Some compacted =>
        (dc_Epoch compacted =? ds_Epoch state) && (dc_CompactedThrough compacted =? ds_Epoch state) &&
        (length (dc_AppliedSuffix compacted) =? 0)%nat &&
        match MigrationPrefixDigest registry domain (ds_Epoch state) with
        | Ok prefix => bool_decide (dc_PrefixDigest compacted = prefix)
        | Err _ => false
        end
    | None => false
    end) domains.

(** The retired digest of a domain, the empty string when there is none. *)
Definition retired_digest (registry : RegistryV2) (domain : string) : string :=
  match rv_RetiredPrefixes registry !! domain with Some prefix => rp_Digest prefix | None => EmptyString end.

(** internal/releasetransition/ledger_checkpoint_store.go:240-254
    [ledgerAtRegistryEpochs]: the state of one domain of the registry. *)
Definition domain_at_registry (registry : RegistryV2) (source : domains_map) (st : domains_map)
    (entry : string * Z) : result ledger_error domains_map :=
  let '(domain, minimum) := entry in
  state ← match source !! domain with
          | Some state => Ok state
          | None =>
              refuse (negb (minimum =? 1) || negb (bool_decide (retired_digest registry domain = EmptyString)))
                (LedgerInvalid "ledger cannot prove newly added domain");;
              Ok (mkDomainState minimum [])
          end;
  refuse ((ds_Epoch state <? minimum) || (get_default 0 domain (rv_CurrentEpochs registry) <? ds_Epoch state))
    (LedgerInvalid "domain is outside the checkpoint registry floor");;
  Ok (<[ domain := mkDomainState (ds_Epoch state) (appliedPrefix registry domain (ds_Epoch state)) ]> st).

(** internal/releasetransition/ledger_checkpoint_store.go:233-259 [ledgerAtRegistryEpochs] *)
Definition ledgerAtRegistryEpochs (source : LedgerV2) (registry : RegistryV2) : result ledger_error LedgerV2 :=
  let sdomains := default ∅ (lg_Domains source) in
  refuse (negb (map_all (λ domain _, has domain (rv_MinimumEpochs registry)) sdomains))
    (LedgerInvalid "ledger contains removed domain");;
  domains ← for_range (domain_at_registry registry sdomains) (map_to_list (rv_MinimumEpochs registry)) ∅;
  let ledger := mkLedgerV2 LedgerSchemaV2 (Some domains) in
  ValidateLedger registry ledger;;
  Ok ledger.

(** ** Traces of a journal *)

(** internal/releasetransition/store_posix.go:1241-1243 [absentProtectedSnapshot] *)
Definition absentProtectedSnapshot : ProtectedSnapshot :=
  mkProtectedSnapshot false EmptyString (fingerprintPayload "protected-record-absent-v1").

(** internal/releasetransition/transition_v2.go:4058-4062 [protectedSnapshotFromPayload] *)
Definition protectedSnapshotFromPayload (payload : string) : ProtectedSnapshot :=
  mkProtectedSnapshot true payload (fingerprintPayload payload).

(** A step of the journal that advances the ledger. *)
Definition is_ledger_step (step : JournalStep) : bool :=
  bool_decide (step_ID step = step_Migration step +:+ ".ledger").

(** internal/releasetransition/history_trace.go:52-63 [encodeLedgerTrace]: one edge. *)
Definition encode_edge (registry : RegistryV2) (edges : gmap string sourceLedgerEdge) (edge : Edge) :
    result ledger_error (gmap string sourceLedgerEdge) :=
  before ← MarshalLedgerV2 (ledgerFromAuthority (e_before edge)) registry;
  after ← MarshalLedgerV2 (ledgerFromAuthority (e_after edge)) registry;
  Ok (<[ m_ID (e_migration edge) :=
           mkSourceLedgerEdge (e_migration edge) before.2 after.2 edge
             (protectedSnapshotFromPayload before.1) after.1 ]> edges).

(** internal/releasetransition/history_trace.go:64-81 [encodeLedgerTrace]: the pins
    of one step. *)
Definition pin_step (registry : RegistryV2) (edges : gmap string sourceLedgerEdge) (step : JournalStep) :
    result ledger_error (gmap string sourceLedgerEdge) :=
  if negb (is_ledger_step step) then Ok edges else
  edge ← expect (edges !! step_Migration step) (LedgerInvalid "journaled ledger edge is missing");
  let initialAbsent :=
    sameLedgerV2 (ledgerFromAuthority (e_before (se_witness edge))) (BaselineLedgerV2 registry) &&
    bool_decide (step_Expected step = ps_Fingerprint absentProtectedSnapshot) in
  refuse (bool_decide (step_Desired step ≠ se_after edge) ||
          bool_decide (step_Expected step ≠ se_before edge) && negb initialAbsent)
    (LedgerInvalid "journaled ledger transition does not bind its historical frontier");;
  Ok (if initialAbsent
      then <[ step_Migration step :=
                mkSourceLedgerEdge (se_migration edge) (se_before edge) (se_after edge) (se_witness edge)
                  absentProtectedSnapshot (se_to edge) ]> edges
      else edges).

(** internal/releasetransition/history_trace.go:50-83 [encodeLedgerTrace] *)
Definition encodeLedgerTrace (registry : RegistryV2) (trace : Trace) (steps : list JournalStep) :
    result ledger_error (gmap string sourceLedgerEdge) :=
  edges ← for_range (encode_edge registry) (t_edges trace) ∅;
  for_range (pin_step registry) steps edges.

(** internal/releasetransition/history_trace.go:11-27 [ledgerTrace] *)
Definition ledgerTrace (registry : RegistryV2) (observed : LedgerV2) (steps : list JournalStep) :
    result ledger_error (gmap string sourceLedgerEdge) :=
  oa ← historyAuthority registry observed;
  let ids := step_Migration <$> filter (λ step, is_ledger_step step = true) steps in
  trace ← map_err LedgerHistory (TraceFrom oa.1 oa.2 ids);
  encodeLedgerTrace registry trace steps.

(** internal/releasetransition/history_trace.go:31-49 [canonicalLedgerTrace] *)
Definition canonicalLedgerTrace (registry : RegistryV2) (steps : list JournalStep) :
    result ledger_error (gmap string sourceLedgerEdge) :=
  owner ← historyRegistry registry;
  baseline ← map_err LedgerHistory (Baseline owner);
  trace ← map_err LedgerHistory (TraceFrom owner baseline (m_ID <$> rv_Migrations registry));
  encodeLedgerTrace registry trace steps.

(** ** Checked registries *)

(** Integers of a registry record are machine integers, its migrations a slice. *)
Definition i64_registry (registry : RegistryV2) : Prop :=
  (∀ n f, rv_MinimumEpochs registry !! n = Some f → f ≤ max_i64) ∧
  Z.of_nat (length (rv_Migrations registry)) ≤ max_i64.

Definition registry_data (registry : RegistryV2) (ids : gmap string nat) : registryData :=
  mkRegistryData (rv_MinimumEpochs registry) (rv_CurrentEpochs registry)
    (rp_Digest <$> rv_RetiredPrefixes registry) (rv_Migrations registry) ids.

#[local] Notation handle_of registry ids := (Some (mkHandle addr (registry_data registry ids))).

Lemma historyRegistry_Ok registry r :
  i64_registry registry → historyRegistry registry = Ok r →
  ∃ ids, r = handle_of registry ids ∧ registry_ok (registry_data registry ids) ∧
    ∀ domain prefix, rv_RetiredPrefixes registry !! domain = Some prefix →
      rv_MinimumEpochs registry !! domain = Some (rp_ThroughEpoch prefix) ∧
      validFingerprint (rp_Digest prefix) = true.
Proof.
  intros [Hmin Hlen] H. unfold historyRegistry in H. ok_inv.
  apply (NewRegistry_Ok addr _ _ _ _ _ Hmin Hlen) in H as (ids & -> & Hok). exists ids.
  split; [done|]. split; [done|]. bools. rewrite map_all_true in *.
  intros domain prefix Hp. match goal with H : ∀ k v, _ |- _ => specialize (H domain prefix Hp) end.
  destruct (rv_MinimumEpochs registry !! domain) as [minimum|]; [|done]. bools. by subst.
Qed.

(** The digest a prefix starts from. *)
Definition base_digest (registry : RegistryV2) (domain : string) (minimum : Z) : string :=
  match rv_RetiredPrefixes registry !! domain with
  | Some prefix => rp_Digest prefix
  | None => migrationPrefixSeed domain minimum
  end.

Lemma gap_loop (entries : list Migration) f k :
  0 ≤ k → (m_FromEpoch <$> entries) = seqZ f k → (∀ m, m ∈ entries → m_ToEpoch m = m_FromEpoch m + 1) →
  for_range (λ expectedEpoch m,
    refuse (negb (m_FromEpoch m =? expectedEpoch)) (LedgerInvalid "prefix has a gap");;
    Ok (m_ToEpoch m)) entries f = Ok (f + k).
Proof.
  revert f k. induction entries as [|m l IH]; intros f k Hk Hl Hto.
  - destruct (decide (k = 0)) as [->|]; [simpl; f_equal; lia|].
    rewrite seqZ_cons in Hl by lia. discriminate Hl.
  - destruct (decide (0 < k)) as [Hpos|]; [|rewrite seqZ_nil in Hl by lia; discriminate Hl].
    rewrite seqZ_cons in Hl by done. csimpl in Hl. injection Hl as Hm Hl.
    simpl. rewrite Hm, Z.eqb_refl. simpl. rewrite Hto, Hm by (by left).
    rewrite (IH (f + 1) (Z.pred k)); [f_equal; lia|lia|done|].
    intros x Hx. apply Hto. by right.
Qed.

Lemma prefix_epochs d n f c e :
  registry_ok d → rd_minimum d !! n = Some f → rd_current d !! n = Some c → f ≤ e ≤ c →
  (m_FromEpoch <$> prefix_at d n f e) = seqZ f (e - f).
Proof.
  intros Hd Hf Hc He. unfold prefix_at. rewrite fmap_take, (ro_path d Hd n f c Hf Hc).
  replace (c - f) with ((e - f) + (c - e)) by lia. rewrite seqZ_app by lia.
  apply take_app_length'. by rewrite length_seqZ.
Qed.

(** On an accepted registry the digest of a prefix is the chain over the
    definitions of the path, in order; there is never a gap. *)
Lemma MigrationPrefixDigest_Ok registry ids domain f c e :
  i64_registry registry → historyRegistry registry = Ok (handle_of registry ids) →
  rv_MinimumEpochs registry !! domain = Some f → rv_CurrentEpochs registry !! domain = Some c →
  f ≤ e ≤ c →
  MigrationPrefixDigest registry domain e =
  Ok (foldl (prefix_link domain) (base_digest registry domain f)
        (prefix_at (registry_data registry ids) domain f e)).
Proof.
  intros Hi Hr Hf Hc He. destruct (historyRegistry_Ok registry _ Hi Hr) as (ids' & [= <-] & Hok & Hret).
  set (d := registry_data registry ids) in *.
  assert (rd_minimum d !! domain = Some f) as Hf' by done.
  assert (rd_current d !! domain = Some c) as Hc' by done.
  unfold MigrationPrefixDigest. rewrite Hr. simpl. rewrite Hf. simpl. unfold get_default. rewrite Hc. simpl.
  rewrite (proj2 (Z.ltb_ge e f)), (proj2 (Z.ltb_ge c e)) by lia. simpl. unfold base_digest.
  pose proof (prefix_filter d Hok domain f c e Hf' Hc' (proj1 He)) as Hfil.
  change (rd_migrations d) with (rv_Migrations registry) in Hfil.
  pose proof (prefix_epochs d domain f c e Hok Hf' Hc' He) as Hep.
  assert (∀ m, m ∈ prefix_at d domain f e → m_ToEpoch m = m_FromEpoch m + 1) as Hto.
  { intros m Hm. apply (ro_step d Hok). by apply (elem_of_prefix d Hok _ domain f e Hf' (proj1 He)). }
  destruct (rv_RetiredPrefixes registry !! domain) as [p|] eqn:Hp.
  - destruct (Hret domain p Hp) as [Hthrough _]. assert (rp_ThroughEpoch p = f) as -> by congruence.
    destruct (Z.eqb_spec e f) as [->|Hne].
    + f_equal. unfold prefix_at. by rewrite Z.sub_diag.
    + rewrite (proj2 (Z.ltb_ge e f)) by lia. simpl.
      rewrite Hfil.
      rewrite (gap_loop _ f (e - f)) by (done || lia). simpl.
      replace (f + (e - f)) with e by lia. by rewrite Z.eqb_refl.
  - rewrite (proj2 (Z.ltb_ge e f)) by lia. simpl.
    rewrite Hfil.
    rewrite (gap_loop _ f (e - f)) by (done || lia). simpl.
    replace (f + (e - f)) with e by lia. by rewrite Z.eqb_refl.
Qed.

(** ** What the prefix digest binds *)

Lemma safeID_valid s : safeID s = true → ValidString s = true.
Proof. unfold safeID. intros H. bools. by apply ValidString_ascii, SafeID_ascii. Qed.

Lemma digest_valid payload : ValidString (fingerprintPayload payload) = true.
Proof. apply fingerprint_valid, digest_fingerprint_ok. Qed.

(** Migrations whose strings are valid UTF-8. *)
Definition utf8_migration (m : Migration) : Prop :=
  ValidString (m_ID m) = true ∧ ValidString (m_Domain m) = true ∧ ValidString (m_Kind m) = true ∧
  ∀ dep, dep ∈ m_DependsOn m → ValidString dep = true.

Lemma registry_utf8 d m : registry_ok d → m ∈ rd_migrations d → utf8_migration m.
Proof.
  intros Hd Hm. destruct (ro_safe d Hd m Hm) as [Hid Hkind].
  split_and!.
  - by apply safeID_valid.
  - apply safeID_valid, (ro_names d Hd), (ro_domain d Hd), Hm.
  - by apply safeID_valid.
  - intros dep Hdep. destruct (list_elem_of_split _ _ Hm) as (l1 & l2 & Hl).
    pose proof (ro_deps d Hd l1 m l2 dep Hl Hdep) as Hin.
    apply list_elem_of_fmap in Hin as (m' & -> & Hm'). apply safeID_valid, (ro_safe d Hd). rewrite Hl. set_solver.
Qed.

Lemma migration_json_valid m : utf8_migration m → json_valid (migration_json m) = true.
Proof.
  intros (H1 & H2 & H3 & H4). unfold migration_json. json_fields; try done.
  case_decide; [done|]. json_fields. by apply json_valid_array.
Qed.

#[local] Instance JString_inj : Inj (=) (=) JString.
Proof. by intros ?? [=]. Qed.

Lemma migration_json_inj m1 m2 : migration_json m1 = migration_json m2 → m1 = m2.
Proof.
  destruct m1 as [i1 d1 f1 t1 k1 l1], m2 as [i2 d2 f2 t2 k2 l2]. unfold migration_json. simpl.
  destruct (decide (l1 = [])) as [->|N1], (decide (l2 = [])) as [->|N2]; intros [=]; subst; try done.
  match goal with H : JString <$> _ = JString <$> _ |- _ => apply (inj (fmap JString)) in H as -> end. done.
Qed.

Lemma prefix_payload_inj domain b1 b2 m1 m2 :
  ValidString domain = true → ValidString b1 = true → ValidString b2 = true →
  utf8_migration m1 → utf8_migration m2 →
  prefix_payload domain b1 m1 = prefix_payload domain b2 m2 → b1 = b2 ∧ m1 = m2.
Proof.
  intros Hd Hb1 Hb2 H1 H2 E. apply marshal_inj in E.
  - remember (migration_json m1) as j1 eqn:E1. remember (migration_json m2) as j2 eqn:E2.
    injection E as _ -> ->. split; [done|]. apply migration_json_inj. congruence.
  - json_fields; try done. by apply migration_json_valid.
  - json_fields; try done. by apply migration_json_valid.
Qed.

(** The texts that a chain hashes. *)
Fixpoint chain_payloads (domain digest : string) (ms : list Migration) : list string :=
  match ms with
  | [] => []
  | m :: ms' => prefix_payload domain digest m :: chain_payloads domain (prefix_link domain digest m) ms'
  end.

Lemma chain_payloads_snoc domain b ms m :
  chain_payloads domain b (ms ++ [m]) =
  chain_payloads domain b ms ++ [prefix_payload domain (foldl (prefix_link domain) b ms) m].
Proof. revert b. induction ms as [|x ms IH]; intros b; simpl; [done|]. by rewrite IH. Qed.

Lemma length_chain_payloads domain b ms : length (chain_payloads domain b ms) = length ms.
Proof. revert b. induction ms as [|x ms IH]; intros b; simpl; [done|]. by rewrite IH. Qed.

Lemma chain_valid domain b ms :
  ValidString b = true → ValidString (foldl (prefix_link domain) b ms) = true.
Proof.
  intros Hb. destruct ms as [|m ms _] using rev_ind; [done|]. rewrite foldl_app. apply digest_valid.
Qed.

(** Two texts at the same place of two chains that collide. *)
Definition chain_collision (domain b1 b2 : string) (l1 l2 : list Migration) : Prop :=
  ∃ i p1 p2, chain_payloads domain b1 l1 !! i = Some p1 ∧ chain_payloads domain b2 l2 !! i = Some p2 ∧
    collision p1 p2.

Lemma chain_binds domain b1 b2 l1 l2 :
  ValidString domain = true → ValidString b1 = true → ValidString b2 = true →
  (∀ m, m ∈ l1 ++ l2 → utf8_migration m) → length l1 = length l2 →
  foldl (prefix_link domain) b1 l1 = foldl (prefix_link domain) b2 l2 →
  (b1 = b2 ∧ l1 = l2) ∨ chain_collision domain b1 b2 l1 l2.
Proof.
  intros Hd Hb1 Hb2. revert l2. induction l1 as [|m1 l1 IH] using rev_ind; intros l2 Hu Hlen E.
  - destruct l2; [by left|done].
  - destruct l2 as [|m2 l2 _] using rev_ind; [rewrite length_app in Hlen; simpl in Hlen; lia|].
    rewrite !length_app in Hlen. simpl in Hlen. rewrite !foldl_app in E. simpl in E.
    set (c1 := foldl _ b1 l1) in *. set (c2 := foldl _ b2 l2) in *.
    destruct (decide (prefix_payload domain c1 m1 = prefix_payload domain c2 m2)) as [Ep|Ep].
    + apply prefix_payload_inj in Ep as [Ec ->]; [|exact Hd|by apply chain_valid|by apply chain_valid|..].
      2: { apply Hu, elem_of_app. left. apply elem_of_app. right. by left. }
      2: { apply Hu, elem_of_app. right. apply elem_of_app. right. by left. }
      destruct (IH l2) as [[-> ->]|(i & p1 & p2 & H1 & H2 & Hc)]; [|lia|done|by left|].
      { intros m Hm. apply Hu. rewrite !elem_of_app in *. tauto. }
      right. exists i, p1, p2. rewrite !chain_payloads_snoc. split_and!; [by apply lookup_app_l_Some..|done].
    + right. exists (length l1), (prefix_payload domain c1 m1), (prefix_payload domain c2 m2).
      rewrite !chain_payloads_snoc, !lookup_app_r, !length_chain_payloads by (rewrite length_chain_payloads; lia).
      replace (length l1 - length l2)%nat with 0%nat by lia. rewrite Nat.sub_diag. done.
Qed.

(** The first migrations of a domain, up to an epoch. *)
Definition path_prefix (registry : RegistryV2) (domain : string) (f e : Z) : list Migration :=
  take (Z.to_nat (e - f)) (domain_path (rv_Migrations registry) domain).

Lemma MigrationPrefixDigest_inv registry domain f e digest :
  i64_registry registry → rv_MinimumEpochs registry !! domain = Some f →
  MigrationPrefixDigest registry domain e = Ok digest →
  ∃ ids c, historyRegistry registry = Ok (handle_of registry ids) ∧
    registry_ok (registry_data registry ids) ∧
    rv_CurrentEpochs registry !! domain = Some c ∧ f ≤ e ≤ c ∧
    digest = foldl (prefix_link domain) (base_digest registry domain f) (path_prefix registry domain f e) ∧
    ValidString (base_digest registry domain f) = true.
Proof.
  intros Hi Hf H. assert (∃ r, historyRegistry registry = Ok r) as [r Hr].
  { unfold MigrationPrefixDigest in H. apply bind_Ok in H as (r & Hr & _). eauto. }
  destruct (historyRegistry_Ok registry r Hi Hr) as (ids & -> & Hok & Hret).
  destruct (proj1 (ro_domains _ Hok domain) (ex_intro _ _ Hf)) as [c Hc]. simpl in Hc.
  assert (f ≤ e ≤ c) as He.
  { pose proof H as H'. unfold MigrationPrefixDigest in H'. rewrite Hr in H'. simpl in H'. rewrite Hf in H'.
    simpl in H'. apply bind_Ok in H' as (u & Hu & _). apply refuse_Ok in Hu. unfold get_default in Hu.
    rewrite Hc in Hu. simpl in Hu. bools. lia. }
  exists ids, c. rewrite (MigrationPrefixDigest_Ok registry ids domain f c e Hi Hr Hf Hc He) in H.
  injection H as <-. split_and!; try done; try lia.
  unfold base_digest. destruct (rv_RetiredPrefixes registry !! domain) as [p|] eqn:Hp; [|apply digest_valid].
  apply fingerprint_valid. destruct (Hret _ _ Hp) as [_ Hdig]. exact Hdig.
Qed.

Lemma path_prefix_elem registry ids domain f e m :
  m ∈ path_prefix registry domain f e → m ∈ rd_migrations (registry_data registry ids).
Proof.
  intros Hm. assert (m ∈ domain_path (rv_Migrations registry) domain) as Hin.
  { unfold path_prefix in Hm. rewrite <-(take_drop (Z.to_nat (e - f)) (domain_path _ domain)). set_solver. }
  by apply list_elem_of_filter in Hin as [_ ?].
Qed.

Lemma length_path_prefix registry ids domain f c e :
  registry_ok (registry_data registry ids) → rv_MinimumEpochs registry !! domain = Some f →
  rv_CurrentEpochs registry !! domain = Some c → f ≤ e ≤ c →
  length (path_prefix registry domain f e) = Z.to_nat (e - f).
Proof.
  intros Hok Hf Hc He. pose proof (ro_path _ Hok domain f c Hf Hc) as Hp.
  apply (f_equal length) in Hp. rewrite length_fmap, length_seqZ in Hp. simpl in Hp.
  unfold path_prefix. rewrite length_take, Hp. lia.
Qed.

(** The digest of a completed prefix binds the ordered definitions it stands
    for: two registries that give a domain the same floor and the same digest
    through an epoch retired the same history and have the same definitions up to
    that epoch, unless two texts at the same place of the two chains collide
    under SHA-256. *)
Theorem prefix_digest_binds R1 R2 domain f e digest :
  i64_registry R1 → i64_registry R2 →
  rv_MinimumEpochs R1 !! domain = Some f → rv_MinimumEpochs R2 !! domain = Some f →
  MigrationPrefixDigest R1 domain e = Ok digest → MigrationPrefixDigest R2 domain e = Ok digest →
  (base_digest R1 domain f = base_digest R2 domain f ∧ path_prefix R1 domain f e = path_prefix R2 domain f e) ∨
  chain_collision domain (base_digest R1 domain f) (base_digest R2 domain f)
    (path_prefix R1 domain f e) (path_prefix R2 domain f e).
Proof.
  intros Hi1 Hi2 Hf1 Hf2 H1 H2.
  apply (MigrationPrefixDigest_inv R1 domain f) in H1 as (ids1 & c1 & _ & Hok1 & Hc1 & He1 & -> & Hb1); [|done..].
  apply (MigrationPrefixDigest_inv R2 domain f) in H2 as (ids2 & c2 & _ & Hok2 & Hc2 & He2 & E & Hb2); [|done..].
  apply chain_binds; try done.
  - apply safeID_valid, (ro_names _ Hok1). simpl. eauto.
  - intros m [Hm|Hm]%elem_of_app; [|].
    + by apply (registry_utf8 _ m Hok1), (path_prefix_elem R1 ids1 domain f e).
    + by apply (registry_utf8 _ m Hok2), (path_prefix_elem R2 ids2 domain f e).
  - rewrite (length_path_prefix R1 ids1 domain f c1 e), (length_path_prefix R2 ids2 domain f c2 e) by done. done.
Qed.

(** Retiring a prefix keeps the digests: when a registry starts a domain at the
    epoch its predecessor reached, binds the retired history by the predecessor's
    digest of it and keeps the rest of the path, both give the domain the same
    digest through every later epoch. *)
Theorem prefix_digest_retire R R' domain f t c e digest owner :
  i64_registry R → i64_registry R' → historyRegistry R' = Ok owner →
  rv_MinimumEpochs R !! domain = Some f → rv_CurrentEpochs R !! domain = Some c →
  rv_MinimumEpochs R' !! domain = Some t → rv_CurrentEpochs R' !! domain = Some c →
  MigrationPrefixDigest R domain t = Ok digest →
  rv_RetiredPrefixes R' !! domain = Some (mkRetired t digest) →
  domain_path (rv_Migrations R') domain = drop (Z.to_nat (t - f)) (domain_path (rv_Migrations R) domain) →
  t ≤ e ≤ c →
  MigrationPrefixDigest R' domain e = MigrationPrefixDigest R domain e.
Proof.
  intros Hi Hi' Hr' Hf Hc Ht Hc' Hd Hret Hpath He.
  apply (MigrationPrefixDigest_inv R domain f) in Hd as (ids & c2 & Hr & _ & Hc2 & Htf & -> & _); [|done..].
  assert (c2 = c) as -> by congruence.
  destruct (historyRegistry_Ok R' owner Hi' Hr') as (ids' & -> & _ & _).
  rewrite (MigrationPrefixDigest_Ok R' ids' domain t c e Hi' Hr' Ht Hc' He).
  rewrite (MigrationPrefixDigest_Ok R ids domain f c e Hi Hr Hf Hc) by lia. f_equal.
  unfold base_digest at 1. rewrite Hret. simpl. unfold prefix_at, path_prefix. simpl. rewrite Hpath.
  rewrite <-foldl_app. f_equal.
  replace (Z.to_nat (e - f)) with (Z.to_nat (t - f) + Z.to_nat (e - t))%nat by lia.
  by rewrite take_take_drop.
Qed.

(** ** Ledgers *)

Lemma historyAuthority_Ok registry L oa :
  i64_registry registry → historyAuthority registry L = Ok oa →
  ∃ ids D, historyRegistry registry = Ok (handle_of registry ids) ∧
    registry_ok (registry_data registry ids) ∧ L = mkLedgerV2 LedgerSchemaV2 (Some D) ∧
    frontier (registry_data registry ids) D ∧
    oa = (handle_of registry ids, mkAuthority (handle_of registry ids) (Some D)).
Proof.
  intros Hi H. unfold historyAuthority in H. apply bind_Ok in H as (r & Hr & H).
  destruct (historyRegistry_Ok registry r Hi Hr) as (ids & -> & Hok & _).
  destruct L as [schema [D|]]; simpl in H; ok_inv. bools. subst schema.
  match goal with H : History _ _ = Ok _ |- _ => apply (History_Ok _ Hok) in H as [HD ->] end.
  exists ids, D. by subst oa.
Qed.

Lemma historyAuthority_frontier registry ids D :
  historyRegistry registry = Ok (handle_of registry ids) → registry_ok (registry_data registry ids) →
  frontier (registry_data registry ids) D →
  historyAuthority registry (mkLedgerV2 LedgerSchemaV2 (Some D)) =
  Ok (handle_of registry ids, mkAuthority (handle_of registry ids) (Some D)).
Proof.
  intros Hr Hok HD. unfold historyAuthority. rewrite Hr. simpl.
  assert (History (handle_of registry ids) (Some D) = Ok (mkAuthority (handle_of registry ids) (Some D))) as ->;
    [|done].
  by apply (History_Ok _ Hok).
Qed.

Lemma ValidateLedger_frontier registry ids D :
  historyRegistry registry = Ok (handle_of registry ids) → registry_ok (registry_data registry ids) →
  frontier (registry_data registry ids) D →
  ValidateLedger registry (mkLedgerV2 LedgerSchemaV2 (Some D)) = Ok tt.
Proof. intros. unfold ValidateLedger. by erewrite historyAuthority_frontier. Qed.

Lemma ValidateLedger_Ok registry L u :
  i64_registry registry → ValidateLedger registry L = Ok u →
  ∃ ids D, historyRegistry registry = Ok (handle_of registry ids) ∧
    registry_ok (registry_data registry ids) ∧ L = mkLedgerV2 LedgerSchemaV2 (Some D) ∧
    frontier (registry_data registry ids) D.
Proof.
  intros Hi H. unfold ValidateLedger in H. apply bind_Ok in H as (oa & Hoa & _).
  apply (historyAuthority_Ok registry L oa Hi) in Hoa as (ids & D & Hr & Hok & HL & HD & _). eauto 10.
Qed.

Lemma sameMigrationDefinition_true l r : sameMigrationDefinition l r = true ↔ l = r.
Proof.
  unfold sameMigrationDefinition. bools. destruct l, r; simpl. split; [intros; destruct_and!; congruence|].
  by intros [=].
Qed.

(** [Advance] takes exactly the next migration of the canonical order: any other
    definition is refused; the advanced ledger differs by that one migration, is
    accepted again, and has the rest of the path pending. *)
Theorem Advance_spec registry L m rest :
  i64_registry registry → PendingPath registry L = Ok (m :: rest) →
  ∃ D, lg_Domains L = Some D ∧
    (∀ m', LedgerV2_Advance L registry m' =
       if decide (m' = m) then Ok (mkLedgerV2 LedgerSchemaV2 (Some (bump D m)))
       else Err (LedgerInvalid "not the exact next ledger transition")) ∧
    PendingPath registry (mkLedgerV2 LedgerSchemaV2 (Some (bump D m))) = Ok rest.
Proof.
  intros Hi H. unfold PendingPath in H. apply bind_Ok in H as (oa & Hoa & Hp).
  pose proof Hoa as Hoa'.
  apply (historyAuthority_Ok registry L oa Hi) in Hoa as (ids & D & Hr & Hok & -> & HD & ->).
  apply map_err_Ok in Hp. simpl in Hp. rewrite (Pending_auth addr _ Hok) in Hp. injection Hp as Hp.
  pose proof (first_pending _ Hok D m rest HD Hp) as Hen.
  exists D. split; [done|]. split.
  - intros m'. unfold LedgerV2_Advance, nextLedgerEdge. rewrite Hoa'. simpl.
    rewrite (Next_auth addr _ Hok D m rest HD Hp). simpl.
    destruct (decide (m' = m)) as [->|Hne].
    + by rewrite (proj2 (sameMigrationDefinition_true m m)).
    + destruct (sameMigrationDefinition m m') eqn:E; [|done].
      apply sameMigrationDefinition_true in E. congruence.
  - unfold PendingPath. rewrite (historyAuthority_frontier registry ids); [|done..|by apply (enabled_frontier _ Hok)].
    simpl. rewrite (Pending_auth addr _ Hok), (pending_bump _ Hok D m rest HD Hp). done.
Qed.

(** ** Ledger pins *)

Lemma map_json_inj {A} (f : A → json) m1 m2 :
  Inj (=) (=) f → map_json f m1 = map_json f m2 → m1 = m2.
Proof.
  intros Hf [= E]. apply map_to_list_inj.
  rewrite <-(sort_by_perm (key_le fst) (map_to_list m1)), <-(sort_by_perm (key_le fst) (map_to_list m2)).
  assert (∀ l1 l2 : list (string * A), prod_map id f <$> l1 = prod_map id f <$> l2 → l1 = l2) as Hinj.
  { intros l1. induction l1 as [|[k v] l1 IH]; intros [|[k' v'] l2] H; try done.
    injection H as -> ->%(inj f) H. by rewrite (IH l2). }
  apply Hinj in E. unfold sort_by_key in E. by rewrite E.
Qed.

#[local] Instance domain_state_json_inj : Inj (=) (=) domain_state_json.
Proof.
  intros [e1 l1] [e2 l2] H. unfold domain_state_json in H. simpl in H. injection H as -> H.
  by apply (inj (fmap JString)) in H as ->.
Qed.

Lemma map_json_valid {A} (f : A → json) m :
  (∀ k v, m !! k = Some v → ValidString k = true ∧ json_valid (f v) = true) → json_valid (map_json f m) = true.
Proof.
  intros H. unfold map_json. simpl. apply forallb_forall. intros [k j] Hin%list_elem_of_In.
  apply list_elem_of_fmap in Hin as ([k' v] & [= -> ->] & Hin).
  unfold sort_by_key in Hin. apply elem_of_sort_by, elem_of_map_to_list in Hin.
  destruct (H _ _ Hin) as [-> ->]. done.
Qed.

Lemma ledger_json_valid d D : registry_ok d → frontier d D → json_valid (ledger_json (mkLedgerV2 LedgerSchemaV2 (Some D))) = true.
Proof.
  intros Hd HD. unfold ledger_json. json_fields. cbn [lg_Domains]. apply map_json_valid.
  intros n s Hs. destruct (proj1 (fr_domains _ _ HD n) (ex_intro _ _ Hs)) as [f Hf]. split.
  - apply safeID_valid, (ro_names d Hd). eauto.
  - unfold domain_state_json. json_fields. apply json_valid_array. intros id Hid.
    rewrite (fr_prefix _ _ HD n s f Hs Hf) in Hid. apply list_elem_of_fmap in Hid as (m & -> & Hm).
    destruct (proj1 (ro_domains d Hd n) (ex_intro _ _ Hf)) as [c Hc].
    apply (elem_of_prefix d Hd m n f (ds_Epoch s) Hf) in Hm as (Hm & _).
    + by destruct (registry_utf8 d m Hd Hm) as [? _].
    + by apply (fr_range _ _ HD n s f c).
Qed.

Lemma MarshalLedgerV2_inv registry L p :
  i64_registry registry → MarshalLedgerV2 L registry = Ok p →
  p.1 = marshal (ledger_json L) +:+ String "010" "" ∧ p.2 = fingerprintPayload p.1 ∧
  ∃ ids D, historyRegistry registry = Ok (handle_of registry ids) ∧
    registry_ok (registry_data registry ids) ∧ L = mkLedgerV2 LedgerSchemaV2 (Some D) ∧
    frontier (registry_data registry ids) D.
Proof.
  intros Hi H. unfold MarshalLedgerV2 in H. apply bind_Ok in H as (u & Hu & E). apply Ok_inj in E. subst p.
  split; [done|]. split; [done|]. by apply (ValidateLedger_Ok registry L u Hi).
Qed.

Lemma string_app_inj (s t u : string) : s +:+ u = t +:+ u → s = t.
Proof.
  intros E. apply (f_equal bytes) in E. rewrite !bytes_app in E. apply app_inv_tail in E. by apply bytes_inj.
Qed.

Lemma ledger_json_inj D1 D2 :
  ledger_json (mkLedgerV2 LedgerSchemaV2 (Some D1)) = ledger_json (mkLedgerV2 LedgerSchemaV2 (Some D2)) → D1 = D2.
Proof.
  unfold ledger_json. cbn [lg_Domains lg_SchemaVersion]. intros E. apply (map_json_inj domain_state_json); [apply _|].
  remember (map_json domain_state_json D1) as j1. remember (map_json domain_state_json D2) as j2.
  by injection E as ->.
Qed.

(** The pin of a ledger binds the ledger: two accepted ledgers, of the same or of
    different registries, with the same fingerprint are the same ledger, unless
    their two texts collide under SHA-256. *)
Theorem ledger_pin_binds R1 R2 L1 L2 p1 p2 pin :
  i64_registry R1 → i64_registry R2 →
  MarshalLedgerV2 L1 R1 = Ok (p1, pin) → MarshalLedgerV2 L2 R2 = Ok (p2, pin) →
  L1 = L2 ∨ collision p1 p2.
Proof.
  intros Hi1 Hi2 H1 H2. destruct (decide (p1 = p2)) as [<-|Hne].
  - left. apply (MarshalLedgerV2_inv R1) in H1 as (E1 & _ & ids1 & D1 & _ & Hok1 & -> & HD1); [|done].
    apply (MarshalLedgerV2_inv R2) in H2 as (E2 & _ & ids2 & D2 & _ & Hok2 & -> & HD2); [|done].
    cbn [fst] in E1, E2. rewrite E1 in E2.
    apply string_app_inj, marshal_inj, ledger_json_inj in E2; [by rewrite E2|..].
    + by apply (ledger_json_valid _ D1 Hok1).
    + by apply (ledger_json_valid _ D2 Hok2).
  - right. split; [done|]. apply (MarshalLedgerV2_inv R1) in H1 as (_ & E1 & _); [|done].
    apply (MarshalLedgerV2_inv R2) in H2 as (_ & E2 & _); [|done]. cbn [fst snd] in E1, E2.
    change (fingerprintPayload p1 = fingerprintPayload p2). congruence.
Qed.

(** ** Checkpoints *)

Section checkpoints.
Context (registry : RegistryV2) (Hi : i64_registry registry) (ids : gmap string nat).
Let d : registryData := registry_data registry ids.
Context (Hr : historyRegistry registry = Ok (handle_of registry ids)) (Hok : registry_ok d).

Lemma appliedPrefix_at n f c e :
  rv_MinimumEpochs registry !! n = Some f → rv_CurrentEpochs registry !! n = Some c → f ≤ e ≤ c →
  appliedPrefix registry n e = m_ID <$> prefix_at d n f e.
Proof.
  intros Hf Hc He. unfold appliedPrefix. rewrite Hr. unfold Applied, has, get_default. simpl.
  rewrite Hf, Hc. simpl.
  rewrite (proj2 (Z.ltb_ge f f)), (proj2 (Z.ltb_ge e f)), (proj2 (Z.ltb_ge c e)) by lia. simpl.
  pose proof (prefix_filter d Hok n f c e Hf Hc ltac:(lia)) as E.
  change (rd_migrations d) with (rv_Migrations registry) in E. by rewrite E.
Qed.

Context (D : domains_map) (HD : frontier d D).

Lemma domain_bounds n s :
  D !! n = Some s → ∃ f c, rv_MinimumEpochs registry !! n = Some f ∧ rv_CurrentEpochs registry !! n = Some c ∧
    f ≤ ds_Epoch s ≤ c ∧ ds_Applied s = m_ID <$> prefix_at d n f (ds_Epoch s).
Proof.
  intros Hs. destruct (proj1 (fr_domains _ _ HD n) (ex_intro _ _ Hs)) as [f Hf].
  destruct (proj1 (ro_domains d Hok n) (ex_intro _ _ Hf)) as [c Hc]. exists f, c.
  split_and!; try done; try by apply (fr_range _ _ HD n s f c). by apply (fr_prefix _ _ HD).
Qed.

(** The compacted state of a domain. *)
Definition compacted (n : string) (s : DomainState) : DomainCheckpointV1 :=
  mkDomainCheckpoint (ds_Epoch s) (ds_Epoch s)
    (match MigrationPrefixDigest registry n (ds_Epoch s) with Ok digest => digest | Err _ => EmptyString end) [].

Lemma domain_digest n s :
  D !! n = Some s → ∃ digest, MigrationPrefixDigest registry n (ds_Epoch s) = Ok digest ∧
    compacted n s = mkDomainCheckpoint (ds_Epoch s) (ds_Epoch s) digest [].
Proof.
  intros Hs. destruct (domain_bounds n s Hs) as (f & c & Hf & Hc & He & _).
  unfold compacted. rewrite (MigrationPrefixDigest_Ok registry ids n f c) by done. eauto.
Qed.

Lemma checkpoint_loop :
  for_range (checkpoint_domain registry) (map_to_list D) ∅ = Ok (map_imap (λ n s, Some (compacted n s)) D).
Proof.
  destruct (for_range_total (λ pre st, st = map_imap (λ n s, Some (compacted n s)) (list_to_map pre))
    (checkpoint_domain registry) (map_to_list D) ∅) as (st & Hrun & Hst).
  - apply map_eq. intros n. by rewrite map_lookup_imap, lookup_empty.
  - intros pre [n s] post st E ->.
    assert (D !! n = Some s) as Hs.
    { apply elem_of_map_to_list. rewrite E. set_solver. }
    assert (n ∉ pre.*1) as Hn.
    { pose proof (NoDup_fst_map_to_list D) as Hnd. rewrite E, fmap_app in Hnd.
      apply NoDup_app in Hnd as (_ & Hnd & _). intros Hin. apply (Hnd n Hin). by left. }
    destruct (domain_digest n s Hs) as (digest & Hd & Hc). eexists. split.
    + simpl. by rewrite Hd.
    + rewrite <-Hc. apply map_eq. intros k. rewrite map_lookup_imap, list_to_map_app.
      destruct (decide (k = n)) as [->|Hk].
      * rewrite lookup_insert_eq, lookup_union_r by (by apply not_elem_of_list_to_map_1).
        simpl. by rewrite lookup_insert_eq.
      * rewrite lookup_insert_ne, map_lookup_imap, lookup_union by done. simpl.
        rewrite lookup_insert_ne, lookup_empty by done. by rewrite (right_id_L None (∪)).
  - rewrite Hrun, Hst. by rewrite list_to_map_to_list.
Qed.

Lemma view_domains :
  map_imap (λ domain state, Some (mkDomainState (dc_Epoch state) (appliedPrefix registry domain (dc_Epoch state))))
    (map_imap (λ n s, Some (compacted n s)) D) ∪ ((λ minimum, mkDomainState minimum []) <$> rv_MinimumEpochs registry) = D.
Proof.
  apply map_eq. intros n. rewrite lookup_union, !map_lookup_imap, lookup_fmap.
  destruct (D !! n) as [s|] eqn:Hs; simpl.
  - destruct (domain_bounds n s Hs) as (f & c & Hf & Hc & He & Ha).
    rewrite (appliedPrefix_at n f c) by done. rewrite <-Ha, Hf. simpl. by destruct s.
  - assert (rv_MinimumEpochs registry !! n = None) as ->; [|done].
    apply eq_None_not_Some. intros Hn. apply (fr_domains _ _ HD) in Hn as [s Hs']. congruence.
Qed.
End checkpoints.

(** Compacting loses nothing: from every accepted ledger a checkpoint is made,
    its view is that ledger again, it stands for the ledger completely and has
    no suffix left to compact. *)
Theorem checkpoint_roundtrip registry L digest projection epochs :
  i64_registry registry → ValidateLedger registry L = Ok tt →
  ∃ ck, newLedgerCheckpointV1 L registry digest projection epochs = Ok ck ∧
    LedgerView ck registry = Ok L ∧ checkpointFullyCompactsLedger ck L registry = true ∧
    ledgerCheckpointHasSuffix ck = false.
Proof.
  intros Hi Hv. pose proof Hv as Hv'.
  apply (ValidateLedger_Ok registry L tt Hi) in Hv' as (ids & D & Hr & Hok & -> & HD).
  unfold newLedgerCheckpointV1. rewrite Hv. simpl. rewrite (checkpoint_loop registry Hi ids Hr Hok D HD). simpl.
  eexists. split; [done|]. split_and!.
  - unfold LedgerView. simpl. assert (map_all (λ domain _, has domain (rv_MinimumEpochs registry))
      (map_imap (λ n s, Some (compacted registry n s)) D) = true) as ->.
    { apply map_all_true. intros n s Hs. rewrite map_lookup_imap in Hs.
      apply bind_Some in Hs as (s' & Hs & _). unfold has. apply bool_decide_true.
      by apply (fr_domains _ _ HD). }
    simpl. rewrite (view_domains registry ids Hr Hok D HD), Hv. done.
  - unfold checkpointFullyCompactsLedger. cbn [ck_Domains lg_Domains default from_option id]. apply andb_true_intro. split.
    + apply Nat.eqb_eq. rewrite <-!size_dom. f_equal. apply set_eq. intros n.
      rewrite !elem_of_dom, map_lookup_imap. destruct (D !! n); simpl; split; eauto; by intros [??].
    + apply map_all_true. intros n s Hs. rewrite map_lookup_imap, Hs. simpl.
      destruct (domain_digest registry Hi ids Hr Hok D HD n s Hs) as (dg & Hdg & _). rewrite Hdg.
      rewrite !Z.eqb_refl, bool_decide_true by done. done.
  - unfold ledgerCheckpointHasSuffix. apply negb_false_iff, map_all_true. intros n s Hs. simpl in Hs.
    rewrite map_lookup_imap in Hs. apply bind_Some in Hs as (s' & _ & [= <-]). simpl.
    by rewrite Z.ltb_irrefl.
Qed.

#[local] Opaque Sum256.

(** ** Journaled traces *)

(** The migrations whose ledger step a journal holds. *)
Definition ledger_ids (steps : list JournalStep) : list string :=
  step_Migration <$> filter (λ step, is_ledger_step step = true) steps.

Lemma advance_path registry ids D ms :
  i64_registry registry → historyRegistry registry = Ok (handle_of registry ids) →
  registry_ok (registry_data registry ids) → frontier (registry_data registry ids) D →
  ms `prefix_of` pending (registry_data registry ids) D →
  for_range (λ L m, LedgerV2_Advance L registry m) ms (mkLedgerV2 LedgerSchemaV2 (Some D)) =
  Ok (mkLedgerV2 LedgerSchemaV2 (Some (foldl bump D ms))).
Proof.
  intros Hi Hr Hok. revert D. induction ms as [|m ms IH]; intros D HD [rest Hp]; [done|]. simpl.
  unfold LedgerV2_Advance, nextLedgerEdge.
  rewrite (historyAuthority_frontier registry ids D Hr Hok HD). simpl.
  rewrite (Next_auth addr _ Hok D m (ms ++ rest) HD Hp). simpl.
  rewrite (proj2 (sameMigrationDefinition_true m m)) by done. simpl. apply IH.
  - apply (enabled_frontier _ Hok); [done|]. by apply (first_pending _ Hok D m (ms ++ rest)).
  - exists rest. by apply (pending_bump _ Hok).
Qed.


(** An edge as the encoder records it. *)
Definition bound_edge (registry : RegistryV2) (id : string) (e : sourceLedgerEdge) : Prop :=
  se_migration e = e_migration (se_witness e) ∧ m_ID (se_migration e) = id ∧
  ∃ before, MarshalLedgerV2 (ledgerFromAuthority (e_before (se_witness e))) registry = Ok (before, se_before e) ∧
    MarshalLedgerV2 (ledgerFromAuthority (e_after (se_witness e))) registry = Ok (se_to e, se_after e) ∧
    (se_from e = protectedSnapshotFromPayload before ∨
     se_from e = absentProtectedSnapshot ∧
     sameLedgerV2 (ledgerFromAuthority (e_before (se_witness e))) (BaselineLedgerV2 registry) = true).

Lemma encode_edges registry l edges :
  for_range (encode_edge registry) l ∅ = Ok edges →
  (∀ id e, edges !! id = Some e → bound_edge registry id e ∧ se_witness e ∈ l ∧ ps_Fingerprint (se_from e) = se_before e) ∧
  ∀ e, e ∈ l → is_Some (edges !! m_ID (e_migration e)).
Proof.
  intros Hrun. apply (for_range_inv (λ pre st,
    (∀ id e, st !! id = Some e → bound_edge registry id e ∧ se_witness e ∈ pre ∧ ps_Fingerprint (se_from e) = se_before e) ∧
    ∀ e, e ∈ pre → is_Some (st !! m_ID (e_migration e)))) in Hrun; [done|..].
  - split; [intros ???; by rewrite lookup_empty in *|by intros ??%elem_of_nil].
  - intros pre edge post st st' _ [Hst Hin] Hstep. unfold encode_edge in Hstep.
    apply bind_Ok in Hstep as ([b bp] & Hb & Hstep). apply bind_Ok in Hstep as ([a ap] & Ha & Hstep).
    apply Ok_inj in Hstep. subst st'. cbn [fst snd]. split.
    + intros id e. destruct (decide (m_ID (e_migration edge) = id)) as [<-|Hne].
      * rewrite lookup_insert_eq. intros [= <-]. split; [|split; [simpl; set_solver|]].
        -- split; [done|]. split; [done|]. exists b. split_and!; [done|done|by left].
        -- cbn [se_from se_before ps_Fingerprint protectedSnapshotFromPayload].
           unfold MarshalLedgerV2 in Hb. apply bind_Ok in Hb as (? & _ & Hb). apply Ok_inj in Hb.
           by injection Hb as <- <-.
      * rewrite lookup_insert_ne by done. intros He. destruct (Hst id e He) as (? & ? & ?).
        split_and!; [done|set_solver|done].
    + intros e [He| ->%list_elem_of_singleton]%elem_of_app.
      * destruct (Hin e He) as [x Hx]. rewrite lookup_insert. case_decide; eauto.
      * rewrite lookup_insert_eq. eauto.
Qed.

(** What a run of the pin loop has checked. *)
Definition pinned (registry : RegistryV2) (edges : gmap string sourceLedgerEdge) (step : JournalStep) : Prop :=
  ∃ e, edges !! step_Migration step = Some e ∧ bound_edge registry (step_Migration step) e ∧
    se_after e = step_Desired step ∧ ps_Fingerprint (se_from e) = step_Expected step.

Lemma pin_step_pinned registry edges step edges' e :
  is_ledger_step step = true → edges !! step_Migration step = Some e →
  bound_edge registry (step_Migration step) e → ps_Fingerprint (se_from e) = se_before e →
  pin_step registry edges step = Ok edges' →
  pinned registry edges' step ∧ ∀ id, id ≠ step_Migration step → edges' !! id = edges !! id.
Proof.
  intros Hl He Hb Hf. unfold pin_step. rewrite Hl, He. cbn [negb expect mbind result_bind].
  intros H. ok_inv. apply orb_false_iff in H0 as [H1 H2]. apply bool_decide_eq_false in H1.
  pose proof (dec_stable H1) as Hdes.
  destruct (sameLedgerV2 (ledgerFromAuthority (e_before (se_witness e))) (BaselineLedgerV2 registry)) eqn:Hsame;
    cbn [andb] in *;
    [destruct (bool_decide (step_Expected step = ps_Fingerprint absentProtectedSnapshot)) eqn:Habs;
     [apply bool_decide_eq_true in Habs|]|]; subst edges'.
  - split; [|intros id Hid; by rewrite lookup_insert_ne].
    eexists. rewrite lookup_insert_eq. split; [done|].
    destruct Hb as (Hm & Hid & b & Hb & Ha & _). split; [|split; [symmetry; exact Hdes|symmetry; exact Habs]].
    split; [exact Hm|]. split; [exact Hid|]. exists b.
    split; [exact Hb|]. split; [exact Ha|]. right. split; [reflexivity|exact Hsame].
  - split; [|reflexivity]. exists e.
    split; [exact He|]. split; [exact Hb|]. split; [symmetry; exact Hdes|]. rewrite Hf. cbn [negb] in H2.
    rewrite andb_true_r in H2. apply bool_decide_eq_false in H2. symmetry. exact (dec_stable H2).
  - split; [|reflexivity]. exists e.
    split; [exact He|]. split; [exact Hb|]. split; [symmetry; exact Hdes|]. rewrite Hf. cbn [negb] in H2.
    rewrite andb_true_r in H2. apply bool_decide_eq_false in H2. symmetry. exact (dec_stable H2).
Qed.

Lemma pin_loop registry l edges edges' :
  (∀ id e, edges !! id = Some e → bound_edge registry id e ∧ ps_Fingerprint (se_from e) = se_before e) →
  NoDup (ledger_ids l) → for_range (pin_step registry) l edges = Ok edges' →
  (∀ step, step ∈ l → is_ledger_step step = true → pinned registry edges' step) ∧
  ∀ id, id ∉ ledger_ids l → edges' !! id = edges !! id.
Proof.
  intros Hb Hnd Hrun. revert Hnd. eapply (for_range_inv (λ pre st, NoDup (ledger_ids pre) →
    (∀ step, step ∈ pre → is_ledger_step step = true → pinned registry st step) ∧
    ∀ id, id ∉ ledger_ids pre → st !! id = edges !! id)); [| |exact Hrun].
  - intros _. split; [by intros ??%elem_of_nil|done].
  - intros pre step post st st' _ IH Hstep Hnd. unfold ledger_ids in Hnd. rewrite filter_app, fmap_app in Hnd.
    fold (ledger_ids pre) in Hnd. apply NoDup_app in Hnd as (Hnd & Hfresh & _).
    destruct (IH Hnd) as [Hpre Hkeep]. unfold ledger_ids. rewrite filter_app, fmap_app. fold (ledger_ids pre).
    destruct (is_ledger_step step) eqn:Hl.
    + rewrite filter_cons_True in * by exact Hl. cbn [fmap list_fmap filter list_filter] in *.
      assert (step_Migration step ∉ ledger_ids pre) as Hnew.
      { intros Hin. apply (Hfresh _ Hin). apply list_elem_of_singleton. reflexivity. }
      assert (∃ e, st !! step_Migration step = Some e) as [e He].
      { unfold pin_step in Hstep. rewrite Hl in Hstep. cbn [negb] in Hstep.
        apply bind_Ok in Hstep as (e & He & _). apply expect_Ok in He. eauto. }
      pose proof He as He'. rewrite (Hkeep _ Hnew) in He'. destruct (Hb _ _ He') as [Hbe Hfe].
      destruct (pin_step_pinned registry st step st' e Hl He Hbe Hfe Hstep) as [Hp Hothers]. split.
      * intros x [Hx| ->%list_elem_of_singleton]%elem_of_app Hxl; [|exact Hp].
        destruct (Hpre x Hx Hxl) as (ex & Hex & Hrest). exists ex. split; [|exact Hrest].
        rewrite Hothers; [exact Hex|]. intros E. apply Hnew. rewrite <-E.
        apply list_elem_of_fmap_2, list_elem_of_filter. split; [exact Hxl|exact Hx].
      * intros id Hid. rewrite not_elem_of_app in Hid. destruct Hid as [Hid1 Hid2].
        rewrite Hothers, Hkeep; [reflexivity|exact Hid1|]. intros ->. apply Hid2.
        apply list_elem_of_singleton. reflexivity.
    + rewrite filter_cons_False in * by congruence. cbn [fmap list_fmap filter list_filter] in *.
      unfold pin_step in Hstep. rewrite Hl in Hstep. cbn [negb] in Hstep. apply Ok_inj in Hstep. subst st'. split.
      * intros x [Hx| ->%list_elem_of_singleton]%elem_of_app Hxl; [by apply Hpre|congruence].
      * intros id Hid. apply Hkeep. rewrite not_elem_of_app in Hid. apply Hid.
Qed.

Lemma pin_witness registry l edges edges' id e :
  for_range (pin_step registry) l edges = Ok edges' → edges' !! id = Some e →
  ∃ e0, edges !! id = Some e0 ∧ se_witness e0 = se_witness e.
Proof.
  intros Hrun. revert id e. eapply (for_range_inv (λ _ st, ∀ id e, st !! id = Some e →
    ∃ e0, edges !! id = Some e0 ∧ se_witness e0 = se_witness e)); [| |exact Hrun].
  - eauto.
  - intros pre step post st st' _ IH Hstep id e He. unfold pin_step in Hstep.
    destruct (is_ledger_step step); cbn [negb] in Hstep; [|apply Ok_inj in Hstep; subst st'; eauto].
    apply bind_Ok in Hstep as (x & Hx & Hstep). apply expect_Ok in Hx. apply bind_Ok in Hstep as (u & _ & Hstep).
    apply Ok_inj in Hstep. subst st'. destruct (_ && _) in He; [|eauto].
    destruct (decide (step_Migration step = id)) as [<-|Hne].
    + rewrite lookup_insert_eq in He. injection He as <-. exact (IH _ _ Hx).
    + rewrite lookup_insert_ne in He by exact Hne. eauto.
Qed.

(** What a reconstructed journal proves: each of its ledger steps has one edge
    of the trace, from a ledger to the ledger with that one migration more; the
    journaled desired pin is the fingerprint of the ledger after, and the
    journaled expected pin is that of the ledger before, or that of an absent
    record when that ledger is the baseline. *)
Theorem ledgerTrace_pins registry L steps edges :
  i64_registry registry → ledgerTrace registry L steps = Ok edges →
  ∀ step, step ∈ steps → is_ledger_step step = true →
  ∃ e D, edges !! step_Migration step = Some e ∧ m_ID (se_migration e) = step_Migration step ∧
    Domains (e_before (se_witness e)) = D ∧ Domains (e_after (se_witness e)) = bump D (se_migration e) ∧
    MarshalLedgerV2 (mkLedgerV2 LedgerSchemaV2 (Some (bump D (se_migration e)))) registry =
      Ok (se_to e, step_Desired step) ∧
    ps_Fingerprint (se_from e) = step_Expected step ∧
    ((∃ before, MarshalLedgerV2 (mkLedgerV2 LedgerSchemaV2 (Some D)) registry = Ok (before, step_Expected step)) ∨
     se_from e = absentProtectedSnapshot ∧
     sameLedgerV2 (mkLedgerV2 LedgerSchemaV2 (Some D)) (BaselineLedgerV2 registry) = true).
Proof.
  intros Hi H step Hstep Hl. unfold ledgerTrace in H. apply bind_Ok in H as (oa & Hoa & H).
  apply (historyAuthority_Ok registry L oa Hi) in Hoa as (ids & D & Hr & Hok & -> & HD & ->).
  cbn [fst snd] in H. fold (ledger_ids steps) in H. apply bind_Ok in H as (t & Ht & H).
  apply map_err_Ok, (TraceFrom_Ok addr _ Hok D _ _ HD) in Ht
    as (D0 & before & after & Hids & HD0 & Hpath & -> & Hpre & ->).
  unfold encodeLedgerTrace in H. apply bind_Ok in H as (st & Hst & H). cbn [t_edges] in Hst.
  destruct (encode_edges registry _ _ Hst) as [Hbound _].
  destruct (pin_loop registry steps st edges) as [Hpin Hkeep]; [| |exact H|].
  { intros id e He. destruct (Hbound id e He) as (? & _ & ?). split; assumption. }
  { rewrite Hids. by apply (path_ids_NoDup addr _ Hok D0). }
  destruct (Hpin step Hstep Hl) as (e & He & (Hm & Hid & b & Hb & Ha & Hfrom) & Hdes & Hexp).
  exists e, (Domains (e_before (se_witness e))).
  assert (Domains (e_after (se_witness e)) = bump (Domains (e_before (se_witness e))) (se_migration e)) as Hafter.
  { destruct (pin_witness registry steps st edges _ e H He) as (e' & He' & Hw).
    destruct (Hbound _ _ He') as (_ & Hin & _). rewrite Hw in Hin. rewrite Hm.
    clear -Hin. revert D0 Hin. induction (before ++ after) as [|m ms IH]; intros D0; [by intros ?%elem_of_nil|].
    cbn [edges_from]. intros [-> |Hin]%elem_of_cons; [done|by eapply IH]. }
  split; [exact He|]. split; [exact Hid|]. split; [reflexivity|]. split; [exact Hafter|].
  unfold ledgerFromAuthority in Ha, Hb, Hfrom. rewrite Hafter in Ha. rewrite <-Hdes, <-Hexp.
  split; [exact Ha|]. split; [reflexivity|]. destruct Hfrom as [Hf|[Hf Hs]].
  - left. exists b. rewrite Hf. cbn [ps_Fingerprint protectedSnapshotFromPayload].
    destruct (MarshalLedgerV2_inv registry _ _ Hi Hb) as (_ & Epin & _). cbn [fst snd] in Epin.
    rewrite <-Epin. exact Hb.
  - right. split; [exact Hf|exact Hs].
Qed.
End ledger.

#[local] Transparent Sum256.

(** ** Samples *)

Module LedgerSample.
Definition registry : RegistryV2 :=
  mkRegistryV2 2 Sample.minimum Sample.current [Sample.m1; Sample.m2; Sample.m3] ∅.
Definition settings_prefix : string :=
  match MigrationPrefixDigest 7 registry "settings" 2 with Ok digest => digest | Err _ => "" end.
Definition retired : RegistryV2 :=
  mkRegistryV2 2 (<["settings" := 2]> (<["yards" := 2]> ∅)) Sample.current [Sample.m2; Sample.m3]
    (<["settings" := mkRetired 2 settings_prefix]> ∅).
Definition ledger (D : domains_map) : LedgerV2 := mkLedgerV2 2 (Some D).
Definition pin (D : domains_map) : string :=
  match MarshalLedgerV2 7 (ledger D) registry with Ok p => p.2 | Err _ => "" end.
Definition step (m : Migration) (before after : string) : JournalStep :=
  mkJournalStep (m_ID m +:+ ".ledger") (m_ID m) ("ledger." +:+ m_Domain m) "transform" before after "planned" None.
Definition steps : list JournalStep :=
  [step Sample.m1 (ps_Fingerprint absentProtectedSnapshot) (pin (bump Sample.start Sample.m1));
   step Sample.m2 (pin (bump Sample.start Sample.m1)) (pin (bump (bump Sample.start Sample.m1) Sample.m2))].
End LedgerSample.

Lemma sample_i64 : i64_registry LedgerSample.registry.
Proof. split; [exact sample_minimum|]. unfold max_i64. simpl. lia. Qed.

Lemma retired_i64 : i64_registry LedgerSample.retired.
Proof.
  split; [|unfold max_i64; simpl; lia]. intros n f. simpl. rewrite !lookup_insert_Some, lookup_empty.
  unfold max_i64. intros [[_ <-]|[_ [[_ <-]|[_ ?]]]]; [lia|lia|done].
Qed.

Lemma prefix_digest_binds_witness :
  (base_digest LedgerSample.registry "yards" 2 = base_digest LedgerSample.retired "yards" 2 ∧
   path_prefix LedgerSample.registry "yards" 2 3 = path_prefix LedgerSample.retired "yards" 2 3) ∨
  chain_collision "yards" (base_digest LedgerSample.registry "yards" 2) (base_digest LedgerSample.retired "yards" 2)
    (path_prefix LedgerSample.registry "yards" 2 3) (path_prefix LedgerSample.retired "yards" 2 3).
Proof.
  apply (prefix_digest_binds 7 LedgerSample.registry LedgerSample.retired "yards" 2 3
    (match MigrationPrefixDigest 7 LedgerSample.registry "yards" 3 with Ok digest => digest | Err _ => "" end)).
  - exact sample_i64.
  - exact retired_i64.
  - vm_compute. reflexivity.
  - vm_compute. reflexivity.
  - vm_compute. reflexivity.
  - vm_compute. reflexivity.
Defined.

Lemma prefix_digest_retire_witness :
  MigrationPrefixDigest 7 LedgerSample.retired "settings" 3 = MigrationPrefixDigest 7 LedgerSample.registry "settings" 3.
Proof.
  apply (prefix_digest_retire 7 LedgerSample.registry LedgerSample.retired "settings" 1 2 3 3
    LedgerSample.settings_prefix
    (match historyRegistry 7 LedgerSample.retired with Ok owner => owner | Err _ => None end)).
  - exact sample_i64.
  - exact retired_i64.
  - vm_compute. reflexivity.
  - vm_compute. reflexivity.
  - vm_compute. reflexivity.
  - vm_compute. reflexivity.
  - vm_compute. reflexivity.
  - vm_compute. reflexivity.
  - vm_compute. reflexivity.
  - vm_compute. reflexivity.
  - lia.
Defined.

Lemma Advance_spec_witness :
  ∃ D, lg_Domains (LedgerSample.ledger Sample.start) = Some D ∧
    (∀ m', LedgerV2_Advance 7 (LedgerSample.ledger Sample.start) LedgerSample.registry m' =
       if decide (m' = Sample.m1) then Ok (mkLedgerV2 LedgerSchemaV2 (Some (bump D Sample.m1)))
       else Err (LedgerInvalid "not the exact next ledger transition")) ∧
    PendingPath 7 LedgerSample.registry (mkLedgerV2 LedgerSchemaV2 (Some (bump D Sample.m1))) =
      Ok [Sample.m2; Sample.m3].
Proof.
  apply Advance_spec; [exact sample_i64|]. vm_compute. reflexivity.
Defined.

Lemma ledger_pin_binds_witness :
  LedgerSample.ledger Sample.middle = LedgerSample.ledger Sample.middle ∨
  collision (marshal (ledger_json (LedgerSample.ledger Sample.middle)) +:+ String "010" "")
    (marshal (ledger_json (LedgerSample.ledger Sample.middle)) +:+ String "010" "").
Proof.
  apply (ledger_pin_binds 7 LedgerSample.registry LedgerSample.registry _ _ _ _ (LedgerSample.pin Sample.middle)).
  - exact sample_i64.
  - exact sample_i64.
  - vm_compute. reflexivity.
  - vm_compute. reflexivity.
Defined.

Lemma checkpoint_roundtrip_witness :
  ∃ ck, newLedgerCheckpointV1 7 (LedgerSample.ledger Sample.middle) LedgerSample.registry "" absentProtectedSnapshot ∅ = Ok ck ∧
    LedgerView 7 ck LedgerSample.registry = Ok (LedgerSample.ledger Sample.middle) ∧
    checkpointFullyCompactsLedger 7 ck (LedgerSample.ledger Sample.middle) LedgerSample.registry = true ∧
    ledgerCheckpointHasSuffix ck = false.
Proof.
  apply checkpoint_roundtrip; [exact sample_i64|]. vm_compute. reflexivity.
Defined.


Lemma ledgerTrace_pins_witness :
  match ledgerTrace 7 LedgerSample.registry (LedgerSample.ledger Sample.start) LedgerSample.steps with
  | Ok edges =>
      ∀ step, step ∈ LedgerSample.steps → is_ledger_step step = true →
      ∃ e D, edges !! step_Migration step = Some e ∧ m_ID (se_migration e) = step_Migration step ∧
        Domains (e_before (se_witness e)) = D ∧ Domains (e_after (se_witness e)) = bump D (se_migration e) ∧
        MarshalLedgerV2 7 (mkLedgerV2 LedgerSchemaV2 (Some (bump D (se_migration e)))) LedgerSample.registry =
          Ok (se_to e, step_Desired step) ∧
        ps_Fingerprint (se_from e) = step_Expected step ∧
        ((∃ before, MarshalLedgerV2 7 (mkLedgerV2 LedgerSchemaV2 (Some D)) LedgerSample.registry =
                      Ok (before, step_Expected step)) ∨
         se_from e = absentProtectedSnapshot ∧
         sameLedgerV2 (mkLedgerV2 LedgerSchemaV2 (Some D)) (BaselineLedgerV2 LedgerSample.registry) = true)
  | Err _ => False
  end.
Proof.
  destruct (ledgerTrace 7 LedgerSample.registry (LedgerSample.ledger Sample.start) LedgerSample.steps)
    as [edges|e] eqn:E.
  - apply (ledgerTrace_pins 7 LedgerSample.registry _ _ _ sample_i64 E).
  - vm_compute in E. discriminate E.
Defined.
