(* ===== verification/GoNet.v ===== *)
(** * Go network addresses

    The IPv4 side of net/netip and the 48-bit side of net.ParseMAC.  An IPv4
    address is its 32-bit value.  [netip.ParseAddr] yields an IPv4 address exactly
    on four decimal fields without leading zeros; every use in the sources asks
    for an IPv4 address right after parsing, so a string that parses as an IPv6
    address is, like one that does not parse, [None]. *)

From S2P Require Import Prelude GoStrings Sha256.

(** One field of a dotted address. *)
Definition parse_octet (s : string) : option Z :=
  if negb (0 <? len s) || (3 <? len s) || negb (forallb is_digit (bytes s)) ||
     ((1 <? len s) && HasPrefix s "0") || (255 <? decimal_value s)
  then None else Some (decimal_value s).

Definition addr_of (a b c d : Z) : Z := a * 2 ^ 24 + b * 2 ^ 16 + c * 2 ^ 8 + d.

(** [netip.ParseAddr] with [Is4]. *)
Definition ParseAddr4 (s : string) : option Z :=
  match parse_octet <$> Split s "." with
  | [Some a; Some b; Some c; Some d] => Some (addr_of a b c d)
  | _ => None
  end.

Definition octets (ip : Z) : list Z :=
  [ip / 2 ^ 24; (ip / 2 ^ 16) mod 256; (ip / 2 ^ 8) mod 256; ip mod 256].

(** [netip.Addr.String]. *)
Definition Addr4_String (ip : Z) : string := Join (pretty <$> octets ip) ".".

(** [netip.Addr.Next]: [None] is the zero address past the last one. *)
Definition Next4 (ip : Z) : option Z := if ip =? 2 ^ 32 - 1 then None else Some (ip + 1).

Definition IsLoopback4 (ip : Z) : bool := ip / 2 ^ 24 =? 127.
Definition IsMulticast4 (ip : Z) : bool := ip / 2 ^ 28 =? 14.
Definition IsLinkLocalUnicast4 (ip : Z) : bool := ip / 2 ^ 16 =? 169 * 256 + 254.
Definition IsPrivate4 (ip : Z) : bool :=
  (ip / 2 ^ 24 =? 10) || (ip / 2 ^ 20 =? 172 * 16 + 1) || (ip / 2 ^ 16 =? 192 * 256 + 168).
Definition IsGlobalUnicast4 (ip : Z) : bool :=
  negb (ip =? 0) && negb (ip =? 2 ^ 32 - 1) && negb (IsLoopback4 ip) && negb (IsMulticast4 ip) &&
  negb (IsLinkLocalUnicast4 ip).

(** [strconv.ParseUint(s, 10, 16)]. *)
Definition ParseUint16 (s : string) : option Z :=
  if negb (0 <? len s) || negb (forallb is_digit (bytes s)) || (65535 <? decimal_value s)
  then None else Some (decimal_value s).

(** [netip.ParseAddrPort] with an IPv4 address. *)
Definition ParseAddrPort4 (s : string) : option (Z * Z) :=
  let i := LastIndex s ":" in
  if i <? 0 then None else
  ip ← ParseAddr4 (slice s 0 i);
  port ← ParseUint16 (slice s (i + 1) (len s));
  Some (ip, port).

Definition AddrPort4_String (ap : Z * Z) : string := Addr4_String ap.1 +:+ ":" +:+ pretty ap.2.

(** [netip.Prefix] of an IPv4 address: the address as written and the length. *)
Record Prefix4 := mkPrefix4 { pf_addr : Z; pf_bits : Z }.

(** [netip.ParsePrefix] with an IPv4 address. *)
Definition ParsePrefix4 (s : string) : option Prefix4 :=
  let i := LastIndex s "/" in
  if i <? 0 then None else
  ip ← ParseAddr4 (slice s 0 i);
  let bitsStr := slice s (i + 1) (len s) in
  if (1 <? len bitsStr) && negb (existsb (HasPrefix bitsStr) ["1"; "2"; "3"; "4"; "5"; "6"; "7"; "8"; "9"])
  then None else
  bits ← Atoi bitsStr;
  if (bits <? 0) || (32 <? bits) then None else Some (mkPrefix4 ip bits).

(** [Prefix.Masked().Addr()]. *)
Definition Masked4 (p : Prefix4) : Z := (pf_addr p / 2 ^ (32 - pf_bits p)) * 2 ^ (32 - pf_bits p).

(** [Prefix.Contains], on an address that may be the zero address. *)
Definition Contains4 (p : Prefix4) (ip : option Z) : bool :=
  match ip with
  | Some ip => ip / 2 ^ (32 - pf_bits p) =? pf_addr p / 2 ^ (32 - pf_bits p)
  | None => false
  end.

(** A hexadecimal digit of either case. *)
Definition hex_nibble (b : Z) : option Z :=
  if is_digit b then Some (b - 48)
  else if between 97 b 102 then Some (b - 87)
  else if between 65 b 70 then Some (b - 55)
  else None.

Definition hex_pair (bs : list Z) : option Z :=
  match hex_nibble <$> bs with
  | [Some h; Some l] => Some (h * 16 + l)
  | _ => None
  end.

(** The bytes of six pairs, or of three groups of two pairs. *)
Definition mac_bytes (groups : list (list Z)) : option (list Z) := mapM hex_pair groups.

(** [net.ParseMAC] with a result of six bytes. *)
Definition ParseMAC6 (s : string) : option (list Z) :=
  let colon := Split s ":" in
  let dash := Split s "-" in
  let dot := Split s "." in
  if (len s =? 17) && (length colon =? 6)%nat && forallb (λ p, len p =? 2) colon then mac_bytes (bytes <$> colon)
  else if (len s =? 17) && (length dash =? 6)%nat && forallb (λ p, len p =? 2) dash then mac_bytes (bytes <$> dash)
  else if (len s =? 14) && (length dot =? 3)%nat && forallb (λ p, len p =? 4) dot
       then mac_bytes (dot ≫= λ g, [take 2 (bytes g); drop 2 (bytes g)])
  else None.

(** [HardwareAddr.String]. *)
Definition MAC_String (mac : list Z) : string :=
  Join ((λ b, String (hex_digit (b / 16)) (String (hex_digit (b mod 16)) "")) <$> mac) ":".

Example ParseAddr4_examples :
  ParseAddr4 "10.0.3.7" = Some 167772935 ∧ ParseAddr4 "10.0.03.7" = None ∧ ParseAddr4 "256.1.1.1" = None ∧
  ParseAddr4 "::1" = None ∧ Addr4_String 167772935 = "10.0.3.7" ∧
  ParsePrefix4 "10.0.3.1/24" = Some (mkPrefix4 167772929 24) ∧
  ParseAddrPort4 "10.0.3.7:443" = Some (167772935, 443) ∧
  ParseMAC6 "00:16:3E:aa:bb:0c" = Some [0; 22; 62; 170; 187; 12] ∧
  ParseMAC6 "0016.3eaa.bb0c" = Some [0; 22; 62; 170; 187; 12] ∧
  MAC_String [0; 22; 62; 170; 187; 12] = "00:16:3e:aa:bb:0c".
Proof. by vm_compute. Qed.

(** ** Addresses and their text *)

Definition digit_char (d : Z) : ascii := ascii_of_N (Z.to_N (48 + d)).

Lemma digit_char_spec a : is_digit (byteZ a) = true → ∃ d, 0 ≤ d ≤ 9 ∧ a = digit_char d.
Proof.
  unfold is_digit. rewrite between_true. intros H. exists (byteZ a - 48). split; [lia|].
  unfold digit_char. replace (48 + (byteZ a - 48)) with (byteZ a) by lia.
  unfold byteZ. rewrite N2Z.id. symmetry. apply ascii_N_embedding.
Qed.

(** Texts of one to three digits. *)
Definition digit_texts : list string :=
  let ds := digit_char <$> seqZ 0 10 in
  ((λ a, String a "") <$> ds) ++
  (ds ≫= λ a, (λ b, String a (String b "")) <$> ds) ++
  (ds ≫= λ a, ds ≫= λ b, (λ c, String a (String b (String c ""))) <$> ds).

Lemma digit_texts_check :
  forallb (λ s, match parse_octet s with
                | Some n => bool_decide (s = pretty n) && between 0 n 255
                | None => true
                end) digit_texts = true.
Proof. by vm_compute. Qed.

Lemma octet_texts_check : forallb (λ n, bool_decide (parse_octet (pretty n) = Some n) &&
  forallb (λ c, negb (c =? 46)) (bytes (pretty n))) (seqZ 0 256) = true.
Proof. by vm_compute. Qed.

Lemma elem_digit_chars d : 0 ≤ d ≤ 9 → digit_char d ∈ digit_char <$> seqZ 0 10.
Proof. intros H. apply list_elem_of_fmap_2, elem_of_seqZ. lia. Qed.

Lemma digit_texts_1 a : 0 ≤ a ≤ 9 → String (digit_char a) "" ∈ digit_texts.
Proof.
  intros Ha. apply elem_of_app. left. apply list_elem_of_fmap. eauto using elem_digit_chars.
Qed.

Lemma digit_texts_2 a b :
  0 ≤ a ≤ 9 → 0 ≤ b ≤ 9 → String (digit_char a) (String (digit_char b) "") ∈ digit_texts.
Proof.
  intros Ha Hb. apply elem_of_app. right. apply elem_of_app. left. apply list_elem_of_bind.
  exists (digit_char a). split; [|by apply elem_digit_chars]. apply list_elem_of_fmap. eauto using elem_digit_chars.
Qed.

Lemma digit_texts_3 a b c :
  0 ≤ a ≤ 9 → 0 ≤ b ≤ 9 → 0 ≤ c ≤ 9 →
  String (digit_char a) (String (digit_char b) (String (digit_char c) "")) ∈ digit_texts.
Proof.
  intros Ha Hb Hc. apply elem_of_app. right. apply elem_of_app. right. apply list_elem_of_bind.
  exists (digit_char a). split; [|by apply elem_digit_chars]. apply list_elem_of_bind.
  exists (digit_char b). split; [|by apply elem_digit_chars]. apply list_elem_of_fmap. eauto using elem_digit_chars.
Qed.

Lemma parse_octet_digits s n : parse_octet s = Some n → s ∈ digit_texts.
Proof.
  unfold parse_octet. destruct (_ || _) eqn:H; [done|]. intros _.
  rewrite !orb_false_iff, !negb_false_iff in H. destruct H as [[[[H1 H2] H3] _] _]. bools. unfold len in *.
  destruct s as [|a [|b [|c [|e s]]]]; simpl in H1, H2, H3; try lia; bools;
    repeat match goal with
    | H : is_digit (byteZ ?x) = true |- _ => apply digit_char_spec in H as (? & ? & ->)
    end; auto using digit_texts_1, digit_texts_2, digit_texts_3.
Qed.

Lemma parse_octet_Some s n : parse_octet s = Some n ↔ s = pretty n ∧ 0 ≤ n ≤ 255.
Proof.
  split.
  - intros H. pose proof (parse_octet_digits s n H) as Hin. pose proof digit_texts_check as Hc.
    rewrite forallb_forall in Hc. apply list_elem_of_In, Hc in Hin. rewrite H in Hin. by bools.
  - intros [-> Hn]. pose proof octet_texts_check as Hc. rewrite forallb_forall in Hc.
    assert (n ∈ seqZ 0 256) as Hin by (apply elem_of_seqZ; lia). apply list_elem_of_In, Hc in Hin. by bools.
Qed.

Lemma octet_dot_free n : 0 ≤ n ≤ 255 → free_of "." (pretty n).
Proof.
  intros Hn. pose proof octet_texts_check as Hc. rewrite forallb_forall in Hc.
  assert (n ∈ seqZ 0 256) as Hin by (apply elem_of_seqZ; lia). apply list_elem_of_In, Hc in Hin. bools.
  match goal with H : forallb _ _ = true |- _ => rewrite forallb_forall in H; rename H into Hf end.
  intros Hd%list_elem_of_In%Hf. by vm_compute in Hd.
Qed.

Lemma octets_addr_of a b c d :
  0 ≤ a ≤ 255 → 0 ≤ b ≤ 255 → 0 ≤ c ≤ 255 → 0 ≤ d ≤ 255 → octets (addr_of a b c d) = [a; b; c; d].
Proof.
  intros. unfold octets, addr_of.
  assert (∀ x y x' y' z w z' w' : Z, x = x' → y = y' → z = z' → w = w' → [x; y; z; w] = [x'; y'; z'; w']) as Hc
    by (intros; congruence).
  apply Hc; Z.div_mod_to_equations; lia.
Qed.

Lemma addr_of_octets ip :
  0 ≤ ip < 2 ^ 32 →
  addr_of (ip / 2 ^ 24) ((ip / 2 ^ 16) mod 256) ((ip / 2 ^ 8) mod 256) (ip mod 256) = ip.
Proof. intros. unfold addr_of. Z.div_mod_to_equations. lia. Qed.

(** The text of an address is canonical: parsing and printing are inverse. *)
Lemma ParseAddr4_Some s ip : ParseAddr4 s = Some ip ↔ s = Addr4_String ip ∧ 0 ≤ ip < 2 ^ 32.
Proof.
  unfold ParseAddr4, Addr4_String. split.
  - intros H. destruct (parse_octet <$> Split s ".") as [|[a|] [|[b|] [|[c|] [|[d|] []]]]] eqn:E; try done.
    injection H as <-. assert (Split s "." = pretty <$> [a; b; c; d] ∧ 0 ≤ a ≤ 255 ∧ 0 ≤ b ≤ 255 ∧
      0 ≤ c ≤ 255 ∧ 0 ≤ d ≤ 255) as (Hs & Ha & Hb & Hc & Hd).
    { destruct (Split s ".") as [|p [|q [|x [|y []]]]]; try done. injection E as E1 E2 E3 E4.
      apply parse_octet_Some in E1 as [-> ?], E2 as [-> ?], E3 as [-> ?], E4 as [-> ?]. done. }
    rewrite octets_addr_of, <-Hs by done. split; [symmetry; apply Join_Split|unfold addr_of; lia].
  - intros [-> Hip]. rewrite Split_Join.
    + assert (∀ n, 0 ≤ n ≤ 255 → parse_octet (pretty n) = Some n) as Hn by (intros; by apply parse_octet_Some).
      unfold octets. csimpl. rewrite !Hn by (Z.div_mod_to_equations; lia). f_equal. by apply addr_of_octets.
    + done.
    + unfold octets. repeat constructor; apply octet_dot_free; Z.div_mod_to_equations; lia.
Qed.

Lemma ParseAddr4_inj s t ip : ParseAddr4 s = Some ip → ParseAddr4 t = Some ip → s = t.
Proof. intros [-> _]%ParseAddr4_Some [-> _]%ParseAddr4_Some. done. Qed.
