(* ===== verification/NetPolicy.v ===== *)
(** * Network policy of yards

    internal/yardnetwork/policy.go: the owner's policy of links between yards,
    the network identities bound to them, and its normal form.  Methods with a
    pointer receiver return the changed policy; on an error the code leaves the
    receiver in a state that no caller reads. *)

From S2P Require Import Prelude GoStrings GoSort Sha256 Names GoJson GoNet.

Inductive net_error :=
| BadLink
| DuplicateLink
| PolicySchema (schema : Z)
| AppliedAhead
| BadBinding
| CollidingIdentity
| BadIngress
| BadIngressFingerprint
| BadPendingName
| RestartRemoved
| PolicyTooLarge
| NetPlan (what : string).

#[export] Instance net_error_eq_dec : EqDecision net_error.
Proof. solve_decision. Defined.

(** ** Data *)

(** internal/yardnetwork/policy.go:27-30 [Link] *)
Record Link := mkLink { link_A : string; link_B : string }.

(** internal/yardnetwork/host.go:13-18 [Yard] *)
Record Yard := mkYard { yard_Name : string; yard_Project : string; yard_Instance : string; yard_Network : string }.

(** internal/yardnetwork/policy.go:57-64 [ApprovedIngress] *)
Record ApprovedIngress := mkIngress {
  in_Device : string; in_Protocol : string; in_Listen : string; in_GuestPort : Z;
  in_legacyFingerprint : option string }.

Notation config_map := (gmap string string).

(** internal/yardnetwork/policy.go:45-52 [Binding] *)
Record Binding := mkBinding {
  b_Yard : Yard; b_IPv4 : string; b_MAC : string; b_OriginalNIC : config_map; b_OriginalAccess : string;
  b_ApprovedIngress : list ApprovedIngress }.

(** internal/yardnetwork/policy.go:32-42 [Policy] *)
Record Policy := mkPolicy {
  p_Schema : Z; p_Isolation : bool; p_Links : list Link; p_Revision : Z; p_AppliedRevision : Z;
  p_Bindings : list Binding; p_AppliedIsolation : bool; p_PendingStart : list string;
  p_Removing : list string }.

#[export] Instance Link_eq_dec : EqDecision Link.
Proof. solve_decision. Defined.
#[export] Instance Link_countable : Countable Link.
Proof. refine (inj_countable' (λ l, (link_A l, link_B l)) (λ '(a, b), mkLink a b) _). by intros []. Defined.
#[export] Instance Yard_eq_dec : EqDecision Yard.
Proof. solve_decision. Defined.
#[export] Instance ApprovedIngress_eq_dec : EqDecision ApprovedIngress.
Proof. solve_decision. Defined.
#[export] Instance Binding_eq_dec : EqDecision Binding.
Proof. solve_decision. Defined.
#[export] Instance Policy_eq_dec : EqDecision Policy.
Proof. solve_decision. Defined.

#[export] Instance Policy_eta : Eta Policy := λ p,
  mkPolicy (p_Schema p) (p_Isolation p) (p_Links p) (p_Revision p) (p_AppliedRevision p) (p_Bindings p)
    (p_AppliedIsolation p) (p_PendingStart p) (p_Removing p).
#[export] Instance Binding_eta : Eta Binding := λ b,
  mkBinding (b_Yard b) (b_IPv4 b) (b_MAC b) (b_OriginalNIC b) (b_OriginalAccess b) (b_ApprovedIngress b).

Definition NetSchemaVersion : Z := 1.
Definition MaxPolicySize : Z := 2 ^ 20.

(** ** Links *)

(** internal/yardnetwork/policy.go:270-278 [canonicalLink] *)
Definition canonicalLink (a b : string) : result net_error Link :=
  refuse (negb (SafeName a) || negb (SafeName b) || bool_decide (a = b)) BadLink;;
  Ok (if string_lt b a then mkLink b a else mkLink a b).

(** The order of [sortLinks]. *)
Definition link_le : relation Link := λ x y,
  if bool_decide (link_A x = link_A y) then String.le (link_B x) (link_B y) else String.le (link_A x) (link_A y).

#[export] Instance link_le_dec : RelDecision link_le.
Proof. intros x y. unfold link_le, bool_decide. destruct (decide_rel eq (link_A x) (link_A y)); apply _. Defined.

(** internal/yardnetwork/policy.go:280-287 [sortLinks] *)
Definition sortLinks (links : list Link) : list Link := sort_by link_le links.

(** internal/yardnetwork/policy.go:145-155 [Link] *)
Definition Policy_Link (policy : Policy) (a b : string) : result net_error Policy :=
  link ← canonicalLink a b;
  Ok (if bool_decide (link ∈ p_Links policy) then policy
      else policy <| p_Links := sortLinks (p_Links policy ++ [link]) |>).

(** internal/yardnetwork/policy.go:157-164 [Unlink] *)
Definition Policy_Unlink (policy : Policy) (a b : string) : result net_error Policy :=
  link ← canonicalLink a b;
  Ok (policy <| p_Links := filter (λ candidate, candidate ≠ link) (p_Links policy) |>).

Definition link_touches (name : string) (link : Link) : Prop := link_A link = name ∨ link_B link = name.

#[export] Instance link_touches_dec name link : Decision (link_touches name link).
Proof. unfold link_touches. apply _. Defined.

(** internal/yardnetwork/policy.go:166-169 [Forget] *)
Definition Policy_Forget (policy : Policy) (name : string) : Policy :=
  policy <| p_Links := filter (λ link, ¬ link_touches name link) (p_Links policy) |>
         <| p_Bindings := filter (λ b, yard_Name (b_Yard b) ≠ name) (p_Bindings policy) |>.

(** internal/yardnetwork/policy.go:171-183 [Peers] *)
Definition Peers (policy : Policy) (name : string) : list string :=
  sort_strings (p_Links policy ≫= λ link,
    if bool_decide (name = link_A link) then [link_B link]
    else if bool_decide (name = link_B link) then [link_A link] else []).

(** ** Ingress routes *)

(** internal/yardnetwork/policy.go:91-96 [Transport] *)
Definition Transport (approved : ApprovedIngress) : string :=
  if bool_decide (in_Protocol approved = "") then "udp" else in_Protocol approved.

(** internal/yardnetwork/policy.go:98-102 [proxy] *)
Definition ingress_proxy (approved : ApprovedIngress) (binding : Binding) : config_map :=
  <["type" := "proxy"]> (<["listen" := in_Listen approved]>
    (<["connect" := Transport approved +:+ ":" +:+ b_IPv4 binding +:+ ":" +:+ pretty (in_GuestPort approved)]>
      (<["bind" := "host"]> (<["nat" := "true"]> ∅)))).

(** internal/resource/registry.go:130-142 [OwnershipValue] *)
Definition OwnershipValue (device : config_map) : string :=
  let keys := sort_strings ((map_to_list device).*1) in
  let record := foldl (λ record key, record +:+ key +:+ "=" +:+ get_default "" key device +:+ String "010" "")
                  ("v1" +:+ String "010" "") keys in
  "v1:" +:+ EncodeToString (Sum256 record).

(** internal/resource/registry.go:92-95 [ExplicitOwnerIPv4] *)
Definition ExplicitOwnerIPv4 (ip : Z) : bool :=
  IsGlobalUnicast4 ip && negb (IsLoopback4 ip) && negb (IsLinkLocalUnicast4 ip).

(** internal/yardnetwork/policy.go:227-247 [normalize]: one approved route of a
    binding. *)
Definition normalize_ingress (binding : Binding) (st : gset string * list ApprovedIngress)
    (approved : ApprovedIngress) : result net_error (gset string * list ApprovedIngress) :=
  let '(devices, out) := st in
  let approved := mkIngress (in_Device approved)
    (if bool_decide (in_Protocol approved = "udp") then "" else in_Protocol approved)
    (in_Listen approved) (in_GuestPort approved) (in_legacyFingerprint approved) in
  let transport := Transport approved in
  refuse (negb (SafeName (in_Device approved)) || seen (in_Device approved) devices ||
          negb (bool_decide (transport = "udp") || bool_decide (transport = "tcp")) ||
          (in_GuestPort approved <? 1) || (65535 <? in_GuestPort approved) ||
          negb (HasPrefix (in_Listen approved) (transport +:+ ":"))) BadIngress;;
  listen ← expect (ParseAddrPort4 (TrimPrefix (in_Listen approved) (transport +:+ ":"))) BadIngress;
  refuse (negb (ExplicitOwnerIPv4 listen.1) || (listen.2 =? 0) ||
          bool_decide (transport +:+ ":" +:+ AddrPort4_String listen ≠ in_Listen approved)) BadIngress;;
  refuse (match in_legacyFingerprint approved with
          | Some fingerprint => bool_decide (fingerprint ≠ OwnershipValue (ingress_proxy approved binding))
          | None => false
          end) BadIngressFingerprint;;
  Ok ({[ in_Device approved ]} ∪ devices,
      out ++ [mkIngress (in_Device approved) (in_Protocol approved) (in_Listen approved)
                (in_GuestPort approved) None]).

(** ** Bindings *)

Definition yard_identity (b : Binding) : string := yard_Project (b_Yard b) +:+ "/" +:+ yard_Instance (b_Yard b).
Definition yard_address (b : Binding) : string := yard_Network (b_Yard b) +:+ "/" +:+ b_IPv4 b.
Definition yard_mac (b : Binding) (mac : list Z) : string :=
  yard_Network (b_Yard b) +:+ "/" +:+ MAC_String mac.

(** The names, identities, addresses and hardware addresses seen so far. *)
Record seen_bindings := mkSeen {
  seen_names : gset string; seen_ids : gset string; seen_addrs : gset string; seen_macs : gset string }.

(** internal/yardnetwork/policy.go:205-251 [normalize]: one binding. *)
Definition normalize_binding (st : seen_bindings * list Binding) (b : Binding) :
    result net_error (seen_bindings * list Binding) :=
  let '(s, out) := st in
  let y := b_Yard b in
  refuse (negb (SafeName (yard_Name y)) || negb (SafeName (yard_Project y)) || negb (SafeName (yard_Instance y)) ||
          negb (SafeName (yard_Network y)) || seen (yard_Name y) (seen_names s) ||
          bool_decide (ParseAddr4 (b_IPv4 b) = None)) BadBinding;;
  mac ← expect (ParseMAC6 (b_MAC b)) BadBinding;
  refuse (Z.odd (nth 0 mac 0) || bool_decide (get_default "" "type" (b_OriginalNIC b) ≠ "nic") ||
          bool_decide (get_default "" "network" (b_OriginalNIC b) ≠ yard_Network y)) BadBinding;;
  refuse (seen (yard_identity b) (seen_ids s) || seen (yard_address b) (seen_addrs s) ||
          seen (yard_mac b mac) (seen_macs s)) CollidingIdentity;;
  ingress ← for_range (normalize_ingress b) (b_ApprovedIngress b) (∅, []);
  Ok (mkSeen ({[ yard_Name y ]} ∪ seen_names s) ({[ yard_identity b ]} ∪ seen_ids s)
        ({[ yard_address b ]} ∪ seen_addrs s) ({[ yard_mac b mac ]} ∪ seen_macs s),
      out ++ [b <| b_ApprovedIngress := sort_by_key in_Device ingress.2 |>]).

(** ** The normal form of a policy *)

(** internal/yardnetwork/policy.go:192-203 [normalize]: one link. *)
Definition normalize_link (st : gset Link * list Link) (candidate : Link) :
    result net_error (gset Link * list Link) :=
  let '(links, out) := st in
  link ← canonicalLink (link_A candidate) (link_B candidate);
  refuse (seen link links) DuplicateLink;;
  Ok ({[ link ]} ∪ links, out ++ [link]).

(** internal/yardnetwork/policy.go:252-260 [normalize]: a list of pending names. *)
Definition pending_names (names : list string) : result net_error (gset string) :=
  for_range (λ seenNames name,
    refuse (negb (SafeName name) || seen name seenNames) BadPendingName;;
    Ok ({[ name ]} ∪ seenNames)) names ∅.

(** internal/yardnetwork/policy.go:185-268 [normalize] *)
Definition normalize (policy : Policy) : result net_error Policy :=
  refuse (negb (p_Schema policy =? NetSchemaVersion)) (PolicySchema (p_Schema policy));;
  refuse (p_Revision policy <? p_AppliedRevision policy) AppliedAhead;;
  links ← for_range normalize_link (p_Links policy) (∅, []);
  bindings ← for_range normalize_binding (p_Bindings policy) (mkSeen ∅ ∅ ∅ ∅, []);
  pending_names (p_PendingStart policy) ≫= λ _,
  pending_names (p_Removing policy) ≫= λ _,
  for_each (λ name, refuse (bool_decide (name ∈ p_PendingStart policy)) RestartRemoved) (p_Removing policy);;
  Ok (policy <| p_Links := sortLinks links.2 |>
             <| p_Bindings := sort_by_key (λ b, yard_Name (b_Yard b)) bindings.2 |>).

(** ** Encoding *)

Definition string_map_json (m : config_map) : json :=
  JObject (prod_map id JString <$> sort_by_key fst (map_to_list m)).

Definition field_slice {A} (k : string) (f : A → json) (l : list A) : list (string * json) :=
  if decide (l = []) then [] else [(k, JArray (f <$> l))].

Definition link_json (l : Link) : json :=
  JObject (field "a" (JString (link_A l)) ++ field "b" (JString (link_B l))).

Definition ingress_json (i : ApprovedIngress) : json :=
  JObject (field "device" (JString (in_Device i)) ++ field_omitempty "protocol" (in_Protocol i) ++
           field "listen" (JString (in_Listen i)) ++ field "guestPort" (JInt (in_GuestPort i))).

Definition yard_json (y : Yard) : json :=
  JObject (field "name" (JString (yard_Name y)) ++ field "project" (JString (yard_Project y)) ++
           field "instance" (JString (yard_Instance y)) ++ field "network" (JString (yard_Network y))).

Definition binding_json (b : Binding) : json :=
  JObject (field "yard" (yard_json (b_Yard b)) ++ field "ipv4" (JString (b_IPv4 b)) ++
           field "mac" (JString (b_MAC b)) ++ field "originalNic" (string_map_json (b_OriginalNIC b)) ++
           field "originalAccess" (JString (b_OriginalAccess b)) ++
           field_slice "approvedIngress" ingress_json (b_ApprovedIngress b)).

Definition policy_json (p : Policy) : json :=
  JObject (field "schema" (JInt (p_Schema p)) ++ field "isolation" (JBool (p_Isolation p)) ++
           field_slice "links" link_json (p_Links p) ++ field "revision" (JInt (p_Revision p)) ++
           field "appliedRevision" (JInt (p_AppliedRevision p)) ++
           field_slice "bindings" binding_json (p_Bindings p) ++
           field "appliedIsolation" (JBool (p_AppliedIsolation p)) ++
           field_slice "pendingStart" JString (p_PendingStart p) ++
           field_slice "removing" JString (p_Removing p)).

(** internal/yardnetwork/policy.go:126-143 [Encode] *)
Definition Policy_Encode (policy : Policy) : result net_error string :=
  policy ← normalize policy;
  let content := marshal (policy_json policy) in
  refuse (MaxPolicySize <? len content) PolicyTooLarge;;
  Ok content.

(** ** Loops that collect distinct keys *)

(** The loop that refuses a key it has seen and appends the image of what it
    accepts. *)
Lemma for_range_collect {E A B K} `{Countable K} (key : A → K) (good : A → Prop) (f : A → B)
    (body : gset K * list B → A → result E (gset K * list B)) :
  (∀ s out x st, body (s, out) x = Ok st ↔ good x ∧ key x ∉ s ∧ st = ({[ key x ]} ∪ s, out ++ [f x])) →
  ∀ l s out st, for_range body l (s, out) = Ok st ↔
    (∀ x, x ∈ l → good x ∧ key x ∉ s) ∧ NoDup (key <$> l) ∧ st = (list_to_set (key <$> l) ∪ s, out ++ (f <$> l)).
Proof.
  intros Hb l. induction l as [|x l IH]; intros s out st; csimpl.
  - rewrite app_nil_r, union_empty_l_L. split.
    + intros [= <-]. split_and!; [by intros ??%elem_of_nil|constructor|done].
    + by intros (_ & _ & ->).
  - rewrite bind_Ok, NoDup_cons. split.
    + intros (t & (Hg & Hk & ->)%Hb & (Hall & Hnd & ->)%IH). split_and!.
      * intros y [-> |Hy]%elem_of_cons; [done|]. destruct (Hall y Hy). set_solver.
      * intros (y & E' & Hy)%list_elem_of_fmap. destruct (Hall y Hy) as [_ Hn]. set_solver.
      * done.
      * f_equal; [set_solver|]. by rewrite <-app_assoc.
    + intros (Hall & [Hx Hnd] & ->). destruct (Hall x) as [Hg Hk]; [by left|].
      exists ({[ key x ]} ∪ s, out ++ [f x]). split; [by apply Hb|]. apply IH. split_and!.
      * intros y Hy. destruct (Hall y) as [Hgy Hky]; [by right|]. split; [done|].
        intros [E'%elem_of_singleton|?]%elem_of_union; [|done]. apply Hx. rewrite <-E'.
        by apply list_elem_of_fmap_2.
      * done.
      * f_equal; [set_solver|]. by rewrite <-app_assoc.
Qed.

(** ** Links *)

Definition link_ok (l : Link) : Prop :=
  SafeName (link_A l) = true ∧ SafeName (link_B l) = true ∧ link_A l ≠ link_B l ∧ String.le (link_A l) (link_B l).

(** The two ends of a link in order. *)
Definition canon (l : Link) : Link :=
  if string_lt (link_B l) (link_A l) then mkLink (link_B l) (link_A l) else l.

Lemma canonicalLink_Ok a b l :
  canonicalLink a b = Ok l ↔ SafeName a = true ∧ SafeName b = true ∧ a ≠ b ∧ l = canon (mkLink a b).
Proof.
  unfold canonicalLink, canon. simpl. split.
  - intros H. ok_inv. bools. done.
  - intros (-> & -> & Hab & ->). rewrite bool_decide_false by done. done.
Qed.

Lemma canon_ok l :
  SafeName (link_A l) = true → SafeName (link_B l) = true → link_A l ≠ link_B l → link_ok (canon l).
Proof.
  intros Ha Hb Hab. unfold canon. destruct (string_lt (link_B l) (link_A l)) eqn:E.
  - apply string_lt_true in E as [E _]. by split_and!.
  - apply string_lt_false in E. by split_and!.
Qed.

Lemma canon_id l : link_ok l → canon l = l.
Proof. intros (_ & _ & _ & Hle). unfold canon. by rewrite (proj2 (string_lt_false _ _) Hle). Qed.

Lemma canon_touches l n : link_touches n (canon l) ↔ link_touches n l.
Proof. unfold canon, link_touches. destruct (string_lt _ _); simpl; tauto. Qed.

#[export] Instance link_le_antisymm : AntiSymm (=) link_le.
Proof.
  intros [a b] [a' b']. unfold link_le. simpl. intros H1 H2.
  repeat case_bool_decide; subst; try done.
  - f_equal. by apply (anti_symm String.le).
  - exfalso. assert (a = a'); [|done]. by apply (anti_symm String.le).
Qed.

#[export] Instance link_le_total : Total link_le.
Proof.
  intros [a b] [a' b']. unfold link_le. simpl. repeat case_bool_decide; subst; try done; apply (total String.le).
Qed.

#[export] Instance link_le_trans : Transitive link_le.
Proof.
  intros [a b] [a' b'] [a'' b'']. unfold link_le. simpl. repeat case_bool_decide; subst; try done.
  - by intros; etrans.
  - intros H1 H2. exfalso. assert (a' = a''); [|by subst]. by apply (anti_symm String.le).
  - by intros; etrans.
Qed.

Lemma normalize_links_Ok links st :
  for_range normalize_link links (∅, []) = Ok st ↔
  (∀ l, l ∈ links → SafeName (link_A l) = true ∧ SafeName (link_B l) = true ∧ link_A l ≠ link_B l) ∧
  NoDup (canon <$> links) ∧ st = (list_to_set (canon <$> links), canon <$> links).
Proof.
  rewrite (for_range_collect canon
    (λ l, SafeName (link_A l) = true ∧ SafeName (link_B l) = true ∧ link_A l ≠ link_B l) canon).
  - rewrite union_empty_r_L. split; intros (H1 & H2 & H3); (split; [|done]); intros l Hl; [by apply H1|].
    split; [by apply H1|set_solver].
  - intros s out [a b] st'. unfold normalize_link. simpl. rewrite bind_Ok. split.
    + intros (l & (Ha & Hb & Hab & ->)%canonicalLink_Ok & H). ok_inv. unfold seen in *. bools. done.
    + intros ((Ha & Hb & Hab) & Hn & ->). exists (canon (mkLink a b)). split; [by apply canonicalLink_Ok|].
      unfold seen. by rewrite bool_decide_false.
Qed.

(** ** Ingress routes of a binding *)

Definition norm_protocol (i : ApprovedIngress) : ApprovedIngress :=
  mkIngress (in_Device i) (if bool_decide (in_Protocol i = "udp") then "" else in_Protocol i)
    (in_Listen i) (in_GuestPort i) (in_legacyFingerprint i).

Definition norm_ingress (i : ApprovedIngress) : ApprovedIngress :=
  mkIngress (in_Device i) (in_Protocol (norm_protocol i)) (in_Listen i) (in_GuestPort i) None.

(** A route that the policy may hold: a safe device, UDP or TCP, a guest port, and
    a listener on a unicast IPv4 address and a port, in canonical text. *)
Record ingress_good (b : Binding) (i : ApprovedIngress) : Prop := {
  ig_device : SafeName (in_Device i) = true;
  ig_transport : Transport (norm_protocol i) = "udp" ∨ Transport (norm_protocol i) = "tcp";
  ig_port : 1 ≤ in_GuestPort i ≤ 65535;
  ig_prefix : HasPrefix (in_Listen i) (Transport (norm_protocol i) +:+ ":") = true;
  ig_listen : ∃ ap, ParseAddrPort4 (TrimPrefix (in_Listen i) (Transport (norm_protocol i) +:+ ":")) = Some ap ∧
    ExplicitOwnerIPv4 ap.1 = true ∧ ap.2 ≠ 0 ∧
    in_Listen i = Transport (norm_protocol i) +:+ ":" +:+ AddrPort4_String ap;
  ig_legacy : ∀ fp, in_legacyFingerprint i = Some fp → fp = OwnershipValue (ingress_proxy (norm_protocol i) b) }.

Lemma normalize_ingress_step b s out i st :
  normalize_ingress b (s, out) i = Ok st ↔
  ingress_good b i ∧ (in_Device i ∉ s) ∧ st = ({[ in_Device i ]} ∪ s, out ++ [norm_ingress i]).
Proof.
  unfold normalize_ingress. fold (norm_protocol i). unfold seen. simpl. split.
  - intros H. ok_inv. bools.
    match goal with H : expect _ _ = Ok ?ap |- _ => apply expect_Ok in H | H : ParseAddrPort4 _ = Some ?ap |- _ => idtac end.
    split; [|done]. split; try done.
    + match goal with H : ParseAddrPort4 _ = Some ?ap |- _ => exists ap; split_and!; try done end.
      match goal with H : ¬ (_ ≠ _) |- _ => symmetry; exact (dec_stable H) end.
    + intros fp Hfp. rewrite Hfp in *. bools. match goal with H : ¬ (_ ≠ _) |- _ => exact (dec_stable H) end.
  - intros ([Hdev Htr Hport Hpre (ap & Hap & Hex & Hp & Hl) Hleg] & Hn & ->).
    rewrite Hdev, Hpre, (bool_decide_false (_ ∈ s)) by done.
    rewrite (proj2 (Z.ltb_ge _ _)), (proj2 (Z.ltb_ge _ _)) by lia. simpl.
    assert (bool_decide (Transport (norm_protocol i) = "udp") || bool_decide (Transport (norm_protocol i) = "tcp") = true) as ->.
    { destruct Htr as [-> | ->]; done. }
    simpl. rewrite Hap. simpl. rewrite Hex, (proj2 (Z.eqb_neq _ _) Hp), (bool_decide_false (_ ≠ in_Listen i)) by auto.
    simpl. destruct (in_legacyFingerprint i) as [fp|] eqn:Hfp; [|done].
    rewrite (bool_decide_false (fp ≠ _)); [done|]. intros Hne. apply Hne. by apply Hleg.
Qed.

(** ** Bindings *)

Definition norm_binding (b : Binding) : Binding :=
  b <| b_ApprovedIngress := sort_by_key in_Device (norm_ingress <$> b_ApprovedIngress b) |>.

Definition mac_key (b : Binding) : string := yard_mac b (default [] (ParseMAC6 (b_MAC b))).

(** A binding that the policy may hold. *)
Record binding_good (b : Binding) : Prop := {
  bg_name : SafeName (yard_Name (b_Yard b)) = true;
  bg_project : SafeName (yard_Project (b_Yard b)) = true;
  bg_instance : SafeName (yard_Instance (b_Yard b)) = true;
  bg_network : SafeName (yard_Network (b_Yard b)) = true;
  bg_ip : is_Some (ParseAddr4 (b_IPv4 b));
  bg_mac : ∃ mac, ParseMAC6 (b_MAC b) = Some mac ∧ Z.odd (nth 0 mac 0) = false;
  bg_nic : get_default "" "type" (b_OriginalNIC b) = "nic";
  bg_bridge : get_default "" "network" (b_OriginalNIC b) = yard_Network (b_Yard b);
  bg_ingress : ∀ i, i ∈ b_ApprovedIngress b → ingress_good b i;
  bg_devices : NoDup (in_Device <$> b_ApprovedIngress b) }.

(** No two bindings share a name, an instance, an address on a network or a
    hardware address on a network. *)
Record bindings_distinct (l : list Binding) : Prop := {
  bd_names : NoDup ((λ b, yard_Name (b_Yard b)) <$> l);
  bd_ids : NoDup (yard_identity <$> l);
  bd_addrs : NoDup (yard_address <$> l);
  bd_macs : NoDup (mac_key <$> l) }.

Definition binding_fresh (s : seen_bindings) (b : Binding) : Prop :=
  yard_Name (b_Yard b) ∉ seen_names s ∧ yard_identity b ∉ seen_ids s ∧ yard_address b ∉ seen_addrs s ∧
  mac_key b ∉ seen_macs s.

Definition binding_add (s : seen_bindings) (b : Binding) : seen_bindings :=
  mkSeen ({[ yard_Name (b_Yard b) ]} ∪ seen_names s) ({[ yard_identity b ]} ∪ seen_ids s)
    ({[ yard_address b ]} ∪ seen_addrs s) ({[ mac_key b ]} ∪ seen_macs s).

Lemma normalize_ingresses_Ok b l st :
  for_range (normalize_ingress b) l (∅, []) = Ok st ↔
  (∀ i, i ∈ l → ingress_good b i) ∧ NoDup (in_Device <$> l) ∧ st = (list_to_set (in_Device <$> l), norm_ingress <$> l).
Proof.
  rewrite (for_range_collect in_Device (ingress_good b) norm_ingress) by apply normalize_ingress_step.
  rewrite union_empty_r_L. split; intros (H1 & H2 & H3); (split; [|done]); intros i Hi; [by apply H1|].
  split; [by apply H1|set_solver].
Qed.

Lemma normalize_binding_step s out b st :
  normalize_binding (s, out) b = Ok st ↔
  binding_good b ∧ binding_fresh s b ∧ st = (binding_add s b, out ++ [norm_binding b]).
Proof.
  unfold normalize_binding, seen, binding_fresh, binding_add, mac_key. split.
  - intros H. ok_inv. bools.
    match goal with H : ParseMAC6 _ = Some ?m |- _ => rename H into Hmac end.
    match goal with H : for_range _ _ _ = Ok _ |- _ => apply normalize_ingresses_Ok in H as (Hi & Hd & ->) end.
    match goal with H : ParseAddr4 _ ≠ None |- _ => apply not_eq_None_Some in H as Hip end.
    repeat match goal with H : ¬ (_ ≠ _) |- _ => apply dec_stable in H end.
    rewrite Hmac. simpl in *. split_and!; try done. split; try done. by eexists.
  - intros ([H1 H2 H3 H4 [ip Hip] (mac & Hmac & Hodd) Ht Hn Hi Hd] & (F1 & F2 & F3 & F4) & ->).
    rewrite Hmac in *. simpl in *. rewrite H1, H2, H3, H4, Hip, Hodd, Ht, Hn.
    rewrite !(bool_decide_false (_ ∈ _)) by done. rewrite !(bool_decide_false (_ ≠ _)) by auto.
    rewrite bool_decide_false by done. simpl.
    rewrite (proj2 (normalize_ingresses_Ok b _ _) (conj Hi (conj Hd eq_refl))). done.
Qed.

Lemma binding_fresh_add s b c :
  binding_fresh (binding_add s b) c ↔ binding_fresh s c ∧ yard_Name (b_Yard b) ≠ yard_Name (b_Yard c) ∧
    yard_identity b ≠ yard_identity c ∧ yard_address b ≠ yard_address c ∧ mac_key b ≠ mac_key c.
Proof. unfold binding_fresh. simpl. rewrite !not_elem_of_union, !not_elem_of_singleton. naive_solver. Qed.

Lemma bindings_distinct_cons b l :
  bindings_distinct (b :: l) ↔ bindings_distinct l ∧ ∀ c, c ∈ l → yard_Name (b_Yard b) ≠ yard_Name (b_Yard c) ∧
    yard_identity b ≠ yard_identity c ∧ yard_address b ≠ yard_address c ∧ mac_key b ≠ mac_key c.
Proof.
  split.
  - intros [[N1 M1]%NoDup_cons [N2 M2]%NoDup_cons [N3 M3]%NoDup_cons [N4 M4]%NoDup_cons]. split; [done|].
    intros c Hc. repeat split; intros E;
      [apply N1|apply N2|apply N3|apply N4]; apply list_elem_of_fmap; by exists c.
  - intros [[???? ] H]. split; apply NoDup_cons; (split; [|done]);
      intros (c & E & Hc)%list_elem_of_fmap; destruct (H c Hc) as (?&?&?&?); done.
Qed.

Lemma normalize_bindings_go l s out st :
  for_range normalize_binding l (s, out) = Ok st ↔
  (∀ b, b ∈ l → binding_good b ∧ binding_fresh s b) ∧ bindings_distinct l ∧
  st = (foldl binding_add s l, out ++ (norm_binding <$> l)).
Proof.
  revert s out. induction l as [|b l IH]; intros s out; csimpl.
  - rewrite app_nil_r. split.
    + intros [= <-]. split_and!; [by intros ??%elem_of_nil|by repeat constructor|done].
    + by intros (_ & _ & ->).
  - rewrite bind_Ok, bindings_distinct_cons. split.
    + intros (t & (Hg & Hk & ->)%normalize_binding_step & (Hall & Hnd & ->)%IH). rewrite <-app_assoc. split_and!; [|done| |done].
      * intros c [-> |Hc]%elem_of_cons; [done|]. destruct (Hall c Hc) as [? [? _]%binding_fresh_add]. done.
      * intros c Hc. by destruct (Hall c Hc) as [? [_ ?]%binding_fresh_add].
    + intros (Hall & [Hnd Hx] & ->). destruct (Hall b) as [Hg Hk]; [by left|].
      exists (binding_add s b, out ++ [norm_binding b]). split; [by apply normalize_binding_step|]. apply IH.
      rewrite <-app_assoc. split_and!; [|done..]. intros c Hc. destruct (Hall c) as [Hgy Hky]; [by right|].
      split; [done|]. apply binding_fresh_add. auto.
Qed.

Lemma normalize_bindings_Ok l st :
  for_range normalize_binding l (mkSeen ∅ ∅ ∅ ∅, []) = Ok st ↔
  (∀ b, b ∈ l → binding_good b) ∧ bindings_distinct l ∧
  st = (foldl binding_add (mkSeen ∅ ∅ ∅ ∅) l, norm_binding <$> l).
Proof.
  rewrite normalize_bindings_go. split; intros (H1 & H2 & H3); (split; [|done]); intros b Hb; [by apply H1|].
  split; [by apply H1|]. unfold binding_fresh. simpl. set_solver.
Qed.

(** ** The normal form *)

(** What [normalize] accepts. *)
Record policy_valid (p : Policy) : Prop := {
  pv_schema : p_Schema p = NetSchemaVersion;
  pv_revision : p_AppliedRevision p ≤ p_Revision p;
  pv_links : ∀ l, l ∈ p_Links p → SafeName (link_A l) = true ∧ SafeName (link_B l) = true ∧ link_A l ≠ link_B l;
  pv_links_distinct : NoDup (canon <$> p_Links p);
  pv_bindings : ∀ b, b ∈ p_Bindings p → binding_good b;
  pv_bindings_distinct : bindings_distinct (p_Bindings p);
  pv_pending : ∀ n, n ∈ p_PendingStart p → SafeName n = true;
  pv_pending_distinct : NoDup (p_PendingStart p);
  pv_removing : ∀ n, n ∈ p_Removing p → SafeName n = true;
  pv_removing_distinct : NoDup (p_Removing p);
  pv_disjoint : ∀ n, n ∈ p_Removing p → n ∉ p_PendingStart p }.

Definition norm_policy (p : Policy) : Policy :=
  p <| p_Links := sortLinks (canon <$> p_Links p) |>
    <| p_Bindings := sort_by_key (λ b, yard_Name (b_Yard b)) (norm_binding <$> p_Bindings p) |>.

Lemma pending_names_Ok l :
  (∃ s, pending_names l = Ok s) ↔ NoDup l ∧ ∀ n, n ∈ l → SafeName n = true.
Proof.
  unfold pending_names. rewrite (for_range_distinct id (λ n, SafeName n = true)), list_fmap_id.
  - split; intros [H1 H2]; (split; [done|]); intros n Hn; [by apply H2|]. split; [by apply H2|set_solver].
  - intros ids n ids'. unfold seen. split.
    + intros H. ok_inv. bools. done.
    + intros (-> & Hn & ->). by rewrite bool_decide_false.
Qed.

Lemma normalize_Ok p q : normalize p = Ok q ↔ policy_valid p ∧ q = norm_policy p.
Proof.
  unfold normalize, norm_policy. split.
  - intros H. ok_inv.
    repeat match goal with
    | H : for_range normalize_link _ _ = Ok _ |- _ => apply normalize_links_Ok in H as (? & ? & ->)
    | H : for_range normalize_binding _ _ = Ok _ |- _ => apply normalize_bindings_Ok in H as (? & ? & ->)
    | H : pending_names ?l = Ok _ |- _ => apply (ex_intro (λ s, pending_names l = Ok s)), pending_names_Ok in H as [? ?]
    | H : for_each _ _ = Ok _ |- _ => rewrite for_each_Ok in H
    end.
    bools. split; [|done]. split; try done.
    intros n Hn. match goal with H : ∀ x, x ∈ p_Removing p → _ = _ |- _ => specialize (H n Hn) as Hx end.
    ok_inv. by bools.
  - intros ([H1 H2 H3 H4 H5 H6 H7 H8 H9 H10 H11] & ->).
    rewrite (proj2 (Z.eqb_eq _ _) H1), (proj2 (Z.ltb_ge _ _) H2). cbn [negb refuse].
    rewrite (proj2 (normalize_links_Ok _ _) (conj H3 (conj H4 eq_refl))). simpl.
    rewrite (proj2 (normalize_bindings_Ok _ _) (conj H5 (conj H6 eq_refl))). simpl.
    destruct (proj2 (pending_names_Ok _) (conj H8 H7)) as [? ->].
    destruct (proj2 (pending_names_Ok _) (conj H10 H9)) as [? ->]. simpl.
    rewrite for_each_total; [done|]. intros n Hn. rewrite bool_decide_false by by apply H11. done.
Qed.

(** A policy in normal form. *)
Record policy_normal (p : Policy) : Prop := {
  pn_valid : policy_valid p;
  pn_links : ∀ l, l ∈ p_Links p → link_ok l;
  pn_links_sorted : StronglySorted link_le (p_Links p);
  pn_bindings_sorted : StronglySorted (key_le (λ b, yard_Name (b_Yard b))) (p_Bindings p);
  pn_ingress : ∀ b i, b ∈ p_Bindings p → i ∈ b_ApprovedIngress b → in_legacyFingerprint i = None ∧ in_Protocol i ≠ "udp";
  pn_ingress_sorted : ∀ b, b ∈ p_Bindings p → StronglySorted (key_le in_Device) (b_ApprovedIngress b) }.

Lemma norm_ingress_good b i : ingress_good b i → ingress_good (norm_binding b) (norm_ingress i).
Proof.
  intros [H1 H2 H3 H4 H5 H6].
  assert (norm_protocol (norm_ingress i) = norm_ingress i) as Hn.
  { unfold norm_protocol, norm_ingress. simpl. f_equal. repeat case_bool_decide; done. }
  assert (Transport (norm_ingress i) = Transport (norm_protocol i)) as Ht by done.
  split; rewrite ?Hn, ?Ht; done.
Qed.

Lemma norm_ingress_device (l : list ApprovedIngress) : in_Device <$> (norm_ingress <$> l) = in_Device <$> l.
Proof. by rewrite <-list_fmap_compose. Qed.

Lemma norm_binding_devices b :
  in_Device <$> b_ApprovedIngress (norm_binding b) ≡ₚ in_Device <$> b_ApprovedIngress b.
Proof. simpl. unfold sort_by_key. by rewrite sort_by_perm, norm_ingress_device. Qed.

Lemma elem_of_norm_binding b i :
  i ∈ b_ApprovedIngress (norm_binding b) ↔ ∃ j, i = norm_ingress j ∧ j ∈ b_ApprovedIngress b.
Proof. simpl. unfold sort_by_key. by rewrite elem_of_sort_by, list_elem_of_fmap. Qed.

Lemma norm_binding_good b : binding_good b → binding_good (norm_binding b).
Proof.
  intros [H1 H2 H3 H4 H5 H6 H7 H8 H9 H10]. split; try done.
  - intros i (j & -> & Hj)%elem_of_norm_binding. by apply norm_ingress_good, H9.
  - by rewrite norm_binding_devices.
Qed.

Lemma fmap_id_on {A} (f : A → A) (l : list A) : (∀ x, x ∈ l → f x = x) → f <$> l = l.
Proof.
  intros H. rewrite <-(list_fmap_id l) at 2. apply list_fmap_ext. intros i x E. by eapply H, list_elem_of_lookup_2.
Qed.

(** Sorting what is sorted by a distinct key changes nothing. *)
Lemma sort_by_key_id {A} (key : A → string) l :
  NoDup (key <$> l) → StronglySorted (key_le key) l → sort_by_key key l = l.
Proof.
  intros Hnd Hs. symmetry. apply sort_unique; try apply _; [|by apply StronglySorted_Sorted|done].
  intros x y Hx Hy. by apply (key_le_distinct key l).
Qed.

Lemma sort_by_key_Permutation {A} (key : A → string) l l' :
  NoDup (key <$> l) → l ≡ₚ l' → sort_by_key key l = sort_by_key key l'.
Proof.
  intros Hnd Hp. apply sort_unique; try apply _.
  - intros x y Hx Hy. apply (key_le_distinct key l'); [by rewrite <-Hp|done..].
  - apply sort_by_sorted; apply _.
  - unfold sort_by_key. by rewrite sort_by_perm.
Qed.

Lemma norm_policy_normal p : policy_valid p → policy_normal (norm_policy p).
Proof.
  intros [H1 H2 H3 H4 H5 [D1 D2 D3 D4] H7 H8 H9 H10 H11].
  assert (∀ l, l ∈ p_Links (norm_policy p) → link_ok l) as Hlok.
  { intros l. simpl. unfold sortLinks. rewrite elem_of_sort_by, list_elem_of_fmap.
    intros (k & -> & Hk). destruct (H3 k Hk) as (?&?&?). by apply canon_ok. }
  assert (∀ A (f : Binding → A), (∀ b, f (norm_binding b) = f b) →
    f <$> p_Bindings (norm_policy p) ≡ₚ f <$> p_Bindings p) as Hf.
  { intros A f E. simpl. unfold sort_by_key. rewrite sort_by_perm, <-list_fmap_compose.
    erewrite list_fmap_ext; [done|]. intros i b _. apply E. }
  assert (∀ b, b ∈ p_Bindings (norm_policy p) → ∃ c, b = norm_binding c ∧ c ∈ p_Bindings p) as Hb.
  { intros b. simpl. unfold sort_by_key. by rewrite elem_of_sort_by, list_elem_of_fmap. }
  split.
  - split; try done.
    + intros l Hl. by destruct (Hlok l Hl) as (?&?&?&?).
    + assert (canon <$> p_Links (norm_policy p) = p_Links (norm_policy p)) as ->.
      { apply fmap_id_on. intros l Hl. by apply canon_id, Hlok. }
      simpl. unfold sortLinks. by rewrite sort_by_perm.
    + intros b (c & -> & Hc)%Hb. by apply norm_binding_good, H5.
    + split; rewrite Hf by done; done.
  - done.
  - simpl. apply sort_by_strongly_sorted; apply _.
  - simpl. apply sort_by_strongly_sorted; apply _.
  - intros b i (c & -> & Hc)%Hb (j & -> & Hj)%elem_of_norm_binding. simpl. split; [done|]. by case_bool_decide.
  - intros b (c & -> & Hc)%Hb. simpl. apply sort_by_strongly_sorted; apply _.
Qed.

Lemma norm_ingress_id i : in_legacyFingerprint i = None → in_Protocol i ≠ "udp" → norm_ingress i = i.
Proof. destruct i. unfold norm_ingress, norm_protocol. simpl. intros -> ?. by rewrite bool_decide_false. Qed.

Lemma norm_policy_id p : policy_normal p → norm_policy p = p.
Proof.
  intros [[_ _ _ _ H5 H6 _ _ _ _ _] Hl Hls Hbs Hi His].
  assert (canon <$> p_Links p = p_Links p) as Ec.
  { apply fmap_id_on. intros l E. by apply canon_id, Hl. }
  assert (norm_binding <$> p_Bindings p = p_Bindings p) as Eb.
  { apply fmap_id_on. intros b E. unfold norm_binding. rewrite fmap_id_on.
    2: { intros x Ex. destruct (Hi b x E Ex). by apply norm_ingress_id. }
    rewrite sort_by_key_id by (try apply His; try apply H5; done). by destruct b. }
  unfold norm_policy. rewrite Ec, Eb. unfold sortLinks. rewrite sort_by_id by (try apply _; by apply StronglySorted_Sorted).
  rewrite sort_by_key_id by (try apply H6; done). by destruct p.
Qed.

(** [normalize] accepts exactly the valid policies: the supported schema, an
    applied revision that does not exceed the desired one, links between two
    distinct safe names with no link repeated in either direction, good bindings
    that share no name, instance, address or hardware address, and pending lists
    of distinct safe names that do not restart a yard being removed.  Its result
    is in normal form, and normalizing again changes nothing. *)
Theorem normalize_spec (p : Policy) :
  (is_ok (normalize p) = true ↔ policy_valid p) ∧
  (∀ q, normalize p = Ok q → policy_normal q ∧ normalize q = Ok q).
Proof.
  split.
  - rewrite is_ok_spec. setoid_rewrite normalize_Ok. naive_solver.
  - intros q [Hv ->]%normalize_Ok. assert (policy_normal (norm_policy p)) as Hn by by apply norm_policy_normal.
    split; [done|]. apply normalize_Ok. split; [apply Hn|]. symmetry. by apply norm_policy_id.
Qed.

(** ** Equal policies *)

(** The same policy up to the order of links, bindings and routes, the direction
    of a link and the spelling of the UDP transport. *)
Record policy_equiv (p q : Policy) : Prop := {
  pe_scalars : (p_Schema p, p_Isolation p, p_Revision p, p_AppliedRevision p, p_AppliedIsolation p,
                p_PendingStart p, p_Removing p) =
               (p_Schema q, p_Isolation q, p_Revision q, p_AppliedRevision q, p_AppliedIsolation q,
                p_PendingStart q, p_Removing q);
  pe_links : canon <$> p_Links p ≡ₚ canon <$> p_Links q;
  pe_bindings : norm_binding <$> p_Bindings p ≡ₚ norm_binding <$> p_Bindings q }.

Lemma norm_policy_equiv p q : policy_valid p → policy_equiv p q → norm_policy p = norm_policy q.
Proof.
  intros [_ _ _ _ _ [D1 _ _ _] _ _ _ _ _] [Hs Hl Hb]. destruct p, q; simpl in *. simplify_eq.
  unfold norm_policy; simpl. f_equal.
  - unfold sortLinks. by apply sort_by_Permutation; try apply _.
  - apply sort_by_key_Permutation; [|done]. rewrite <-list_fmap_compose. exact D1.
Qed.

(** A policy has one encoding.  Two policies that normalization accepts and that
    differ only in the order of links, bindings and routes, in the direction of
    links or in the spelling of the UDP transport encode to the same bytes, so that
    comparing contents compares policies. *)
Theorem Encode_canonical (p q : Policy) :
  policy_valid p → policy_valid q → policy_equiv p q → Policy_Encode p = Policy_Encode q.
Proof.
  intros Hp Hq He. unfold Policy_Encode.
  rewrite (proj2 (normalize_Ok p _) (conj Hp eq_refl)), (proj2 (normalize_Ok q _) (conj Hq eq_refl)).
  by rewrite (norm_policy_equiv p q).
Qed.

(** ** Peers *)

Definition linked (p : Policy) (x y : string) : Prop := mkLink x y ∈ p_Links p ∨ mkLink y x ∈ p_Links p.

Lemma elem_of_Peers p x y : y ∈ Peers p x ↔ linked p x y.
Proof.
  unfold Peers, sort_strings, linked. rewrite elem_of_sort_by, list_elem_of_bind. split.
  - intros ([a b] & Hy & Hl). simpl in Hy. repeat case_bool_decide; simplify_list_eq; set_solver.
  - intros [H | H]; eexists; (split; [|exact H]); simpl; repeat case_bool_decide; subst; set_solver.
Qed.

Lemma link_ok_order a b : link_ok (mkLink a b) → ¬ link_ok (mkLink b a).
Proof.
  intros (_ & _ & Hab & H1) (_ & _ & _ & H2). apply Hab. by apply (anti_symm String.le).
Qed.

(** Edits of the links keep a policy normal. *)
Lemma policy_normal_links p (links : list Link) :
  policy_normal p → (∀ l, l ∈ links → link_ok l) → NoDup links → StronglySorted link_le links →
  policy_normal (p <| p_Links := links |>).
Proof.
  intros [[]] Hok Hnd Hs. split; try done. split; try done.
  - intros l Hl. by destruct (Hok l Hl) as (?&?&?&?).
  - simpl. rewrite fmap_id_on; [done|]. intros l Hl. by apply canon_id, Hok.
Qed.

Lemma policy_normal_links_NoDup p : policy_normal p → NoDup (p_Links p).
Proof. intros [[]]. rewrite <-(fmap_id_on canon (p_Links p)); [done|]. intros l Hl. by apply canon_id; auto. Qed.

Lemma StronglySorted_filter {A} (R : relation A) (P : A → Prop) `{∀ x, Decision (P x)} l :
  StronglySorted R l → StronglySorted R (filter P l).
Proof.
  induction 1 as [|x l Hl IH Hx]; [constructor|]. rewrite filter_cons. case_decide; [|done].
  constructor; [done|]. rewrite Forall_forall in *. intros y [_ Hy]%list_elem_of_filter. by apply Hx.
Qed.

Lemma link_pair l a b : l = canon (mkLink a b) → ∀ x y, mkLink x y = l ∨ mkLink y x = l ↔ (x, y) = (a, b) ∨ (x, y) = (b, a).
Proof.
  intros -> x y. unfold canon. simpl. destruct (string_lt b a); naive_solver.
Qed.

(** Linking two yards makes each the peer of the other and changes no other
    peers; the links stay distinct and sorted. *)
Theorem Link_spec (p q : Policy) (a b : string) :
  policy_normal p → Policy_Link p a b = Ok q →
  policy_normal q ∧ ∀ x y, y ∈ Peers q x ↔ y ∈ Peers p x ∨ (x, y) = (a, b) ∨ (x, y) = (b, a).
Proof.
  intros Hn H. unfold Policy_Link in H. apply bind_Ok in H as (l & Hl & H). injection H as <-.
  pose proof (proj1 (canonicalLink_Ok _ _ _) Hl) as (Ha & Hb & Hab & El).
  assert (link_ok l) as Hlok by (subst l; by apply canon_ok).
  setoid_rewrite elem_of_Peers. setoid_rewrite <-(link_pair l a b El). case_bool_decide as Hin.
  - split; [done|]. intros x y. unfold linked. split; [tauto|]. intros [?|[-> | ->]]; tauto.
  - split.
    + apply policy_normal_links; [done| | |].
      * intros k. unfold sortLinks. rewrite elem_of_sort_by, elem_of_app, list_elem_of_singleton.
        intros [Hk| ->]; [by apply Hn|done].
      * unfold sortLinks. rewrite sort_by_perm. apply NoDup_app. split_and!; [by apply policy_normal_links_NoDup| |apply NoDup_singleton].
        intros k Hk ->%list_elem_of_singleton. done.
      * apply sort_by_strongly_sorted; apply _.
    + intros x y. unfold linked. simpl. unfold sortLinks. rewrite !elem_of_sort_by, !elem_of_app, !list_elem_of_singleton. tauto.
Qed.

(** Unlinking two yards removes each from the peers of the other and changes no
    other peers. *)
Theorem Unlink_spec (p q : Policy) (a b : string) :
  policy_normal p → Policy_Unlink p a b = Ok q →
  policy_normal q ∧ ∀ x y, y ∈ Peers q x ↔ y ∈ Peers p x ∧ (x, y) ≠ (a, b) ∧ (x, y) ≠ (b, a).
Proof.
  intros Hn H. unfold Policy_Unlink in H. apply bind_Ok in H as (l & Hl & H). injection H as <-.
  pose proof (proj1 (canonicalLink_Ok _ _ _) Hl) as (Ha & Hb & Hab & El).
  split.
  - apply policy_normal_links; [done| | |].
    + intros k [_ Hk]%list_elem_of_filter. by apply Hn.
    + by apply NoDup_filter, policy_normal_links_NoDup.
    + by apply StronglySorted_filter, Hn.
  - intros x y. rewrite !elem_of_Peers. unfold linked. simpl. rewrite !list_elem_of_filter.
    assert (∀ x y, mkLink x y ∈ p_Links p → mkLink x y ≠ l ↔ (x, y) ≠ (a, b) ∧ (x, y) ≠ (b, a)) as Hd.
    { clear x y. intros x y Hxy. assert (link_ok (mkLink x y)) as Hok by by apply Hn.
      pose proof (link_pair l a b El x y) as Hp. assert (mkLink y x ≠ l) as Hyx.
      { intros E. apply (link_ok_order x y Hok). rewrite E, El. by apply canon_ok. }
      split; [intros Hne; split; intros E; destruct (proj2 Hp) as [?|?]; auto|].
      intros [E1 E2] E. destruct (proj1 Hp) as [?|?]; auto. }
    split.
    + intros [[Hne Hxy]|[Hne Hxy]]; apply Hd in Hne as [E1 E2]; try done; split; auto; split; congruence.
    + intros [[Hxy|Hxy] [E1 E2]]; [left|right]; (split; [|done]); apply Hd; try done; split; congruence.
Qed.

Lemma NoDup_fmap_filter {A B} (f : A → B) (P : A → Prop) `{∀ x, Decision (P x)} (l : list A) :
  NoDup (f <$> l) → NoDup (f <$> filter P l).
Proof.
  induction l as [|x l IH]; [done|]. rewrite filter_cons. csimpl. intros [Hx Hnd]%NoDup_cons.
  case_decide; [|by apply IH]. csimpl. apply NoDup_cons. split; [|by apply IH].
  intros (y & E & [_ Hy]%list_elem_of_filter)%list_elem_of_fmap. apply Hx. rewrite E. by apply list_elem_of_fmap_2.
Qed.

Lemma policy_normal_bindings p (P : Binding → Prop) `{∀ b, Decision (P b)} :
  policy_normal p → policy_normal (p <| p_Bindings := filter P (p_Bindings p) |>).
Proof.
  intros [[? ? ? ? Hb [] ? ? ? ? ?] ? ? ? Hi His]. split; try done; simpl.
  - split; try done; simpl.
    + intros b [_ ?]%list_elem_of_filter. auto.
    + split; by apply NoDup_fmap_filter.
  - by apply StronglySorted_filter.
  - intros b i [_ ?]%list_elem_of_filter. by apply Hi.
  - intros b [_ ?]%list_elem_of_filter. by apply His.
Qed.

(** Forgetting a yard removes its links and its binding, and nothing else: no
    yard keeps it as a peer, it keeps no peers, and the peers and bindings of the
    other yards are what they were. *)
Theorem Forget_spec (p : Policy) (name : string) :
  policy_normal p →
  policy_normal (Policy_Forget p name) ∧
  (∀ x y, y ∈ Peers (Policy_Forget p name) x ↔ y ∈ Peers p x ∧ x ≠ name ∧ y ≠ name) ∧
  (∀ b, b ∈ p_Bindings (Policy_Forget p name) ↔ b ∈ p_Bindings p ∧ yard_Name (b_Yard b) ≠ name).
Proof.
  intros Hn. split_and!.
  - assert (policy_normal (p <| p_Links := filter (λ link, ¬ link_touches name link) (p_Links p) |>)) as Hl.
    2: { exact (policy_normal_bindings _ (λ b, yard_Name (b_Yard b) ≠ name) Hl). }
    apply policy_normal_links; [done| | |].
    + intros l [_ Hl]%list_elem_of_filter. by apply Hn.
    + by apply NoDup_filter, policy_normal_links_NoDup.
    + by apply StronglySorted_filter, Hn.
  - intros x y. rewrite !elem_of_Peers. unfold linked. simpl. rewrite !list_elem_of_filter. unfold link_touches. simpl. tauto.
  - intros b. simpl. rewrite list_elem_of_filter. tauto.
Qed.

(** ** Concrete policies *)

Definition demo_yard (name : string) : Yard := mkYard name "subyard" name "incusbr0".

Definition demo_nic : config_map := {[ "type" := "nic"; "network" := "incusbr0" ]}.

Definition demo_binding (name ip mac : string) (ingress : list ApprovedIngress) : Binding :=
  mkBinding (demo_yard name) ip mac demo_nic "incusbr0" ingress.

Definition demo_policy : Policy :=
  mkPolicy 1 true [mkLink "web" "db"; mkLink "api" "db"] 3 3
    [demo_binding "web" "10.0.3.7" "02:16:3e:aa:bb:0c"
       [mkIngress "web-udp" "udp" "udp:192.168.1.5:443" 8443 None];
     demo_binding "db" "10.0.3.8" "02:16:3e:aa:bb:0d" []] true ["web"] [].

Definition demo_normal : Policy :=
  mkPolicy 1 true [mkLink "api" "db"; mkLink "db" "web"] 3 3
    [demo_binding "db" "10.0.3.8" "02:16:3e:aa:bb:0d" [];
     demo_binding "web" "10.0.3.7" "02:16:3e:aa:bb:0c"
       [mkIngress "web-udp" "" "udp:192.168.1.5:443" 8443 None]] true ["web"] [].

Lemma demo_normalize : normalize demo_policy = Ok demo_normal.
Proof. apply (bool_decide_unpack _). by vm_compute. Qed.

Lemma demo_is_normal : policy_normal demo_normal.
Proof.
  pose proof (proj1 (normalize_Ok _ _) demo_normalize) as [Hv ->]. by apply norm_policy_normal.
Qed.

Lemma normalize_spec_witness : policy_normal demo_normal ∧ normalize demo_normal = Ok demo_normal.
Proof. exact (proj2 (normalize_spec demo_policy) demo_normal demo_normalize). Defined.

Lemma Encode_canonical_witness : Policy_Encode demo_policy = Policy_Encode demo_normal.
Proof.
  apply Encode_canonical.
  - exact (proj1 (proj1 (normalize_Ok _ _) demo_normalize)).
  - apply demo_is_normal.
  - split; [done|..]; apply (bool_decide_unpack _); by vm_compute.
Defined.

Lemma Link_spec_witness : ∃ q, Policy_Link demo_normal "web" "api" = Ok q ∧ "web" ∈ Peers q "api".
Proof.
  eexists. split; [reflexivity|].
  apply (proj2 (Link_spec demo_normal _ "web" "api" demo_is_normal eq_refl) "api" "web"). by right; right.
Defined.

Lemma Unlink_spec_witness : ∃ q, Policy_Unlink demo_normal "web" "db" = Ok q ∧ "web" ∉ Peers q "db".
Proof.
  eexists. split; [reflexivity|]. intros H.
  apply (proj2 (Unlink_spec demo_normal _ "web" "db" demo_is_normal eq_refl) "db" "web") in H as (_ & _ & H). done.
Defined.

Lemma Forget_spec_witness : "db" ∉ Peers (Policy_Forget demo_normal "db") "web".
Proof.
  intros H. apply (proj1 (proj2 (Forget_spec demo_normal "db" demo_is_normal)) "web" "db") in H as (_ & _ & H). done.
Defined.
