(* ===== verification/NetPlanner.v ===== *)
(** * Planner of the yard network

    internal/yardnetwork/planner.go with the records of host.go, the contracts of
    internal/resource and the preview route of internal/previewroute: how the
    owner's policy and an observation of the host become the network identities,
    the settings of each yard's interface and its access-control list.

    Go's nil maps and slices are the empty ones: no result depends on the
    difference.  The fingerprint of a plan and the copy of the snapshot that it
    carries, which only later comparisons of plans read, are not modelled. *)

From S2P Require Import Prelude GoStrings GoSort Sha256 Names GoJson GoNet NetPolicy.

(** ** Observations of the host *)

Notation device_map := (gmap string config_map).

(** internal/ports/ports.go:25-34 [InstanceInfo] *)
Record InstanceInfo := mkInstance {
  ii_Name : string; ii_Project : string; ii_Type : string; ii_Status : string; ii_Config : config_map;
  ii_Devices : device_map; ii_LocalConfig : config_map; ii_LocalDevices : device_map }.

(** internal/resource/registry.go:68-78 [ProxyContract] *)
Record ProxyContract := mkContract {
  pc_Profile : string; pc_Resource : string; pc_Device : string; pc_AdvertiseHostSetting : string;
  pc_HostPortSetting : string; pc_OwnerInterfaceSetting : string; pc_Connect : string;
  pc_AddressPolicy : string; pc_OwnershipMetadata : bool }.

(** internal/yardnetwork/host.go:26-33 [Rule] *)
Record Rule := mkRule {
  ru_Action : string; ru_State : string; ru_Source : string; ru_Destination : string; ru_Protocol : string;
  ru_DestinationPort : string }.

(** internal/yardnetwork/host.go:35-42 [ACL] *)
Record ACL := mkACL {
  acl_Name : string; acl_Exists : bool; acl_ETag : string; acl_Config : config_map; acl_Ingress : list Rule;
  acl_Egress : list Rule }.

(** internal/yardnetwork/host.go:44-59 [ObservedYard] *)
Record ObservedYard := mkObserved {
  oy_Yard : Yard; oy_IngressContracts : list ProxyContract; oy_ProjectFound : bool; oy_ProjectETag : string;
  oy_ProjectConfig : config_map; oy_ProfileFound : bool; oy_ProfileETag : string; oy_ProfileDevices : device_map;
  oy_ProfileUsedBy : list string; oy_InstanceFound : bool; oy_InstanceInfo : InstanceInfo; oy_IPv4 : string;
  oy_MAC : string; oy_ACL : ACL }.

(** internal/yardnetwork/host.go:61-66 [Network] *)
Record Network := mkNetwork { nw_Name : string; nw_Type : string; nw_Managed : bool; nw_Config : config_map }.

(** internal/yardnetwork/host.go:71-76 [ReservationClaim] *)
Record ReservationClaim := mkClaim {
  rc_Project : string; rc_Instance : string; rc_Profile : string; rc_MAC : string }.

(** internal/yardnetwork/host.go:78-86 [Snapshot] *)
Record Snapshot := mkSnapshot {
  sn_Firewall : string; sn_Clustered : bool; sn_Yards : list ObservedYard; sn_Networks : gmap string Network;
  sn_ReservationClaims : gmap string (gmap string (list ReservationClaim)) }.

(** internal/yardnetwork/host.go:20-24 [StoredPolicy] *)
Record StoredPolicy := mkStored { st_Policy : Policy; st_Content : string; st_ETag : string }.

(** internal/yardnetwork/planner.go:25-29 [Change] *)
Record Change := mkChange { ch_Link : option Link; ch_Unlink : option Link; ch_Isolation : option bool }.

(** internal/yardnetwork/planner.go:31-37 [Update] *)
Record Update := mkUpdate {
  up_Yard : ObservedYard; up_NIC : config_map; up_Access : string; up_ACL : ACL; up_RemoveACL : bool }.

(** internal/yardnetwork/planner.go:40-50 [Plan] *)
Record Plan := mkPlan {
  pl_Before : StoredPolicy; pl_Policy : Policy; pl_Updates : list Update; pl_Changed : bool; pl_Physical : bool;
  pl_Change : Change; pl_Yards : list Yard }.

#[export] Instance Rule_eq_dec : EqDecision Rule.
Proof. solve_decision. Defined.

Notation zero_network := (mkNetwork "" "" false ∅).

Definition oy_Name (y : ObservedYard) : string := yard_Name (oy_Yard y).
Definition oy_Network (y : ObservedYard) : string := yard_Network (oy_Yard y).

(** Entry [key] of a Go map of strings, the empty string when it is absent. *)
Notation cfg m key := (get_default "" key m).
Notation dev m key := (get_default (∅ : config_map) key m).

(** ** Contracts of resources and the preview route *)

(** internal/resource/registry.go:97-99 [OwnershipKey] *)
Definition OwnershipKey (contract : ProxyContract) : string := "user.subyard.resource." +:+ pc_Device contract.

(** internal/resource/registry.go:109-111 [IsOwnerIPv4Ingress] *)
Definition IsOwnerIPv4Ingress (contract : ProxyContract) : bool :=
  bool_decide (pc_AddressPolicy contract = "owner-ipv4-udp") || bool_decide (pc_AddressPolicy contract = "owner-ipv4-tcp").

(** internal/resource/registry.go:114-128 [GuestEndpoint] *)
Definition GuestEndpoint (contract : ProxyContract) (hostPort : Z) : string * Z * bool :=
  let protocol := if bool_decide (pc_AddressPolicy contract = "owner-ipv4-tcp") then "tcp" else "udp" in
  match CutPrefix (pc_Connect contract) (protocol +:+ ":guest:") with
  | Some text =>
      if negb (IsOwnerIPv4Ingress contract) then ("", 0, false)
      else if bool_decide (text = "host-port") then (protocol, hostPort, (1 <=? hostPort) && (hostPort <=? 65535))
      else match Atoi text with
           | Some port => (protocol, port, (1 <=? port) && (port <=? 65535) && bool_decide (pretty port = text))
           | None => (protocol, 0, false)
           end
  | None => ("", 0, false)
  end.

Definition preview_Key : string := "user.subyard.preview_proxy".
Definition preview_DeviceName : string := "subyard-preview".

(** internal/previewroute/route.go:22-30 [Device] *)
Definition preview_Device (host port guest : string) : config_map :=
  let device := <["type" := "proxy"]> (<["bind" := "host"]> (<["listen" := "tcp:" +:+ host +:+ ":" +:+ port]>
    (<["connect" := "tcp:127.0.0.1:8765"]> ∅))) in
  if bool_decide (guest = "") then device
  else <["connect" := "tcp:" +:+ guest +:+ ":8765"]> (<["nat" := "true"]> device).

(** internal/ownerroute/route.go:15-18 [TailscaleAddress]: for an IPv4 address. *)
Definition TailscaleAddress (host : string) : bool := Contains4 (mkPrefix4 (addr_of 100 64 0 0) 10) (ParseAddr4 host).

(** internal/previewroute/route.go:33-37 [Address] *)
Definition preview_Address (host : string) : bool :=
  match ParseAddr4 host with
  | Some address => bool_decide (Addr4_String address = host) && (IsPrivate4 address || TailscaleAddress host)
  | None => false
  end.

(** internal/previewroute/route.go:74-100 [Owned] *)
Definition preview_Owned (marker : string) (device : config_map) : string * string * bool :=
  match Cut marker ":" with
  | None => ("", "", false)
  | Some (version, value) =>
      let '(value, pending) :=
        match CutPrefix value "pending:" with Some v => (v, true) | None => (value, false) end in
      let parsed :=
        match Split value ":" with
        | [host; port] => if bool_decide (version = "v1") then Some (host, port, "") else None
        | [host; port; guest] =>
            if bool_decide (version = "v2") then
              match ParseAddr4 guest with
              | Some address =>
                  if IsPrivate4 address && bool_decide (Addr4_String address = guest) then Some (host, port, guest)
                  else None
              | None => None
              end
            else None
        | _ => None
        end in
      match parsed with
      | None => ("", "", false)
      | Some (host, port, guest) =>
          match Atoi port with
          | None => ("", "", false)
          | Some number =>
              if negb (preview_Address host) || (number <? 1024) || (65535 <? number) ||
                 bool_decide (pretty number ≠ port) || bool_decide (device ≠ preview_Device host port guest)
              then ("", "", false) else (host, port, negb pending)
          end
      end
  end.

(** ** Public ingress *)

Definition YardVM : string := "vm".

(** internal/yardnetwork/planner.go:259-266 [ownedPreviewIngress] *)
Definition ownedPreviewIngress (y : ObservedYard) (binding : Binding) : bool :=
  let info := oy_InstanceInfo y in
  let device := dev (ii_Devices info) preview_DeviceName in
  let '(host, port, ready) := preview_Owned (cfg (ii_LocalConfig info) preview_Key) device in
  oy_InstanceFound y && bool_decide (ii_Type info = YardVM) && ready &&
  bool_decide (cfg (dev (ii_Devices info) "eth0") "ipv4.address" = b_IPv4 binding) &&
  bool_decide (device = dev (ii_LocalDevices info) preview_DeviceName) &&
  bool_decide (device = preview_Device host port (b_IPv4 binding)).

(** internal/yardnetwork/planner.go:268-287 [ownedPublicIngress] *)
Definition ownedPublicIngress (y : ObservedYard) (binding : Binding) (contract : ProxyContract) (protocol : string)
    (guestPort : Z) : bool :=
  let info := oy_InstanceInfo y in
  let device := dev (ii_LocalDevices info) (pc_Device contract) in
  bool_decide (size device = 5%nat) && bool_decide (cfg device "type" = "proxy") &&
  bool_decide (cfg device "nat" = "true") && bool_decide (cfg device "bind" = "host") &&
  bool_decide (cfg device "connect" = protocol +:+ ":" +:+ b_IPv4 binding +:+ ":" +:+ pretty guestPort) &&
  bool_decide (device = dev (ii_Devices info) (pc_Device contract)) &&
  forallb (λ kv, bool_decide (kv.1 ∈ ["type"; "listen"; "connect"; "nat"; "bind"])) (map_to_list device) &&
  match CutPrefix (cfg device "listen") (protocol +:+ ":") with
  | Some listen =>
      match ParseAddrPort4 listen with
      | Some endpoint =>
          ExplicitOwnerIPv4 endpoint.1 && negb (endpoint.2 =? 0) &&
          bool_decide (cfg device "listen" = protocol +:+ ":" +:+ AddrPort4_String endpoint) &&
          bool_decide (cfg (ii_LocalConfig info) (OwnershipKey contract) = OwnershipValue device)
      | None => false
      end
  | None => false
  end.

(** internal/yardnetwork/planner.go:238-254 [approvedPublicIngress]: the route of
    one contract. *)
Definition contract_ingress (y : ObservedYard) (binding : Binding) (contract : ProxyContract) : list ApprovedIngress :=
  let device := dev (ii_LocalDevices (oy_InstanceInfo y)) (pc_Device contract) in
  let '(listenProtocol, listenText) := default (cfg device "listen", "") (Cut (cfg device "listen") ":") in
  match ParseAddrPort4 listenText with
  | None => []
  | Some listen =>
      let '(protocol, guestPort, valid) := GuestEndpoint contract listen.2 in
      if negb valid || bool_decide (listenProtocol ≠ protocol) || negb (pc_OwnershipMetadata contract) ||
         bool_decide (pc_Profile contract = "") || bool_decide (pc_Resource contract = "") ||
         bool_decide (pc_Device contract = "") || negb (ownedPublicIngress y binding contract protocol guestPort)
      then []
      else
        let transport := if bool_decide (protocol = "udp") then "" else protocol in
        [mkIngress (pc_Device contract) transport (cfg device "listen") guestPort None]
  end.

(** internal/yardnetwork/planner.go:227-257 [approvedPublicIngress] *)
Definition approvedPublicIngress (y : ObservedYard) (binding : Binding) : list ApprovedIngress :=
  if negb (oy_InstanceFound y) || bool_decide (ii_Type (oy_InstanceInfo y) ≠ YardVM) then []
  else
    let approved :=
      if ownedPreviewIngress y binding then
        [mkIngress preview_DeviceName "tcp" (cfg (dev (ii_Devices (oy_InstanceInfo y)) preview_DeviceName) "listen")
           8765 None]
      else [] in
    if bool_decide (oy_Name y = "") || bool_decide (oy_Name y = "default") then approved
    else sort_by_key in_Device (approved ++ (oy_IngressContracts y ≫= contract_ingress y binding)).

Definition allow (source protocol port : string) : Rule := mkRule "allow" "enabled" source "" protocol port.

(** internal/yardnetwork/planner.go:208-214 [ownedPublicIngressRules]: the allowances of
    the approved routes, without repetition. *)
Definition ingress_allowances (l : list ApprovedIngress) : list Rule :=
  foldl (λ rules approved,
    let rule := allow "" (Transport approved) (pretty (in_GuestPort approved)) in
    if bool_decide (rule ∈ rules) then rules else rules ++ [rule]) [] l.

(** [slices.Delete] at [slices.Index]. *)
Fixpoint remove_first {A} `{EqDecision A} (x : A) (l : list A) : list A :=
  match l with
  | [] => []
  | y :: l => if bool_decide (y = x) then l else y :: remove_first x l
  end.

(** internal/yardnetwork/planner.go:217-224 [ownedPublicIngressRules]: observed
    allowances first, in their order. *)
Fixpoint keep_order (observed rules ordered : list Rule) : list Rule :=
  match observed with
  | [] => ordered ++ rules
  | current :: observed =>
      if bool_decide (current ∈ rules) then keep_order observed (remove_first current rules) (ordered ++ [current])
      else keep_order observed rules ordered
  end.

(** internal/yardnetwork/planner.go:207-225 [ownedPublicIngressRules] *)
Definition ownedPublicIngressRules (y : ObservedYard) (binding : Binding) : list Rule :=
  keep_order (acl_Ingress (oy_ACL y)) (ingress_allowances (approvedPublicIngress y binding)) [].

(** ** Checks of a yard *)

(** internal/yardnetwork/host.go:105-108 [ACLName] *)
Definition ACLName (yard : Yard) : string :=
  "subyard-yard-" +:+ EncodeToString (take 10 (Sum256 (yard_Project yard +:+ "/" +:+ yard_Instance yard))).

(** internal/yardnetwork/planner.go:289-291 [sameACL] *)
Definition sameACL (a b : ACL) : bool :=
  acl_Exists a && bool_decide (acl_Config a = acl_Config b) && bool_decide (acl_Ingress a = acl_Ingress b) &&
  bool_decide (acl_Egress a = acl_Egress b).

(** internal/yardnetwork/planner.go:449-455 [bridgePrefix] *)
Definition bridgePrefix (n : Network) : result net_error Prefix4 :=
  prefix ← expect (ParsePrefix4 (cfg (nw_Config n) "ipv4.address")) (NetPlan "no bridge");
  refuse (negb (nw_Managed n) || bool_decide (nw_Type n ≠ "bridge") || (29 <? pf_bits prefix) ||
          bool_decide (cfg (nw_Config n) "ipv4.dhcp" = "false")) (NetPlan "no bridge");;
  Ok prefix.

(** internal/yardnetwork/planner.go:457-462 [validateACLOwner] *)
Definition validateACLOwner (y : ObservedYard) : result net_error unit :=
  refuse (acl_Exists (oy_ACL y) && (bool_decide (cfg (acl_Config (oy_ACL y)) "user.subyard.managed" ≠ "true") ||
          bool_decide (cfg (acl_Config (oy_ACL y)) "user.subyard.yard" ≠ oy_Name y))) (NetPlan "foreign ACL").

(** The fields of the interface that the policy owns. *)
Definition owned_fields : list string :=
  ["name"; "hwaddr"; "ipv4.address"; "security.mac_filtering"; "security.ipv4_filtering"; "security.acls";
   "security.acls.default.ingress.action"; "security.acls.default.egress.action"].

(** Some field that the policy does not own differs. *)
Definition field_changed (nic other : config_map) : bool :=
  existsb (λ kv, negb (bool_decide (kv.1 ∈ owned_fields)) && bool_decide (cfg other kv.1 ≠ kv.2)) (map_to_list nic).

(** internal/yardnetwork/planner.go:400-447 [validateYard] *)
Definition validateYard (y : ObservedYard) (b : Binding) : result net_error unit :=
  refuse (bool_decide (cfg (oy_ProjectConfig y) "restricted" ≠ "true")) (NetPlan "unrestricted project");;
  let nic := dev (oy_ProfileDevices y) "eth0" in
  refuse (bool_decide (cfg nic "type" ≠ "nic") || bool_decide (cfg nic "network" ≠ oy_Network y) ||
          (bool_decide (cfg nic "name" ≠ "") && bool_decide (cfg nic "name" ≠ "eth0"))) (NetPlan "unsupported NIC");;
  refuse (existsb (λ nd, bool_decide (cfg nd.2 "type" = "nic") && bool_decide (nd.1 ≠ "eth0"))
            (map_to_list (oy_ProfileDevices y))) (NetPlan "extra profile NIC");;
  refuse (existsb (λ nd, bool_decide (nd.1 = "eth0") || bool_decide (cfg nd.2 "type" = "nic"))
            (map_to_list (ii_LocalDevices (oy_InstanceInfo y)))) (NetPlan "local NIC override");;
  refuse (existsb (λ nd, bool_decide (cfg nd.2 "type" = "nic") && bool_decide (nd.1 ≠ "eth0"))
            (map_to_list (ii_Devices (oy_InstanceInfo y)))) (NetPlan "extra expanded NIC");;
  validateACLOwner y;;
  refuse (bool_decide (cfg nic "security.acls" ≠ "") && bool_decide (cfg nic "security.acls" ≠ ACLName (oy_Yard y)))
    (NetPlan "foreign NIC ACLs");;
  for_each (λ user,
    refuse (negb (Contains user ("/instances/" +:+ yard_Instance (oy_Yard y) +:+ "?")) &&
            negb (HasSuffix user ("/instances/" +:+ yard_Instance (oy_Yard y)))) (NetPlan "shared profile"))
    (oy_ProfileUsedBy y);;
  refuse (field_changed nic (b_OriginalNIC b)) (NetPlan "profile changed");;
  refuse (field_changed (b_OriginalNIC b) nic) (NetPlan "profile changed").

(** ** Network identities *)

(** An address that a yard may hold on the bridge: inside the prefix, neither the
    bridge's own address nor the first nor the last of the prefix. *)
Definition usable (prefix : Prefix4) (ip : option Z) : bool :=
  Contains4 prefix ip && bool_decide (ip ≠ Some (pf_addr prefix)) && bool_decide (ip ≠ Some (Masked4 prefix)) &&
  Contains4 prefix (ip ≫= Next4).

(** internal/yardnetwork/planner.go:358-365 [planBindings]: the loop that searches a
    free address, at most [fuel] candidates. *)
Fixpoint free_address (fuel : nat) (prefix : Prefix4) (reserved : gset string) (candidate : option Z) : string :=
  match fuel, candidate with
  | S fuel, Some c =>
      if Contains4 prefix (Some c) then
        if negb (c =? pf_addr prefix) && negb (seen (Addr4_String c) reserved) && Contains4 prefix (Next4 c)
        then Addr4_String c
        else free_address fuel prefix reserved (Next4 c)
      else ""
  | _, _ => ""
  end.

Definition search_bound : nat := Z.to_nat 65536.

Definition reserved_map := gmap string (gset string).

Definition reserve (network ip : string) (reserved : reserved_map) : reserved_map :=
  <[network := {[ ip ]} ∪ get_default ∅ network reserved]> reserved.

(** internal/yardnetwork/planner.go:294-308 [planBindings]: the reserved addresses. *)
Definition initial_reserved (bindings : list Binding) (s : Snapshot) : reserved_map :=
  foldl (λ reserved b, reserve (yard_Network (b_Yard b)) (b_IPv4 b) reserved)
    (dom <$> sn_ReservationClaims s) bindings.

(** The map from names to bindings that a range over them builds. *)
Definition bindings_by_name (bindings : list Binding) : gmap string Binding :=
  foldl (λ m b, <[yard_Name (b_Yard b) := b]> m) ∅ bindings.

Definition first_nonempty (a b : string) : string := if bool_decide (a = "") then b else a.

(** internal/yardnetwork/planner.go:375-378 [planBindings]: the hardware address of
    a yard that has none. *)
Definition derived_mac (y : ObservedYard) : string :=
  MAC_String (2 :: take 5 (Sum256 (yard_Project (oy_Yard y) +:+ "/" +:+ yard_Instance (oy_Yard y)))).

(** internal/yardnetwork/planner.go:338-392 [planBindings]: the binding of a yard
    that has none. *)
Definition new_binding (s : Snapshot) (bindings : list Binding) (reserved : reserved_map) (y : ObservedYard) :
    result net_error Binding :=
  prefix ← map_err (λ _, NetPlan "no bridge") (bridgePrefix (get_default zero_network (oy_Network y) (sn_Networks s)));
  refuse (negb (oy_ProfileFound y)) (NetPlan "no profile");;
  let nic := dev (oy_ProfileDevices y) "eth0" in
  refuse (bool_decide (cfg nic "security.acls" ≠ "")) (NetPlan "foreign NIC ACLs");;
  let ip := first_nonempty (cfg nic "ipv4.address") (oy_IPv4 y) in
  let ip := if bool_decide (ip = "")
            then free_address search_bound prefix (get_default ∅ (oy_Network y) reserved) (Next4 (Masked4 prefix))
            else ip in
  refuse (negb (usable prefix (ParseAddr4 ip))) (NetPlan "no usable address");;
  let mac := first_nonempty (cfg nic "hwaddr") (oy_MAC y) in
  let mac := if bool_decide (mac = "") then derived_mac y else mac in
  parsed ← expect (ParseMAC6 mac) (NetPlan "bad MAC");
  refuse (Z.odd (nth 0 parsed 0)) (NetPlan "bad MAC");;
  let b := mkBinding (oy_Yard y) ip (string_map lower_ascii mac) nic
             (cfg (oy_ProjectConfig y) "restricted.networks.access") [] in
  let b := b <| b_ApprovedIngress := approvedPublicIngress y b |> in
  validateYard y b;;
  for_each (λ other,
    refuse (bool_decide (yard_Network (b_Yard other) = oy_Network y) &&
            (bool_decide (b_IPv4 other = b_IPv4 b) || bool_decide (b_MAC other = b_MAC b))) (NetPlan "collision")) bindings;;
  Ok b.

(** The first binding of the yard gets the approved routes [ingress]. *)
Fixpoint set_ingress (yard : Yard) (ingress : list ApprovedIngress) (l : list Binding) : list Binding :=
  match l with
  | [] => []
  | b :: l => if bool_decide (b_Yard b = yard) then b <| b_ApprovedIngress := ingress |> :: l
              else b :: set_ingress yard ingress l
  end.

(** internal/yardnetwork/planner.go:309-395 [planBindings]: one yard. *)
Definition bind_yard (p : Policy) (s : Snapshot) (known : gmap string Binding)
    (st : list Binding * reserved_map) (y : ObservedYard) : result net_error (list Binding * reserved_map) :=
  let '(bindings, reserved) := st in
  let removing := bool_decide (oy_Name y ∈ p_Removing p) in
  refuse (p_Isolation p && negb removing && bool_decide (cfg (oy_ProjectConfig y) "features.networks" = "true"))
    (NetPlan "project network namespace");;
  match known !! oy_Name y with
  | Some b =>
      refuse (bool_decide (b_Yard b ≠ oy_Yard y)) (NetPlan "identity changed");;
      (if p_Isolation p && negb removing then
         prefix ← bridgePrefix (get_default zero_network (oy_Network y) (sn_Networks s));
         refuse (negb (usable prefix (ParseAddr4 (b_IPv4 b)))) (NetPlan "address left the bridge")
       else Ok tt);;
      Ok (set_ingress (oy_Yard y) (approvedPublicIngress y b) bindings, reserved)
  | None =>
      if negb (p_Isolation p) || negb (oy_ProjectFound y) then Ok st
      else
        b ← new_binding s bindings reserved y;
        Ok (bindings ++ [b], reserve (oy_Network y) (b_IPv4 b) reserved)
  end.

(** internal/yardnetwork/planner.go:293-398 [planBindings] *)
Definition planBindings (p : Policy) (s : Snapshot) : result net_error Policy :=
  st ← for_range (bind_yard p s (bindings_by_name (p_Bindings p))) (sn_Yards s)
         (p_Bindings p, initial_reserved (p_Bindings p) s);
  Ok (p <| p_Bindings := sort_by_key (λ b, yard_Name (b_Yard b)) st.1 |>).

(** ** The plan *)

(** The copy of a map of strings that its JSON text decodes to: bytes that are not
    UTF-8 become the replacement character. *)
Definition json_text_map (m : config_map) : config_map :=
  foldl (λ acc kv, <[ToValidText kv.1 := ToValidText kv.2]> acc) ∅ (sort_by_key fst (map_to_list m)).

(** The policy that the encoding of a normal policy decodes to.  Every other text
    of a normal policy is ASCII. *)
Definition json_copy (p : Policy) : Policy :=
  p <| p_Bindings := (λ b, b <| b_OriginalNIC := json_text_map (b_OriginalNIC b) |>
                             <| b_OriginalAccess := ToValidText (b_OriginalAccess b) |>) <$> p_Bindings p |>.

(** internal/yardnetwork/planner.go:53-60 [buildPlan]: a policy through its
    encoding; also internal/yardnetwork/policy.go:104-124 [Decode] on encodings. *)
Definition Decode_Encode (policy : Policy) : result net_error (string * Policy) :=
  content ← Policy_Encode policy;
  p ← normalize policy ≫= λ q, normalize (json_copy q);
  Ok (content, p).

(** internal/yardnetwork/planner.go:75-94 [buildPlan]: the policy with the change. *)
Definition apply_change (p : Policy) (known : list string) (change : Change) : result net_error Policy :=
  for_each (λ link,
    match link with
    | Some link => refuse (negb (bool_decide (link_A link ∈ known)) || negb (bool_decide (link_B link ∈ known)))
                     (NetPlan "unknown endpoint")
    | None => Ok tt
    end) [ch_Link change; ch_Unlink change];;
  p ← match ch_Link change with Some l => Policy_Link p (link_A l) (link_B l) | None => Ok p end;
  p ← match ch_Unlink change with Some l => Policy_Unlink p (link_A l) (link_B l) | None => Ok p end;
  let p := match ch_Isolation change with Some i => p <| p_Isolation := i |> | None => p end in
  Ok (foldl (λ p name, p <| p_Links := filter (λ link, ¬ link_touches name link) (p_Links p) |>) p (p_Removing p)).

(** internal/yardnetwork/planner.go:114-121 [buildPlan]: a claim on the binding's
    address that is not its own. *)
Definition foreign_claim (b : Binding) (claim : ReservationClaim) : bool :=
  let own :=
    bool_decide (rc_Project claim = yard_Project (b_Yard b)) &&
    (bool_decide (rc_Instance claim = yard_Instance (b_Yard b)) ||
     (bool_decide (rc_Instance claim = "") && bool_decide (rc_Profile claim = "default")) ||
     (bool_decide (rc_Instance claim = "") && bool_decide (rc_Profile claim = "") &&
      bool_decide (rc_MAC claim = b_MAC b))) in
  negb own || (bool_decide (rc_MAC claim ≠ "") && bool_decide (rc_MAC claim ≠ b_MAC b)).

(** internal/yardnetwork/planner.go:102-123 [buildPlan]: one bridge for all yards,
    and no foreign claim on their addresses. *)
Definition check_bridge (p : Policy) (s : Snapshot) : result net_error string :=
  for_range (λ bridge b,
    if bool_decide (yard_Name (b_Yard b) ∈ p_Removing p) then Ok bridge
    else
      refuse (bool_decide (bridge ≠ "") && bool_decide (bridge ≠ yard_Network (b_Yard b))) (NetPlan "several bridges");;
      for_each (λ claim, refuse (foreign_claim b claim) (NetPlan "reserved address"))
        (get_default [] (b_IPv4 b) (get_default ∅ (yard_Network (b_Yard b)) (sn_ReservationClaims s)));;
      Ok (yard_Network (b_Yard b))) (p_Bindings p) "".

(** internal/yardnetwork/planner.go:153-160 [buildPlan]: the interface of an isolated
    yard. *)
Definition isolated_nic (y : ObservedYard) (b : Binding) : config_map :=
  <["security.acls.default.egress.action" := "allow"]> (<["security.acls.default.ingress.action" := "drop"]>
  (<["security.acls" := ACLName (oy_Yard y)]> (<["security.ipv4_filtering" := "true"]>
  (<["security.mac_filtering" := "true"]> (<["ipv4.address" := b_IPv4 b]> (<["hwaddr" := b_MAC b]>
  (<["name" := "eth0"]> (b_OriginalNIC b)))))))).

(** internal/yardnetwork/planner.go:163-167 [buildPlan]: the rules of the peers. *)
Definition peer_rules (p : Policy) (bindings : gmap string Binding) (y : ObservedYard) : list Rule :=
  Peers p (oy_Name y) ≫= λ peer,
    match bindings !! peer with
    | Some other => [allow (b_IPv4 other +:+ "/32") "" ""]
    | None => []
    end.

(** The bridge's own address; [planBindings] has checked that the prefix parses. *)
Definition bridge_address (s : Snapshot) (y : ObservedYard) : string :=
  match ParsePrefix4 (cfg (nw_Config (get_default zero_network (oy_Network y) (sn_Networks s))) "ipv4.address") with
  | Some prefix => Addr4_String (pf_addr prefix)
  | None => "invalid IP"
  end.

(** internal/yardnetwork/planner.go:162-170 [buildPlan]: the access-control list of an
    isolated yard. *)
Definition isolated_acl (p : Policy) (s : Snapshot) (bindings : gmap string Binding) (y : ObservedYard) (b : Binding) : ACL :=
  mkACL (ACLName (oy_Yard y)) (acl_Exists (oy_ACL y)) (acl_ETag (oy_ACL y))
    (<["user.subyard.managed" := "true"]> (<["user.subyard.yard" := oy_Name y]> ∅))
    (peer_rules p bindings y ++ ownedPublicIngressRules y b ++ [allow (bridge_address s y +:+ "/32") "tcp" "22"])
    [mkRule "allow" "enabled" "" "" "" ""].

(** internal/yardnetwork/planner.go:151-171 [buildPlan]: the wanted settings. *)
Definition wanted_update (p : Policy) (s : Snapshot) (bindings : gmap string Binding) (y : ObservedYard) (b : Binding) :
    Update :=
  let removing := bool_decide (oy_Name y ∈ p_Removing p) in
  if p_Isolation p && negb removing then
    mkUpdate y (isolated_nic y b) (oy_Network y) (isolated_acl p s bindings y b) false
  else mkUpdate y (b_OriginalNIC b) (b_OriginalAccess b) (oy_ACL y) true.

(** internal/yardnetwork/planner.go:172-173 [buildPlan]: the host differs from it. *)
Definition needs_update (y : ObservedYard) (u : Update) : bool :=
  (oy_ProfileFound y && bool_decide (dev (oy_ProfileDevices y) "eth0" ≠ up_NIC u)) ||
  (oy_ProjectFound y && bool_decide (cfg (oy_ProjectConfig y) "restricted.networks.access" ≠ up_Access u)) ||
  (negb (up_RemoveACL u) && negb (sameACL (oy_ACL y) (up_ACL u))) ||
  (up_RemoveACL u && acl_Exists (oy_ACL y)).

(** internal/yardnetwork/planner.go:128-177 [buildPlan]: one yard. *)
Definition plan_yard (p : Policy) (s : Snapshot) (bindings : gmap string Binding) (updates : list Update)
    (y : ObservedYard) : result net_error (list Update) :=
  match bindings !! oy_Name y with
  | None => Ok updates
  | Some b =>
      let removing := bool_decide (oy_Name y ∈ p_Removing p) in
      validateACLOwner y;;
      refuse (removing && oy_InstanceFound y) (NetPlan "teardown incomplete");;
      refuse ((negb (oy_ProjectFound y) || negb (oy_ProfileFound y)) && negb removing) (NetPlan "missing project or profile");;
      (if oy_ProfileFound y then validateYard y b else Ok tt);;
      let u := wanted_update p s bindings y b in
      Ok (if needs_update y u then updates ++ [u] else updates)
  end.

(** internal/yardnetwork/planner.go:95-178 [buildPlan]: identities and updates. *)
Definition plan_yards (p : Policy) (s : Snapshot) : result net_error (Policy * list Update) :=
  if p_Isolation p || negb (bool_decide (p_Bindings p = [])) then
    refuse (sn_Clustered s || bool_decide (sn_Firewall s ≠ "nftables")) (NetPlan "unsupported host");;
    p ← planBindings p s;
    (if p_Isolation p then check_bridge p s else Ok "") ≫= λ _,
    updates ← for_range (plan_yard p s (bindings_by_name (p_Bindings p))) (sn_Yards s) [];
    Ok (p, updates)
  else Ok (p, []).

(** internal/yardnetwork/planner.go:52-203 [buildPlan] *)
Definition buildPlan (stored : StoredPolicy) (snapshot : Snapshot) (change : Change) : result net_error Plan :=
  cp ← Decode_Encode (st_Policy stored);
  let '(content, p) := cp in
  p ← apply_change p (oy_Name <$> sn_Yards snapshot) change;
  pu ← plan_yards p snapshot;
  let '(p, updates) := pu in
  let physical := negb (bool_decide (length updates = 0%nat)) in
  encoded ← Policy_Encode p;
  let changed :=
    physical || bool_decide (content ≠ encoded) || negb (p_AppliedRevision p =? p_Revision p) ||
    negb (Bool.eqb (p_AppliedIsolation p) (p_Isolation p)) || negb (bool_decide (p_PendingStart p = [])) ||
    negb (bool_decide (p_Removing p = [])) in
  refuse (changed && (u64 (p_Revision p + 1) =? 0)) (NetPlan "revision exhausted");;
  Ok (mkPlan stored (if changed then p <| p_Revision := u64 (p_Revision p + 1) |> else p) updates changed physical
        change (oy_Yard <$> sn_Yards snapshot)).

(** ** A concrete host *)

Definition demo_instance (name : string) : InstanceInfo :=
  mkInstance name "subyard" "vm" "Running" ∅ ∅ ∅ ∅.

Definition demo_observed (name : string) : ObservedYard :=
  mkObserved (demo_yard name) [] true "" {[ "restricted" := "true" ]} true "" {[ "eth0" := demo_nic ]} [] true
    (demo_instance name) "" "" (mkACL "" false "" ∅ [] []).

Definition demo_snapshot : Snapshot :=
  mkSnapshot "nftables" false [demo_observed "api"; demo_observed "db"; demo_observed "web"]
    {[ "incusbr0" := mkNetwork "incusbr0" "bridge" true {[ "ipv4.address" := "10.0.3.1/24" ]} ]}
    {[ "incusbr0" := {[ "10.0.3.2" := [mkClaim "other" "vm" "" ""] ]} ]}.

Definition demo_stored : StoredPolicy :=
  mkStored (mkPolicy 1 false [mkLink "db" "web"] 0 0 [] false [] []) "" "".
