(* ===== verification/NetIsolation.v ===== *)
(** * Isolation of yards

    What a plan of internal/yardnetwork/planner.go does to the host: whom an
    isolated yard admits, which identities yards get, that disabling isolation
    restores what was there, and that an applied plan needs no further update. *)

From S2P Require Import Prelude GoStrings GoSort Sha256 Names GoJson GoNet NetPolicy NetPlanner.

(** ** Allowances of public routes *)

Definition route_rule (i : ApprovedIngress) : Rule := allow "" (Transport i) (pretty (in_GuestPort i)).

Lemma ingress_allowances_spec l :
  NoDup (ingress_allowances l) ∧ ∀ r, r ∈ ingress_allowances l ↔ ∃ i, i ∈ l ∧ r = route_rule i.
Proof.
  unfold ingress_allowances. induction l as [|i l IH] using rev_ind.
  { split; [constructor|]. intros r. split; [by intros ?%elem_of_nil|by intros (? & ?%elem_of_nil & _)]. }
  rewrite foldl_snoc. set (rules := foldl _ [] l) in *. destruct IH as [Hnd Hin]. cbn zeta.
  fold (route_rule i). case_bool_decide as Hi.
  - split; [done|]. intros r. rewrite Hin. setoid_rewrite elem_of_app. split.
    + intros (j & Hj & ->). eauto.
    + intros (j & [Hj|Hj] & ->); [eauto|]. apply list_elem_of_singleton in Hj as ->. by apply Hin.
  - split.
    + apply NoDup_app. split_and!; [done| |apply NoDup_singleton]. intros r Hr ->%list_elem_of_singleton. done.
    + intros r. rewrite elem_of_app, Hin, list_elem_of_singleton. setoid_rewrite elem_of_app.
      setoid_rewrite list_elem_of_singleton. naive_solver.
Qed.

Lemma remove_first_perm {A} `{EqDecision A} (x : A) l : x ∈ l → l ≡ₚ x :: remove_first x l.
Proof.
  induction l as [|y l IH]; [by intros ?%elem_of_nil|]. simpl. intros Hx. case_bool_decide; [by subst|].
  apply elem_of_cons in Hx as [->|Hx]; [done|]. rewrite (IH Hx) at 1. constructor.
Qed.

Lemma keep_order_perm observed rules ordered : keep_order observed rules ordered ≡ₚ ordered ++ rules.
Proof.
  revert rules ordered. induction observed as [|r observed IH]; intros rules ordered; simpl; [done|].
  case_bool_decide as Hr; [|apply IH]. rewrite IH, <-app_assoc. simpl. by rewrite <-remove_first_perm.
Qed.

Lemma ownedPublicIngressRules_elem y b r :
  r ∈ ownedPublicIngressRules y b ↔ ∃ i, i ∈ approvedPublicIngress y b ∧ r = route_rule i.
Proof. unfold ownedPublicIngressRules. rewrite keep_order_perm. simpl. apply ingress_allowances_spec. Qed.

(** Observed rules that are none of ours do not disturb the order. *)
Lemma keep_order_skip observed1 observed2 rules ordered :
  (∀ r, r ∈ observed1 → r ∉ rules) →
  keep_order (observed1 ++ observed2) rules ordered = keep_order observed2 rules ordered.
Proof.
  induction observed1 as [|r l IH]; intros H; simpl; [done|].
  rewrite bool_decide_false by (apply H; by left). apply IH. intros r' Hr'. apply H. by right.
Qed.

Lemma keep_order_take observed1 observed2 rules ordered :
  NoDup rules → observed1 ≡ₚ rules →
  keep_order (observed1 ++ observed2) rules ordered = keep_order observed2 [] (ordered ++ observed1).
Proof.
  revert rules ordered. induction observed1 as [|r l IH]; intros rules ordered Hnd Hp; simpl.
  { apply Permutation_nil in Hp as ->. by rewrite app_nil_r. }
  assert (r ∈ rules) as Hr by (rewrite <-Hp; by left).
  pose proof (remove_first_perm r rules Hr) as Hrm. rewrite bool_decide_true by done.
  rewrite IH, <-app_assoc; [done|..].
  - rewrite Hrm in Hnd. by apply NoDup_cons in Hnd as [_ ?].
  - apply (Permutation_cons_inv (a:=r)). by rewrite <-Hrm.
Qed.

Lemma keep_order_done observed ordered : keep_order observed [] ordered = ordered.
Proof.
  revert ordered. induction observed as [|r l IH]; intros ordered; simpl; [apply app_nil_r|apply IH].
Qed.

(** ** Bindings by name *)

Notation b_name := (λ b, yard_Name (b_Yard b)).

Lemma bindings_by_name_snoc l b : bindings_by_name (l ++ [b]) = <[yard_Name (b_Yard b) := b]> (bindings_by_name l).
Proof. unfold bindings_by_name. by rewrite foldl_snoc. Qed.

Lemma bindings_by_name_Some l n b : bindings_by_name l !! n = Some b → b ∈ l ∧ yard_Name (b_Yard b) = n.
Proof.
  induction l as [|c l IH] using rev_ind; [done|]. rewrite bindings_by_name_snoc, lookup_insert_Some, elem_of_app.
  intros [[? ->]|[? [? ?]%IH]]; [|tauto]. split; [|done]. right. by apply list_elem_of_singleton.
Qed.

Lemma bindings_by_name_None l n : bindings_by_name l !! n = None ↔ ∀ b, b ∈ l → yard_Name (b_Yard b) ≠ n.
Proof.
  induction l as [|c l IH] using rev_ind; [split; [intros _ ? ?%elem_of_nil; done|done]|].
  rewrite bindings_by_name_snoc, lookup_insert_None, IH. setoid_rewrite elem_of_app. setoid_rewrite list_elem_of_singleton.
  naive_solver.
Qed.

Lemma bindings_by_name_elem l b :
  NoDup (b_name <$> l) → bindings_by_name l !! yard_Name (b_Yard b) = Some b ↔ b ∈ l.
Proof.
  intros Hnd. split; [by intros [? _]%bindings_by_name_Some|]. intros Hb.
  destruct (bindings_by_name l !! yard_Name (b_Yard b)) as [c|] eqn:E.
  - apply bindings_by_name_Some in E as [Hc E]. f_equal. by apply (NoDup_key b_name l).
  - apply (bindings_by_name_None l _) with (b:=b) in E; done.
Qed.

(** ** Identities *)

(** The same identity and the same original settings. *)
Definition same_identity (b c : Binding) : Prop :=
  b_Yard c = b_Yard b ∧ b_IPv4 c = b_IPv4 b ∧ b_MAC c = b_MAC b ∧ b_OriginalNIC c = b_OriginalNIC b ∧
  b_OriginalAccess c = b_OriginalAccess b.

Lemma set_ingress_fmap yard ingress l :
  NoDup (b_name <$> l) →
  set_ingress yard ingress l = (λ b, if bool_decide (b_Yard b = yard) then b <| b_ApprovedIngress := ingress |> else b) <$> l.
Proof.
  induction l as [|b l IH]; [done|]. csimpl. intros [Hb Hnd]%NoDup_cons. case_bool_decide as E; [|by rewrite IH].
  f_equal. symmetry. apply fmap_id_on. intros c Hc. rewrite bool_decide_false; [done|]. intros E'.
  apply Hb. rewrite E, <-E'. by apply (list_elem_of_fmap_2 b_name).
Qed.

Lemma approvedPublicIngress_ip y b c : b_IPv4 b = b_IPv4 c → approvedPublicIngress y b = approvedPublicIngress y c.
Proof.
  intros E. unfold approvedPublicIngress, ownedPreviewIngress. rewrite E.
  erewrite list_bind_ext; [done| |done]. intros x. unfold contract_ingress, ownedPublicIngress. by rewrite E.
Qed.

(** The yard's address is usable on its bridge. *)
Definition on_bridge (s : Snapshot) (y : ObservedYard) (b : Binding) : Prop :=
  ∃ prefix, bridgePrefix (get_default zero_network (oy_Network y) (sn_Networks s)) = Ok prefix ∧
    usable prefix (ParseAddr4 (b_IPv4 b)) = true.

(** What [new_binding] gives a yard. *)
Record fresh_binding (s : Snapshot) (y : ObservedYard) (b : Binding) : Prop := {
  fb_yard : b_Yard b = oy_Yard y;
  fb_nic : b_OriginalNIC b = dev (oy_ProfileDevices y) "eth0";
  fb_access : b_OriginalAccess b = cfg (oy_ProjectConfig y) "restricted.networks.access";
  fb_ingress : b_ApprovedIngress b = approvedPublicIngress y b;
  fb_found : oy_ProfileFound y = true;
  fb_bridge : on_bridge s y b }.

Lemma new_binding_Ok s bs reserved y b : new_binding s bs reserved y = Ok b → fresh_binding s y b.
Proof.
  unfold new_binding. intros H. ok_inv. bools.
  match goal with H : bridgePrefix _ = Ok ?p, H' : usable ?p _ = true |- _ => rename H into Hp; rename H' into Hu end.
  subst b. split; try done. by eexists.
Qed.

(** ** The loop of planBindings *)

Section plan_bindings.
Context (p : Policy) (s : Snapshot).
Hypothesis (Hold : NoDup (b_name <$> p_Bindings p)) (Hyards : NoDup (oy_Name <$> sn_Yards s)).

Notation known := (bindings_by_name (p_Bindings p)).
Notation isolated y := (p_Isolation p = true ∧ oy_Name y ∉ p_Removing p).

(** The binding of an observed yard. *)
Record yard_bound (y : ObservedYard) (b : Binding) : Prop := {
  yb_yard : b_Yard b = oy_Yard y;
  yb_ingress : b_ApprovedIngress b = approvedPublicIngress y b;
  yb_bridge : isolated y → on_bridge s y b }.

Record bindings_inv (done : list ObservedYard) (bs : list Binding) : Prop := {
  bi_names : NoDup (b_name <$> bs);
  bi_origin : ∀ b, b ∈ bs → (∃ b0, b0 ∈ p_Bindings p ∧ same_identity b0 b) ∨
    (∃ y, y ∈ done ∧ p_Isolation p = true ∧ known !! oy_Name y = None ∧ oy_ProjectFound y = true ∧ fresh_binding s y b);
  bi_kept : ∀ b0, b0 ∈ p_Bindings p → ∃ b, b ∈ bs ∧ same_identity b0 b;
  bi_done : ∀ y b, y ∈ done → b ∈ bs → yard_Name (b_Yard b) = oy_Name y → yard_bound y b;
  bi_bound : ∀ y, y ∈ done → p_Isolation p = true → oy_ProjectFound y = true → ∃ b, b ∈ bs ∧ yard_Name (b_Yard b) = oy_Name y }.

Lemma bindings_inv_init : bindings_inv [] (p_Bindings p).
Proof.
  split; [done| | |by intros ?? ?%elem_of_nil|by intros ? ?%elem_of_nil].
  - intros b Hb. left. exists b. done.
  - intros b Hb. exists b. done.
Qed.

(** A yard that has a binding keeps its identity and gets its routes. *)
Lemma bindings_inv_known done y b bs :
  bindings_inv done bs → oy_Name y ∉ oy_Name <$> done → known !! oy_Name y = Some b → b_Yard b = oy_Yard y →
  (isolated y → on_bridge s y b) →
  bindings_inv (done ++ [y]) (set_ingress (oy_Yard y) (approvedPublicIngress y b) bs).
Proof.
  intros [Hn Ho Hk Hd Hb] Hy [Hb0 _]%bindings_by_name_Some Eb Hbr. rewrite set_ingress_fmap by done.
  set (f := λ c, if bool_decide (b_Yard c = oy_Yard y) then c <| b_ApprovedIngress := _ |> else c).
  assert (∀ c, same_identity c (f c)) as Hf by (intros c; unfold f; by case_bool_decide).
  assert (∀ c, yard_Name (b_Yard (f c)) = yard_Name (b_Yard c)) as Hfn by (intros c; by destruct (Hf c) as [-> _]).
  assert (∀ c, c ∈ bs → yard_Name (b_Yard c) = oy_Name y → same_identity b c) as Hsame.
  { intros c Hc E. destruct (Hk b Hb0) as (c' & Hc' & Hs).
    assert (c = c') as ->; [|done]. apply (NoDup_key b_name bs); [done..|]. destruct Hs as [Hs _]. by rewrite E, Hs, Eb. }
  split.
  - rewrite <-list_fmap_compose. rewrite (list_fmap_ext _ b_name); [done|]. intros i c _. apply Hfn.
  - intros c (c' & -> & Hc')%list_elem_of_fmap. destruct (Ho c' Hc') as [(b0 & Hb1 & Hs)|(z & Hz & H1 & H2 & H3 & H4)].
    + left. exists b0. split; [done|]. pose proof (Hf c') as Hs'. unfold same_identity in *. naive_solver congruence.
    + right. exists z. split_and!; [set_solver|done..|]. unfold f. rewrite bool_decide_false; [done|].
      intros E. apply Hy. assert (oy_Name y = oy_Name z) as ->; [|by apply list_elem_of_fmap_2].
      unfold oy_Name. by rewrite <-E, (fb_yard _ _ _ H4).
  - intros b0 Hb1. destruct (Hk b0 Hb1) as (c & Hc & Hs). exists (f c). split; [by apply list_elem_of_fmap_2|].
    pose proof (Hf c) as Hs'. unfold same_identity in *. naive_solver congruence.
  - intros z c Hz (c' & -> & Hc')%list_elem_of_fmap E. rewrite Hfn in E.
    apply elem_of_app in Hz as [Hz| ->%list_elem_of_singleton].
    + destruct (Hd z c' Hz Hc' E) as [H1 H2 H3]. unfold f. rewrite bool_decide_false; [done|]. intros Ey.
      apply Hy. assert (oy_Name y = oy_Name z) as ->; [|by apply list_elem_of_fmap_2]. unfold oy_Name in *. by rewrite <-Ey, E.
    + destruct (Hsame c' Hc' E) as (S1 & S2 & _). unfold f. rewrite bool_decide_true by by rewrite S1. split.
      * simpl. by rewrite S1.
      * simpl. by apply approvedPublicIngress_ip.
      * intros Hi. destruct (Hbr Hi) as (pf & H1 & H2). exists pf. simpl. by rewrite S2.
  - intros z Hz Hi Hp. apply elem_of_app in Hz as [Hz| ->%list_elem_of_singleton].
    + destruct (Hb z Hz Hi Hp) as (c & Hc & E). exists (f c). split; [by apply list_elem_of_fmap_2|]. by rewrite Hfn.
    + destruct (Hk b Hb0) as (c & Hc & (S1 & _)). exists (f c). split; [by apply list_elem_of_fmap_2|].
      by rewrite Hfn, S1, Eb.
Qed.

(** A yard without a binding that gets one. *)
Lemma bindings_inv_new done y b bs :
  bindings_inv done bs → oy_Name y ∉ oy_Name <$> done → known !! oy_Name y = None → p_Isolation p = true →
  oy_ProjectFound y = true → fresh_binding s y b → bindings_inv (done ++ [y]) (bs ++ [b]).
Proof.
  intros [Hn Ho Hk Hd Hb] Hy Hnone Hi Hp Hf. pose proof (fb_yard _ _ _ Hf) as Eb.
  assert (∀ c, c ∈ bs → yard_Name (b_Yard c) ≠ oy_Name y) as Hfresh.
  { intros c Hc E. destruct (Ho c Hc) as [(b0 & Hb0 & (S1 & _))|(z & Hz & _ & _ & _ & Hz')].
    - by apply (proj1 (bindings_by_name_None _ _) Hnone b0 Hb0); rewrite <-S1.
    - apply Hy. rewrite <-E, (fb_yard _ _ _ Hz'). by apply (list_elem_of_fmap_2 oy_Name). }
  split.
  - rewrite fmap_app. apply NoDup_app. split_and!; [done| |apply NoDup_singleton].
    intros n (c & -> & Hc)%list_elem_of_fmap E%list_elem_of_singleton. apply (Hfresh c Hc). by rewrite E, Eb.
  - intros c [Hc| ->%list_elem_of_singleton]%elem_of_app.
    + destruct (Ho c Hc) as [?|(z & ? & ?)]; [by left|]. right. exists z. split; [set_solver|done].
    + right. exists y. split_and!; [set_solver|done..].
  - intros b0 Hb0. destruct (Hk b0 Hb0) as (c & Hc & Hs). exists c. split; [set_solver|done].
  - intros z c [Hz| ->%list_elem_of_singleton]%elem_of_app [Hc| ->%list_elem_of_singleton]%elem_of_app E.
    + by apply Hd.
    + destruct Hy. apply list_elem_of_fmap. exists z. split; [|done]. by rewrite <-E, Eb.
    + by destruct (Hfresh c Hc).
    + split; [done|by destruct Hf|]. intros _. by destruct Hf.
  - intros z [Hz| ->%list_elem_of_singleton]%elem_of_app Hi' Hp'.
    + destruct (Hb z Hz Hi' Hp') as (c & Hc & E). exists c. split; [set_solver|done].
    + exists b. split; [set_solver|by rewrite Eb].
Qed.

(** A yard that is passed over: it has no binding. *)
Lemma bindings_inv_skip done y bs :
  bindings_inv done bs → oy_Name y ∉ oy_Name <$> done → known !! oy_Name y = None →
  p_Isolation p = false ∨ oy_ProjectFound y = false → bindings_inv (done ++ [y]) bs.
Proof.
  intros [Hn Ho Hk Hd Hb] Hy Hnone Hskip. split; try done.
  - intros c Hc. destruct (Ho c Hc) as [?|(z & ? & ?)]; [by left|]. right. exists z. split; [set_solver|done].
  - intros z c [Hz| ->%list_elem_of_singleton]%elem_of_app Hc E; [by apply Hd|]. exfalso.
    destruct (Ho c Hc) as [(b0 & Hb0 & (S1 & _))|(z & Hz & _ & _ & _ & Hz')].
    + by apply (proj1 (bindings_by_name_None _ _) Hnone b0 Hb0); rewrite <-S1.
    + apply Hy. rewrite <-E, (fb_yard _ _ _ Hz'). by apply (list_elem_of_fmap_2 oy_Name).
  - intros z [Hz| ->%list_elem_of_singleton]%elem_of_app Hi Hp; [by apply Hb|]. destruct Hskip; congruence.
Qed.

Lemma bind_yard_inv done y st st' :
  bindings_inv done st.1 → oy_Name y ∉ oy_Name <$> done → bind_yard p s known st y = Ok st' →
  bindings_inv (done ++ [y]) st'.1.
Proof.
  destruct st as [bs reserved]. intros HI Hy. unfold bind_yard. intros H. ok_inv.
  destruct (known !! oy_Name y) as [b|] eqn:Hkn.
  - ok_inv. bools. repeat match goal with H : ¬ (_ ≠ _) |- _ => apply dec_stable in H end. subst st'. simpl.
    apply bindings_inv_known; [done..|]. intros [Hi Hr].
    match goal with H : (if _ then _ else _) = Ok _ |- _ => rewrite Hi, bool_decide_false in H by done; simpl in H end.
    ok_inv. bools. by eexists.
  - destruct (negb (p_Isolation p) || negb (oy_ProjectFound y)) eqn:Hc.
    + apply Ok_inj in H as <-. apply bindings_inv_skip; [done..|]. bools. tauto.
    + bools. ok_inv. subst st'. simpl. apply bindings_inv_new; try done. by eapply new_binding_Ok.
Qed.

Lemma planBindings_inv q :
  planBindings p s = Ok q →
  q = p <| p_Bindings := p_Bindings q |> ∧ bindings_inv (sn_Yards s) (p_Bindings q).
Proof.
  unfold planBindings. intros H. apply bind_Ok in H as (st & Hst & H). apply Ok_inj in H as <-. split; [done|].
  assert (bindings_inv (sn_Yards s) st.1) as HI.
  { eapply (for_range_inv (λ done st, bindings_inv done st.1)); [| |exact Hst]; [exact bindings_inv_init|].
    intros pre y post t t' E HI' Hstep. eapply bind_yard_inv; [done| |done].
    rewrite E, fmap_app in Hyards. apply NoDup_app in Hyards as (_ & Hd & _). intros Hin. apply (Hd _ Hin). by left. }
  assert (p_Bindings (p <| p_Bindings := sort_by_key b_name st.1 |>) ≡ₚ st.1) as Hp.
  { simpl. unfold sort_by_key. apply sort_by_perm. }
  destruct HI as [Hn Ho Hk Hd Hb]. split; intros *; rewrite ?Hp; auto.
  - intros Hb0. destruct (Hk b0 Hb0) as (b & ? & ?). exists b. by rewrite Hp.
  - intros Hy Hi Hpf. destruct (Hb y Hy Hi Hpf) as (b & ? & ?). exists b. by rewrite Hp.
Qed.
End plan_bindings.

(** ** The updates of a plan *)

Notation by_name q := (bindings_by_name (p_Bindings q)).

(** The update of yard [y] is in the plan. *)
Definition planned_update (q : Policy) (s : Snapshot) (u : Update) : Prop :=
  ∃ y b, y ∈ sn_Yards s ∧ by_name q !! oy_Name y = Some b ∧ u = wanted_update q s (by_name q) y b ∧
    needs_update y u = true.

(** The checks that a bound yard has passed. *)
Record yard_checked (q : Policy) (y : ObservedYard) (b : Binding) : Prop := {
  yc_owner : validateACLOwner y = Ok tt;
  yc_removed : oy_Name y ∈ p_Removing q → oy_InstanceFound y = false;
  yc_found : oy_Name y ∉ p_Removing q → oy_ProjectFound y = true ∧ oy_ProfileFound y = true;
  yc_valid : oy_ProfileFound y = true → validateYard y b = Ok tt }.

Lemma plan_yard_Ok q s bs updates y updates' :
  plan_yard q s bs updates y = Ok updates' →
  updates' = updates ++ match bs !! oy_Name y with
    | Some b => if needs_update y (wanted_update q s bs y b) then [wanted_update q s bs y b] else []
    | None => []
    end ∧ (∀ b, bs !! oy_Name y = Some b → yard_checked q y b).
Proof.
  unfold plan_yard. destruct (bs !! oy_Name y) as [b|] eqn:Hb.
  - intros H. ok_inv. split.
    + subst updates'. destruct (needs_update _ _); [done|by rewrite app_nil_r].
    + intros ? [= <-].
      repeat match goal with H : ?m = Ok ?u |- _ => match type of u with unit => destruct u end end.
      bools. split; [done|..].
      * intros Hr. match goal with H : _ ∨ oy_InstanceFound _ = false |- _ => destruct H; bools; [done|done] end.
      * intros Hr. match goal with H : _ ∨ oy_Name _ ∈ p_Removing _ |- _ => destruct H as [H|H]; [|done]; bools; done end.
      * intros Hp. by match goal with H : (if _ then _ else _) = Ok _ |- _ => rewrite Hp in H end.
  - intros [= <-]. by rewrite app_nil_r.
Qed.

Lemma plan_yard_loop q s bs l updates :
  for_range (plan_yard q s bs) l [] = Ok updates →
  (∀ u, u ∈ updates ↔ ∃ y b, y ∈ l ∧ bs !! oy_Name y = Some b ∧ u = wanted_update q s bs y b ∧ needs_update y u = true) ∧
  (∀ y b, y ∈ l → bs !! oy_Name y = Some b → yard_checked q y b).
Proof.
  intros H.
  refine (for_range_inv (λ done updates,
    (∀ u, u ∈ updates ↔ ∃ y b, y ∈ done ∧ bs !! oy_Name y = Some b ∧ u = wanted_update q s bs y b ∧ needs_update y u = true) ∧
    (∀ y b, y ∈ done → bs !! oy_Name y = Some b → yard_checked q y b)) _ _ _ _ _ _ H).
  - split; [|by intros ?? ?%elem_of_nil]. intros u. split; [by intros ?%elem_of_nil|by intros (?&?&?%elem_of_nil&_)].
  - intros pre y post t t' _ [HI Hc] [-> Hy]%plan_yard_Ok. split.
    + intros u. rewrite elem_of_app, HI. split.
      * intros [(z & b & ? & ?)|Hu]; [exists z, b; split; [set_solver|done]|].
        destruct (bs !! oy_Name y) as [b|] eqn:Hb; [|by apply elem_of_nil in Hu].
        destruct (needs_update _ _) eqn:Hn; [|by apply elem_of_nil in Hu]. apply list_elem_of_singleton in Hu as ->.
        exists y, b. split_and!; [set_solver|done..].
      * intros (z & b & [Hz| ->%list_elem_of_singleton]%elem_of_app & Hb & -> & Hn); [left; eauto 10|].
        right. rewrite Hb, Hn. by left.
    + intros z b [Hz| ->%list_elem_of_singleton]%elem_of_app Hb; auto.
Qed.

Lemma plan_yards_Ok p s q updates :
  NoDup (b_name <$> p_Bindings p) → NoDup (oy_Name <$> sn_Yards s) → plan_yards p s = Ok (q, updates) →
  q = p <| p_Bindings := p_Bindings q |> ∧ bindings_inv p s (sn_Yards s) (p_Bindings q) ∧
  (∀ u, u ∈ updates ↔ planned_update q s u) ∧
  (∀ y b, y ∈ sn_Yards s → by_name q !! oy_Name y = Some b → yard_checked q y b) ∧
  (p_Isolation q = true → ∃ bridge, check_bridge q s = Ok bridge).
Proof.
  intros Hold Hy H. unfold plan_yards in H. destruct (p_Isolation p || _) eqn:Hg.
  - ok_inv. match goal with H : planBindings _ _ = Ok _ |- _ => apply planBindings_inv in H as [E HI]; [|done..] end.
    match goal with H : (_, _) = (_, _) |- _ => injection H as <- <- end.
    match goal with H : for_range (plan_yard _ _ _) _ _ = Ok _ |- _ => apply plan_yard_loop in H as [Hu Hc] end.
    split_and!; [done..|]. intros Hi.
    match goal with H : (if _ then check_bridge _ _ else _) = Ok _ |- _ => rewrite Hi in H; eauto end.
  - apply Ok_inj in H. injection H as <- <-. bools.
    match goal with H : p_Bindings p = [] |- _ => rename H into Hb end.
    split_and!.
    + by destruct p.
    + rewrite Hb. split; try (intros *; rewrite ?elem_of_nil; done); [apply NoDup_nil_2|..]; intros *; rewrite ?Hb, ?elem_of_nil; [done|congruence].
    + intros u. unfold planned_update. rewrite Hb. split; [by intros ?%elem_of_nil|]. by intros (? & ? & _ & ? & _).
    + rewrite Hb. done.
    + congruence.
Qed.

(** ** The plan as a whole *)

Lemma strip_links_fields names p :
  let q := foldl (λ p name, p <| p_Links := filter (λ link, ¬ link_touches name link) (p_Links p) |>) p names in
  q = p <| p_Links := p_Links q |>.
Proof.
  revert p. induction names as [|n names IH]; intros p; simpl; [by destruct p|]. simpl in IH. rewrite IH. done.
Qed.

Lemma Policy_Link_fields p a b q : Policy_Link p a b = Ok q → q = p <| p_Links := p_Links q |>.
Proof.
  unfold Policy_Link. intros H. ok_inv. subst q. case_bool_decide; [by destruct p|done].
Qed.

Lemma Policy_Unlink_fields p a b q : Policy_Unlink p a b = Ok q → q = p <| p_Links := p_Links q |>.
Proof. unfold Policy_Unlink. intros H. ok_inv. by subst q. Qed.

(** A change edits the links and the isolation mode only. *)
Lemma apply_change_fields p known change q :
  apply_change p known change = Ok q →
  q = p <| p_Links := p_Links q |> <| p_Isolation := default (p_Isolation p) (ch_Isolation change) |>.
Proof.
  unfold apply_change. intros H. ok_inv.
  match goal with H : foldl _ ?a _ = q |- _ => pose proof (strip_links_fields (p_Removing a) a) as E; cbv zeta in E; rewrite H in E end.
  rewrite E. clear E H.
  match goal with
  | H1 : match ch_Link _ with _ => _ end = Ok ?p1, H2 : match ch_Unlink _ with _ => _ end = Ok ?p2 |- _ =>
      assert (p1 = p <| p_Links := p_Links p1 |>) as E1 by
        (destruct (ch_Link change); [by eapply Policy_Link_fields|apply Ok_inj in H1 as <-; by destruct p]);
      assert (p2 = p1 <| p_Links := p_Links p2 |>) as E2 by
        (destruct (ch_Unlink change); [by eapply Policy_Unlink_fields|apply Ok_inj in H2 as <-; by destruct p1]);
      rewrite E1 in E2; rewrite E2
  end.
  by destruct (ch_Isolation change).
Qed.

Lemma Decode_Encode_Ok p content q : Decode_Encode p = Ok (content, q) → Policy_Encode p = Ok content ∧ policy_normal q.
Proof.
  unfold Decode_Encode. intros H. ok_inv. simplify_eq. split; [done|].
  match goal with H : normalize (json_copy _) = Ok _ |- _ => apply normalize_Ok in H as [Hv ->] end.
  by apply norm_policy_normal.
Qed.

Lemma Policy_Encode_valid p content : Policy_Encode p = Ok content → policy_valid p.
Proof. unfold Policy_Encode. intros H. ok_inv. by match goal with H : normalize _ = Ok _ |- _ => apply normalize_Ok in H as [? ->] end. Qed.

(** The policy of a plan is [q], with the next revision when the plan changes
    something. *)
Record built (stored : StoredPolicy) (s : Snapshot) (change : Change) (plan : Plan) (p q : Policy) : Prop := {
  bt_start : ∃ content p0, Decode_Encode (st_Policy stored) = Ok (content, p0) ∧ policy_normal p0 ∧
    apply_change p0 (oy_Name <$> sn_Yards s) change = Ok p ∧
    (pl_Changed plan = false → Policy_Encode q = Ok content);
  bt_yards : plan_yards p s = Ok (q, pl_Updates plan);
  bt_valid : policy_valid q;
  bt_policy : pl_Policy plan = if pl_Changed plan then q <| p_Revision := u64 (p_Revision q + 1) |> else q;
  bt_bound : pl_Changed plan = true → u64 (p_Revision q + 1) ≠ 0;
  bt_same : pl_Changed plan = false → pl_Updates plan = [] ∧ p_AppliedRevision q = p_Revision q ∧
    p_AppliedIsolation q = p_Isolation q ∧ p_PendingStart q = [] ∧ p_Removing q = [];
  bt_physical : pl_Physical plan = negb (bool_decide (pl_Updates plan = [])) }.

Lemma buildPlan_built stored s change plan :
  buildPlan stored s change = Ok plan → ∃ p q, built stored s change plan p q.
Proof.
  intros H. unfold buildPlan in H. apply bind_Ok in H as ([content p0] & H0 & H).
  apply bind_Ok in H as (p & Hp & H). apply bind_Ok in H as ([q updates] & Hq & H).
  apply bind_Ok in H as (encoded & He & H). apply bind_Ok in H as ([] & Hr & H). apply Ok_inj in H as <-.
  apply refuse_Ok in Hr. exists p, q. destruct (Decode_Encode_Ok _ _ _ H0) as [_ Hn].
  set (changed := _ || negb (bool_decide (p_Removing q = []))) in *.
  assert (changed = false → length updates = 0%nat ∧ content = encoded ∧ p_AppliedRevision q = p_Revision q ∧
    p_AppliedIsolation q = p_Isolation q ∧ p_PendingStart q = [] ∧ p_Removing q = []) as Hsame.
  { unfold changed. intros Hc. rewrite !orb_false_iff, !negb_false_iff, !bool_decide_eq_true, bool_decide_eq_false in Hc.
    destruct Hc as [[[[[H1 H2] H3] H4] H5] H6]. apply dec_stable in H2. apply Z.eqb_eq in H3. apply eqb_prop in H4. done. }
  clearbody changed. split; simpl.
  - exists content, p0. split_and!; [done..|]. intros Hc. by destruct (Hsame Hc) as (_ & -> & _).
  - done.
  - by eapply Policy_Encode_valid.
  - by destruct changed.
  - intros ->. simpl in Hr. by apply Z.eqb_neq.
  - intros Hc. destruct (Hsame Hc) as (Hl & _ & ?). apply length_zero_iff_nil in Hl as ->. done.
  - f_equal. apply bool_decide_ext. apply length_zero_iff_nil.
Qed.

(** The policy before the identities are planned has distinct names. *)
Lemma built_names stored s change plan p q : built stored s change plan p q → NoDup (b_name <$> p_Bindings p).
Proof.
  intros [(content & p0 & _ & Hn & Ha & _) _ _ _ _ _ _]. apply apply_change_fields in Ha as ->. simpl.
  apply Hn.
Qed.

(** ** Whom a list admits *)

(** A rule of an Incus access-control list lets a packet in: an enabled allowance
    whose source, protocol and port are absent or those of the packet. *)
Definition rule_admits (r : Rule) (src : Z) (protocol : string) (port : Z) : Prop :=
  ru_Action r = "allow" ∧ ru_State r = "enabled" ∧
  (ru_Source r = "" ∨ ru_Source r = Addr4_String src +:+ "/32") ∧ ru_Destination r = "" ∧
  (ru_Protocol r = "" ∨ ru_Protocol r = protocol) ∧
  (ru_DestinationPort r = "" ∨ ru_DestinationPort r = pretty port).

(** With the default action [drop], a packet needs a rule. *)
Definition admits (acl : ACL) (src : Z) (protocol : string) (port : Z) : Prop :=
  ∃ r, r ∈ acl_Ingress acl ∧ rule_admits r src protocol port.

(** After the plan the host has the settings of [u] for the yard: the plan applies
    them, or the host has them already. *)
Definition settled (plan : Plan) (y : ObservedYard) (u : Update) : Prop :=
  (u ∈ pl_Updates plan ∧ up_Yard u = y) ∨
  ((∀ v, v ∈ pl_Updates plan → up_Yard v ≠ y) ∧ needs_update y u = false).

Lemma string_app_inj_r s t u : s +:+ u = t +:+ u → s = t.
Proof. intros H. apply (inj bytes). apply (app_inv_tail (bytes u)). by rewrite <-!bytes_app, H. Qed.

Lemma string_app_ne s t : t ≠ "" → s +:+ t ≠ "".
Proof. by destruct s. Qed.

Lemma source_rule_admits text protocol port src proto n :
  rule_admits (allow (text +:+ "/32") protocol port) src proto n ↔
  text = Addr4_String src ∧ (protocol = "" ∨ protocol = proto) ∧ (port = "" ∨ port = pretty n).
Proof.
  unfold rule_admits. simpl. split.
  - intros (_ & _ & [E|E] & _ & H1 & H2); [by apply string_app_ne in E|]. by apply string_app_inj_r in E.
  - intros (-> & H1 & H2). split_and!; auto.
Qed.

Lemma Transport_ne i : Transport i ≠ "".
Proof. unfold Transport. by case_bool_decide. Qed.

Lemma route_rule_admits i src proto n :
  rule_admits (route_rule i) src proto n ↔ Transport i = proto ∧ in_GuestPort i = n.
Proof.
  unfold rule_admits, route_rule. simpl. split.
  - intros (_ & _ & _ & _ & [E|E] & [F|F]); try by apply Transport_ne in E. 
    + by apply pretty_Z_ne in F.
    + split; [done|]. by apply (inj pretty).
  - intros [<- <-]. split_and!; auto.
Qed.

Lemma Addr4_String_inj a b : 0 ≤ a < 2 ^ 32 → 0 ≤ b < 2 ^ 32 → Addr4_String a = Addr4_String b → a = b.
Proof.
  intros Ha Hb E. assert (ParseAddr4 (Addr4_String a) = Some a) as Pa by by apply ParseAddr4_Some.
  assert (ParseAddr4 (Addr4_String b) = Some b) as Pb by by apply ParseAddr4_Some. congruence.
Qed.

Lemma ParsePrefix4_range t prefix : ParsePrefix4 t = Some prefix → 0 ≤ pf_addr prefix < 2 ^ 32 ∧ 0 ≤ pf_bits prefix ≤ 32.
Proof.
  unfold ParsePrefix4. destruct (_ <? 0); [done|]. destruct (ParseAddr4 _) as [ip|] eqn:E; simpl; [|done].
  destruct (_ && _); [done|]. destruct (Atoi _) as [bits|]; simpl; [|done].
  destruct ((bits <? 0) || (32 <? bits)) eqn:Hb; [done|]. bools. intros [= <-]. apply ParseAddr4_Some in E as [_ ?].
  simpl. lia.
Qed.

Notation network_of s y := (get_default zero_network (oy_Network y) (sn_Networks s)).

Lemma bridge_address_prefix s y prefix :
  bridgePrefix (network_of s y) = Ok prefix →
  bridge_address s y = Addr4_String (pf_addr prefix) ∧ 0 ≤ pf_addr prefix < 2 ^ 32 ∧ 0 ≤ pf_bits prefix ≤ 32.
Proof.
  unfold bridgePrefix, bridge_address. intros H. ok_inv. subst prefix.
  match goal with H : ParsePrefix4 _ = Some _ |- _ => rewrite H; split; [done|]; by eapply ParsePrefix4_range end.
Qed.

(** The list that a plan wants for an isolated yard admits exactly the linked peers,
    the approved public routes, and the bridge on the port of SSH. *)
Lemma isolated_acl_admits q s y b prefix src proto port :
  NoDup (b_name <$> p_Bindings q) → (∀ c, c ∈ p_Bindings q → is_Some (ParseAddr4 (b_IPv4 c))) →
  bridgePrefix (network_of s y) = Ok prefix → 0 ≤ src < 2 ^ 32 →
  admits (isolated_acl q s (by_name q) y b) src proto port ↔
    (∃ other, other ∈ p_Bindings q ∧ yard_Name (b_Yard other) ∈ Peers q (oy_Name y) ∧ ParseAddr4 (b_IPv4 other) = Some src) ∨
    (∃ i, i ∈ approvedPublicIngress y b ∧ Transport i = proto ∧ in_GuestPort i = port) ∨
    (src = pf_addr prefix ∧ proto = "tcp" ∧ port = 22).
Proof.
  intros Hnd Hip Hpf Hsrc. destruct (bridge_address_prefix _ _ _ Hpf) as (Ebr & Hbr & _).
  unfold admits, isolated_acl. cbn [acl_Ingress]. setoid_rewrite elem_of_app. setoid_rewrite elem_of_app.
  setoid_rewrite list_elem_of_singleton. rewrite Ebr. split.
  - intros (r & [Hr|[Hr| ->]] & Ha).
    + left. apply list_elem_of_bind in Hr as (peer & Hr & Hp). destruct (by_name q !! peer) as [other|] eqn:E; [|by apply elem_of_nil in Hr].
      apply list_elem_of_singleton in Hr as ->. apply source_rule_admits in Ha as (Ea & _).
      apply bindings_by_name_Some in E as [Ho <-]. exists other. split_and!; [done..|]. by apply ParseAddr4_Some.
    + right; left. apply ownedPublicIngressRules_elem in Hr as (i & Hi & ->). apply route_rule_admits in Ha. eauto.
    + right; right. apply source_rule_admits in Ha as (Ea & [?|<-] & [?|Ep]); [done..|].
      split_and!; [|done|]; [|by apply (inj pretty)]. symmetry. by apply Addr4_String_inj.
  - intros [(other & Ho & Hp & [Ea _]%ParseAddr4_Some)|[(i & Hi & Ht & Hg)|(-> & -> & ->)]].
    + exists (allow (b_IPv4 other +:+ "/32") "" ""). split; [|apply source_rule_admits; auto].
      left. apply list_elem_of_bind. exists (yard_Name (b_Yard other)). split; [|done].
      rewrite (proj2 (bindings_by_name_elem _ _ Hnd) Ho). by left.
    + exists (route_rule i). split; [|by apply route_rule_admits]. right; left. apply ownedPublicIngressRules_elem. eauto.
    + eexists. split; [by right; right|]. apply source_rule_admits. auto.
Qed.

(** ** The theorems *)

(** The updates of a plan are those of the policy it plans. *)
Lemma settled_wanted stored s change plan p q y b :
  built stored s change plan p q → NoDup (oy_Name <$> sn_Yards s) → y ∈ sn_Yards s → by_name q !! oy_Name y = Some b →
  settled plan y (wanted_update q s (by_name q) y b).
Proof.
  intros HB Hy Hin Hb. destruct (plan_yards_Ok _ _ _ _ (built_names _ _ _ _ _ _ HB) Hy (bt_yards _ _ _ _ _ _ HB)) as (_ & _ & Hu & _ & _).
  assert (∀ z c, up_Yard (wanted_update q s (by_name q) z c) = z) as Huy.
  { intros z c. unfold wanted_update. by destruct (_ && _). }
  destruct (needs_update y (wanted_update q s (by_name q) y b)) eqn:Hn.
  - left. split; [|done]. apply Hu. by exists y, b.
  - right. split; [|done]. intros v (z & c & Hz & Hc & -> & Hn')%Hu E. rewrite Huy in E. subst z. congruence.
Qed.

(** The policy of the plan has the links, bindings and modes of [q]. *)
Lemma built_policy stored s change plan p q :
  built stored s change plan p q →
  p_Links (pl_Policy plan) = p_Links q ∧ p_Bindings (pl_Policy plan) = p_Bindings q ∧
  p_Isolation (pl_Policy plan) = p_Isolation q ∧ p_Removing (pl_Policy plan) = p_Removing q.
Proof. intros HB. rewrite (bt_policy _ _ _ _ _ _ HB). by destruct (pl_Changed plan). Qed.

(** What a plan establishes for a yard that stays isolated. *)
Lemma isolated_settled stored s change plan p q y b :
  built stored s change plan p q → NoDup (oy_Name <$> sn_Yards s) → p_Isolation q = true → y ∈ sn_Yards s →
  b ∈ p_Bindings q → yard_Name (b_Yard b) = oy_Name y → oy_Name y ∉ p_Removing q →
  settled plan y (mkUpdate y (isolated_nic y b) (oy_Network y) (isolated_acl q s (by_name q) y b) false) ∧
  yard_bound p s y b ∧ on_bridge s y b.
Proof.
  intros HB Hy Hi Hin Hb En Hr.
  pose proof (bd_names _ (pv_bindings_distinct _ (bt_valid _ _ _ _ _ _ HB))) as Hnd.
  assert (by_name q !! oy_Name y = Some b) as Hl by (rewrite <-En; by apply bindings_by_name_elem).
  destruct (plan_yards_Ok _ _ _ _ (built_names _ _ _ _ _ _ HB) Hy (bt_yards _ _ _ _ _ _ HB)) as (E & HI & _).
  pose proof (bi_done _ _ _ _ HI y b Hin Hb En) as Hyb. split_and!; [|done|].
  - pose proof (settled_wanted _ _ _ _ _ _ _ _ HB Hy Hin Hl) as Hs. unfold wanted_update in Hs.
    by rewrite Hi, bool_decide_false in Hs.
  - apply (yb_bridge _ _ _ _ Hyb). rewrite E in Hi, Hr. by split.
Qed.

(** An isolated yard admits exactly the addresses of its linked peers, the
    approved public routes of its binding, and the bridge's own address on port 22;
    its interface is bound to its address and to that list with default [drop]. *)
Theorem isolation_admits stored s change plan y b :
  NoDup (oy_Name <$> sn_Yards s) → buildPlan stored s change = Ok plan → p_Isolation (pl_Policy plan) = true →
  y ∈ sn_Yards s → b ∈ p_Bindings (pl_Policy plan) → yard_Name (b_Yard b) = oy_Name y →
  oy_Name y ∉ p_Removing (pl_Policy plan) →
  ∃ u prefix, settled plan y u ∧ up_RemoveACL u = false ∧
    bridgePrefix (network_of s y) = Ok prefix ∧
    up_NIC u !! "security.acls" = Some (ACLName (oy_Yard y)) ∧
    up_NIC u !! "security.acls.default.ingress.action" = Some "drop" ∧
    up_NIC u !! "security.ipv4_filtering" = Some "true" ∧ up_NIC u !! "security.mac_filtering" = Some "true" ∧
    up_NIC u !! "ipv4.address" = Some (b_IPv4 b) ∧ up_NIC u !! "hwaddr" = Some (b_MAC b) ∧
    ∀ src proto port, 0 ≤ src < 2 ^ 32 →
      admits (up_ACL u) src proto port ↔
      (∃ other, other ∈ p_Bindings (pl_Policy plan) ∧
         yard_Name (b_Yard other) ∈ Peers (pl_Policy plan) (oy_Name y) ∧ ParseAddr4 (b_IPv4 other) = Some src) ∨
      (∃ i, i ∈ b_ApprovedIngress b ∧ Transport i = proto ∧ in_GuestPort i = port) ∨
      (src = pf_addr prefix ∧ proto = "tcp" ∧ port = 22).
Proof.
  intros Hy (p & q & HB)%buildPlan_built. destruct (built_policy _ _ _ _ _ _ HB) as (EL & EB & EI & ER).
  assert (Peers (pl_Policy plan) = Peers q) as EP by (unfold Peers; by rewrite EL).
  rewrite EP, EB, EI, ER. intros Hi Hin Hb En Hr.
  destruct (isolated_settled _ _ _ _ _ _ _ _ HB Hy Hi Hin Hb En Hr) as (Hs & Hyb & (prefix & Hpf & _)).
  pose proof (bt_valid _ _ _ _ _ _ HB) as Hv.
  eexists _, prefix. split; [exact Hs|]. unfold isolated_nic. simpl.
  split_and!; try by repeat (rewrite lookup_insert_ne by done); rewrite lookup_insert_eq.
  { done. } { done. }
  intros src proto port Hsrc. rewrite (isolated_acl_admits q s y b prefix); [|apply Hv|apply Hv|done..].
  by rewrite (yb_ingress _ _ _ _ Hyb).
Qed.

(** The bindings that stay are on one bridge, and no claim on their addresses is
    foreign. *)
Lemma check_bridge_Ok q s bridge :
  (∀ b, b ∈ p_Bindings q → yard_Network (b_Yard b) ≠ "") → check_bridge q s = Ok bridge →
  ∀ b, b ∈ p_Bindings q → yard_Name (b_Yard b) ∉ p_Removing q →
    yard_Network (b_Yard b) = bridge ∧
    ∀ claim, claim ∈ get_default [] (b_IPv4 b) (get_default ∅ (yard_Network (b_Yard b)) (sn_ReservationClaims s)) →
      foreign_claim b claim = false.
Proof.
  intros Hne H. unfold check_bridge in H.
  refine (for_range_inv (λ done bridge, ∀ b, b ∈ done → yard_Name (b_Yard b) ∉ p_Removing q →
    yard_Network (b_Yard b) = bridge ∧ ∀ claim, claim ∈ get_default [] (b_IPv4 b)
      (get_default ∅ (yard_Network (b_Yard b)) (sn_ReservationClaims s)) → foreign_claim b claim = false) _ _ _ _ _ _ H).
  { by intros b ?%elem_of_nil. }
  intros pre x post t t' E HI Hx b Hb Hr. assert (∀ c, c ∈ pre → yard_Network (b_Yard c) ≠ "") as Hpre.
  { intros c Hc. apply Hne. rewrite E. set_solver. }
  case_bool_decide as Hrem.
  { apply Ok_inj in Hx as <-. apply elem_of_app in Hb as [Hb| ->%list_elem_of_singleton]; [auto|done]. }
  ok_inv. subst t'. match goal with H : for_each _ _ = Ok _ |- _ => rewrite for_each_Ok in H; rename H into Hc end.
  apply elem_of_app in Hb as [Hb| ->%list_elem_of_singleton].
  - destruct (HI b Hb Hr) as [Eb Hcl]. split; [|done]. bools.
    match goal with H : ¬ (_ ≠ _) ∨ _ |- _ => destruct H as [H|H]; apply dec_stable in H end; [|congruence].
    destruct (Hpre b Hb). congruence.
  - split; [done|]. intros claim Hclaim. specialize (Hc claim Hclaim). by apply refuse_Ok in Hc.
Qed.

(** Removing a yard strips its links. *)
Lemma apply_change_removing p known change q l :
  apply_change p known change = Ok q → l ∈ p_Links q → ∀ n, n ∈ p_Removing q → ¬ link_touches n l.
Proof.
  intros H. pose proof (apply_change_fields _ _ _ _ H) as E. unfold apply_change in H. ok_inv.
  assert (∀ names p0, let q := foldl (λ p name, p <| p_Links := filter (λ link, ¬ link_touches name link) (p_Links p) |>) p0 names in
    ∀ l, l ∈ p_Links q → l ∈ p_Links p0 ∧ ∀ n, n ∈ names → ¬ link_touches n l) as Hs.
  { clear. intros names. induction names as [|n names IH]; intros p0; simpl; [intros l Hl; split; [done|by intros ? ?%elem_of_nil]|].
    intros l (Hl & Hn)%IH. simpl in Hl. apply list_elem_of_filter in Hl as [Ht Hl]. split; [done|].
    intros m [-> |Hm]%elem_of_cons; auto. }
  match goal with H : foldl _ ?a (p_Removing ?a) = q |- _ =>
    pose proof (Hs (p_Removing a) a l) as Hl; cbv zeta in Hl; rewrite H in Hl;
    pose proof (strip_links_fields (p_Removing a) a) as Ef; cbv zeta in Ef; rewrite H in Ef end.
  intros [_ Hn]%Hl n Hnr. apply Hn. rewrite Ef in Hnr. exact Hnr.
Qed.

Lemma usable_not_bridge prefix ip : usable prefix (Some ip) = true → ip ≠ pf_addr prefix ∧ ip ≠ Masked4 prefix.
Proof.
  unfold usable. rewrite !andb_true_iff, !bool_decide_eq_true. intros (((_ & H1) & H2) & _). split; intros ->; done.
Qed.


(** ** Convergence *)

#[export] Instance ObservedYard_eta : Eta ObservedYard := λ y,
  mkObserved (oy_Yard y) (oy_IngressContracts y) (oy_ProjectFound y) (oy_ProjectETag y) (oy_ProjectConfig y)
    (oy_ProfileFound y) (oy_ProfileETag y) (oy_ProfileDevices y) (oy_ProfileUsedBy y) (oy_InstanceFound y)
    (oy_InstanceInfo y) (oy_IPv4 y) (oy_MAC y) (oy_ACL y).

(** The observation of a yard on which an update was applied. *)
Definition updated_yard (y : ObservedYard) (u : Update) : ObservedYard :=
  y <| oy_ProfileDevices := <["eth0" := up_NIC u]> (oy_ProfileDevices y) |>
    <| oy_ProjectConfig := <["restricted.networks.access" := up_Access u]> (oy_ProjectConfig y) |>
    <| oy_ACL := if up_RemoveACL u then mkACL "" false "" ∅ [] []
                 else mkACL (acl_Name (up_ACL u)) true (acl_ETag (up_ACL u)) (acl_Config (up_ACL u))
                        (acl_Ingress (up_ACL u)) (acl_Egress (up_ACL u)) |>.

Lemma ownedPublicIngressRules_NoDup y b : NoDup (ownedPublicIngressRules y b).
Proof. unfold ownedPublicIngressRules. rewrite keep_order_perm. apply ingress_allowances_spec. Qed.

(** The owned allowances keep their order between rules that are not ours. *)
Lemma ownedPublicIngressRules_stable y y' b pre post :
  approvedPublicIngress y' b = approvedPublicIngress y b →
  acl_Ingress (oy_ACL y') = pre ++ ownedPublicIngressRules y b ++ post →
  (∀ r, r ∈ pre → ru_Source r ≠ "") →
  ownedPublicIngressRules y' b = ownedPublicIngressRules y b.
Proof.
  intros Ea Ei Hpre. unfold ownedPublicIngressRules at 1. rewrite Ei, Ea.
  destruct (ingress_allowances_spec (approvedPublicIngress y b)) as [Hnd Hin].
  rewrite keep_order_skip, keep_order_take.
  - apply keep_order_done.
  - done.
  - unfold ownedPublicIngressRules. apply keep_order_perm.
  - intros r Hr (i & _ & ->)%Hin. by apply Hpre in Hr.
Qed.

Lemma peer_rules_source q bs y r : r ∈ peer_rules q bs y → ru_Source r ≠ "".
Proof.
  intros (peer & Hr & _)%list_elem_of_bind. destruct (bs !! peer); [|by apply elem_of_nil in Hr].
  apply list_elem_of_singleton in Hr as ->. simpl. by apply string_app_ne.
Qed.

(** Applying an update converges: the planner finds nothing left to do for a yard
    whose interface, network access and list were set as it asked, with the same
    policy and the same approved routes.  In particular the order of the public
    allowances inside the list is kept. *)
Theorem update_converges q s bs y b :
  let u := wanted_update q s bs y b in
  let y' := updated_yard y u in
  approvedPublicIngress y' b = approvedPublicIngress y b →
  needs_update y' (wanted_update q s bs y' b) = false.
Proof.
  cbv zeta. intros Ha. unfold wanted_update in *. change (oy_Name (updated_yard y ?u)) with (oy_Name y).
  destruct (p_Isolation q && negb (bool_decide (oy_Name y ∈ p_Removing q))).
  - set (u := mkUpdate _ _ _ _ _) in *. assert (isolated_acl q s bs (updated_yard y u) b =
      mkACL (ACLName (oy_Yard y)) true (acl_ETag (oy_ACL y)) (acl_Config (up_ACL u)) (acl_Ingress (up_ACL u)) (acl_Egress (up_ACL u))) as ->.
    { unfold isolated_acl, u. simpl. f_equal. f_equal. f_equal.
      eapply (ownedPublicIngressRules_stable _ _ _ (peer_rules q bs y)); [exact Ha|done|]. apply peer_rules_source. }
    unfold needs_update, sameACL, get_default. simpl. rewrite !lookup_insert_eq. simpl.
    rewrite !(bool_decide_true (_ = _)), !(bool_decide_false (_ ≠ _)) by auto. by rewrite !andb_false_r.
  - unfold needs_update, get_default. simpl. rewrite !lookup_insert_eq. simpl.
    rewrite !(bool_decide_false (_ ≠ _)) by auto. by rewrite !andb_false_r.
Qed.

(** ** Restoring the host *)

(** Disabling isolation restores, for every bound yard, the interface and the
    network access recorded when it was bound, and removes the yard's list. *)
Lemma disabling_restores stored s change plan y b :
  NoDup (oy_Name <$> sn_Yards s) → buildPlan stored s change = Ok plan → p_Isolation (pl_Policy plan) = false →
  y ∈ sn_Yards s → b ∈ p_Bindings (pl_Policy plan) → yard_Name (b_Yard b) = oy_Name y →
  ∃ u, settled plan y u ∧ up_NIC u = b_OriginalNIC b ∧ up_Access u = b_OriginalAccess b ∧ up_RemoveACL u = true.
Proof.
  intros Hy (p & q & HB)%buildPlan_built. destruct (built_policy _ _ _ _ _ _ HB) as (EL & EB & EI & ER).
  rewrite EB, EI. intros Hi Hin Hb En.
  pose proof (bd_names _ (pv_bindings_distinct _ (bt_valid _ _ _ _ _ _ HB))) as Hnd.
  assert (by_name q !! oy_Name y = Some b) as Hl by (rewrite <-En; by apply bindings_by_name_elem).
  pose proof (settled_wanted _ _ _ _ _ _ _ _ HB Hy Hin Hl) as Hs. unfold wanted_update in Hs. rewrite Hi in Hs.
  by eexists; split; [exact Hs|].
Qed.

(** ** Search of a free address *)

(** An address that a new yard may take. *)
Definition free (prefix : Prefix4) (reserved : gset string) (c : Z) : Prop :=
  0 ≤ c < 2 ^ 32 ∧ Contains4 prefix (Some c) = true ∧ c ≠ pf_addr prefix ∧ Addr4_String c ∉ reserved ∧
  Contains4 prefix (Next4 c) = true.

(** The prefix of an address: its length fits and the address is one. *)
Definition prefix_ok (prefix : Prefix4) : Prop := 0 ≤ pf_addr prefix < 2 ^ 32 ∧ 0 ≤ pf_bits prefix ≤ 32.

Lemma Contains4_past prefix c c' :
  prefix_ok prefix → Masked4 prefix ≤ c → Contains4 prefix (Some c) = false → c ≤ c' → Contains4 prefix (Some c') = false.
Proof.
  unfold prefix_ok, Masked4, Contains4. intros [Ha Hb] Hm Hc Hle. apply Z.eqb_neq in Hc. apply Z.eqb_neq.
  set (k := 2 ^ (32 - pf_bits prefix)) in *. assert (0 < k) as Hk by (apply Z.pow_pos_nonneg; lia).
  assert (pf_addr prefix / k ≤ c / k) by (apply Z.div_le_lower_bound; lia).
  assert (c / k ≤ c' / k) by (apply Z.div_le_mono; lia). lia.
Qed.

Lemma Addr4_String_ne c : 0 ≤ c < 2 ^ 32 → Addr4_String c ≠ "".
Proof.
  intros Hc E. assert (ParseAddr4 (Addr4_String c) = Some c) as H by by apply ParseAddr4_Some.
  rewrite E in H. by vm_compute in H.
Qed.

Lemma free_address_go prefix reserved fuel c0 :
  prefix_ok prefix → Masked4 prefix < c0 < 2 ^ 32 → 0 ≤ c0 →
  let r := free_address fuel prefix reserved (Some c0) in
  (r = "" ∧ ∀ c, c0 ≤ c < c0 + Z.of_nat fuel → ¬ free prefix reserved c) ∨
  (∃ c, r = Addr4_String c ∧ c0 ≤ c < c0 + Z.of_nat fuel ∧ free prefix reserved c ∧
     ∀ c', c0 ≤ c' < c → ¬ free prefix reserved c').
Proof.
  intros Hp. revert c0. induction fuel as [|fuel IH]; intros c0 Hc0 H0; cbn [free_address].
  { left. split; [done|]. intros c Hc. lia. }
  destruct (Contains4 prefix (Some c0)) eqn:Hin.
  2: { left. split; [done|]. intros c Hc (_ & Hcc & _).
       rewrite (Contains4_past prefix c0 c) in Hcc; [done|done|lia|done|lia]. }
  destruct (negb (c0 =? pf_addr prefix) && negb (seen (Addr4_String c0) reserved) && Contains4 prefix (Next4 c0)) eqn:Hf.
  { right. exists c0. unfold seen in Hf. bools. split_and!; [done|lia|lia| |intros; lia]. split_and!; try done; lia. }
  assert (¬ free prefix reserved c0) as Hnf.
  { intros (_ & _ & Ha & Hr & Hn). unfold seen in Hf.
    rewrite (proj2 (Z.eqb_neq _ _) Ha), bool_decide_false, Hn in Hf by done. done. }
  assert (∀ c, c0 ≤ c < c0 + Z.of_nat (S fuel) → c ≠ c0 → c0 + 1 ≤ c < c0 + 1 + Z.of_nat fuel) as Hstep by (intros; lia).
  unfold Next4. destruct (c0 =? 2 ^ 32 - 1) eqn:Hlast.
  - apply Z.eqb_eq in Hlast. left. split; [by destruct fuel|]. intros c Hc [Hr Hf']. destruct (decide (c = c0)) as [-> |]; [|lia].
    by apply Hnf.
  - apply Z.eqb_neq in Hlast. destruct (IH (c0 + 1)) as [[Hr Hall]|(c & Hr & Hc & Hfree & Hmin)]; [lia|lia|..].
    + left. split; [done|]. intros c Hc. destruct (decide (c = c0)) as [-> |]; [done|]. by apply Hall, Hstep.
    + right. exists c. split_and!; [done|lia|lia|done|]. intros c' Hc'.
      destruct (decide (c' = c0)) as [-> |]; [done|]. apply Hmin. lia.
Qed.

(** The bounded search decides within its 65536 candidates.  It returns the least
    address of the bridge above the network address that is usable, not reserved
    and not the bridge's own; it returns none only when the first 65536 candidates
    hold none. *)
Theorem free_address_least prefix reserved :
  prefix_ok prefix → pf_bits prefix ≤ 29 →
  let r := free_address search_bound prefix reserved (Next4 (Masked4 prefix)) in
  (r = "" ∧ ∀ c, Masked4 prefix < c ≤ Masked4 prefix + 65536 → ¬ free prefix reserved c) ∨
  (∃ c, r = Addr4_String c ∧ Masked4 prefix < c ≤ Masked4 prefix + 65536 ∧ free prefix reserved c ∧
     usable prefix (ParseAddr4 r) = true ∧ r ∉ reserved ∧ ∀ c', Masked4 prefix < c' < c → ¬ free prefix reserved c').
Proof.
  intros Hp Hbits. cbv zeta. pose proof Hp as [Ha Hb].
  assert (0 ≤ Masked4 prefix < 2 ^ 32 - 1) as Hm.
  { unfold Masked4. set (k := 2 ^ (32 - pf_bits prefix)).
    assert (2 ^ 3 ≤ k ≤ 2 ^ 32) as Hk by (split; apply Z.pow_le_mono_r; lia).
    pose proof (Z.mul_div_le (pf_addr prefix) k). pose proof (Z.div_pos (pf_addr prefix) k).
    assert (k * (2 ^ 32 / k) = 2 ^ 32) as Hd.
    { unfold k. rewrite <-Z.pow_sub_r, <-Z.pow_add_r by lia. f_equal. lia. }
    assert (pf_addr prefix / k < 2 ^ 32 / k) by (apply Z.div_lt_upper_bound; lia). nia. }
  assert (Next4 (Masked4 prefix) = Some (Masked4 prefix + 1)) as ->.
  { unfold Next4. by rewrite (proj2 (Z.eqb_neq _ _)) by lia. }
  assert (Z.of_nat search_bound = 65536) as Hsb by (unfold search_bound; by rewrite Z2Nat.id).
  revert Hsb. generalize search_bound. intros n Hsb.
  destruct (free_address_go prefix reserved n (Masked4 prefix + 1)) as [[Hr Hall]|(c & Hr & Hc & Hf & Hmin)]; [done|lia|lia|..].
  - left. split; [done|]. intros c Hc. apply Hall. lia.
  - right. exists c. rewrite Hr. destruct Hf as (Hrange & Hin & Hna & Hres & Hnext).
    split_and!; [done|lia|lia|done| |done|intros; apply Hmin; lia].
    rewrite (proj2 (ParseAddr4_Some _ c)) by done. unfold usable. rewrite Hin. cbn [mbind option_bind]. rewrite Hnext.
    rewrite !bool_decide_true; [done|intros [= ?]; lia|intros [= ?]; lia].
Qed.

(** ** Identities *)

(** The binding that the encoding of [b] decodes to. *)
Definition saved_copy (b c : Binding) : Prop :=
  b_Yard c = b_Yard b ∧ b_IPv4 c = b_IPv4 b ∧ b_MAC c = b_MAC b ∧
  b_OriginalNIC c = json_text_map (b_OriginalNIC b) ∧ b_OriginalAccess c = ToValidText (b_OriginalAccess b).

Lemma Decode_Encode_bindings p content q :
  Decode_Encode p = Ok (content, q) →
  (∀ b, b ∈ p_Bindings p → ∃ c, c ∈ p_Bindings q ∧ saved_copy b c) ∧
  (∀ c, c ∈ p_Bindings q → ∃ b, b ∈ p_Bindings p ∧ saved_copy b c).
Proof.
  unfold Decode_Encode. intros H. ok_inv. simplify_eq.
  repeat match goal with H : normalize _ = Ok _ |- _ => apply normalize_Ok in H as [_ ->] end. simpl.
  unfold sort_by_key. split.
  - intros b Hb. eexists. rewrite elem_of_sort_by. split.
    + apply list_elem_of_fmap_2, list_elem_of_fmap_2. apply elem_of_sort_by, list_elem_of_fmap_2, Hb.
    + done.
  - intros c. rewrite elem_of_sort_by. intros (d & -> & (e & -> & He)%list_elem_of_fmap)%list_elem_of_fmap.
    rewrite elem_of_sort_by in He. apply list_elem_of_fmap in He as (b & -> & Hb). by exists b.
Qed.

(** Every saved binding keeps its identity and its original settings. *)
Lemma built_kept stored s change plan p q b :
  built stored s change plan p q → NoDup (oy_Name <$> sn_Yards s) → b ∈ p_Bindings (st_Policy stored) →
  ∃ c, c ∈ p_Bindings q ∧ saved_copy b c.
Proof.
  intros HB Hy Hb.
  destruct (plan_yards_Ok _ _ _ _ (built_names _ _ _ _ _ _ HB) Hy (bt_yards _ _ _ _ _ _ HB)) as (_ & HI & _).
  destruct (bt_start _ _ _ _ _ _ HB) as (content & p0 & Hde & _ & Hch & _).
  destruct (proj1 (Decode_Encode_bindings _ _ _ Hde) b Hb) as (c & Hc & Hs).
  destruct (bi_kept _ _ _ _ HI c) as (d & Hd & Hs'); [by rewrite (apply_change_fields _ _ _ _ Hch)|].
  exists d. split; [done|]. unfold saved_copy, same_identity in *. naive_solver congruence.
Qed.

(** Under isolation a yard with a project is bound; a new binding records its
    settings. *)
Lemma built_bound stored s change plan p q y :
  built stored s change plan p q → NoDup (oy_Name <$> sn_Yards s) → p_Isolation q = true → y ∈ sn_Yards s →
  oy_ProjectFound y = true → ∃ b, b ∈ p_Bindings q ∧ b_Yard b = oy_Yard y ∧
    (¬ (∃ b0, b0 ∈ p_Bindings (st_Policy stored) ∧ yard_Name (b_Yard b0) = oy_Name y) →
     b_OriginalNIC b = dev (oy_ProfileDevices y) "eth0" ∧
     b_OriginalAccess b = cfg (oy_ProjectConfig y) "restricted.networks.access").
Proof.
  intros HB Hy Hi Hin Hpf.
  destruct (plan_yards_Ok _ _ _ _ (built_names _ _ _ _ _ _ HB) Hy (bt_yards _ _ _ _ _ _ HB)) as (E & HI & _).
  destruct (bt_start _ _ _ _ _ _ HB) as (content & p0 & Hde & _ & Hch & _).
  assert (p_Isolation p = true) as Hip by (rewrite E in Hi; exact Hi).
  destruct (bi_bound _ _ _ _ HI y Hin Hip Hpf) as (b & Hb & En). exists b. split; [done|].
  pose proof (bi_done _ _ _ _ HI y b Hin Hb En) as Hyb. split; [apply Hyb|]. intros Hnew.
  destruct (bi_origin _ _ _ _ HI b Hb) as [(b0 & Hb0 & Hs)|(z & Hz & _ & _ & _ & Hf)].
  - rewrite (apply_change_fields _ _ _ _ Hch) in Hb0.
    destruct (proj2 (Decode_Encode_bindings _ _ _ Hde) b0 Hb0) as (b1 & Hb1 & Hs'). destruct Hnew. exists b1. split; [done|].
    destruct Hs as [Hs _], Hs' as [Hs' _]. by rewrite <-Hs', <-Hs.
  - assert (z = y) as ->; [|by destruct Hf]. apply (NoDup_key oy_Name (sn_Yards s)); [done..|].
    rewrite <-En. unfold oy_Name. by rewrite (fb_yard _ _ _ Hf).
Qed.

(** C26: The identities of a plan.  The bindings of the new policy are good and share no
    name, instance, address or hardware address; every saved binding keeps its
    yard, its addresses and its original settings; under isolation every yard with
    a project is bound to its own identity, with its interface and network access
    recorded when the binding is new, and no other network identity claims the
    address of a yard that stays. *)
Theorem plan_identities stored s change plan :
  NoDup (oy_Name <$> sn_Yards s) → buildPlan stored s change = Ok plan →
  (∀ b, b ∈ p_Bindings (pl_Policy plan) → binding_good b) ∧ bindings_distinct (p_Bindings (pl_Policy plan)) ∧
  (∀ b, b ∈ p_Bindings (st_Policy stored) → ∃ c, c ∈ p_Bindings (pl_Policy plan) ∧ saved_copy b c) ∧
  (p_Isolation (pl_Policy plan) = true →
   (∀ y, y ∈ sn_Yards s → oy_ProjectFound y = true → ∃ b, b ∈ p_Bindings (pl_Policy plan) ∧ b_Yard b = oy_Yard y ∧
      (¬ (∃ b0, b0 ∈ p_Bindings (st_Policy stored) ∧ yard_Name (b_Yard b0) = oy_Name y) →
       b_OriginalNIC b = dev (oy_ProfileDevices y) "eth0" ∧
       b_OriginalAccess b = cfg (oy_ProjectConfig y) "restricted.networks.access")) ∧
   (∀ b claim, b ∈ p_Bindings (pl_Policy plan) → yard_Name (b_Yard b) ∉ p_Removing (pl_Policy plan) →
      claim ∈ get_default [] (b_IPv4 b) (get_default ∅ (yard_Network (b_Yard b)) (sn_ReservationClaims s)) →
      foreign_claim b claim = false)).
Proof.
  intros Hy (p & q & HB)%buildPlan_built. destruct (built_policy _ _ _ _ _ _ HB) as (_ & EB & EI & ER).
  rewrite EB, EI, ER. pose proof (bt_valid _ _ _ _ _ _ HB) as [_ _ _ _ Hgood Hdist _ _ _ _ _].
  split_and!; [done..| |].
  - intros b. by eapply built_kept.
  - intros Hi. split; [intros y; by eapply built_bound|]. intros b claim Hb Hr Hc.
    destruct (plan_yards_Ok _ _ _ _ (built_names _ _ _ _ _ _ HB) Hy (bt_yards _ _ _ _ _ _ HB)) as (_ & _ & _ & _ & Hbr).
    destruct (Hbr Hi) as [bridge Hbridge]. eapply check_bridge_Ok; [|done..]. intros e He. apply SafeName_ne. by apply Hgood.
Qed.

(** ** Enabling and disabling *)

(** Text that JSON keeps. *)
Definition text_map (m : config_map) : Prop := map_Forall (λ k v, ValidString k = true ∧ ValidString v = true) m.

Lemma foldl_insert_lookup {A} (l : list (string * A)) (acc : gmap string A) k :
  NoDup l.*1 → foldl (λ acc kv, <[kv.1 := kv.2]> acc) acc l !! k = match (list_to_map l : gmap string A) !! k with
    | Some v => Some v | None => acc !! k end.
Proof.
  revert acc. induction l as [|[k' v] l IH]; intros acc; csimpl; [done|]. intros [Hk Hnd]%NoDup_cons.
  rewrite IH by done. simpl. destruct (decide (k = k')) as [-> |Hne].
  - rewrite (not_elem_of_list_to_map_1 l) by done. by rewrite !lookup_insert_eq.
  - by rewrite !lookup_insert_ne by done.
Qed.

Lemma json_text_map_id m : text_map m → json_text_map m = m.
Proof.
  intros Hm. unfold json_text_map. set (l := sort_by_key fst (map_to_list m)).
  assert (l ≡ₚ map_to_list m) as Hl by (unfold l, sort_by_key; apply sort_by_perm).
  assert (foldl (λ acc kv, <[ToValidText kv.1:=ToValidText kv.2]> acc) ∅ l = foldl (λ acc kv, <[kv.1:=kv.2]> acc) ∅ l) as ->.
  { assert (∀ kv, kv ∈ l → ToValidText kv.1 = kv.1 ∧ ToValidText kv.2 = kv.2) as Ht.
    { intros [k v]. rewrite Hl. intros Hkv%elem_of_map_to_list. destruct (Hm k v Hkv). by rewrite !ToValidText_id. }
    generalize (∅ : config_map). clear Hl. induction l as [|kv l IH]; intros acc; [done|]. simpl.
    destruct (Ht kv) as [-> ->]; [by left|]. apply IH. intros kv' ?. apply Ht. by right. }
  apply map_eq. intros k. rewrite foldl_insert_lookup, lookup_empty.
  - rewrite (list_to_map_proper l (map_to_list m)), list_to_map_to_list; [by destruct (m !! k)| |done].
    rewrite Hl. apply NoDup_fst_map_to_list.
  - rewrite Hl. apply NoDup_fst_map_to_list.
Qed.

(** Enabling isolation and disabling it again restores the host: a yard that the
    first plan bound gets back, from the plan that disables isolation on the saved
    policy, the interface and the network access that it had before, and its list
    is removed.  The settings must be UTF-8 text, as JSON keeps only that. *)
Theorem isolation_roundtrip stored1 s1 change1 plan1 y stored2 s2 change2 plan2 z :
  NoDup (oy_Name <$> sn_Yards s1) → buildPlan stored1 s1 change1 = Ok plan1 → p_Isolation (pl_Policy plan1) = true →
  y ∈ sn_Yards s1 → oy_ProjectFound y = true →
  ¬ (∃ b0, b0 ∈ p_Bindings (st_Policy stored1) ∧ yard_Name (b_Yard b0) = oy_Name y) →
  p_Bindings (st_Policy stored2) = p_Bindings (pl_Policy plan1) →
  NoDup (oy_Name <$> sn_Yards s2) → buildPlan stored2 s2 change2 = Ok plan2 → p_Isolation (pl_Policy plan2) = false →
  z ∈ sn_Yards s2 → oy_Name z = oy_Name y →
  text_map (dev (oy_ProfileDevices y) "eth0") → ValidString (cfg (oy_ProjectConfig y) "restricted.networks.access") = true →
  ∃ u, settled plan2 z u ∧ up_NIC u = dev (oy_ProfileDevices y) "eth0" ∧
    up_Access u = cfg (oy_ProjectConfig y) "restricted.networks.access" ∧ up_RemoveACL u = true.
Proof.
  intros Hy1 (p1 & q1 & HB1)%buildPlan_built Hi1 Hin Hpf Hnew Esaved Hy2 Hplan2 Hi2 Hz En Htext Haccess.
  destruct (built_policy _ _ _ _ _ _ HB1) as (_ & EB1 & EI1 & _). rewrite EI1 in Hi1. rewrite EB1 in Esaved.
  destruct (built_bound _ _ _ _ _ _ _ HB1 Hy1 Hi1 Hin Hpf) as (b & Hb & Eb & Horig). destruct (Horig Hnew) as [Enic Eacc].
  destruct (buildPlan_built _ _ _ _ Hplan2) as (p2 & q2 & HB2). destruct (built_policy _ _ _ _ _ _ HB2) as (_ & EB2 & _ & _).
  rewrite <-Esaved in Hb. destruct (built_kept _ _ _ _ _ _ _ HB2 Hy2 Hb) as (c & Hc & Sy & _ & _ & Sn & Sa).
  rewrite <-EB2 in Hc. destruct (disabling_restores _ _ _ _ z c Hy2 Hplan2 Hi2 Hz Hc) as (u & Hs & En' & Ea & Hr).
  { by rewrite Sy, Eb, En. }
  exists u. split_and!; [done| | |done].
  - by rewrite En', Sn, Enic, json_text_map_id.
  - by rewrite Ea, Sa, Eacc, ToValidText_id.
Qed.

(** ** Concrete plans *)

Definition demo_on : Change := mkChange None None (Some true).
Definition demo_off : Change := mkChange None None (Some false).

Definition plan_of (r : result net_error Plan) : Plan :=
  match r with Ok plan => plan | Err _ => mkPlan demo_stored demo_normal [] false false demo_on [] end.

Lemma plan_of_Ok r : is_ok r = true → r = Ok (plan_of r).
Proof. by destruct r. Qed.

Definition demo_plan : Plan := plan_of (buildPlan demo_stored demo_snapshot demo_on).

Lemma demo_plan_Ok : buildPlan demo_stored demo_snapshot demo_on = Ok demo_plan.
Proof. apply plan_of_Ok. by vm_compute. Qed.

Definition demo_bound (name ip mac : string) : Binding := mkBinding (demo_yard name) ip mac demo_nic "" [].

Lemma demo_plan_bindings : p_Bindings (pl_Policy demo_plan) =
  [demo_bound "api" "10.0.3.3" "02:9a:7c:8c:19:ed"; demo_bound "db" "10.0.3.4" "02:cc:ce:81:61:6e";
   demo_bound "web" "10.0.3.5" "02:71:8f:dd:8f:b4"].
Proof. apply (bool_decide_unpack _). by vm_compute. Qed.

Lemma demo_plan_modes : p_Isolation (pl_Policy demo_plan) = true ∧ p_Removing (pl_Policy demo_plan) = [].
Proof. by vm_compute. Qed.

Lemma demo_yards_distinct : NoDup (oy_Name <$> sn_Yards demo_snapshot).
Proof. apply (bool_decide_unpack _). by vm_compute. Qed.

Lemma demo_in name : name ∈ ["api"; "db"; "web"] → demo_observed name ∈ sn_Yards demo_snapshot.
Proof. intros H. by apply (list_elem_of_fmap_2 demo_observed) in H. Qed.


Lemma isolation_admits_witness :
  ∃ u, settled demo_plan (demo_observed "api") u ∧ up_NIC u !! "ipv4.address" = Some "10.0.3.3".
Proof.
  destruct (isolation_admits demo_stored demo_snapshot demo_on demo_plan (demo_observed "api")
    (demo_bound "api" "10.0.3.3" "02:9a:7c:8c:19:ed")) as (u & prefix & Hs & _ & _ & _ & _ & _ & _ & Hip & _).
  - exact demo_yards_distinct.
  - exact demo_plan_Ok.
  - apply demo_plan_modes.
  - apply demo_in. set_solver.
  - rewrite demo_plan_bindings. set_solver.
  - reflexivity.
  - rewrite (proj2 demo_plan_modes). apply not_elem_of_nil.
  - exists u. split; [exact Hs|exact Hip].
Defined.

Lemma plan_identities_witness : bindings_distinct (p_Bindings (pl_Policy demo_plan)).
Proof. apply (plan_identities demo_stored demo_snapshot demo_on demo_plan demo_yards_distinct demo_plan_Ok). Defined.

Lemma update_converges_witness :
  let u := wanted_update (pl_Policy demo_plan) demo_snapshot (by_name (pl_Policy demo_plan)) (demo_observed "db")
             (demo_bound "db" "10.0.3.4" "02:cc:ce:81:61:6e") in
  let y' := updated_yard (demo_observed "db") u in
  needs_update (demo_observed "db") u = true ∧
  needs_update y' (wanted_update (pl_Policy demo_plan) demo_snapshot (by_name (pl_Policy demo_plan)) y'
                     (demo_bound "db" "10.0.3.4" "02:cc:ce:81:61:6e")) = false.
Proof. split; [by vm_compute|]. apply update_converges. by vm_compute. Defined.

Lemma free_address_least_witness :
  let prefix := mkPrefix4 (addr_of 10 0 3 1) 24 in
  free_address search_bound prefix {[ "10.0.3.2" ]} (Next4 (Masked4 prefix)) = "10.0.3.3" ∧
  ∃ c, Addr4_String c = "10.0.3.3" ∧ ∀ c', Masked4 prefix < c' < c → ¬ free prefix {[ "10.0.3.2" ]} c'.
Proof.
  cbv zeta. assert (free_address search_bound (mkPrefix4 (addr_of 10 0 3 1) 24) {[ "10.0.3.2" ]}
    (Next4 (Masked4 (mkPrefix4 (addr_of 10 0 3 1) 24))) = "10.0.3.3") as E by by vm_compute.
  split; [exact E|]. destruct (free_address_least (mkPrefix4 (addr_of 10 0 3 1) 24) {[ "10.0.3.2" ]})
    as [[E' _]|(c & E' & _ & _ & _ & _ & Hmin)].
  - by vm_compute.
  - by vm_compute.
  - rewrite E in E'. discriminate E'.
  - exists c. split; [by rewrite <-E', E|exact Hmin].
Defined.

(** The host after the plan, and the plan that disables isolation on it. *)
Definition demo_applied (y : ObservedYard) : ObservedYard :=
  match list_find (λ u, oy_Name (up_Yard u) = oy_Name y) (pl_Updates demo_plan) with
  | Some (_, u) => updated_yard y u
  | None => y
  end.

Definition demo_snapshot_on : Snapshot :=
  mkSnapshot "nftables" false (demo_applied <$> sn_Yards demo_snapshot) (sn_Networks demo_snapshot) ∅.

Definition demo_stored_on : StoredPolicy := mkStored (pl_Policy demo_plan <| p_AppliedRevision := 1 |>) "" "".

Definition demo_plan_off : Plan := plan_of (buildPlan demo_stored_on demo_snapshot_on demo_off).

Lemma demo_plan_off_Ok : buildPlan demo_stored_on demo_snapshot_on demo_off = Ok demo_plan_off.
Proof. apply plan_of_Ok. by vm_compute. Qed.

Lemma isolation_roundtrip_witness :
  ∃ u, settled demo_plan_off (demo_applied (demo_observed "db")) u ∧ up_NIC u = demo_nic ∧ up_RemoveACL u = true.
Proof.
  destruct (isolation_roundtrip demo_stored demo_snapshot demo_on demo_plan (demo_observed "db")
    demo_stored_on demo_snapshot_on demo_off demo_plan_off (demo_applied (demo_observed "db")))
    as (u & Hs & En & _ & Hr).
  - exact demo_yards_distinct.
  - exact demo_plan_Ok.
  - apply demo_plan_modes.
  - apply demo_in. set_solver.
  - reflexivity.
  - intros (b0 & Hb & _). by apply elem_of_nil in Hb.
  - reflexivity.
  - apply (bool_decide_unpack _). by vm_compute.
  - exact demo_plan_off_Ok.
  - by vm_compute.
  - apply (list_elem_of_fmap_2 demo_applied), demo_in. set_solver.
  - by vm_compute.
  - apply (bool_decide_unpack _). by vm_compute.
  - by vm_compute.
  - exists u. split; [exact Hs|]. split; [exact En|exact Hr].
Defined.
