(* ===== verification/Effects.v ===== *)
(** * Effectful code

    A Go method that calls an interface of the host: a function from the state of
    the world to a new state and a value or an error.  Unlike a pure function, a
    call that fails may have changed the world.  Specifications are triples with
    a postcondition for the value and one for the error. *)

From S2P Require Import Prelude.

Definition eff (W E A : Type) : Type := W → W * result E A.

#[export] Instance eff_ret {W E} : MRet (eff W E) := λ A a w, (w, Ok a).

#[export] Instance eff_bind {W E} : MBind (eff W E) := λ A B f m w,
  match m w with
  | (w', Ok a) => f a w'
  | (w', Err e) => (w', Err e)
  end.

(** A computation that does not touch the world. *)
Definition pure {W E A} (m : result E A) : eff W E A := λ w, (w, m).

(** [if bad { return e }] *)
Definition fail_if {W E} (bad : bool) (e : E) : eff W E unit := pure (refuse bad e).

(** [if cond { body }] *)
Definition when {W E} (cond : bool) (body : eff W E unit) : eff W E unit :=
  if cond then body else mret tt.

(** The error of a call that the code ignores. *)
Definition ignore {W E A} (m : eff W E A) : eff W E unit := λ w, ((m w).1, Ok tt).

(** [if err := m; err != nil { return f(err) }] *)
Definition rescue {W E A} (f : E → E) (m : eff W E A) : eff W E A := λ w,
  match m w with
  | (w', Ok a) => (w', Ok a)
  | (w', Err e) => (w', Err (f e))
  end.

(** A range over a list whose body may fail. *)
Fixpoint for_list {W E A} (body : A → eff W E unit) (l : list A) : eff W E unit :=
  match l with
  | [] => mret tt
  | x :: l => body x;; for_list body l
  end.

(** ** Triples *)

Definition triple {W E A} (P : W → Prop) (m : eff W E A) (Q : A → W → Prop) (R : E → W → Prop) : Prop :=
  ∀ w, P w → match m w with
             | (w', Ok a) => Q a w'
             | (w', Err e) => R e w'
             end.

Section rules.
Context {W E : Type}.
Implicit Types (P : W → Prop) (R : E → W → Prop).

Lemma triple_ret {A} (a : A) P R : triple P (mret a) (λ b w, b = a ∧ P w) R.
Proof. intros w Hw. done. Qed.

Lemma triple_ret_bind {A B} (a : A) (f : A → eff W E B) P Q R : triple P (f a) Q R → triple P (mret a ≫= f) Q R.
Proof. done. Qed.

Lemma triple_pure {A} (m : result E A) P R :
  (∀ e w, m = Err e → P w → R e w) → triple P (pure m) (λ a w, m = Ok a ∧ P w) R.
Proof. intros He w Hw. unfold pure. destruct m; [done|]. by apply He. Qed.

Lemma triple_bind {A B} (m : eff W E A) (f : A → eff W E B) P Q Q' R :
  triple P m Q R → (∀ a, triple (Q a) (f a) Q' R) → triple P (m ≫= f) Q' R.
Proof.
  intros Hm Hf w Hw. specialize (Hm w Hw). unfold mbind, eff_bind. destruct (m w) as [w' [a|e]]; [|done].
  by apply Hf.
Qed.

Lemma triple_weaken {A} (m : eff W E A) P P' (Q Q' : A → W → Prop) R R' :
  triple P' m Q' R' → (∀ w, P w → P' w) → (∀ a w, Q' a w → Q a w) → (∀ e w, R' e w → R e w) → triple P m Q R.
Proof.
  intros Hm HP HQ HR w Hw. specialize (Hm w (HP w Hw)). destruct (m w) as [w' [a|e]]; auto.
Qed.

(** Backwards from a known specification of the first call. *)
Lemma triple_seq {A B} (m : eff W E A) (f : A → eff W E B) P P' Q Q' R R' :
  triple P' m Q R' → (∀ w, P w → P' w) → (∀ e w, R' e w → R e w) → (∀ a, triple (Q a) (f a) Q' R) →
  triple P (m ≫= f) Q' R.
Proof. intros Hm HP HR Hf. eapply triple_bind; [by eapply triple_weaken; [exact Hm|exact HP|auto|exact HR]|exact Hf]. Qed.

Lemma triple_fact {A} (φ : Prop) (m : eff W E A) P Q R : (φ → triple P m Q R) → triple (λ w, P w ∧ φ) m Q R.
Proof. intros Hm w [Hw Hφ]. by apply Hm. Qed.

Lemma triple_given {A} (φ : Prop) (m : eff W E A) P Q R : (φ → triple P m Q R) → triple (λ w, φ ∧ P w) m Q R.
Proof. intros Hm w [Hφ Hw]. by apply Hm. Qed.

Lemma triple_fail_if b e P R :
  (∀ w, b = true → P w → R e w) → triple P (fail_if b e) (λ _ w, b = false ∧ P w) R.
Proof. intros He w Hw. unfold fail_if, pure. destruct b; [by apply He|done]. Qed.

Lemma triple_check b e P (Q : unit → W → Prop) R :
  (∀ w, b = true → P w → R e w) → (∀ w, b = false → P w → Q tt w) → triple P (fail_if b e) Q R.
Proof. intros He Hq w Hw. unfold fail_if, pure. destruct b; [by apply He|by apply Hq]. Qed.

Lemma triple_when (b : bool) body P R (Q : W → Prop) :
  triple (λ w, b = true ∧ P w) body (λ _, Q) R → (∀ w, b = false → P w → Q w) → triple P (when b body) (λ _, Q) R.
Proof. intros Hb Hn w Hw. unfold when. destruct b; [by apply Hb|by apply Hn]. Qed.

(** The loop rule: the invariant may mention what is left to do. *)
Lemma triple_for_list {A} (body : A → eff W E unit) (I : list A → W → Prop) l R :
  (∀ x rest, triple (I (x :: rest)) (body x) (λ _, I rest) R) → triple (I l) (for_list body l) (λ _, I []) R.
Proof.
  intros Hb. induction l as [|x l IH]; [by intros w Hw|]. eapply triple_bind; [apply Hb|]. intros []. apply IH.
Qed.

(** The loop rule for an invariant of the world alone, for the elements of the list. *)
Lemma triple_for_all {A} (body : A → eff W E unit) (I : W → Prop) l R :
  (∀ x, x ∈ l → triple I (body x) (λ _, I) R) → triple I (for_list body l) (λ _, I) R.
Proof.
  induction l as [|x l IH]; intros Hb; [by intros w Hw|].
  eapply triple_bind; [apply Hb; by left|]. intros []. apply IH. intros y Hy. apply Hb. by right.
Qed.

Lemma triple_ignore {A} (m : eff W E A) P Q :
  triple P m (λ _, Q) (λ _, Q) → triple P (ignore m) (λ _, Q) (λ _ _, False).
Proof. intros Hm w Hw. specialize (Hm w Hw). unfold ignore. by destruct (m w) as [w' [a|e]]. Qed.

Lemma triple_rescue {A} (f : E → E) (m : eff W E A) P Q R :
  triple P m Q (λ e, R (f e)) → triple P (rescue f m) Q R.
Proof. intros Hm w Hw. specialize (Hm w Hw). unfold rescue. by destruct (m w) as [w' [a|e]]. Qed.

(** Executions that succeed. *)
Lemma bind_run {A B} (m : eff W E A) (f : A → eff W E B) w w' b :
  (m ≫= f) w = (w', Ok b) ↔ ∃ w1 a, m w = (w1, Ok a) ∧ f a w1 = (w', Ok b).
Proof. unfold mbind, eff_bind. destruct (m w) as [w1 [a|e]]; naive_solver. Qed.

Lemma bind_ok {A B} (m : eff W E A) (f : A → eff W E B) w w' a : m w = (w', Ok a) → (m ≫= f) w = f a w'.
Proof. unfold mbind, eff_bind. by intros ->. Qed.

Lemma pure_run {A} (m : result E A) (w w' : W) a : pure m w = (w', Ok a) ↔ w' = w ∧ m = Ok a.
Proof. unfold pure. naive_solver. Qed.

Lemma fail_if_run b e (w w' : W) u : fail_if (E:=E) b e w = (w', Ok u) ↔ w' = w ∧ b = false.
Proof. unfold fail_if. rewrite pure_run, refuse_Ok. done. Qed.
End rules.
