(* ===== verification/NetService.v ===== *)
(** * Service of the yard network

    internal/yardnetwork/service.go: how a plan reaches the host.  The host is the
    interface of host.go; every call may fail and may have changed the host when it
    does.  [Apply] and [Ensure], which compare the fingerprints of two plans, are not
    modelled; [applyLocked], which they and the removal of yards end in, is. *)

From S2P Require Import Prelude GoStrings GoSort Sha256 Names GoJson GoNet NetPolicy NetPlanner Effects.

(** ** The host *)

(** internal/yardnetwork/host.go:94-103 [Host] *)
Class Host (W : Type) := {
  ReadPolicy : eff W net_error StoredPolicy;
  WritePolicy : StoredPolicy → Policy → eff W net_error StoredPolicy;
  InspectNetwork : list Yard → eff W net_error Snapshot;
  WriteNetworkACL : ACL → eff W net_error unit;
  DeleteNetworkACL : ACL → eff W net_error unit;
  WriteProfileNIC : ObservedYard → config_map → eff W net_error unit;
  WriteProjectNetworks : ObservedYard → string → eff W net_error unit;
  NetworkPower : Yard → string → eff W net_error unit }.

#[export] Instance Yard_countable : Countable Yard.
Proof.
  refine (inj_countable' (λ y, (yard_Name y, yard_Project y, yard_Instance y, yard_Network y))
    (λ '(a, b, c, d), mkYard a b c d) _). by intros [].
Defined.

#[export] Instance ProxyContract_eq_dec : EqDecision ProxyContract.
Proof. solve_decision. Defined.

(** [strings.EqualFold] with an ASCII text: the letters k and s also fold with the
    Kelvin sign and the long s. *)
Definition fold_rune (r : Z) : Z :=
  if between 65 r 90 then r + 32 else if r =? 0x212A then 107 else if r =? 0x17F then 115 else r.

Definition EqualFold (s t : string) : bool := bool_decide (fold_rune <$> runes s = fold_rune <$> runes t).

Definition stale {A} : result net_error A := Err (NetPlan "plan is stale").

(** ** Yards *)

Definition yard_safe (y : Yard) : bool :=
  SafeName (yard_Name y) && SafeName (yard_Project y) && SafeName (yard_Instance y) && SafeName (yard_Network y).

(** One entry of [byName], refused when it differs from the one there. *)
Definition merge_yard (what : string) (byName : gmap string Yard) (y : Yard) : result net_error (gmap string Yard) :=
  refuse (match byName !! yard_Name y with Some old => bool_decide (old ≠ y) | None => false end) (NetPlan what);;
  Ok (<[yard_Name y := y]> byName).

(** internal/yardnetwork/service.go:146-169 [mergeYards] *)
Definition mergeYards (yards : list Yard) (p : Policy) : result net_error (list Yard) :=
  byName ← for_range (λ byName y,
    refuse (negb (yard_safe y)) (NetPlan "invalid identity");; merge_yard "ambiguous name" byName y) yards ∅;
  byName ← for_range (λ byName b, merge_yard "registration differs" byName (b_Yard b)) (p_Bindings p) byName;
  Ok (sort_by_key yard_Name ((map_to_list byName).*2)).

(** ** Boot verification *)

(** internal/yardnetwork/service.go:90-111 [applyApprovedBootIngress]: one approved
    route of a yard. *)
Definition boot_route (yard : ObservedYard) (binding : Binding) (st : gset string * list ProxyContract)
    (approved : ApprovedIngress) : result net_error (gset string * list ProxyContract) :=
  let '(approvedDevices, contracts) := st in
  let info := oy_InstanceInfo yard in
  let device := in_Device approved in
  let expected := ingress_proxy approved binding in
  if bool_decide (device = preview_DeviceName) then
    refuse (bool_decide (Transport approved ≠ "tcp") || negb (in_GuestPort approved =? 8765) ||
            negb (ownedPreviewIngress yard binding) || bool_decide (dev (ii_Devices info) device ≠ expected))
      (NetPlan "approved preview ingress changed");;
    Ok ({[ device ]} ∪ approvedDevices, contracts)
  else
    refuse (negb (oy_InstanceFound yard) || bool_decide (ii_Type info ≠ YardVM) ||
            bool_decide (dev (ii_LocalDevices info) device ≠ expected) ||
            bool_decide (dev (ii_Devices info) device ≠ expected) ||
            bool_decide (cfg (ii_LocalConfig info) ("user.subyard.resource." +:+ device) ≠ OwnershipValue expected))
      (NetPlan "approved public ingress changed");;
    Ok ({[ device ]} ∪ approvedDevices,
        contracts ++ [mkContract device device device "" "" ""
                        (Transport approved +:+ ":guest:" +:+ pretty (in_GuestPort approved))
                        ("owner-ipv4-" +:+ Transport approved) true]).

(** internal/yardnetwork/service.go:118-122 [applyApprovedBootIngress]: a device that
    lets the host network in. *)
Definition host_ingress_proxy (binding : Binding) (device : config_map) : bool :=
  let listen := cfg device "listen" in
  let connect := cfg device "connect" in
  bool_decide (cfg device "type" = "proxy") && bool_decide (cfg device "bind" ≠ "instance") &&
  (HasPrefix listen "udp:" || HasPrefix connect "udp:" ||
   ((bool_decide (cfg device "nat" = "true") || HasPrefix connect ("tcp:" +:+ b_IPv4 binding +:+ ":")) &&
    (HasPrefix listen "tcp:" || HasPrefix connect "tcp:"))).

(** internal/yardnetwork/service.go:82-127 [applyApprovedBootIngress]: one yard, the
    contracts that verify its routes. *)
Definition boot_yard (bindings : gmap Yard Binding) (yard : ObservedYard) : result net_error (list ProxyContract) :=
  match bindings !! oy_Yard yard with
  | None => Ok (oy_IngressContracts yard)
  | Some binding =>
      st ← for_range (boot_route yard binding) (b_ApprovedIngress binding) (∅, oy_IngressContracts yard);
      let '(approvedDevices, contracts) := st in
      let devices := ii_Devices (oy_InstanceInfo yard) in
      let preview := dev devices preview_DeviceName in
      refuse (negb (bool_decide (size preview = 0%nat)) && bool_decide (cfg preview "nat" = "true") &&
              negb (seen preview_DeviceName approvedDevices)) (NetPlan "unapproved preview ingress");;
      refuse (negb (bool_decide (approvedDevices = ∅)) &&
              existsb (λ nd, host_ingress_proxy binding nd.2 && negb (seen nd.1 approvedDevices)) (map_to_list devices))
        (NetPlan "unapproved host ingress");;
      Ok contracts
  end.

Definition with_contracts (yard : ObservedYard) (contracts : list ProxyContract) : ObservedYard :=
  mkObserved (oy_Yard yard) contracts (oy_ProjectFound yard) (oy_ProjectETag yard) (oy_ProjectConfig yard)
    (oy_ProfileFound yard) (oy_ProfileETag yard) (oy_ProfileDevices yard) (oy_ProfileUsedBy yard)
    (oy_InstanceFound yard) (oy_InstanceInfo yard) (oy_IPv4 yard) (oy_MAC yard) (oy_ACL yard).

Definition with_yards (s : Snapshot) (yards : list ObservedYard) : Snapshot :=
  mkSnapshot (sn_Firewall s) (sn_Clustered s) yards (sn_Networks s) (sn_ReservationClaims s).

(** The yards of a snapshot with the contracts that [f] gives them. *)
Definition resolve_contracts {E} (f : ObservedYard → result E (list ProxyContract)) (s : Snapshot) : result E Snapshot :=
  yards ← for_range (λ out y, contracts ← f y; Ok (out ++ [with_contracts y contracts])) (sn_Yards s) [];
  Ok (with_yards s yards).

(** internal/yardnetwork/service.go:77-129 [applyApprovedBootIngress] *)
Definition applyApprovedBootIngress (snapshot : Snapshot) (policy : Policy) : result net_error Snapshot :=
  let bindings := foldl (λ m b, <[b_Yard b := b]> m) (∅ : gmap Yard Binding) (p_Bindings policy) in
  resolve_contracts (boot_yard bindings) snapshot.

(** ** Removal of yards *)

Definition strip_links (names : list string) (links : list Link) : list Link :=
  foldl (λ links name, filter (λ link, ¬ link_touches name link) links) links names.

(** internal/yardnetwork/service.go:610-646 [removalPolicies]: pending, applying and
    complete. *)
Definition removalPolicies (before : Policy) (targets : list string) : result net_error (Policy * Policy * Policy) :=
  for_each (λ name, refuse (negb (bool_decide (name ∈ targets))) (NetPlan "plan is stale")) (p_Removing before);;
  if bool_decide (targets = []) then Ok (before, before, before)
  else
    refuse (max_u64 - 2 <? p_Revision before) (NetPlan "revision exhausted");;
    let pending :=
      before <| p_Removing := sort_strings targets |>
             <| p_PendingStart := filter (λ name, name ∉ targets) (p_PendingStart before) |>
             <| p_Revision := u64 (p_Revision before + 1) |> in
    let applying :=
      pending <| p_Links := strip_links targets (p_Links pending) |>
              <| p_Revision := u64 (p_Revision pending + 1) |> in
    let complete := foldl Policy_Forget applying targets in
    let complete := complete <| p_Removing := [] |> <| p_PendingStart := [] |> in
    let complete := if p_Isolation complete then complete else complete <| p_Bindings := [] |> in
    Ok (pending, applying,
        complete <| p_AppliedRevision := p_Revision complete |> <| p_AppliedIsolation := p_Isolation complete |>).

(** internal/yardnetwork/service.go:651-659 [removalProgress]: the yards that may wait
    for a restart. *)
Definition removal_allowed (original : Policy) (targets : list string) : list string :=
  p_PendingStart original ++ (p_Links original ≫= λ link,
    (if bool_decide (link_A link ∈ targets) && negb (bool_decide (link_B link ∈ targets)) then [link_B link] else []) ++
    (if bool_decide (link_B link ∈ targets) && negb (bool_decide (link_A link ∈ targets)) then [link_A link] else [])).

(** internal/yardnetwork/service.go:648-678 [removalProgress] *)
Definition removalProgress (actual pending applying complete original : Policy) (targets : list string) : bool :=
  let allowed := removal_allowed original targets in
  if existsb (λ name, negb (bool_decide (name ∈ allowed)) || bool_decide (name ∈ targets)) (p_PendingStart actual)
  then false
  else
    match Policy_Encode (actual <| p_PendingStart := [] |>) with
    | Err _ => false
    | Ok body =>
        existsb (λ expected, bool_decide (Policy_Encode (expected <| p_PendingStart := [] |>) = Ok body))
          [pending; applying; complete]
    end.

(** internal/yardnetwork/service.go:422-427 [RemovalPlan] *)
Record RemovalPlan := mkRemoval {
  rp_Yard : Yard; rp_Stored : StoredPolicy; rp_Cleanup : bool; rp_Consequences : list string }.

(** internal/yardnetwork/service.go:491-512 [WithRemovals]: one approved plan, checked
    against the policy that the first one was made from. *)
Definition removal_target (before : StoredPolicy) (st : gset string * list string) (plan : RemovalPlan) :
    result net_error (gset string * list string) :=
  let '(seenNames, targets) := st in
  let name := yard_Name (rp_Yard plan) in
  refuse (bool_decide (st_Content (rp_Stored plan) ≠ st_Content before) ||
          bool_decide (st_ETag (rp_Stored plan) ≠ st_ETag before) || seen name seenNames) (NetPlan "plan is stale");;
  let policy := st_Policy before in
  for_each (λ binding, refuse (bool_decide (yard_Name (b_Yard binding) = name) &&
                              bool_decide (b_Yard binding ≠ rp_Yard plan)) (NetPlan "plan is stale")) (p_Bindings policy);;
  let bound := bool_decide (name ∈ p_Removing policy) || negb (bool_decide (Peers policy name = [])) ||
               existsb (λ binding, bool_decide (yard_Name (b_Yard binding) = name)) (p_Bindings policy) in
  refuse (negb (Bool.eqb (rp_Cleanup plan) bound)) (NetPlan "plan is stale");;
  Ok ({[ name ]} ∪ seenNames, if rp_Cleanup plan then targets ++ [name] else targets).

(** ** The service *)

(** internal/yardnetwork/host.go:88-90 [Locker]: taking the host lock and releasing it. *)
Record Locker (W : Type) := mkLocker { lock_Acquire : eff W net_error unit; lock_release : W → W }.
Arguments lock_Acquire {W}.
Arguments lock_release {W}.

Section service.
Context {W : Type} `{!Host W}.

Notation M := (eff W net_error).

(** internal/yardnetwork/service.go:18-32 [Service] *)
Context (Lock : option (Locker W)) (Guard : option (M unit))
        (ContractSource : option (Yard → result net_error (list ProxyContract))) (UseApprovedIngress : bool).

(** internal/yardnetwork/service.go:131-144 [inspectNetwork] *)
Definition inspectNetwork (yards : list Yard) : M Snapshot :=
  snapshot ← InspectNetwork yards;
  match ContractSource with
  | None => mret snapshot
  | Some source => pure (resolve_contracts (λ y, source (oy_Yard y)) snapshot)
  end.

(** internal/yardnetwork/service.go:53-75 [Prepare] *)
Definition Prepare (yards : list Yard) (change : Change) : M Plan :=
  stored ← ReadPolicy;
  yards ← pure (mergeYards yards (st_Policy stored));
  snapshot ← inspectNetwork yards;
  snapshot ← (if UseApprovedIngress then
                fail_if (bool_decide (is_Some ContractSource)) (NetPlan "boot verification with a contract source");;
                pure (applyApprovedBootIngress snapshot (st_Policy stored))
              else mret snapshot);
  pure (buildPlan stored snapshot change).

(** internal/yardnetwork/service.go:355-369 [observe] *)
Definition observe (y : Yard) : M ObservedYard :=
  snapshot ← InspectNetwork [y];
  observed ← pure (expect (head (filter (λ o, oy_Yard o = y) (sn_Yards snapshot))) (NetPlan "observation omitted target"));
  pure (validateACLOwner observed);;
  mret observed.

Definition status_is (y : ObservedYard) (status : string) : bool := EqualFold (ii_Status (oy_InstanceInfo y)) status.

Definition run_guard : M unit :=
  match Guard with
  | None => pure (Err (NetPlan "guard is required"))
  | Some guard => guard
  end.

(** internal/yardnetwork/service.go:211-216 [applyLocked]: the yards
    that must be running again at the end. *)
Definition restart_names (p : Policy) (updates : list Update) : list string :=
  sort_strings (foldl (λ pending u,
    if oy_InstanceFound (up_Yard u) && status_is (up_Yard u) "running" && negb (bool_decide (oy_Name (up_Yard u) ∈ pending))
    then pending ++ [oy_Name (up_Yard u)] else pending) (p_PendingStart p) updates).

(** internal/yardnetwork/service.go:224-237 [applyLocked]: every affected yard stops. *)
Definition stop_yard (u : Update) : M unit :=
  when (oy_InstanceFound (up_Yard u) && negb (status_is (up_Yard u) "stopped"))
    (NetworkPower (oy_Yard (up_Yard u)) "stop";;
     observed ← observe (oy_Yard (up_Yard u));
     fail_if (negb (status_is observed "stopped")) (NetPlan "stop postcondition failed")).

(** internal/yardnetwork/service.go:238-252 [applyLocked]: lists are detached. *)
Definition detach_acl (u : Update) : M unit :=
  observed ← observe (oy_Yard (up_Yard u));
  let nic := dev (oy_ProfileDevices observed) "eth0" in
  when (bool_decide (cfg nic "security.acls" ≠ "")) (WriteProfileNIC observed (delete "security.acls" nic)).

(** internal/yardnetwork/service.go:253-281 [applyLocked]: the settings of one yard. *)
Definition write_settings (u : Update) : M unit :=
  observed ← observe (oy_Yard (up_Yard u));
  when (negb (up_RemoveACL u))
    (WriteNetworkACL (mkACL (acl_Name (up_ACL u)) (acl_Exists (oy_ACL observed)) (acl_ETag (oy_ACL observed))
       (acl_Config (up_ACL u)) (acl_Ingress (up_ACL u)) (acl_Egress (up_ACL u))));;
  when (oy_ProjectFound observed &&
        bool_decide (cfg (oy_ProjectConfig observed) "restricted.networks.access" ≠ up_Access u))
    (WriteProjectNetworks observed (up_Access u));;
  when (oy_ProfileFound observed && bool_decide (dev (oy_ProfileDevices observed) "eth0" ≠ up_NIC u))
    (WriteProfileNIC observed (up_NIC u));;
  when (up_RemoveACL u && acl_Exists (oy_ACL observed)) (DeleteNetworkACL (oy_ACL observed)).

(** internal/yardnetwork/service.go:290-298 [applyLocked]: the policy once the
    settings are verified. *)
Definition applied_policy (p : Policy) : Policy :=
  let p := p <| p_AppliedRevision := p_Revision p |> <| p_AppliedIsolation := p_Isolation p |> in
  let p := foldl Policy_Forget p (p_Removing p) <| p_Removing := [] |> in
  if p_Isolation p then p else p <| p_Bindings := [] |>.

(** internal/yardnetwork/service.go:303-351 [applyLocked]: the yards that wait for a
    restart, one after the other. *)
Fixpoint restart_yards (yards : list Yard) (pending : list string) (p : Policy) (stored : StoredPolicy) : M unit :=
  match pending with
  | [] => mret tt
  | name :: pending' =>
      target ← pure (expect (head (filter (λ y, yard_Name y = name) yards)) (NetPlan "pending yard is not registered"));
      fail_if (bool_decide (yard_Name target = "")) (NetPlan "pending yard is not registered");;
      run_guard;;
      observed ← observe target;
      when (negb (status_is observed "running")) (NetworkPower target "start");;
      verified ← observe target;
      fail_if (negb (status_is verified "running")) (NetPlan "restart postcondition failed");;
      (λ w, match run_guard w with
            | (w', Ok _) => (w', Ok tt)
            | (w', Err e) => ((ignore (NetworkPower target "stop") w').1, Err e)
            end);;
      let p := p <| p_PendingStart := pending' |> in
      stored ← WritePolicy stored p;
      restart_yards yards pending' p stored
  end.

(** internal/yardnetwork/service.go:196-353 [applyLocked] *)
Definition applyLocked (plan : Plan) : M unit :=
  let p := pl_Policy plan in
  when (pl_Physical plan && existsb (λ u, oy_InstanceFound (up_Yard u)) (pl_Updates plan)) run_guard;;
  let p := if pl_Physical plan then p <| p_PendingStart := restart_names p (pl_Updates plan) |> else p in
  stored ← WritePolicy (pl_Before plan) p;
  when (pl_Physical plan)
    (for_list stop_yard (pl_Updates plan);;
     for_list detach_acl (pl_Updates plan);;
     for_list write_settings (pl_Updates plan));;
  verification ← Prepare (pl_Yards plan) (mkChange None None None);
  fail_if (pl_Physical verification) (NetPlan "not converged");;
  let p := applied_policy p in
  stored ← WritePolicy stored p;
  restart_yards (pl_Yards plan) (p_PendingStart p) p stored.

(** The policy was never applied and nothing is pending: the first test of [Check]. *)
Definition policy_idle (p : Policy) : bool :=
  negb (p_Isolation p) && negb (p_AppliedIsolation p) && (p_AppliedRevision p =? p_Revision p) &&
  bool_decide (p_PendingStart p = []) && bool_decide (p_Removing p = []).

(** internal/yardnetwork/service.go:371-387 [Check] *)
Definition Check_yard (y : Yard) : M unit :=
  stored ← ReadPolicy;
  if policy_idle (st_Policy stored) then mret tt
  else
    plan ← Prepare [y] (mkChange None None None);
    fail_if (pl_Changed plan || negb (bool_decide (p_PendingStart (pl_Policy plan) = []))) (NetPlan "not converged").

(** [release, err := s.Lock.Acquire(ctx); defer release()] *)
Definition with_lock {A} (body : M A) : M A :=
  match Lock with
  | None => pure (Err (NetPlan "lock is required"))
  | Some locker => λ w,
      match lock_Acquire locker w with
      | (w1, Err e) => (w1, Err e)
      | (w1, Ok _) => let '(w2, r) := body w1 in (lock_release locker w2, r)
      end
  end.

(** internal/yardnetwork/service.go:404-417 [WithStart] *)
Definition WithStart (y : Yard) (start : M unit) : M unit := with_lock (Check_yard y;; start).

(** internal/yardnetwork/service.go:34-51 [Status]: the saved policy, whether it is
    converged, and the error that kept it from being inspected. *)
Definition Service_Status (yards : list Yard) : M (Policy * bool * option net_error) := λ w,
  match Prepare yards (mkChange None None None) w with
  | (w', Ok plan) => (w', Ok (st_Policy (pl_Before plan), negb (pl_Changed plan), None))
  | (w', Err e) => (stored ← ReadPolicy; mret (st_Policy stored, false, Some e)) w'
  end.

(** internal/yardnetwork/service.go:429-461 [PrepareRemoval] *)
Definition PrepareRemoval (y : Yard) : M RemovalPlan :=
  stored ← ReadPolicy;
  let policy := st_Policy stored in
  bound ← pure (match head (filter (λ b, yard_Name (b_Yard b) = yard_Name y) (p_Bindings policy)) with
                | Some b => refuse (bool_decide (b_Yard b ≠ y)) (NetPlan "identity differs");; Ok true
                | None => Ok false
                end);
  let cleanup := bound || negb (bool_decide (Peers policy (yard_Name y) = [])) ||
                 bool_decide (yard_Name y ∈ p_Removing policy) in
  let names := (λ b, yard_Name (b_Yard b)) <$> filter (λ b, yard_Name (b_Yard b) ≠ yard_Name y) (p_Bindings policy) in
  mret (mkRemoval y stored cleanup
    (if cleanup then
       "remove this yard's saved network links and owned ACL" ::
       (if bound && p_Isolation policy && negb (bool_decide (names = []))
        then ["reconcile network policy and briefly restart affected running yards: " +:+ Join names ", "] else [])
     else [])).

(** The yards of the approved plans, observed on the host. *)
Definition inspect_removal (approved : list RemovalPlan) (current : Policy) : M Snapshot :=
  yards ← pure (mergeYards (rp_Yard <$> approved) current);
  inspectNetwork yards.

(** internal/yardnetwork/service.go:568-584 [WithRemovals]: a removed yard is observed,
    its list is ours and its instance is gone. *)
Definition check_removed (snapshot : Snapshot) (target : RemovalPlan) : result net_error unit :=
  let observed := filter (λ o, oy_Yard o = rp_Yard target) (sn_Yards snapshot) in
  for_each (λ o, validateACLOwner o;; refuse (oy_InstanceFound o) (NetPlan "instance is not deleted")) observed;;
  refuse (bool_decide (observed = [])) (NetPlan "observation omitted target").

(** internal/yardnetwork/service.go:470-608 [WithRemovals] *)
Definition WithRemovals (approved : list RemovalPlan) (remove : M unit) (after : option (M unit)) : M unit :=
  let run_after := match after with Some f => f | None => mret tt end in
  with_lock
    match approved with
    | [] => remove;; run_after
    | first :: _ =>
        let before := rp_Stored first in
        st ← pure (for_range (removal_target before) approved (∅, []));
        let '(seenNames, targets) := (st : gset string * list string) in
        current ← ReadPolicy;
        policies ← pure (removalPolicies (st_Policy before) targets);
        let '(pending, applying, complete) := (policies : Policy * Policy * Policy) in
        let cleanup := negb (bool_decide (targets = [])) in
        let progress := bool_decide (st_Content current ≠ st_Content before) in
        fail_if (if progress
                 then negb cleanup ||
                      negb (removalProgress (st_Policy current) pending applying complete (st_Policy before) targets)
                 else bool_decide (st_ETag current ≠ st_ETag before)) (NetPlan "plan is stale");;
        when cleanup
          (snapshot ← inspect_removal approved (st_Policy current);
           pure (for_each (λ o,
             if seen (oy_Name o) seenNames ||
                existsb (λ b, bool_decide (b_Yard b = oy_Yard o)) (p_Bindings (st_Policy before))
             then validateACLOwner o else Ok tt) (sn_Yards snapshot)));;
        remove;;
        when cleanup
          (snapshot ← inspect_removal approved (st_Policy current);
           pure (for_each (check_removed snapshot) approved);;
           current ← (if progress then mret current else WritePolicy current pending);
           plan ← pure (buildPlan current snapshot (mkChange None None None));
           let plan := mkPlan (pl_Before plan) (pl_Policy plan <| p_Revision := p_Revision applying |>) (pl_Updates plan)
                         (pl_Changed plan) (pl_Physical plan) (pl_Change plan) (pl_Yards plan) in
           fail_if (negb (removalProgress (pl_Policy plan) pending applying complete (st_Policy before) targets))
             (NetPlan "plan is stale");;
           applyLocked plan);;
        run_after
    end.

(** internal/yardnetwork/service.go:464-466 [WithRemoval] *)
Definition WithRemoval (approved : RemovalPlan) (remove : M unit) : M unit := WithRemovals [approved] remove None.
End service.
