(* ===== verification/NetServiceProofs.v ===== *)
(** * The network service keeps its promises

    What [applyLocked] leaves behind when it succeeds and when it fails at any
    call, in which order it touches the host, and when a managed start is allowed.
    The theorems are proved against the interface of the host: the laws that its
    documentation states. *)

From S2P Require Import Prelude GoStrings GoSort Sha256 Names GoJson GoNet NetPolicy NetPlanner NetIsolation Effects NetService.

(** ** What the host promises *)

(** A call that leaves a view of the world as it was. *)
Definition keeps {W E A V} (view : W → V) (m : eff W E A) : Prop :=
  ∀ v, triple (λ w, view w = v) m (λ _ w, view w = v) (λ _ w, view w = v).

(** The host saves one policy.  Reading returns it; a write that succeeds replaces it
    by what the encoding of the new policy decodes to, a write that fails may have
    done so; the other calls leave it. *)
Class HostLaws (W : Type) `{!Host W} := {
  saved : W → Policy;
  law_read : ∀ p, triple (λ w, saved w = p) ReadPolicy (λ st w, saved w = p ∧ st_Policy st = p) (λ _ w, saved w = p);
  law_write : ∀ p observed q, triple (λ w, saved w = p) (WritePolicy observed q)
    (λ st w, Decode_Encode q = Ok (st_Content st, saved w) ∧ st_Policy st = saved w)
    (λ _ w, saved w = p ∨ ∃ content, Decode_Encode q = Ok (content, saved w));
  law_inspect : ∀ yards, keeps saved (InspectNetwork yards);
  law_write_acl : ∀ acl, keeps saved (WriteNetworkACL acl);
  law_delete_acl : ∀ acl, keeps saved (DeleteNetworkACL acl);
  law_write_nic : ∀ y nic, keeps saved (WriteProfileNIC y nic);
  law_write_project : ∀ y access, keeps saved (WriteProjectNetworks y access);
  law_power : ∀ y action, keeps saved (NetworkPower y action) }.

(** ** Calls that keep a view *)

Section keeps.
Context {W E V : Type} (view : W → V).

Lemma keeps_ret {A} (a : A) : keeps view (mret a : eff W E A).
Proof. by intros v w <-. Qed.

Lemma keeps_pure {A} (m : result E A) : keeps view (pure m).
Proof. intros v w <-. unfold pure. by destruct m. Qed.

Lemma keeps_bind {A B} (m : eff W E A) (f : A → eff W E B) :
  keeps view m → (∀ a, keeps view (f a)) → keeps view (m ≫= f).
Proof. intros Hm Hf v. eapply triple_bind; [apply Hm|]. intros a. apply Hf. Qed.

Lemma keeps_when b (m : eff W E unit) : keeps view m → keeps view (when b m).
Proof. intros Hm. unfold when. destruct b; [done|apply keeps_ret]. Qed.

Lemma keeps_fail_if b (e : E) : keeps view (fail_if b e).
Proof. apply keeps_pure. Qed.

Lemma keeps_for_list {A} (body : A → eff W E unit) l : (∀ x, keeps view (body x)) → keeps view (for_list body l).
Proof. intros Hb v. apply triple_for_all. intros x _. apply Hb. Qed.
End keeps.

Create HintDb keeps discriminated.
#[export] Hint Resolve keeps_ret keeps_pure keeps_bind keeps_when keeps_fail_if keeps_for_list : keeps.
#[export] Hint Resolve law_inspect law_write_acl law_delete_acl law_write_nic law_write_project law_power : keeps.

Ltac keep := repeat first [match goal with |- ∀ _, keeps _ _ => intros ? end | solve [eauto with keeps nocore] | case_match | apply keeps_bind | apply keeps_when |
  apply keeps_for_list | apply keeps_pure | apply keeps_ret | apply keeps_fail_if].

(** ** Saved policies *)

(** [q] is what the encoding of [p] decodes to. *)
Definition copied (p q : Policy) : Prop := ∃ content, Decode_Encode p = Ok (content, q).

Lemma copied_fields p q :
  copied p q → p_Isolation q = p_Isolation p ∧ p_Revision q = p_Revision p ∧ p_AppliedRevision q = p_AppliedRevision p ∧
    p_AppliedIsolation q = p_AppliedIsolation p ∧ p_PendingStart q = p_PendingStart p ∧ p_Removing q = p_Removing p.
Proof.
  intros [content H]. unfold Decode_Encode in H. ok_inv. simplify_eq.
  repeat match goal with H : normalize _ = Ok _ |- _ => apply normalize_Ok in H as [_ ->] end. done.
Qed.

(** The policy that [applyLocked] saves before it touches the host. *)
Definition intent (plan : Plan) : Policy :=
  if pl_Physical plan then pl_Policy plan <| p_PendingStart := restart_names (pl_Policy plan) (pl_Updates plan) |>
  else pl_Policy plan.

Lemma applied_policy_fields p :
  let q := applied_policy p in
  p_AppliedRevision q = p_Revision q ∧ p_Revision q = p_Revision p ∧ p_Isolation q = p_Isolation p ∧
  p_AppliedIsolation q = p_Isolation q ∧ p_Removing q = [] ∧ p_PendingStart q = p_PendingStart p.
Proof.
  cbv zeta. unfold applied_policy.
  assert (∀ names p, let q := foldl Policy_Forget p names in
    q = p <| p_Links := p_Links q |> <| p_Bindings := p_Bindings q |>) as Hf.
  { clear. induction names as [|n names IH]; intros p; simpl; [by destruct p|]. simpl in IH. by rewrite IH. }
  match goal with |- context [foldl Policy_Forget ?a ?l] => specialize (Hf l a); cbv zeta in Hf; rewrite Hf end.
  simpl. destruct (p_Isolation p) eqn:E; simpl; rewrite ?E; done.
Qed.

Section service.
Context {W : Type} `{HL : HostLaws W}.
Context (Lock : option (Locker W)) (Guard : option (eff W net_error unit))
        (ContractSource : option (Yard → result net_error (list ProxyContract))) (UseApprovedIngress : bool).

Notation Prepare := (Prepare ContractSource UseApprovedIngress).
Notation applyLocked := (applyLocked Guard ContractSource UseApprovedIngress).

Lemma ReadPolicy_keeps : keeps saved ReadPolicy.
Proof. intros p. eapply triple_weaken; [apply (law_read p)|done| |done]. by intros a w [? _]. Qed.
#[local] Hint Resolve ReadPolicy_keeps : keeps.

Lemma observe_keeps y : keeps saved (observe y).
Proof. unfold observe. keep. Qed.
#[local] Hint Resolve observe_keeps : keeps.

Lemma Prepare_keeps yards change : keeps saved (Prepare yards change).
Proof. unfold NetService.Prepare, inspectNetwork. keep. Qed.

Lemma stop_yard_keeps u : keeps saved (stop_yard u).
Proof. unfold stop_yard. keep. Qed.

Lemma detach_acl_keeps u : keeps saved (detach_acl u).
Proof. unfold detach_acl. keep. Qed.

Lemma write_settings_keeps u : keeps saved (write_settings u).
Proof. unfold write_settings. keep. Qed.

Hypothesis (HG : ∀ g, Guard = Some g → keeps saved g).

Lemma run_guard_keeps : keeps saved (run_guard Guard).
Proof. unfold run_guard. destruct Guard as [g|] eqn:E; [by apply HG|apply keeps_pure]. Qed.

(** A step that keeps the saved policy, inside a run with a given state of it. *)
Lemma keeps_step {A} (m : eff W net_error A) (P : Policy → Prop) :
  keeps saved m → triple (λ w, P (saved w)) m (λ _ w, P (saved w)) (λ _ w, P (saved w)).
Proof. intros Hm w Hw. specialize (Hm _ w eq_refl). destruct (m w) as [w' [a|e]]; by rewrite Hm. Qed.

Lemma write_step observed q (P : Policy → Prop) :
  triple (λ w, P (saved w)) (WritePolicy observed q) (λ _ w, copied q (saved w)) (λ _ w, P (saved w) ∨ copied q (saved w)).
Proof.
  intros w Hw. pose proof (law_write (saved w) observed q w eq_refl) as H.
  destruct (WritePolicy observed q w) as [w' [st|e]].
  - destruct H as [H _]. by eexists.
  - destruct H as [-> |[content H]]; [by left|right]. by eexists.
Qed.

Lemma restart_yards_triple yards pending p stored :
  p_PendingStart p = pending →
  triple (λ w, copied p (saved w)) (restart_yards Guard yards pending p stored)
    (λ _ w, copied (p <| p_PendingStart := [] |>) (saved w))
    (λ _ w, ∃ rest, rest `suffix_of` pending ∧ copied (p <| p_PendingStart := rest |>) (saved w)).
Proof.
  revert p stored. induction pending as [|name pending IH]; intros p stored Hp.
  { intros w Hw. destruct p. simpl in *. subst. exact Hw. }
  set (R := λ (_ : net_error) w, ∃ rest, rest `suffix_of` name :: pending ∧ copied (p <| p_PendingStart := rest |>) (saved w)).
  assert (∀ w, copied p (saved w) → R (NetPlan "") w) as HR.
  { intros w Hw. exists (name :: pending). split; [done|]. rewrite <-Hp. by destruct p. }
  assert (∀ A (m : eff W net_error A), keeps saved m → triple (λ w, copied p (saved w)) m (λ _ w, copied p (saved w)) R) as Hk.
  { intros A m Hm. eapply triple_weaken; [by apply (keeps_step m (copied p))|done|done|]. intros e w Hw. by apply HR. }
  simpl. eapply triple_bind; [apply Hk, keeps_pure|intros target].
  do 2 (eapply triple_bind; [apply Hk; keep; apply run_guard_keeps|intros ?]).
  do 3 (eapply triple_bind; [apply Hk; keep; apply observe_keeps|intros ?]).
  eapply triple_bind; [apply Hk; keep|intros ?].
  eapply triple_bind; [|intros ?].
  { apply Hk. intros v w <-. pose proof (run_guard_keeps _ w eq_refl) as H. destruct (run_guard Guard w) as [w' [[]|e]]; [done|].
    rewrite <-H. unfold ignore. pose proof (law_power target "stop" _ w' eq_refl) as H'. by destruct (NetworkPower target "stop" w') as [w'' [[]|e']]. }
  eapply triple_bind.
  { eapply triple_weaken; [apply (write_step _ _ (copied p))|done| |].
    - intros st w Hw. exact Hw.
    - intros e w [Hw|Hw]; [by apply HR|]. exists pending. split; [by apply suffix_cons_r|done]. }
  intros st. eapply triple_weaken; [exact (IH (p <| p_PendingStart := pending |>) st eq_refl)|done|done|].
  intros e w (rest & Hs & Hc). exists rest. split; [by apply suffix_cons_r|done].
Qed.

(** The saved policy after [applyLocked]: the final one when it succeeds; when it
    fails, the one before, the intent, or the applied policy with the restarts that
    are left. *)
Lemma applyLocked_triple plan p0 :
  triple (λ w, saved w = p0) (applyLocked plan)
    (λ _ w, copied (applied_policy (intent plan) <| p_PendingStart := [] |>) (saved w))
    (λ _ w, saved w = p0 ∨ copied (intent plan) (saved w) ∨
            ∃ rest, rest `suffix_of` p_PendingStart (intent plan) ∧
              copied (applied_policy (intent plan) <| p_PendingStart := rest |>) (saved w)).
Proof.
  unfold NetService.applyLocked. cbv zeta. fold (intent plan). set (p := intent plan).
  destruct (applied_policy_fields p) as (_ & _ & _ & _ & _ & Epend).
  eapply triple_bind.
  { eapply triple_weaken; [apply (keeps_step _ (λ q, q = p0)); keep; apply run_guard_keeps|done|done|by left]. }
  intros ?. eapply triple_bind.
  { eapply triple_weaken; [apply (write_step _ _ (λ q, q = p0))|done| |naive_solver]. intros st w Hw. exact Hw. }
  intros stored.
  assert (∀ A (m : eff W net_error A), keeps saved m → triple (λ w, copied p (saved w)) m (λ _ w, copied p (saved w))
    (λ _ w, saved w = p0 ∨ copied p (saved w) ∨ ∃ rest, rest `suffix_of` p_PendingStart p ∧
       copied (applied_policy p <| p_PendingStart := rest |>) (saved w))) as Hk.
  { intros A m Hm. eapply triple_weaken; [by apply (keeps_step m (copied p))|done|done|]. naive_solver. }
  eapply triple_bind; [apply Hk; keep; auto using stop_yard_keeps, detach_acl_keeps, write_settings_keeps|intros ?].
  eapply triple_bind; [apply Hk, Prepare_keeps|intros verification].
  eapply triple_bind; [apply Hk, keeps_fail_if|intros ?].
  assert (∀ q, q = applied_policy p → q <| p_PendingStart := p_PendingStart q |> = q) as Eq by by intros [].
  eapply triple_bind.
  { eapply triple_weaken; [apply (write_step _ (applied_policy p) (copied p))|done| |].
    - intros st w Hw. exact Hw.
    - intros e w [Hw|Hw]; [by right; left|]. right; right. exists (p_PendingStart p). split; [done|].
      rewrite <-Epend, Eq by done. done. }
  intros stored'. eapply triple_weaken; [by apply restart_yards_triple|done|done|].
  intros e w (rest & Hs & Hc). right; right. exists rest. by rewrite <-Epend.
Qed.
End service.

(** ** Managed starts *)

(** Work of the policy that is not done. *)
Definition pending_work (p : Policy) : bool :=
  negb (p_AppliedRevision p =? p_Revision p) || negb (Bool.eqb (p_AppliedIsolation p) (p_Isolation p)) ||
  negb (bool_decide (p_PendingStart p = [])) || negb (bool_decide (p_Removing p = [])).

Lemma plan_yards_fields p s q updates : plan_yards p s = Ok (q, updates) → q = p <| p_Bindings := p_Bindings q |>.
Proof.
  unfold plan_yards, planBindings. intros H. destruct (_ || _); [|apply Ok_inj in H; injection H as <- _; by destruct p].
  ok_inv. simplify_eq. done.
Qed.

(** A plan on a policy with pending work changes something. *)
Lemma pending_work_changed stored s plan :
  buildPlan stored s (mkChange None None None) = Ok plan → pending_work (st_Policy stored) = true → pl_Changed plan = true.
Proof.
  intros (p & q & [(content & p0 & Hde & _ & Hch & _) Hy _ _ _ Hsame _])%buildPlan_built Hp.
  destruct (pl_Changed plan); [done|]. destruct (Hsame eq_refl) as (_ & E1 & E2 & E3 & E4). exfalso.
  destruct (copied_fields (st_Policy stored) p0) as (C1 & C2 & C3 & C4 & C5 & C6); [by eexists|].
  apply apply_change_fields in Hch. apply plan_yards_fields in Hy.
  rewrite Hy, Hch in E1, E2, E3, E4. simpl in E1, E2, E3, E4.
  rewrite C1 in E2. rewrite C2, C3 in E1. rewrite C4 in E2. rewrite C5 in E3. rewrite C6 in E4.
  unfold pending_work in Hp. rewrite E1, E2, E3, E4, Z.eqb_refl, eqb_reflx in Hp. done.
Qed.

Lemma pending_not_idle p : pending_work p = true → policy_idle p = false.
Proof.
  unfold pending_work, policy_idle. destruct (p_AppliedRevision p =? p_Revision p), (p_AppliedIsolation p), (p_Isolation p),
    (bool_decide (p_PendingStart p = [])), (bool_decide (p_Removing p = [])); done.
Qed.

Section starts.
Context {W : Type} `{HL : HostLaws W}.
Context (Lock : option (Locker W)) (Guard : option (eff W net_error unit))
        (ContractSource : option (Yard → result net_error (list ProxyContract))) (UseApprovedIngress : bool).
Hypothesis (HG : ∀ g, Guard = Some g → keeps saved g).
Hypothesis (HA : ∀ l, Lock = Some l → keeps saved (lock_Acquire l)).

Lemma triple_keeps_fact {A} (φ : Prop) (m : eff W net_error A) : triple (λ _, φ) m (λ _ _, φ) (λ _ _, True).
Proof. intros w Hφ. by destruct (m w) as [w' [a|e]]. Qed.

Lemma Prepare_pending yards p :
  pending_work p = true →
  triple (λ w, saved w = p) (Prepare ContractSource UseApprovedIngress yards (mkChange None None None))
    (λ plan _, pl_Changed plan = true) (λ _ _, True).
Proof.
  intros Hp. unfold Prepare. eapply triple_bind.
  { eapply triple_weaken; [apply (law_read p)|done| |done]. intros st w H. exact H. }
  intros stored. eapply (triple_weaken _ _ (λ _, st_Policy stored = p)); [|by intros w [_ ?]|intros ?? H; exact H|intros ?? H; exact H].
  do 3 (eapply triple_bind; [apply triple_keeps_fact|intros ?]).
  intros w Hs. unfold pure. destruct (buildPlan stored _ _) as [plan|] eqn:E; [|done].
  eapply pending_work_changed; [done|]. by rewrite Hs.
Qed.

Lemma Check_pending y p : pending_work p = true → triple (λ w, saved w = p) (Check_yard ContractSource UseApprovedIngress y) (λ _ _, False) (λ _ _, True).
Proof.
  intros Hp. unfold Check_yard. eapply triple_bind.
  { eapply triple_weaken; [apply (law_read p)|done| |done]. intros st w H. exact H. }
  intros stored. intros w [Hs E]. rewrite E, (pending_not_idle p Hp). revert w Hs.
  change (triple (λ w, saved w = p) (plan ← Prepare ContractSource UseApprovedIngress [y] (mkChange None None None);
    fail_if (pl_Changed plan || negb (bool_decide (p_PendingStart (pl_Policy plan) = []))) (NetPlan "not converged"))
    (λ _ _, False) (λ _ _, True)).
  eapply triple_bind; [by apply Prepare_pending|]. intros plan w Hc. cbn beta in Hc. rewrite Hc. done.
Qed.

(** No managed start while work is pending. *)
Lemma start_refused y w :
  pending_work (saved w) = true →
  ∃ w' e, ∀ start, WithStart Lock ContractSource UseApprovedIngress y start w = (w', Err e).
Proof.
  intros Hp. unfold WithStart, with_lock. destruct Lock as [l|] eqn:El; [|by eexists _, _].
  pose proof (HA l eq_refl _ w eq_refl) as Hl. destruct (lock_Acquire l w) as [w1 [[]|e]]; [|by eexists _, _].
  pose proof (Check_pending y _ Hp w1 Hl) as Hc.
  destruct (Check_yard ContractSource UseApprovedIngress y w1) as [w2 [[]|e]] eqn:E; [done|].
  exists (lock_release l w2), e. intros start.
  by replace ((Check_yard ContractSource UseApprovedIngress y;; start) w1) with (w2, Err (A:=unit) e) by (unfold mbind, eff_bind; by rewrite E).
Qed.
End starts.

(** ** Applying a plan *)

Lemma applied_policy_bindings p : p_Isolation p = false → p_Bindings (applied_policy p) = [].
Proof.
  intros Hi. destruct (applied_policy_fields p) as (_ & _ & A3 & _). rewrite Hi in A3. revert A3. unfold applied_policy.
  match goal with |- context [if ?x then _ else _] => destruct x eqn:Ex end; [|done]. cbn zeta. intros A3. congruence.
Qed.

Section apply.
Context {W : Type} `{HL : HostLaws W}.
Context (Lock : option (Locker W)) (Guard : option (eff W net_error unit))
        (ContractSource : option (Yard → result net_error (list ProxyContract))) (UseApprovedIngress : bool).
Hypothesis (HG : ∀ g, Guard = Some g → keeps saved g).
Hypothesis (HA : ∀ l, Lock = Some l → keeps saved (lock_Acquire l)).


Lemma canon_linked (links : list Link) x y :
  (∃ l, l ∈ canon <$> links ∧ (l = mkLink x y ∨ l = mkLink y x)) → mkLink x y ∈ links ∨ mkLink y x ∈ links.
Proof.
  intros (l & ([a b] & -> & Hab)%list_elem_of_fmap & E). unfold canon in E. simpl in E.
  destruct (string_lt b a), E; simplify_eq; auto.
Qed.

Lemma copied_linked p q x y : copied p q → linked q x y → linked p x y.
Proof.
  intros [content H]. unfold Decode_Encode in H. ok_inv. simplify_eq.
  repeat match goal with H : normalize _ = Ok _ |- _ => apply normalize_Ok in H as [_ ->] end.
  unfold linked. simpl. unfold sortLinks. rewrite !elem_of_sort_by. intros Hl.
  assert (∃ l, l ∈ canon <$> p_Links p ∧ (l = mkLink x y ∨ l = mkLink y x)) as Hl'; [|by apply canon_linked].
  assert (∃ l, l ∈ canon <$> sort_by link_le (canon <$> p_Links p) ∧ (l = mkLink x y ∨ l = mkLink y x)) as H'
    by (destruct Hl; eauto).
  apply canon_linked in H'. rewrite !elem_of_sort_by in H'. destruct H'; eauto.
Qed.

Lemma forgotten_absent names p n :
  n ∈ names → let q := foldl Policy_Forget p names in
  (∀ x, ¬ linked q n x) ∧ (∀ b, b ∈ p_Bindings q → yard_Name (b_Yard b) ≠ n).
Proof.
  assert (∀ p x, (∀ y, ¬ linked p x y) ∧ (∀ b, b ∈ p_Bindings p → yard_Name (b_Yard b) ≠ x) → ∀ m,
    (∀ y, ¬ linked (Policy_Forget p m) x y) ∧ (∀ b, b ∈ p_Bindings (Policy_Forget p m) → yard_Name (b_Yard b) ≠ x)) as Hkeep.
  { clear. intros p x [Hl Hb] m. split.
    - intros y [[_ H]%list_elem_of_filter|[_ H]%list_elem_of_filter]; apply (Hl y); [by left|by right].
    - intros b [_ Hb']%list_elem_of_filter. by apply Hb. }
  intros Hn. induction names as [|m names IH] using rev_ind; [by apply elem_of_nil in Hn|]. cbv zeta in *.
  rewrite foldl_snoc. apply elem_of_app in Hn as [Hn| ->%list_elem_of_singleton]; [by apply Hkeep, IH|].
  split.
  - intros y [[Ht _]%list_elem_of_filter|[Ht _]%list_elem_of_filter]; apply Ht; [by left|by right].
  - intros b [Hb _]%list_elem_of_filter. done.
Qed.

(** An apply that succeeds leaves nothing behind: the saved policy has the plan's
    revision and mode as its applied ones, no yard waits for a restart or for its
    removal, the removed yards have neither links nor a binding, and without
    isolation no binding is left.  No work is pending, so that starts are not
    refused for it. *)
Theorem apply_success plan w w' :
  applyLocked Guard ContractSource UseApprovedIngress plan w = (w', Ok tt) →
  p_Revision (saved w') = p_Revision (pl_Policy plan) ∧ p_Isolation (saved w') = p_Isolation (pl_Policy plan) ∧
  p_PendingStart (saved w') = [] ∧ p_Removing (saved w') = [] ∧ pending_work (saved w') = false ∧
  (p_Isolation (pl_Policy plan) = false → p_Bindings (saved w') = []) ∧
  (∀ n, n ∈ p_Removing (pl_Policy plan) →
     Peers (saved w') n = [] ∧ ∀ b, b ∈ p_Bindings (saved w') → yard_Name (b_Yard b) ≠ n).
Proof.
  intros Hrun. pose proof (applyLocked_triple Guard ContractSource UseApprovedIngress HG plan _ w eq_refl) as H.
  rewrite Hrun in H. set (p := intent plan) in *.
  assert (p_Revision p = p_Revision (pl_Policy plan) ∧ p_Isolation p = p_Isolation (pl_Policy plan) ∧
          p_Removing p = p_Removing (pl_Policy plan)) as (<- & <- & <-) by (unfold p, intent; by destruct (pl_Physical plan)).
  clearbody p. destruct (copied_fields _ _ H) as (E1 & E2 & E3 & E4 & E5 & E6). simpl in *.
  destruct (applied_policy_fields p) as (A1 & A2 & A3 & A4 & A5 & _).
  assert (∀ b, b ∈ p_Bindings (saved w') → ∃ c, c ∈ p_Bindings (applied_policy p) ∧ b_Yard b = b_Yard c) as Hb.
  { destruct H as [content H]. apply Decode_Encode_bindings in H as [_ H]. intros b (c & Hc & Hs)%H. exists c. split; [done|apply Hs]. }
  split_and!; try congruence.
  - unfold pending_work. rewrite E1, E2, E3, E4, E5, E6, A1, A4, A5. by rewrite Z.eqb_refl, eqb_reflx.
  - intros Hi. destruct (p_Bindings (saved w')) as [|b l]; [done|]. destruct (Hb b) as (c & Hc & _); [by left|].
    rewrite applied_policy_bindings in Hc by done. by apply elem_of_nil in Hc.
  - intros n Hn. pose proof (forgotten_absent (p_Removing p) (p <| p_AppliedRevision := p_Revision p |> <| p_AppliedIsolation := p_Isolation p |>) n Hn) as [Hl Hbn].
    split.
    + destruct (Peers (saved w') n) as [|x l] eqn:Ep; [done|]. exfalso.
      assert (linked (saved w') n x) as Hx by (apply elem_of_Peers; rewrite Ep; by left).
      apply (copied_linked _ _ _ _ H) in Hx. apply (Hl x). revert Hx. unfold applied_policy.
      match goal with |- context [if ?x then _ else _] => destruct x end; intros Hx; exact Hx.
    + intros b (c & Hc & ->)%Hb. apply Hbn. revert Hc. unfold applied_policy.
      match goal with |- context [if ?x then _ else _] => destruct x end; [intros Hc; exact Hc|by intros ?%elem_of_nil].
Qed.
End apply.

(** ** The order of the calls *)

(** The calls that change the host. *)
Inductive event :=
| EvPolicy (p : Policy)
| EvSettings
| EvPower (y : Yard) (action : string).

(** A host that records its changing calls, successful or not. *)
Definition logging {W E A} (evs : list event) (m : eff W E A) : eff (W * list event) E A := λ wl,
  let '(w', r) := m wl.1 in ((w', wl.2 ++ evs), r).

#[export] Instance logged_host {W} `{!Host W} : Host (W * list event) := {
  ReadPolicy := logging [] ReadPolicy;
  WritePolicy observed p := logging [EvPolicy p] (WritePolicy observed p);
  InspectNetwork yards := logging [] (InspectNetwork yards);
  WriteNetworkACL acl := logging [EvSettings] (WriteNetworkACL acl);
  DeleteNetworkACL acl := logging [EvSettings] (DeleteNetworkACL acl);
  WriteProfileNIC y nic := logging [EvSettings] (WriteProfileNIC y nic);
  WriteProjectNetworks y access := logging [EvSettings] (WriteProjectNetworks y access);
  NetworkPower y action := logging [EvPower y action] (NetworkPower y action) }.

Section order.
Context {W : Type} `{!Host W}.
Notation LW := (W * list event)%type.
Notation M := (eff LW net_error).
Context (Guard : option (M unit)) (ContractSource : option (Yard → result net_error (list ProxyContract)))
        (UseApprovedIngress : bool).
Hypothesis (HG : ∀ g, Guard = Some g → keeps snd g).
Context (plan : Plan).

Definition must_stop (u : Update) : bool := oy_InstanceFound (up_Yard u) && negb (status_is (up_Yard u) "stopped").

(** Settings change only after the intent is saved and every affected yard was told to
    stop; a yard starts only after the applied policy is saved. *)
Definition allowed_after (before : list event) (ev : event) : Prop :=
  match ev with
  | EvPolicy _ => True
  | EvSettings => EvPolicy (intent plan) ∈ before ∧
      ∀ u, u ∈ pl_Updates plan → must_stop u = true → EvPower (oy_Yard (up_Yard u)) "stop" ∈ before
  | EvPower _ action => action = "start" → EvPolicy (applied_policy (intent plan)) ∈ before
  end.

Definition ordered (log : list event) : Prop :=
  ∀ before ev after, log = before ++ ev :: after → allowed_after before ev.

Lemma ordered_snoc log ev : ordered log → allowed_after log ev → ordered (log ++ [ev]).
Proof.
  intros Ho Ha before ev' after E. destruct after as [|x after _] using rev_ind.
  - apply app_inj_tail in E as [-> ->]. done.
  - rewrite app_comm_cons, app_assoc in E. apply app_inj_tail in E as [-> _]. by eapply Ho.
Qed.

(** Facts about the log that stay true while it grows. *)
Definition grows (P : list event → Prop) : Prop := ∀ log ev, P log → P (log ++ [ev]).

Definition stage (P : list event → Prop) (w : LW) : Prop := ordered w.2 ∧ P w.2.

Notation broken := (λ (_ : net_error) (w : LW), ordered w.2).

Lemma log_step {A} ev (m : eff W net_error A) P :
  grows P → (∀ log, P log → allowed_after log ev) →
  triple (stage P) (logging [ev] m) (λ _, stage (λ log, P log ∧ ev ∈ log)) broken.
Proof.
  intros Hg Ha [w log] [Ho Hp]. unfold logging. simpl in *. destruct (m w) as [w' r].
  assert (ordered (log ++ [ev])) as Ho' by (apply ordered_snoc; auto).
  destruct r; [|done]. split; [done|]. simpl. split; [by apply Hg|]. set_solver.
Qed.

Lemma log_step_weak {A} ev (m : eff W net_error A) P :
  grows P → (∀ log, P log → allowed_after log ev) → triple (stage P) (logging [ev] m) (λ _, stage P) broken.
Proof. intros Hg Ha. eapply triple_weaken; [by apply log_step|done| |done]. intros a w [? [? _]]. by split. Qed.

Lemma silent_keeps {A} (m : eff W net_error A) : keeps snd (logging [] m).
Proof. intros v [w log] <-. unfold logging. simpl. destruct (m w) as [w' [a|e]]; simpl; by rewrite app_nil_r. Qed.

Lemma stage_keeps {A} (m : M A) P : keeps snd m → triple (stage P) m (λ _, stage P) broken.
Proof.
  intros Hm w [Ho Hp]. specialize (Hm _ w eq_refl). unfold stage. destruct (m w) as [w' [a|e]]; by rewrite Hm.
Qed.

#[local] Hint Resolve silent_keeps : keeps.

Lemma observe_silent y : keeps snd (observe (W:=LW) y).
Proof. unfold observe. keep. apply silent_keeps. Qed.
#[local] Hint Resolve observe_silent : keeps.

Lemma Prepare_silent yards change : keeps snd (Prepare (W:=LW) ContractSource UseApprovedIngress yards change).
Proof. unfold Prepare, inspectNetwork. keep; apply silent_keeps. Qed.

Lemma run_guard_silent : keeps snd (run_guard Guard).
Proof. unfold run_guard. destruct Guard as [g|] eqn:E; [by apply HG|apply keeps_pure]. Qed.

(** What is known once the intent is saved and a part of the yards was stopped. *)
Definition stopped_but (rest : list Update) (log : list event) : Prop :=
  EvPolicy (intent plan) ∈ log ∧
  ∀ u, u ∈ pl_Updates plan → must_stop u = true → u ∉ rest → EvPower (oy_Yard (up_Yard u)) "stop" ∈ log.

Definition applied_saved (log : list event) : Prop := EvPolicy (applied_policy (intent plan)) ∈ log.

Lemma stopped_but_grows rest : grows (stopped_but rest).
Proof. intros log ev [H1 H2]. split; [set_solver|]. intros u ???. apply elem_of_app. left. by apply H2. Qed.

Lemma applied_saved_grows : grows applied_saved.
Proof. intros log ev H. unfold applied_saved. set_solver. Qed.

Lemma stop_yard_stage u rest :
  triple (stage (stopped_but (u :: rest))) (stop_yard u) (λ _, stage (stopped_but rest)) broken.
Proof.
  unfold stop_yard, when. fold (must_stop u). destruct (must_stop u) eqn:Hu.
  - eapply triple_bind; [by apply log_step; [apply stopped_but_grows|]|]. intros [].
    eapply triple_weaken; [apply (stage_keeps _ (stopped_but rest))|..]; [keep| |done|done].
    intros w [Ho [[H1 H2] H3]]. split; [done|]. split; [done|]. intros v Hv Hs Hn.
    destruct (decide (oy_Yard (up_Yard v) = oy_Yard (up_Yard u))) as [-> |Hne]; [done|].
    apply H2; [done..|]. intros [-> |?]%elem_of_cons; done.
  - intros w [Ho [H1 H2]]. split; [done|]. split; [done|]. intros v Hv Hs Hn. apply H2; [done..|].
    intros [-> |?]%elem_of_cons; [congruence|done].
Qed.

Lemma settings_step {A} (m : eff W net_error A) :
  triple (stage (stopped_but [])) (logging [EvSettings] m) (λ _, stage (stopped_but [])) broken.
Proof.
  apply log_step_weak; [apply stopped_but_grows|]. intros log [H1 H2]. split; [done|]. intros u ??.
  apply H2; [done..|apply not_elem_of_nil].
Qed.

Lemma detach_acl_stage u : triple (stage (stopped_but [])) (detach_acl u) (λ _, stage (stopped_but [])) broken.
Proof.
  eapply triple_bind; [apply stage_keeps, observe_silent|]. intros observed. apply triple_when; [|by intros].
  eapply triple_weaken; [apply settings_step|by intros ? [_ ?]|done|done].
Qed.

Lemma write_settings_stage u : triple (stage (stopped_but [])) (write_settings u) (λ _, stage (stopped_but [])) broken.
Proof.
  assert (∀ b (m : eff W net_error unit),
    triple (stage (stopped_but [])) (when b (logging [EvSettings] m)) (λ _, stage (stopped_but [])) broken) as Hw.
  { intros b m. apply triple_when; [|by intros]. eapply triple_weaken; [apply settings_step|by intros ? [_ ?]|done|done]. }
  eapply triple_bind; [apply stage_keeps, observe_silent|]. intros observed.
  do 3 (eapply triple_bind; [apply Hw|intros ?]). apply Hw.
Qed.

Lemma restart_yards_stage yards pending p stored :
  triple (stage applied_saved) (restart_yards Guard yards pending p stored) (λ _, stage applied_saved) broken.
Proof.
  revert p stored. induction pending as [|name pending IH]; intros p stored; [by intros w Hw|]. simpl.
  assert (∀ A (m : M A), keeps snd m → triple (stage applied_saved) m (λ _, stage applied_saved) broken) as Hk
    by (intros; by apply stage_keeps).
  assert (∀ y action, triple (stage applied_saved) (NetworkPower y action) (λ _, stage applied_saved) broken) as Hp.
  { intros y action. apply log_step_weak; [apply applied_saved_grows|]. intros log Hl _. exact Hl. }
  eapply triple_bind; [apply Hk, keeps_pure|intros target].
  eapply triple_bind; [apply Hk, keeps_fail_if|intros ?].
  eapply triple_bind; [apply Hk, run_guard_silent|intros ?].
  eapply triple_bind; [apply Hk, observe_silent|intros observed].
  eapply triple_bind.
  { apply triple_when; [eapply triple_weaken; [apply Hp|by intros ? [_ ?]|..]; intros ?? H; exact H|by intros]. }
  intros ?. eapply triple_bind; [apply Hk, observe_silent|intros verified].
  eapply triple_bind; [apply Hk, keeps_fail_if|intros ?].
  eapply (triple_bind _ _ _ (λ _, stage applied_saved)); [|intros ?].
  { intros w Hw. pose proof (Hk _ _ run_guard_silent w Hw) as Hg. pose proof (run_guard_silent _ w eq_refl) as Hl.
    destruct (run_guard Guard w) as [w' [[]|e]]; [exact Hg|]. unfold ignore.
    assert (stage applied_saved w') as Hw' by (unfold stage; by rewrite Hl). specialize (Hp target "stop" w' Hw').
    simpl in Hp |- *. destruct (logging _ (NetworkPower target "stop") w') as [w'' [[]|e']]; [apply Hp|exact Hp]. }
  eapply triple_bind; [|intros st; apply IH]. apply log_step_weak; [apply applied_saved_grows|done].
Qed.

End order.

(** ** Removal of yards *)

Lemma list_filter_True {A} (P : A → Prop) `{∀ x, Decision (P x)} (l : list A) : (∀ x, P x) → filter P l = l.
Proof. intros HP. induction l as [|x l IH]; [done|]. by rewrite filter_cons_True, IH. Qed.

(** Forgetting several yards. *)
Lemma Forget_all names p :
  foldl Policy_Forget p names =
  p <| p_Links := filter (λ l, Forall (λ n, ¬ link_touches n l) names) (p_Links p) |>
    <| p_Bindings := filter (λ b, Forall (λ n, yard_Name (b_Yard b) ≠ n) names) (p_Bindings p) |>.
Proof.
  revert p. induction names as [|n names IH]; intros p; simpl.
  - rewrite !list_filter_True by (intros; constructor). by destruct p.
  - rewrite IH. unfold Policy_Forget. destruct p; simpl. f_equal; rewrite list_filter_filter; apply list_filter_iff;
      intros x; rewrite Forall_cons; tauto.
Qed.

Lemma strip_links_all names links : strip_links names links = filter (λ l, Forall (λ n, ¬ link_touches n l) names) links.
Proof.
  unfold strip_links. revert links. induction names as [|n names IH]; intros links; simpl.
  - by rewrite list_filter_True by (intros; constructor).
  - rewrite IH, list_filter_filter. apply list_filter_iff. intros x. rewrite Forall_cons. tauto.
Qed.

(** The three policies of a removal.  The pending one records the targets and keeps the
    links, so that nothing is lost before the instances are gone; the applying one has
    lost exactly the links of the targets; the complete one is exactly what applying the
    applying one saves in the end.  Each has the next revision, without overflow, and
    only the complete one has no work pending. *)
Theorem removalPolicies_spec before targets pending applying complete :
  0 ≤ p_Revision before → p_AppliedRevision before ≤ p_Revision before → targets ≠ [] →
  removalPolicies before targets = Ok (pending, applying, complete) →
  (p_Revision pending = p_Revision before + 1 ∧ p_Revision applying = p_Revision before + 2 ∧
   p_Revision complete = p_Revision before + 2 ∧ p_Revision before + 2 ≤ max_u64) ∧
  (p_Links pending = p_Links before ∧ p_Bindings pending = p_Bindings before ∧
   (∀ n, n ∈ p_Removing pending ↔ n ∈ targets) ∧ p_Removing applying = p_Removing pending ∧
   (∀ n, n ∈ p_PendingStart pending ↔ n ∈ p_PendingStart before ∧ n ∉ targets)) ∧
  (∀ x y, linked applying x y ↔ linked before x y ∧ x ∉ targets ∧ y ∉ targets) ∧
  complete = applied_policy applying <| p_PendingStart := [] |> ∧
  pending_work pending = true ∧ pending_work applying = true ∧ pending_work complete = false.
Proof.
  intros H0 Happ Hne H. unfold removalPolicies in H. rewrite bool_decide_false in H by done.
  apply bind_Ok in H as (u & Hrem & H). apply bind_Ok in H as (u' & Hmax & H). apply refuse_Ok in Hmax. apply Z.ltb_ge in Hmax.
  apply Ok_inj in H. injection H as <- <- E. 
  assert (u64 (p_Revision before + 1) = p_Revision before + 1) as E1 by (apply u64_small; lia).
  assert (u64 (p_Revision before + 1 + 1) = p_Revision before + 2) as E2 by (rewrite u64_small; lia).
  simpl in E. rewrite Forget_all in E. simpl in E. rewrite !E1, E2 in *. simpl in *.
  assert (∀ x, x ∈ sort_strings targets ↔ x ∈ targets) as Hsort by (intros x; apply elem_of_sort_by).
  assert (∀ (P : string → Prop), Forall P (sort_strings targets) ↔ Forall P targets) as HF.
  { intros P. rewrite !Forall_forall. by setoid_rewrite Hsort. }
  assert (sort_strings targets ≠ []) as Hsne.
  { destruct targets as [|t ts]; [done|]. intros Es. assert (t ∈ sort_strings (t :: ts)) as Ht by (apply Hsort; by left).
    rewrite Es in Ht. by apply elem_of_nil in Ht. }
  split_and!; try lia; try done.
  - subst complete. by destruct (p_Isolation before).
  - intros n. rewrite list_elem_of_filter. tauto.
  - intros x y. unfold linked. simpl. rewrite strip_links_all, !list_elem_of_filter, !Forall_forall. unfold link_touches. simpl.
    split.
    + intros [[Ht Hl]|[Ht Hl]]; split_and!; auto; intros Hx; eapply Ht; eauto.
    + intros [[Hl|Hl] [Hx Hy]]; [left|right]; (split; [|done]); intros n Hn [? | ?]; by subst.
  - subst complete. unfold applied_policy. simpl. rewrite Forget_all. simpl.
    assert (∀ l : list Link, filter (λ l, Forall (λ n, ¬ link_touches n l) targets) l =
                 filter (λ l, Forall (λ n, ¬ link_touches n l) (sort_strings targets)) l) as EL.
    { intros l. apply list_filter_iff. intros x. by rewrite HF. }
    assert (∀ l : list Binding, filter (λ b, Forall (λ n, yard_Name (b_Yard b) ≠ n) targets) l =
                 filter (λ b, Forall (λ n, yard_Name (b_Yard b) ≠ n) (sort_strings targets)) l) as EB.
    { intros l. apply list_filter_iff. intros x. by rewrite HF. }
    rewrite EL, EB. by destruct (p_Isolation before).
  - unfold pending_work. simpl. rewrite (bool_decide_false (sort_strings targets = [])) by done. by rewrite !orb_true_r.
  - unfold pending_work. simpl. rewrite (bool_decide_false (sort_strings targets = [])) by done. by rewrite !orb_true_r.
  - subst complete. unfold pending_work. destruct (p_Isolation before); simpl; by rewrite Z.eqb_refl, ?eqb_reflx.
Qed.

(** ** A host in memory *)

Record mem := mkMem { mem_policy : StoredPolicy; mem_snapshot : Snapshot; mem_broken : bool }.

Definition mem_update (f : ObservedYard → ObservedYard) (w : mem) : mem * result net_error unit :=
  (mkMem (mem_policy w) (with_yards (mem_snapshot w) (f <$> sn_Yards (mem_snapshot w))) (mem_broken w), Ok tt).

Definition set_status (status : string) (y : ObservedYard) : ObservedYard :=
  let i := oy_InstanceInfo y in
  y <| oy_InstanceInfo := mkInstance (ii_Name i) (ii_Project i) (ii_Type i) status (ii_Config i) (ii_Devices i)
         (ii_LocalConfig i) (ii_LocalDevices i) |>.

(** Yards are found by their identity, lists by their name; the power of yards can be
    out of order. *)
#[export] Instance mem_host : Host mem := {
  ReadPolicy w := (w, Ok (mem_policy w));
  WritePolicy observed p w :=
    match Decode_Encode p with
    | Ok (content, q) => (mkMem (mkStored q content "") (mem_snapshot w) (mem_broken w), Ok (mkStored q content ""))
    | Err e => (w, Err e)
    end;
  InspectNetwork yards w :=
    (w, Ok (with_yards (mem_snapshot w) (filter (λ y, oy_Yard y ∈ yards) (sn_Yards (mem_snapshot w)))));
  WriteNetworkACL acl := mem_update (λ y,
    if bool_decide (ACLName (oy_Yard y) = acl_Name acl)
    then y <| oy_ACL := mkACL (acl_Name acl) true (acl_ETag acl) (acl_Config acl) (acl_Ingress acl) (acl_Egress acl) |> else y);
  DeleteNetworkACL acl := mem_update (λ y,
    if bool_decide (ACLName (oy_Yard y) = acl_Name acl) then y <| oy_ACL := mkACL "" false "" ∅ [] [] |> else y);
  WriteProfileNIC target nic := mem_update (λ y,
    if bool_decide (oy_Yard y = oy_Yard target)
    then y <| oy_ProfileDevices := <["eth0" := nic]> (oy_ProfileDevices y) |> else y);
  WriteProjectNetworks target access := mem_update (λ y,
    if bool_decide (yard_Project (oy_Yard y) = yard_Project (oy_Yard target))
    then y <| oy_ProjectConfig := <["restricted.networks.access" := access]> (oy_ProjectConfig y) |> else y);
  NetworkPower target action w :=
    if mem_broken w then (w, Err (NetPlan "power is out of order"))
    else mem_update (λ y, if bool_decide (oy_Yard y = target)
                          then set_status (if bool_decide (action = "start") then "Running" else "Stopped") y else y) w }.

#[export] Program Instance mem_laws : HostLaws mem := {| saved w := st_Policy (mem_policy w) |}.
Next Obligation. by intros p w <-. Qed.
Next Obligation.
  intros p observed q w <-. simpl. destruct (Decode_Encode q) as [[content q']|e]; [done|by left].
Qed.
Next Obligation. by intros yards p w <-. Qed.
Next Obligation. by intros acl p w <-. Qed.
Next Obligation. by intros acl p w <-. Qed.
Next Obligation. by intros y nic p w <-. Qed.
Next Obligation. by intros y access p w <-. Qed.
Next Obligation. intros y action p w <-. simpl. by destruct (mem_broken w). Qed.

Definition mem_guard : option (eff mem net_error unit) := Some (mret tt).

Lemma mem_guard_keeps g : mem_guard = Some g → keeps saved g.
Proof. intros [= <-]. apply keeps_ret. Qed.

Lemma no_lock_keeps (l : Locker mem) : None = Some l → keeps saved (lock_Acquire l).
Proof. done. Qed.

Definition demo_world (broken : bool) : mem :=
  mkMem (mkStored (st_Policy demo_stored) "{}" "") demo_snapshot broken.

Definition demo_run (broken : bool) : mem * result net_error unit :=
  applyLocked mem_guard None false demo_plan (demo_world broken).

(** The plan of [NetIsolation] reaches the host in memory. *)
Lemma apply_success_witness : p_Revision (saved (demo_run false).1) = 1 ∧ pending_work (saved (demo_run false).1) = false.
Proof.
  destruct (apply_success mem_guard None false mem_guard_keeps demo_plan (demo_world false) (demo_run false).1)
    as (H1 & _ & _ & _ & H2 & _).
  - change (demo_run false = ((demo_run false).1, Ok tt)).
    assert ((demo_run false).2 = Ok tt) as E by by vm_compute. destruct (demo_run false) as [w r]. simpl in E. by subst r.
  - split; [rewrite H1; by vm_compute|exact H2].
Defined.


Definition logged_guard : option (eff (mem * list event) net_error unit) := Some (mret tt).

Lemma logged_guard_keeps g : logged_guard = Some g → keeps snd g.
Proof. intros [= <-]. apply keeps_ret. Qed.

Definition demo_log : (mem * list event) * result net_error unit :=
  applyLocked logged_guard None false demo_plan (demo_world false, []).


Definition removal_demo : Policy :=
  mkPolicy 1 true [mkLink "db" "web"] 4 4 [demo_bound "db" "10.0.3.4" "02:cc:ce:81:61:6e"; demo_bound "web" "10.0.3.5" "02:71:8f:dd:8f:b4"]
    true [] [].

Lemma removalPolicies_spec_witness :
  ∃ pending applying complete, removalPolicies removal_demo ["web"] = Ok (pending, applying, complete) ∧
    complete = applied_policy applying <| p_PendingStart := [] |> ∧ p_Revision complete = 6.
Proof.
  eexists _, _, _. split; [reflexivity|].
  destruct (removalPolicies_spec removal_demo ["web"] _ _ _ ltac:(done) ltac:(done) ltac:(done) eq_refl)
    as ((_ & _ & H1 & _) & _ & _ & H2 & _).
  split; [exact H2|exact H1].
Defined.
