(* ===== verification/ProtectedStore.v ===== *)
(** * The protected store of release transitions

    internal/releasetransition/store_posix.go keeps each durable record in a file.
    A record is replaced by writing a staging file beside it, flushing the file and
    the directory, renaming the staging file over the record and flushing the
    directory again.

    [disk] is one directory of the store as the system calls present it: files with
    what a reader sees and what is known to be on the medium, the names as a lookup
    sees them and as they were since the directory was last flushed, and the outcome
    of the coming calls, each of which may fail before, during or after its effect.
    The walk of [openParent] down to the directory is one call that may fail.  The
    caller holds the lock of the store, so that no other process changes the
    directory in between. *)

From S2P Require Import Prelude GoStrings Sha256 Names JournalV2 Transition LedgerV2 Effects.

(** ** Files *)

(** A regular file; [i_private] says that its type, mode, owner and link count are
    those of a protected record. *)
Record inode := mkInode { i_data : string; i_synced : string; i_private : bool }.

(** The outcome of a system call; a call that fails may have had its effect up to an
    extent: none of it for 0, for a write that many bytes. *)
Inductive fault := Succeeds | Fails (extent : nat).

Record disk := mkDisk {
  d_nodes : gmap nat inode;
  d_names : gmap string nat;
  d_older : list (gmap string nat);
  d_faults : list fault }.

#[export] Instance disk_eta : Eta disk := λ d, mkDisk (d_nodes d) (d_names d) (d_older d) (d_faults d).

#[export] Instance inode_eq_dec : EqDecision inode.
Proof. solve_decision. Defined.
#[export] Instance fault_eq_dec : EqDecision fault.
Proof. solve_decision. Defined.
#[export] Instance disk_eq_dec : EqDecision disk.
Proof. solve_decision. Defined.
#[export] Instance ProtectedSnapshot_eq_dec : EqDecision ProtectedSnapshot.
Proof. solve_decision. Defined.

(** internal/releasetransition/store_posix.go:20-23 [ErrProtectedStoreStale, ErrProtectedStoreExists]:
    and the other errors of the store. *)
Inductive store_error :=
| StoreStale
| StoreExists
| StoreUnsafe
| StoreSize
| StoreInvalid
| StoreRecord (e : journal_error)
| StoreIO.

#[export] Instance journal_error_eq_dec : EqDecision journal_error.
Proof. solve_decision. Defined.
#[export] Instance store_error_eq_dec : EqDecision store_error.
Proof. solve_decision. Defined.

Notation io := (eff disk store_error).

(** ** System calls *)

(** A call with its effect as a function of how far it gets. *)
Definition sys {A} (call : option nat → disk → disk * result store_error A) : io A := λ d,
  match d_faults d with
  | [] => call None d
  | Succeeds :: rest => call None (d <| d_faults := rest |>)
  | Fails extent :: rest => ((call (Some extent) (d <| d_faults := rest |>)).1, Err StoreIO)
  end.

(** Whether a call that has its effect at once had it. *)
Definition took_effect (extent : option nat) : bool :=
  match extent with Some O => false | _ => true end.

Definition rename_dir (names : gmap string nat) (d : disk) : disk :=
  d <| d_names := names |> <| d_older := d_names d :: d_older d |>.

(** openat of an existing file, [None] for ENOENT *)
Definition open_existing (name : string) : io (option nat) := sys (λ _ d, (d, Ok (d_names d !! name))).

(** openat with O_CREAT and O_EXCL, [None] for EEXIST *)
Definition create_exclusive (name : string) : io (option nat) := sys (λ extent d,
  match d_names d !! name with
  | Some _ => (d, Ok None)
  | None =>
      let fd := fresh (dom (d_nodes d)) in
      (if took_effect extent
       then rename_dir (<[name := fd]> (d_names d)) (d <| d_nodes := <[fd := mkInode "" "" true]> (d_nodes d) |>)
       else d, Ok (Some fd))
  end).

Definition with_node {A} (fd : nat) (f : inode → disk * A) (d : disk) : disk * result store_error A :=
  match d_nodes d !! fd with
  | Some node => let '(d', a) := f node in (d', Ok a)
  | None => (d, Err StoreIO)
  end.

Definition fstat (fd : nat) : io (bool * Z) := sys (λ _ d,
  with_node fd (λ node, (d, (i_private node, len (i_data node)))) d).

(** [io.ReadAll(io.LimitReader(file, limit))] from the start of the file *)
Definition read_limited (limit : Z) (fd : nat) : io string := sys (λ _ d,
  with_node fd (λ node, (d, if len (i_data node) <=? limit then i_data node
                            else string_take (Z.to_nat limit) (i_data node))) d).

(** [os.File.Write] at the end of the file: it writes everything or fails *)
Definition append_file (fd : nat) (text : string) : io unit := sys (λ extent d,
  with_node fd (λ node,
    let written := match extent with Some n => string_take n text | None => text end in
    (d <| d_nodes := <[fd := mkInode (i_data node +:+ written) (i_synced node) (i_private node)]> (d_nodes d) |>, tt)) d).

Definition fsync_file (fd : nat) : io unit := sys (λ extent d,
  with_node fd (λ node,
    (if took_effect extent
     then d <| d_nodes := <[fd := mkInode (i_data node) (i_data node) (i_private node)]> (d_nodes d) |> else d, tt)) d).

Definition close_file : io unit := sys (λ _ d, (d, Ok tt)).

Definition fsync_dir : io unit := sys (λ extent d,
  (if took_effect extent then d <| d_older := [] |> else d, Ok tt)).

Definition unlink (name : string) : io unit := sys (λ extent d,
  match d_names d !! name with
  | None => (d, Err StoreIO)
  | Some _ => (if took_effect extent then rename_dir (delete name (d_names d)) d else d, Ok tt)
  end).

(** renameat, and renameat2 with RENAME_NOREPLACE when not [replace]: [false] for
    EEXIST *)
Definition rename (replace : bool) (from to : string) : io bool := sys (λ extent d,
  match d_names d !! from with
  | None => (d, Err StoreIO)
  | Some fd =>
      if negb replace && bool_decide (is_Some (d_names d !! to)) then (d, Ok false)
      else (if took_effect extent then rename_dir (<[to := fd]> (delete from (d_names d))) d else d, Ok true)
  end).

(** internal/releasetransition/store_posix.go:1104-1109 [inject]: the hook may fail. *)
Definition store_inject (point : string) : io unit := sys (λ _ d, (d, Ok tt)).

(** What [openParent] does for the directory: it is found, or made and its parent
    flushed, or the call fails. *)
Definition openParent : io unit := sys (λ _ d, (d, Ok tt)).

(** ** Records *)

(** internal/releasetransition/store_posix.go:16 [MaxProtectedRecordBytes] *)
Definition MaxProtectedRecordBytes : Z := Z.shiftl 1 20.

(** internal/releasetransition/store_posix.go:1234-1239 [validateProtectedPayload] *)
Definition validateProtectedPayload (payload : string) : result store_error unit :=
  refuse ((len payload =? 0) || (MaxProtectedRecordBytes <? len payload)) StoreSize.

(** internal/releasetransition/store_posix.go:1245-1251 [validProtectedSnapshot] *)
Definition validProtectedSnapshot (snapshot : ProtectedSnapshot) : bool :=
  if ps_Exists snapshot then
    (0 <? len (ps_Payload snapshot)) && (len (ps_Payload snapshot) <=? MaxProtectedRecordBytes) &&
    bool_decide (ps_Fingerprint snapshot = fingerprintPayload (ps_Payload snapshot))
  else
    (len (ps_Payload snapshot) =? 0) &&
    bool_decide (ps_Fingerprint snapshot = ps_Fingerprint absentProtectedSnapshot).

(** internal/releasetransition/store_posix.go:1253-1256 [sameProtectedSnapshot] *)
Definition sameProtectedSnapshot (left right : ProtectedSnapshot) : bool :=
  Bool.eqb (ps_Exists left) (ps_Exists right) &&
  bool_decide (ps_Fingerprint left = ps_Fingerprint right) &&
  bool_decide (ps_Payload left = ps_Payload right).

(** internal/releasetransition/store_posix.go:1219-1232 [validateProtectedFileFD] *)
Definition validateProtectedFileFD (fd : nat) (bounded : bool) : io unit :=
  stat ← fstat fd;
  let '(private, size) := (stat : bool * Z) in
  fail_if (negb private) StoreUnsafe;;
  fail_if (bounded && ((size <=? 0) || (MaxProtectedRecordBytes <? size))) StoreSize.

(** internal/releasetransition/store_posix.go:1181-1204 [readProtectedAt] *)
Definition readProtectedAt (name : string) : io ProtectedSnapshot :=
  opened ← open_existing name;
  match opened with
  | None => mret absentProtectedSnapshot
  | Some fd =>
      validateProtectedFileFD fd true;;
      payload ← read_limited (MaxProtectedRecordBytes + 1) fd;
      fail_if ((len payload =? 0) || (MaxProtectedRecordBytes <? len payload)) StoreSize;;
      mret (mkProtectedSnapshot true payload (fingerprintPayload payload))
  end.

(** internal/releasetransition/store_posix.go:1158-1179 [readStagingAt] *)
Definition readStagingAt (name : string) : io ProtectedSnapshot :=
  opened ← open_existing name;
  match opened with
  | None => mret absentProtectedSnapshot
  | Some fd =>
      validateProtectedFileFD fd false;;
      payload ← read_limited (MaxProtectedRecordBytes + 1) fd;
      fail_if (MaxProtectedRecordBytes <? len payload) StoreSize;;
      mret (protectedSnapshotFromPayload payload)
  end.

(** internal/releasetransition/store_posix.go:1111-1154 [preparePendingAt] *)
Definition preparePendingAt (name payload : string) : io unit :=
  created ← create_exclusive name;
  opened ← match created with
           | Some fd => mret (Some fd)
           | None => open_existing name
           end;
  fd ← pure (expect opened StoreIO);
  validateProtectedFileFD fd false;;
  remaining ← match created with
              | Some _ => mret payload
              | None =>
                  current ← read_limited (MaxProtectedRecordBytes + 1) fd;
                  fail_if ((MaxProtectedRecordBytes <? len current) || negb (HasPrefix payload current)) StoreExists;;
                  mret (TrimPrefix payload current)
              end;
  when (0 <? len remaining) (append_file fd remaining);;
  fsync_file fd;;
  close_file;;
  fsync_dir.

Definition pending_name (name : string) : string := "." +:+ name +:+ ".pending".

(** internal/releasetransition/store_posix.go:1053-1102 [publishAt] *)
Definition publishAt (name : string) (expected : ProtectedSnapshot) (payload : string) (conflict : store_error) : io unit :=
  current ← readProtectedAt name;
  fail_if (negb (sameProtectedSnapshot current expected)) conflict;;
  rescue (λ e, if bool_decide (e = StoreExists) then conflict else e) (preparePendingAt (pending_name name) payload);;
  store_inject "after-pending-fsync";;
  current ← readProtectedAt name;
  fail_if (negb (sameProtectedSnapshot current expected)) conflict;;
  store_inject "before-publish";;
  renamed ← rename (ps_Exists expected) (pending_name name) name;
  fail_if (negb renamed) conflict;;
  store_inject "after-publish-before-dir-fsync";;
  fsync_dir.

(** internal/releasetransition/store_posix.go:871-893 [discardOrphanedCASPendingAt] *)
Definition discardOrphanedCASPendingAt (name : string) (expected : ProtectedSnapshot) (payload : string) : io unit :=
  pending ← readStagingAt (pending_name name);
  when (ps_Exists pending && negb (bool_decide (ps_Payload pending = payload)))
    (current ← readProtectedAt name;
     fail_if (negb (sameProtectedSnapshot current expected)) StoreStale;;
     unlink (pending_name name);;
     fsync_dir).

(** internal/releasetransition/store_posix.go:842-869 [compareAndSwap] *)
Definition compareAndSwap (name : string) (expected : ProtectedSnapshot) (payload : string) : io unit :=
  pure (validateProtectedPayload payload);;
  fail_if (negb (validProtectedSnapshot expected)) StoreInvalid;;
  openParent;;
  discardOrphanedCASPendingAt name expected payload;;
  publishAt name expected payload StoreStale.

(** internal/releasetransition/store_posix.go:895-925 [createImmutable] *)
Definition createImmutable (name payload : string) : io unit :=
  pure (validateProtectedPayload payload);;
  openParent;;
  current ← readProtectedAt name;
  if ps_Exists current then
    if bool_decide (ps_Payload current = payload) then fsync_dir else pure (Err StoreExists)
  else publishAt name current payload StoreExists.

(** internal/releasetransition/store_posix.go:955-968 [readRecord] *)
Definition readRecord (name : string) : io ProtectedSnapshot := openParent;; readProtectedAt name.

(** internal/releasetransition/store_posix.go:927-943 [checkpointEvidenceName] *)
Definition checkpointEvidenceName (transaction step checkpoint : string) : result journal_error string :=
  validateTransactionID transaction;;
  validateSafeID step "evidence step ID";;
  refuse (negb (bool_decide (checkpoint ∈ ["captured"; "applied"; "verified"])))
    (UnknownValue "evidence checkpoint" checkpoint);;
  Ok (step +:+ "." +:+ checkpoint +:+ ".json").

(** internal/releasetransition/store_posix.go:945-953 [recoveryName] *)
Definition recoveryName (transaction step : string) : result journal_error string :=
  validateTransactionID transaction;;
  validateSafeID step "recovery step ID";;
  Ok (step +:+ ".json").

(** internal/releasetransition/store_posix.go:93-107 [CreateCheckpointEvidence]: in the
    directory of the transaction's evidence. *)
Definition CreateCheckpointEvidence (transaction step checkpoint payload : string) : io unit :=
  name ← pure (map_err StoreRecord (checkpointEvidenceName transaction step checkpoint));
  createImmutable name payload.

(** internal/releasetransition/store_posix.go:403-416 [CreateRecovery]: in the directory
    of the transaction's recovery records. *)
Definition CreateRecovery (transaction step payload : string) : io unit :=
  name ← pure (map_err StoreRecord (recoveryName transaction step));
  createImmutable name payload.

(** internal/releasetransition/store_posix.go:52-56 [CompareAndSwapLedger] *)
Definition CompareAndSwapLedger (expected : ProtectedSnapshot) (payload : string) : io unit :=
  compareAndSwap "ledger.json" expected payload.
