(* ===== verification/StoreProofs.v ===== *)
(** * Crash safety of the protected store

    What a crash may leave of a directory, the invariant that every call keeps, also
    when it fails half way, and from it: replacing a record is atomic and durable,
    an immutable record stays, an interrupted write can be repeated. *)

From S2P Require Import Prelude GoStrings Sha256 Names JournalV2 Transition LedgerV2 Effects ProtectedStore.

(** ** Crashes *)

(** A file after a crash: what was flushed is there, of the rest an initial part. *)
Definition crashed_file (f f' : inode) : Prop :=
  HasPrefix (i_data f) (i_data f') = true ∧ HasPrefix (i_data f') (i_synced f) = true ∧
  i_synced f' = i_data f' ∧ i_private f' = i_private f.

(** The directory as it may be after a crash: now, or at any time since it was flushed. *)
Definition versions (d : disk) : list (gmap string nat) := d_names d :: d_older d.

Definition crash (d d' : disk) : Prop :=
  d_names d' ∈ versions d ∧ d_older d' = [] ∧
  ∀ i, option_Forall2 crashed_file (d_nodes d !! i) (d_nodes d' !! i).

(** What a name of some version of the directory holds. *)
Definition content (d : disk) (names : gmap string nat) (n : string) : option string :=
  i ← names !! n; i_data <$> d_nodes d !! i.

Definition record (d : disk) (n : string) : option string := content d (d_names d) n.

Definition recoverable (d : disk) (n : string) (c : option string) : Prop :=
  ∃ d', crash d d' ∧ record d' n = c.

Definition snapshot_of (c : option string) : ProtectedSnapshot :=
  match c with
  | Some payload => protectedSnapshotFromPayload payload
  | None => absentProtectedSnapshot
  end.

(** Names of records do not end like those of staging files. *)
Definition published (n : string) : Prop := ∀ s, n ≠ s +:+ ".pending".

Definition payload_ok (payload : string) : Prop := 0 < len payload ≤ MaxProtectedRecordBytes.

(** ** The invariant *)

Definition good_record (f : inode) : Prop := i_private f = true ∧ i_synced f = i_data f ∧ payload_ok (i_data f).

Definition good_staging (f : inode) : Prop := i_private f = true ∧ len (i_data f) ≤ MaxProtectedRecordBytes.

Record store_ok (d : disk) : Prop := mkStoreOk {
  ok_nodes : ∀ i f, d_nodes d !! i = Some f → HasPrefix (i_data f) (i_synced f) = true;
  ok_names : ∀ v n i, v ∈ versions d → v !! n = Some i →
    ∃ f, d_nodes d !! i = Some f ∧ (published n → good_record f) ∧ good_staging f;
  ok_inj : ∀ v n m i, v ∈ versions d → v !! n = Some i → v !! m = Some i → n = m;
  ok_apart : ∀ v n m i, v ∈ versions d → ¬ published m → d_names d !! m = Some i → v !! n = Some i → n = m }.

(** The state between two calls: what each record may hold after a crash, what each
    staging file may hold, and what the records hold now. *)
Record at_rest (A : string → option string → Prop) (S : string → string → Prop) (cur : string → option string)
    (d : disk) : Prop := mkAtRest {
  rest_ok : store_ok d;
  rest_allowed : ∀ v n, v ∈ versions d → published n → A n (content d v n);
  rest_staging : ∀ v n i f, v ∈ versions d → ¬ published n → v !! n = Some i → d_nodes d !! i = Some f → S n (i_data f);
  rest_current : ∀ n, published n → record d n = cur n }.

(** The staging file of a record, flushed with the new text. *)
Definition holds (n : string) (fd : nat) (f : inode) (d : disk) : Prop :=
  d_names d !! n = Some fd ∧ d_nodes d !! fd = Some f.

(** ** Generic facts *)

Lemma string_take_length n s : len (string_take n s) ≤ len s.
Proof. unfold len. revert n. induction s as [|a s IH]; intros [|n]; simpl; try lia. specialize (IH n). lia. Qed.

Lemma string_take_prefix n s : HasPrefix s (string_take n s) = true.
Proof.
  apply HasPrefix_spec. revert n. induction s as [|a s IH]; intros [|n]; simpl.
  1-3: by eexists.
  destruct (IH n) as [r Hr]. exists r. by rewrite string_app_cons, <-Hr.
Qed.

Lemma HasPrefix_refl s : HasPrefix s s = true.
Proof. apply HasPrefix_spec. exists "". by rewrite string_app_nil_r. Qed.

Lemma HasPrefix_trans a b c : HasPrefix a b = true → HasPrefix b c = true → HasPrefix a c = true.
Proof. rewrite !HasPrefix_spec. intros [r ->] [r' ->]. exists (r' +:+ r). by rewrite string_app_assoc. Qed.

Lemma HasPrefix_len s p : HasPrefix s p = true → len p ≤ len s.
Proof. rewrite HasPrefix_spec. intros [r ->]. rewrite len_app. unfold len. lia. Qed.

Lemma HasPrefix_same s p : HasPrefix s p = true → HasPrefix p s = true → s = p.
Proof.
  rewrite !HasPrefix_spec. intros [r Hr] [r' Hr'].
  assert (len r = 0) as Hl by (subst s; apply (f_equal len) in Hr'; rewrite !len_app in Hr'; unfold len in *; lia).
  destruct r; [|unfold len in Hl; simpl in Hl; lia]. by rewrite string_app_nil_r in Hr.
Qed.

Lemma HasPrefix_empty s : HasPrefix s "" = true.
Proof. apply HasPrefix_spec. by exists s. Qed.

Lemma TrimPrefix_app s p : HasPrefix s p = true → p +:+ TrimPrefix s p = s.
Proof. intros [r ->]%HasPrefix_spec. unfold TrimPrefix. by rewrite HasPrefix_app, string_drop_app. Qed.

Lemma pending_staging n : ¬ published (pending_name n).
Proof. intros H. by apply (H ("." +:+ n)). Qed.

Lemma json_published s : published (s +:+ ".json").
Proof. intros t H%(f_equal bytes). rewrite !bytes_app in H. by apply (f_equal last) in H; rewrite !last_app in H. Qed.

(** The names under which the store keeps records. *)
Lemma evidence_published transaction step checkpoint n :
  checkpointEvidenceName transaction step checkpoint = Ok n → published n.
Proof. unfold checkpointEvidenceName. intros H. ok_inv. simplify_eq. rewrite !string_app_assoc. apply json_published. Qed.

Lemma recovery_published transaction step n : recoveryName transaction step = Ok n → published n.
Proof. unfold recoveryName. intros H. ok_inv. simplify_eq. apply json_published. Qed.

Create HintDb store.
#[export] Hint Resolve HasPrefix_refl HasPrefix_empty pending_staging string_take_prefix : store.

(** ** Calls *)

(** A call; the precondition must not speak of the coming outcomes. *)
Lemma triple_sys {A} (call : option nat → disk → disk * result store_error A) P Q R :
  (∀ d faults, P d → P (d <| d_faults := faults |>)) →
  (∀ d, P d → match call None d with (d', Ok a) => Q a d' | (d', Err e) => R e d' end) →
  (∀ d extent, P d → R StoreIO (call (Some extent) d).1) →
  triple P (sys call) Q R.
Proof.
  intros HP HQ HR d Hd. unfold sys. destruct (d_faults d) as [|[|extent] rest].
  - by apply HQ.
  - by apply HQ, HP.
  - by apply HR, HP.
Qed.

(** A call that only looks. *)
Lemma triple_look {A} (look : disk → result store_error A) P :
  (∀ d faults, P d → P (d <| d_faults := faults |>)) →
  triple P (sys (λ _ d, (d, look d))) (λ a d, look d = Ok a ∧ P d) (λ _, P).
Proof.
  intros HP. apply triple_sys; [done|simpl|done]. intros d Hd. by destruct (look d).
Qed.

Lemma with_node_look {A} fd (g : inode → A) d :
  with_node fd (λ f, (d, g f)) d = (d, match d_nodes d !! fd with Some f => Ok (g f) | None => Err StoreIO end).
Proof. unfold with_node. by destruct (d_nodes d !! fd). Qed.

Lemma triple_look_node {A} fd (g : inode → A) P :
  (∀ d faults, P d → P (d <| d_faults := faults |>)) →
  triple P (sys (λ _ d, with_node fd (λ f, (d, g f)) d))
    (λ a d, (∃ f, d_nodes d !! fd = Some f ∧ a = g f) ∧ P d) (λ _, P).
Proof.
  intros HP. apply triple_sys; [done|..]; intros d; [|intros extent]; rewrite with_node_look; [|done].
  intros Hd. destruct (d_nodes d !! fd) as [f|]; [|done]. split; [by exists f|done].
Qed.

Lemma stat_spec fd bounded P :
  (∀ d faults, P d → P (d <| d_faults := faults |>)) →
  triple P (validateProtectedFileFD fd bounded)
    (λ _ d, (∃ f, d_nodes d !! fd = Some f ∧ i_private f = true ∧ (bounded = true → payload_ok (i_data f))) ∧ P d) (λ _, P).
Proof.
  intros HP. eapply triple_bind; [by apply (triple_look_node fd (λ f, (i_private f, len (i_data f))))|].
  intros [private size]. simpl. eapply triple_bind; [apply triple_fail_if; by intros ? ? []|]. intros ?.
  apply triple_check; [by intros ? ? (? & ? & ?)|].
  intros d Hb (Hp & (f & Hf & [= -> ->]) & Hd). split; [|done]. exists f. split; [done|].
  split; [by destruct (i_private f)|]. intros ->. bools. unfold payload_ok. lia.
Qed.

Lemma read_spec limit fd P :
  (∀ d faults, P d → P (d <| d_faults := faults |>)) →
  triple P (read_limited limit fd)
    (λ text d, (∃ f, d_nodes d !! fd = Some f ∧ (len (i_data f) <= limit → text = i_data f) ∧
                     (limit < len (i_data f) → limit ≤ len text)) ∧ P d) (λ _, P).
Proof.
  intros HP. eapply triple_weaken; [by apply (triple_look_node fd)|done| |done].
  intros text d ((f & Hf & ->) & Hd). split; [|done]. exists f. split; [done|].
  destruct (Z.leb_spec (len (i_data f)) limit) as [Hl|Hl]; [split; [done|lia]|]. split; [lia|]. intros _.
  revert Hl. generalize (i_data f). intros s Hl. destruct (Z.le_gt_cases limit 0); [unfold len; lia|].
  assert (∀ n t, (n ≤ String.length t)%nat → String.length (string_take n t) = n) as Ht.
  { clear. induction n as [|n IH]; intros [|a t] Hn; simpl in *; try lia. rewrite IH; lia. }
  unfold len in *. rewrite Ht; lia.
Qed.

(** Reading a record gives what the directory holds; a failing read changes nothing. *)
Lemma readProtectedAt_spec n P :
  (∀ d faults, P d → P (d <| d_faults := faults |>)) →
  triple P (readProtectedAt n) (λ s d, s = snapshot_of (record d n) ∧ P d) (λ _, P).
Proof.
  intros HP. eapply triple_bind; [by apply (triple_look (λ d, Ok (d_names d !! n)))|]. intros [fd|].
  2:{ intros d [[= Hn] Hd]. split; [|done]. unfold record, content. by rewrite Hn. }
  pose (P1 := λ d, d_names d !! n = Some fd ∧ P d).
  assert (∀ d faults, P1 d → P1 (d <| d_faults := faults |>)) as HP1 by (intros d fs []; split; [done|by apply HP]).
  eapply triple_bind; [eapply triple_weaken; [by apply (stat_spec fd true P1)| |intros ?? H; exact H|by intros ? ? []]|].
  { intros d [[= Hn] Hd]. done. }
  intros ?. pose (P2 := λ d, (∃ f, d_nodes d !! fd = Some f ∧ payload_ok (i_data f)) ∧ P1 d).
  eapply triple_bind; [eapply triple_weaken; [apply (read_spec (MaxProtectedRecordBytes + 1) fd P2)| |intros ?? H; exact H|]|].
  { intros d fs [(f & Hf) Hd]. split; [by exists f|by apply HP1]. }
  { intros d [(f & Hf & Hp & Hs) Hd]. split; [exists f; split; [done|by apply Hs]|done]. }
  { by intros ? ? (? & ? & ?). }
  intros text. eapply triple_bind; [apply triple_fail_if; by intros ? ? (? & ? & ? & ?)|]. intros ?.
  intros d (_ & (f & Hf & Ht & _) & (f' & Hf' & Hs) & Hn & Hd). split; [|done]. simplify_eq. unfold payload_ok in Hs.
  rewrite Ht by lia. unfold record, content. by rewrite Hn; simpl; rewrite Hf.
Qed.

(** ** States *)

Section states.
Context (A : string → option string → Prop) (S : string → string → Prop) (cur : string → option string).
Notation rest := (at_rest A S cur).

Lemma content_node d v n i f : v !! n = Some i → d_nodes d !! i = Some f → content d v n = Some (i_data f).
Proof. intros Hv Hf. unfold content. by rewrite Hv; simpl; rewrite Hf. Qed.

(** The file of a staging name changes. *)
Lemma rest_node d p fd f f' :
  rest d → holds p fd f d → ¬ published p → HasPrefix (i_data f') (i_synced f') = true → good_staging f' →
  S p (i_data f') → rest (d <| d_nodes := <[fd := f']> (d_nodes d) |>) ∧ holds p fd f' (d <| d_nodes := <[fd := f']> (d_nodes d) |>).
Proof.
  intros [[Hn Hm Hi Ha] HA HS Hc] [Hp Hf] Hs Hf' Hg HS'. unfold holds. simpl. split; [|by rewrite lookup_insert_eq].
  assert (∀ v n, v ∈ versions d → published n → content (d <| d_nodes := <[fd := f']> (d_nodes d) |>) v n = content d v n) as Hcont.
  { intros v n Hv Hpub. unfold content. simpl. destruct (v !! n) as [i|] eqn:Hi'; [|done]. simpl.
    rewrite lookup_insert_ne; [done|]. intros ->. by rewrite (Ha v n p i) in Hpub by done. }
  split; [split|..]; simpl.
  - intros i g. rewrite lookup_insert_Some. intros [[<- <-]|[? ?]]; [done|by eapply Hn].
  - intros v n i Hv Hi'. destruct (decide (i = fd)) as [->|Hne].
    + assert (n = p) as -> by (by eapply Ha). exists f'. rewrite lookup_insert_eq. done.
    + destruct (Hm v n i) as (g & Hg' & ?); [done..|]. exists g. by rewrite lookup_insert_ne.
  - exact Hi.
  - exact Ha.
  - intros v n Hv Hpub. rewrite Hcont by done. by apply HA.
  - intros v n i g Hv Hpub Hi'. rewrite lookup_insert_Some. intros [[<- <-]|[? ?]]; [|by eapply HS].
    by assert (n = p) as -> by (by eapply Ha).
  - intros n Hpub. unfold record. simpl. rewrite Hcont; [by apply Hc|by left|done].
Qed.

(** The directory changes. *)
Lemma rest_names cur' d names :
  rest d →
  (∀ n i, names !! n = Some i → ∃ f, d_nodes d !! i = Some f ∧ (published n → good_record f) ∧ good_staging f) →
  (∀ n m i, names !! n = Some i → names !! m = Some i → n = m) →
  (∀ n i, ¬ published n → names !! n = Some i →
     d_names d !! n = Some i ∨ (∀ v m, v ∈ versions d → v !! m ≠ Some i) ∧ ∃ f, d_nodes d !! i = Some f ∧ S n (i_data f)) →
  (∀ n, published n → content d names n = cur' n ∧ A n (cur' n)) →
  at_rest A S cur' (rename_dir names d).
Proof.
  intros [[Hn Hm Hi Ha] HA HS Hc] Hm' Hi' Hsub Hc'. unfold rename_dir. split; [split|..]; unfold versions; simpl.
  - exact Hn.
  - intros v n i [->|Hv]%elem_of_cons; [by apply Hm'|]. by apply Hm.
  - intros v n m i [->|Hv]%elem_of_cons; [by apply Hi'|]. by apply Hi.
  - intros v n m i [->|Hv]%elem_of_cons Hpub Hm1 Hn1; [by eapply Hi'|].
    apply Hsub in Hm1 as [Hm1|[Hno _]]; [by eapply Ha|by destruct (Hno v n)|done].
  - intros v n [->|Hv]%elem_of_cons Hpub; [|by apply HA]. destruct (Hc' n Hpub) as [He Hal]. unfold content in *. simpl.
    by rewrite He.
  - intros v n i f [->|Hv]%elem_of_cons Hpub Hni; [|by eapply HS].
    apply Hsub in Hni as [Hni|(_ & g & Hg & HSg)]; [eapply HS; [by left|done..]| |done]. intros Hf. by simplify_eq.
  - intros n Hpub. by destruct (Hc' n Hpub).
Qed.

Lemma rest_flush d : rest d → rest (d <| d_older := [] |>).
Proof.
  intros [[Hn Hm Hi Ha] HA HS Hc].
  assert (∀ v, v ∈ versions (d <| d_older := [] |>) → v ∈ versions d) as Hv.
  { intros v ->%list_elem_of_singleton. by left. }
  split; [split|..]; simpl; eauto.
Qed.

(** A new, empty file that no name leads to yet. *)
Lemma rest_alloc d :
  rest d → let fd := fresh (dom (d_nodes d)) in
  let d' := d <| d_nodes := <[fd := mkInode "" "" true]> (d_nodes d) |> in
  rest d' ∧ ∀ v m, v ∈ versions d → v !! m ≠ Some fd.
Proof.
  intros [[Hn Hm Hi Ha] HA HS Hc] fd d'.
  assert (d_nodes d !! fd = None) as Hfd by (apply not_elem_of_dom, is_fresh).
  assert (∀ v m, v ∈ versions d → v !! m ≠ Some fd) as Hno.
  { intros v m Hv Hi'. destruct (Hm v m fd) as (f & Hf & _); [done..|]. congruence. }
  assert (∀ v n, v ∈ versions d → content d' v n = content d v n) as Hcont.
  { intros v n Hv. unfold content, d'. simpl. destruct (v !! n) as [i|] eqn:Hi'; [|done]. simpl.
    rewrite lookup_insert_ne; [done|]. intros <-. by eapply Hno. }
  split; [|done]. split; [split|..]; simpl.
  - intros i f. rewrite lookup_insert_Some. intros [[<- <-]|[? ?]]; [done|by eapply Hn].
  - intros v n i Hv Hi'. destruct (Hm v n i) as (f & Hf & ?); [done..|]. exists f. split; [|done].
    rewrite lookup_insert_ne; [done|]. intros <-. by eapply Hno.
  - exact Hi.
  - exact Ha.
  - intros v n Hv Hpub. rewrite Hcont by done. by apply HA.
  - intros v n i f Hv Hpub Hi'. rewrite lookup_insert_ne; [by eapply HS|]. intros <-. by eapply Hno.
  - intros n Hpub. unfold record. rewrite Hcont; [by apply Hc|by left].
Qed.

Lemma rest_create d p :
  rest d → d_names d !! p = None → ¬ published p → S p "" →
  let fd := fresh (dom (d_nodes d)) in
  let d' := rename_dir (<[p := fd]> (d_names d)) (d <| d_nodes := <[fd := mkInode "" "" true]> (d_nodes d) |>) in
  rest d' ∧ holds p fd (mkInode "" "" true) d'.
Proof.
  intros Hd Hp Hs HS0 fd. destruct (rest_alloc d Hd) as [Hd' Hno]. fold fd in Hd', Hno.
  set (d1 := d <| d_nodes := _ |>) in *. intros d'.
  assert (d_nodes d1 !! fd = Some (mkInode "" "" true)) as Hfd by (unfold d1; simpl; by rewrite lookup_insert_eq).
  split; [|unfold holds, d', rename_dir; simpl; by rewrite !lookup_insert_eq].
  assert (∀ n i, d_names d !! n = Some i → i ≠ fd) as Hne.
  { intros n i Hi ->. by destruct (Hno (d_names d) n); [left|]. }
  pose proof (rest_ok _ _ _ _ Hd') as [_ Hm Hi _]. apply rest_names; [done|..].
  - intros n i [[<- <-]|[_ Hni]]%lookup_insert_Some; [|apply (Hm (d_names d)); [by left|done]].
    exists (mkInode "" "" true). split; [done|]. split; [done|]. by split.
  - intros n m i [[<- <-]|[? H1]]%lookup_insert_Some [[<- H2]|[? H2]]%lookup_insert_Some; try done.
    + by destruct (Hne m fd).
    + subst i. by destruct (Hne n fd).
    + by apply (Hi (d_names d) n m i); [left|..].
  - intros n i Hpub [[<- <-]|[_ Hni]]%lookup_insert_Some; [|by left]. right. split; [done|by eexists].
  - intros n Hpub. destruct Hd' as [_ HA _ Hc]. assert (n ≠ p) as Hnp by (by intros ->).
    specialize (Hc n Hpub) as Hcn. unfold record, content in *. rewrite lookup_insert_ne by done. split; [done|].
    rewrite <-Hcn. apply HA; [by left|done].
Qed.
End states.

(** ** The protocol *)

Section protocol.
Context (A : string → option string → Prop) (S : string → string → Prop) (cur : string → option string).
Notation rest := (at_rest A S cur).

Lemma rest_steady d faults : rest d → rest (d <| d_faults := faults |>).
Proof. intros [[Hn Hm Hi Ha] HA HS Hc]. by split; [split|..]. Qed.

Lemma holds_steady p fd f d faults : rest d ∧ holds p fd f d → rest (d <| d_faults := faults |>) ∧ holds p fd f (d <| d_faults := faults |>).
Proof. intros [Hd Hh]. split; [by apply rest_steady|done]. Qed.

#[local] Hint Resolve rest_steady holds_steady : store.

Lemma create_spec p :
  ¬ published p → S p "" →
  triple rest (create_exclusive p)
    (λ o d, rest d ∧ match o with
                     | Some fd => holds p fd (mkInode "" "" true) d
                     | None => is_Some (d_names d !! p)
                     end) (λ _, rest).
Proof.
  intros Hp HS. apply triple_sys; [auto with store|..].
  - intros d Hd. destruct (d_names d !! p) as [fd|] eqn:Hn; [split; [done|by exists fd]|]. simpl. by apply rest_create.
  - intros d extent Hd. destruct (d_names d !! p) as [fd|] eqn:Hn; [done|]. simpl.
    destruct extent; simpl; [done|]. by apply rest_create.
Qed.

Lemma append_spec p fd f text :
  ¬ published p → i_private f = true → HasPrefix (i_data f) (i_synced f) = true →
  len (i_data f +:+ text) ≤ MaxProtectedRecordBytes → (∀ q, HasPrefix (i_data f +:+ text) q = true → S p q) →
  triple (λ d, rest d ∧ holds p fd f d) (append_file fd text)
    (λ _ d, rest d ∧ holds p fd (mkInode (i_data f +:+ text) (i_synced f) (i_private f)) d) (λ _, rest).
Proof.
  intros Hp Hpriv Hsync Hlen HS.
  assert (∀ written d, HasPrefix text written = true → rest d → holds p fd f d →
    let d' := d <| d_nodes := <[fd := mkInode (i_data f +:+ written) (i_synced f) (i_private f)]> (d_nodes d) |> in
    rest d' ∧ holds p fd (mkInode (i_data f +:+ written) (i_synced f) (i_private f)) d') as Hw.
  { intros written d [r ->]%HasPrefix_spec Hd Hh. eapply rest_node; [done..| | |]; simpl.
    - eapply HasPrefix_trans; [apply HasPrefix_app|done].
    - split; [done|]. simpl. rewrite !len_app in *. unfold len in *. lia.
    - apply HS. rewrite string_app_assoc. apply HasPrefix_app. }
  apply triple_sys; [intros; by apply holds_steady|..]; unfold with_node.
  - intros d [Hd [Hn Hf]]. rewrite Hf. simpl. apply Hw; [apply HasPrefix_refl|done|done].
  - intros d extent [Hd [Hn Hf]]. rewrite Hf. simpl. apply Hw; [apply string_take_prefix|done|done].
Qed.

Lemma fsync_spec p fd f :
  ¬ published p → good_staging f → S p (i_data f) →
  triple (λ d, rest d ∧ holds p fd f d) (fsync_file fd)
    (λ _ d, rest d ∧ holds p fd (mkInode (i_data f) (i_data f) (i_private f)) d) (λ _, rest).
Proof.
  intros Hp Hg HS. apply triple_sys; [intros; by apply holds_steady|..]; unfold with_node.
  - intros d [Hd [Hn Hf]]. rewrite Hf. simpl. eapply rest_node; try done. apply HasPrefix_refl.
  - intros d extent [Hd [Hn Hf]]. rewrite Hf. simpl. destruct extent; simpl; [done|].
    eapply rest_node; try done. apply HasPrefix_refl.
Qed.

Lemma flush_spec (P : disk → Prop) :
  (∀ d faults, P d → P (d <| d_faults := faults |>)) → (∀ d, P d → P (d <| d_older := [] |>)) →
  triple P fsync_dir (λ _ d, P d ∧ d_older d = []) (λ e d, e = StoreIO ∧ P d).
Proof.
  intros HP Hf. apply triple_sys; [done|..]; simpl.
  - intros d Hd. split; [by apply Hf|done].
  - intros d [|extent] Hd; simpl; (split; [done|]); [done|by apply Hf].
Qed.

Lemma inject_spec (P : disk → Prop) point :
  (∀ d faults, P d → P (d <| d_faults := faults |>)) → triple P (store_inject point) (λ _, P) (λ e d, e = StoreIO ∧ P d).
Proof. intros HP. by apply triple_sys. Qed.

Lemma holds_flush p fd f d : rest d ∧ holds p fd f d → rest (d <| d_older := [] |>) ∧ holds p fd f (d <| d_older := [] |>).
Proof. intros [Hd Hh]. split; [by apply rest_flush|done]. Qed.

(** What is missing is written and flushed. *)
Lemma write_spec p fd f remaining payload :
  ¬ published p → payload_ok payload → (∀ q, HasPrefix payload q = true → S p q) →
  i_private f = true → HasPrefix (i_data f) (i_synced f) = true → i_data f +:+ remaining = payload →
  triple (λ d, rest d ∧ holds p fd f d) (when (0 <? len remaining) (append_file fd remaining);; fsync_file fd;; close_file;; fsync_dir)
    (λ _ d, rest d ∧ ∃ fd, holds p fd (mkInode payload payload true) d) (λ _, rest).
Proof.
  intros Hp [Hok1 Hok2] HS Hpriv Hsync Hpay. set (f1 := mkInode payload (i_synced f) true).
  eapply triple_bind with (Q := λ _ d, rest d ∧ holds p fd f1 d); [|intros ?].
  { apply triple_when.
    - eapply triple_weaken; [apply (append_spec p fd f remaining); rewrite ?Hpay; done|by intros d []| |done].
      intros ? d. by rewrite Hpay, Hpriv.
    - intros d Hz [Hd Hh]. split; [done|]. unfold f1. apply Z.ltb_ge in Hz. destruct remaining; [|unfold len in Hz; simpl in Hz; lia].
      rewrite string_app_nil_r in Hpay. subst. by destruct f; simpl in *; subst. }
  eapply triple_bind; [apply fsync_spec; [done|split; [done|exact Hok2]|apply HS, HasPrefix_refl]|]. intros ?. simpl.
  eapply triple_seq; [apply (triple_look (λ _, Ok tt) (λ d, rest d ∧ holds p fd (mkInode payload payload true) d)), holds_steady
    |done|by intros ? ? []|]. intros ?.
  eapply triple_weaken; [apply (flush_spec (λ d, rest d ∧ holds p fd (mkInode payload payload true) d));
    [apply holds_steady|apply holds_flush]|by intros d []| |by intros ? ? (? & ? & ?)].
  intros ? d [[Hd Hh] _]. split; [done|by exists fd].
Qed.

(** After it a staging file holds the payload, on the medium. *)
Lemma prepare_spec p payload :
  ¬ published p → payload_ok payload → (∀ q, HasPrefix payload q = true → S p q) →
  triple rest (preparePendingAt p payload)
    (λ _ d, rest d ∧ ∃ fd, holds p fd (mkInode payload payload true) d) (λ _, rest).
Proof.
  intros Hp Hok HS. eapply triple_bind; [apply create_spec; [done|apply HS, HasPrefix_empty]|]. intros [fd|].
  - apply (triple_ret_bind (Some fd)), (triple_ret_bind fd).
    eapply triple_seq; [apply (stat_spec fd false (λ d, rest d ∧ holds p fd (mkInode "" "" true) d)), holds_steady|done|by intros ? ? []|]. intros ?.
    apply (triple_ret_bind payload). eapply triple_weaken; [by apply (write_spec p fd (mkInode "" "" true) payload)|by intros d []|done|done].
  - eapply triple_seq; [apply (triple_look (λ d, Ok (d_names d !! p)) rest), rest_steady|by intros d []|done|].
    intros [fd|]; [|by intros d [? Hd]]. apply (triple_ret_bind fd).
    pose (P1 := λ d, d_names d !! p = Some fd ∧ rest d).
    assert (∀ d faults, P1 d → P1 (d <| d_faults := faults |>)) as HP1 by (intros d fs []; split; [done|by apply rest_steady]).
    eapply triple_seq; [by apply (stat_spec fd false P1)|by intros d [[= ?] ?]|by intros ? ? []|]. intros ?.
    eapply triple_bind with (Q := λ remaining d, rest d ∧ ∃ f, holds p fd f d ∧
      remaining = TrimPrefix payload (i_data f) ∧ HasPrefix payload (i_data f) = true).
    { eapply triple_seq; [by apply (read_spec (MaxProtectedRecordBytes + 1) fd P1)|by intros d []|by intros ? ? []|]. intros text.
      eapply triple_bind with (Q := λ _ d, rest d ∧ ∃ f, holds p fd f d ∧ text = i_data f ∧ HasPrefix payload text = true).
      - apply triple_check; [by intros d ? (? & ? & ?)|]. intros d Hb ((f & Hf & Ht & _) & Hn & Hd). split; [done|].
        destruct (ok_names d (rest_ok _ _ _ _ Hd) (d_names d) p fd) as (g & Hg & _ & _ & Hmax); [by left|done|]. simplify_eq.
        exists f. apply orb_false_elim in Hb as [_ Hb%negb_false_iff]. split; [done|]. split; [apply Ht; lia|done].
      - intros ? d (Hd & f & Hh & -> & Hpre). split; [done|by exists f]. }
    intros remaining d (Hd & f & Hh & -> & Hpre). pose proof Hh as [Hn Hf].
    destruct (ok_names d (rest_ok _ _ _ _ Hd) (d_names d) p fd) as (g & Hg & _ & Hpriv & _); [by left|done|]. simplify_eq.
    apply (write_spec p fd f (TrimPrefix payload (i_data f)) payload); try done.
    + by eapply (ok_nodes d (rest_ok _ _ _ _ Hd)).
    + by apply TrimPrefix_app.
Qed.
End protocol.

(** ** Publication *)

Lemma sameProtectedSnapshot_spec l r : sameProtectedSnapshot l r = true ↔ l = r.
Proof.
  unfold sameProtectedSnapshot. rewrite !andb_true_iff, !bool_decide_eq_true, Bool.eqb_true_iff.
  split; [|by intros ->]. destruct l, r. simpl. by intros [[-> ->] ->].
Qed.

(** The records once [name] holds [payload]. *)
Definition replaced (name payload : string) (cur : string → option string) (n : string) : option string :=
  if decide (n = name) then Some payload else cur n.

Section publication.
Context (A : string → option string → Prop) (S : string → string → Prop) (cur : string → option string).
Context (name payload : string) (Hname : published name) (Hok : payload_ok payload) (HA : A name (Some payload)).
Notation rest := (at_rest A S cur).
Notation rest' := (at_rest A S (replaced name payload cur)).

Lemma rest_rename d p fd :
  rest d → ¬ published p → holds p fd (mkInode payload payload true) d →
  rest' (rename_dir (<[name := fd]> (delete p (d_names d))) d).
Proof.
  intros Hd Hp [Hn Hf]. pose proof (rest_ok _ _ _ _ Hd) as [_ Hm Hi _].
  assert (∀ n i, delete p (d_names d) !! n = Some i → i ≠ fd ∧ d_names d !! n = Some i) as Hdel.
  { intros n i [Hnp Hni]%lookup_delete_Some. split; [|done]. intros ->. apply Hnp. by eapply (Hi (d_names d) p n fd); [left|..]. }
  apply (rest_names A S cur); [done|..].
  - intros n i [[<- <-]|[_ [_ Hni]%Hdel]]%lookup_insert_Some; [|apply (Hm (d_names d)); [by left|done]].
    exists (mkInode payload payload true). split; [done|]. split; [done|]. split; [done|apply Hok].
  - intros n m i [[<- <-]|[? [? H1]%Hdel]]%lookup_insert_Some [[<- H2]|[? [? H2]%Hdel]]%lookup_insert_Some; try done.
    by apply (Hi (d_names d) n m i); [left|..].
  - intros n i Hpub [[<- _]|[_ [_ Hni]%Hdel]]%lookup_insert_Some; [done|by left].
  - intros n Hpub. unfold replaced. case_decide as Hnn; [subst n; split; [|done]|].
    + erewrite content_node; [|by rewrite lookup_insert_eq|done]. done.
    + assert (n ≠ p) by (by intros ->). destruct Hd as [_ HA' _ Hc].
      specialize (Hc n Hpub) as Hcn. unfold record, content in *.
      rewrite lookup_insert_ne, lookup_delete_ne by done. split; [done|]. rewrite <-Hcn. apply HA'; [by left|done].
Qed.

Lemma rename_spec replace p :
  ¬ published p →
  triple (λ d, rest d ∧ ∃ fd, holds p fd (mkInode payload payload true) d) (rename replace p name)
    (λ renamed d, if renamed then rest' d else rest d) (λ e d, rest d ∨ e = StoreIO ∧ rest' d).
Proof.
  intros Hp. apply triple_sys.
  - intros d fs (Hd & fd & Hh). split; [by apply rest_steady|by exists fd].
  - intros d (Hd & fd & Hh). pose proof Hh as [Hn _]. rewrite Hn. destruct (negb replace && _); [done|]. by apply rest_rename.
  - intros d extent (Hd & fd & Hh). pose proof Hh as [Hn _]. rewrite Hn. destruct (negb replace && _); [by left|].
    destruct extent; simpl; [by left|]. right. split; [done|by apply rest_rename].
Qed.

(** Publishing replaces the record, or fails and leaves it, or fails at the end of it. *)
Lemma publish_spec expected conflict :
  (∀ q, HasPrefix payload q = true → S (pending_name name) q) →
  triple rest (publishAt name expected payload conflict)
    (λ _ d, rest' d ∧ d_older d = [] ∧ snapshot_of (cur name) = expected)
    (λ e d, rest d ∨ e = StoreIO ∧ rest' d).
Proof.
  intros HS. assert (∀ d faults, rest d → rest (d <| d_faults := faults |>)) as Hst by (intros; by apply rest_steady).
  eapply triple_seq; [by apply (readProtectedAt_spec name rest)|done|by left|]. intros current.
  eapply triple_bind with (Q := λ _ d, rest d ∧ snapshot_of (cur name) = expected); [|intros ?].
  { apply triple_check; [intros d ? [_ Hd]; by left|]. intros d Hb [-> Hd]. split; [done|].
    apply negb_false_iff, sameProtectedSnapshot_spec in Hb. rewrite <-Hb. by rewrite (rest_current _ _ _ _ Hd) by done. }
  pose proof (pending_staging name) as Hp. apply triple_fact. intros He.
  eapply triple_seq; [apply triple_rescue with (R := λ _, rest); by apply prepare_spec|done|by left|]. intros ?. cbv beta.
  set (staged := λ d, rest d ∧ ∃ fd, holds (pending_name name) fd (mkInode payload payload true) d).
  assert (∀ d faults, staged d → staged (d <| d_faults := faults |>)) as Hst'.
  { intros d fs (Hd & fd & Hh). split; [by apply rest_steady|by exists fd]. }
  eapply triple_seq; [by apply (inject_spec staged)|done|intros ? ? (? & ? & ?); by left|]. intros ?.
  eapply triple_seq; [by apply (readProtectedAt_spec name staged)|by intros d []|intros ? ? []; by left|]. intros ?.
  eapply triple_seq; [apply triple_fail_if with (P := staged) (R := λ _, staged); auto|by intros d []|intros ? ? []; by left|]. intros ?.
  eapply triple_seq; [by apply (inject_spec staged)|by intros d []|intros ? ? (? & ? & ?); by left|]. intros ?.
  eapply triple_seq; [by apply (rename_spec (ps_Exists expected) (pending_name name))|done|done|]. intros [|].
  2:{ intros d Hd. by left. }
  assert (∀ d faults, rest' d → rest' (d <| d_faults := faults |>)) as Hst2 by (intros; by apply rest_steady).
  apply (triple_ret_bind tt). eapply triple_seq; [by apply (inject_spec rest')|done|by right|]. intros ?.
  eapply triple_weaken; [apply (flush_spec rest'); [done|apply rest_flush]|done| |].
  - by intros ? d [].
  - by right.
Qed.
End publication.

(** ** The two operations *)

Lemma rest_ext A S cur cur' d : (∀ n, published n → cur n = cur' n) → at_rest A S cur d → at_rest A S cur' d.
Proof. intros He [H1 H2 H3 H4]. split; [done..|]. intros n Hn. by rewrite <-He, H4. Qed.

Lemma payload_spec payload : validateProtectedPayload payload = Ok tt ↔ payload_ok payload.
Proof. unfold validateProtectedPayload, payload_ok. rewrite refuse_Ok, orb_false_iff. unfold len. lia. Qed.

Section operations.
Context (A : string → option string → Prop) (S : string → string → Prop) (cur : string → option string).
Context (name payload : string) (Hname : published name).
Context (HS : ∀ q, HasPrefix payload q = true → S (pending_name name) q).
Notation rest := (at_rest A S cur).
Notation rest' := (at_rest A S (replaced name payload cur)).

#[local] Hint Resolve rest_steady : store.

Lemma unlink_spec p : ¬ published p → triple rest (unlink p) (λ _, rest) (λ _, rest).
Proof.
  intros Hp.
  assert (∀ d, rest d → rest (rename_dir (delete p (d_names d)) d)) as Hdel.
  { intros d Hd. pose proof (rest_ok _ _ _ _ Hd) as [_ Hm Hi _]. apply (rest_names A S cur); [done|..].
    - intros n i [_ Hni]%lookup_delete_Some. by apply (Hm (d_names d)); [left|].
    - intros n m i [_ Hni]%lookup_delete_Some [_ Hmi]%lookup_delete_Some. by apply (Hi (d_names d) n m i); [left|..].
    - intros n i _ [_ Hni]%lookup_delete_Some. by left.
    - intros n Hpub. destruct Hd as [_ HA _ Hc]. specialize (Hc n Hpub) as Hcn. unfold record, content in *.
      rewrite lookup_delete_ne by (by intros ->). split; [done|]. rewrite <-Hcn. apply HA; [by left|done]. }
  apply triple_sys; [auto with store|..].
  - intros d Hd. destruct (d_names d !! p); [by apply Hdel|done].
  - intros d extent Hd. destruct (d_names d !! p); [|done]. destruct extent; simpl; [done|by apply Hdel].
Qed.

Lemma readStagingAt_spec p : triple rest (readStagingAt p) (λ _, rest) (λ _, rest).
Proof.
  eapply triple_seq; [apply (triple_look (λ d, Ok (d_names d !! p)) rest); auto with store|done|done|].
  intros [fd|]; [|by intros d []].
  eapply triple_seq; [apply (stat_spec fd false rest); auto with store|by intros d []|done|]. intros ?.
  eapply triple_seq; [apply (read_spec _ fd rest); auto with store|by intros d []|done|]. intros text.
  eapply triple_seq; [apply triple_fail_if with (P := rest) (R := λ _, rest); auto|by intros d []|done|]. intros ?.
  by intros d [].
Qed.

Lemma discard_spec expected : triple rest (discardOrphanedCASPendingAt name expected payload) (λ _, rest) (λ _, rest).
Proof.
  eapply triple_bind; [apply readStagingAt_spec|]. intros pending. apply triple_when; [|done].
  eapply triple_seq; [apply (readProtectedAt_spec name rest); auto with store|by intros d []|done|]. intros current.
  eapply triple_seq; [apply triple_fail_if with (P := rest) (R := λ _, rest); auto|by intros d []|done|]. intros ?.
  eapply triple_seq; [apply (unlink_spec _ (pending_staging name))|by intros d []|done|]. intros ?.
  eapply triple_weaken; [apply (flush_spec rest); [auto with store|apply rest_flush]|done|by intros ? ? []|by intros ? ? []].
Qed.

Lemma cas_spec expected :
  A name (Some payload) →
  triple rest (compareAndSwap name expected payload)
    (λ _ d, rest' d ∧ d_older d = [] ∧ snapshot_of (cur name) = expected) (λ e d, rest d ∨ e = StoreIO ∧ rest' d).
Proof.
  intros HA. eapply triple_bind; [apply (triple_pure _ rest); by left|]. intros []. 
  eapply triple_bind with (Q := λ _ d, rest d ∧ payload_ok payload); [|intros ?].
  { apply triple_check; [intros d ? []; by left|]. intros d _ [Hok Hd]. by rewrite <-payload_spec. }
  apply triple_fact. intros Hok.
  eapply triple_seq; [apply (inject_spec rest "openParent"); auto with store|done|intros ? ? []; by left|]. intros ?.
  eapply triple_seq; [apply discard_spec|done|by left|]. intros ?. by apply publish_spec.
Qed.

Lemma immutable_spec :
  (cur name = None → A name (Some payload)) →
  triple rest (createImmutable name payload)
    (λ _ d, rest' d ∧ d_older d = [] ∧ (cur name = None ∨ cur name = Some payload))
    (λ e d, rest d ∨ e = StoreIO ∧ cur name = None ∧ rest' d).
Proof.
  intros HA. eapply triple_bind; [apply (triple_pure _ rest); by left|]. intros [].
  eapply triple_weaken with (P' := λ d, rest d ∧ payload_ok payload) (Q' := λ _ d, rest' d ∧ d_older d = [] ∧ (cur name = None ∨ cur name = Some payload));
    [|intros d [? ?]; by rewrite <-payload_spec|done|intros ? ? H; exact H].
  apply triple_fact. intros Hok.
  eapply triple_seq; [apply (inject_spec rest "openParent"); auto with store|done|intros ? ? []; by left|]. intros ?.
  eapply triple_seq; [apply (readProtectedAt_spec name rest); auto with store|done|by left|]. intros current.
  eapply triple_weaken with (P' := λ d, rest d ∧ current = snapshot_of (cur name)) (Q' := λ _ d, rest' d ∧ d_older d = [] ∧ (cur name = None ∨ cur name = Some payload));
    [|intros d [-> Hd]; by rewrite (rest_current _ _ _ _ Hd)|done|intros ? ? H; exact H].
  apply triple_fact. intros ->. destruct (cur name) as [old|] eqn:Hold; simpl.
  - case_bool_decide as Heq; [subst old|by left].
    eapply triple_weaken; [apply (flush_spec rest); [auto with store|apply rest_flush]|done| |intros ? ? []; by left].
    intros _ d [Hd Hol]. split; [|auto]. eapply rest_ext; [|done]. intros n _. unfold replaced. case_decide; congruence.
  - eapply triple_weaken; [apply (publish_spec A S cur name payload Hname Hok (HA eq_refl) absentProtectedSnapshot StoreExists HS)|done| |].
    + intros ? d (? & ? & ?). auto.
    + intros e d [?|[? ?]]; auto.
Qed.
End operations.

(** ** Crashes *)

Lemma crashed_record f f' : crashed_file f f' → i_synced f = i_data f → i_data f' = i_data f.
Proof. intros (Hp & Hs & _ & _) He. rewrite He in Hs. by apply HasPrefix_same. Qed.

Lemma crash_node d d' i f : crash d d' → d_nodes d !! i = Some f → ∃ f', d_nodes d' !! i = Some f' ∧ crashed_file f f'.
Proof. intros (_ & _ & Hn) Hf. specialize (Hn i). rewrite Hf in Hn. inversion Hn; subst. eauto. Qed.

Lemma crash_content d d' v n :
  store_ok d → crash d d' → v ∈ versions d → published n → content d' v n = content d v n.
Proof.
  intros [_ Hm _ _] Hc Hv Hpub. unfold content. destruct (v !! n) as [i|] eqn:Hi; [|done]. simpl.
  destruct (Hm v n i) as (f & Hf & Hg & _); [done..|]. destruct (crash_node d d' i f) as (f' & Hf' & Hcf); [done..|].
  rewrite Hf, Hf'. simpl. f_equal. apply crashed_record; [done|]. by apply Hg.
Qed.

(** A crash leaves a store at rest. *)
Lemma rest_crash A (S : string → string → Prop) cur d d' :
  (∀ n s q, S n s → HasPrefix s q = true → S n q) →
  at_rest A S cur d → crash d d' → at_rest A S (record d') d'.
Proof.
  intros HSp [Hok HA HS _] Hc. pose proof Hok as [Hn Hm Hi Ha]. pose proof Hc as (Hin & Hol & Hno).
  assert (∀ v, v ∈ versions d' → v = d_names d') as Hv.
  { unfold versions. rewrite Hol. by intros v ->%list_elem_of_singleton. }
  split; [split|..].
  - intros i f' Hf'. specialize (Hno i). rewrite Hf' in Hno. inversion Hno as [f ? Hcf|]; subst.
    destruct Hcf as (_ & _ & -> & _). apply HasPrefix_refl.
  - intros v n i ->%Hv Hni. destruct (Hm _ n i Hin Hni) as (f & Hf & Hg & Hp & Hl).
    destruct (crash_node d d' i f) as (f' & Hf' & Hcf); [done..|]. exists f'. split; [done|].
    pose proof Hcf as (Hpre & _ & Hs & Hpr). split; [|split; [congruence|]].
    + intros Hpub. destruct (Hg Hpub) as (? & Hs' & Hok'). apply crashed_record in Hcf; [|done].
      split; [congruence|]. split; [done|]. by rewrite Hcf.
    + apply HasPrefix_len in Hpre. lia.
  - intros v n m i ->%Hv. by apply Hi.
  - intros v n m i ->%Hv _ H1 H2. by eapply Hi.
  - intros v n ->%Hv Hpub. erewrite crash_content by done. by apply HA.
  - intros v n i f' ->%Hv Hpub Hni Hf'. destruct (Hm _ n i Hin Hni) as (f & Hf & _).
    destruct (crash_node d d' i f) as (g & Hg & (Hpre & _)); [done..|]. simplify_eq. eapply HSp; [by eapply HS|done].
  - done.
Qed.

Lemma recoverable_versions d n c :
  store_ok d → published n → recoverable d n c ↔ ∃ v, v ∈ versions d ∧ c = content d v n.
Proof.
  intros Hok Hpub. split.
  - intros (d' & Hc & <-). exists (d_names d'). pose proof Hc as (Hin & _). split; [done|]. by eapply crash_content.
  - intros (v & Hv & ->).
    set (d' := mkDisk ((λ f, mkInode (i_data f) (i_data f) (i_private f)) <$> d_nodes d) v [] (d_faults d)).
    assert (crash d d') as Hc.
    { split; [done|]. split; [done|]. intros i. simpl. rewrite lookup_fmap. destruct (d_nodes d !! i) as [f|] eqn:Hf; constructor.
      split; [apply HasPrefix_refl|]. split; [exact (ok_nodes d Hok i f Hf)|done]. }
    exists d'. split; [done|]. unfold record. by rewrite (crash_content d d') by done.
Qed.

(** Every sound store is at rest with what it may recover to. *)
Lemma rest_start (A : string → option string → Prop) (S : string → string → Prop) d :
  store_ok d → (∀ n c, published n → recoverable d n c → A n c) →
  (∀ v n i f, v ∈ versions d → ¬ published n → v !! n = Some i → d_nodes d !! i = Some f → S n (i_data f)) →
  at_rest A S (record d) d.
Proof.
  intros Hok HA HS. split; [done| |done|done]. intros v n Hv Hpub. apply HA; [done|]. apply recoverable_versions; eauto.
Qed.

Lemma rest_recoverable A S cur d n c : at_rest A S cur d → published n → recoverable d n c → A n c.
Proof. intros [Hok HA _ _] Hpub (v & Hv & ->)%recoverable_versions; [|done|done]. by apply HA. Qed.

Lemma rest_settled A S cur d n c : at_rest A S cur d → d_older d = [] → published n → recoverable d n c → c = record d n.
Proof.
  intros [Hok _ _ _] Hol Hpub (v & Hv & ->)%recoverable_versions; [|done|done].
  unfold versions in Hv. rewrite Hol in Hv. by apply list_elem_of_singleton in Hv as ->.
Qed.

(** C12: Replacing a record is atomic and durable.  Whatever calls fail, at whatever point,
    the store stays sound; the record holds the old or the new text, now and after a
    crash at any time, and other records are not touched.  When the call succeeds, the
    record held the expected text before, and every record is safe on the medium.  A
    refusal has changed nothing; only a failing call leaves the outcome open. *)
Theorem cas_atomic name expected payload d d' r :
  store_ok d → published name → compareAndSwap name expected payload d = (d', r) →
  store_ok d' ∧
  (∀ n c, published n → recoverable d' n c → recoverable d n c ∨ n = name ∧ c = Some payload) ∧
  match r with
  | Ok _ => snapshot_of (record d name) = expected ∧
            ∀ n, published n → record d' n = replaced name payload (record d) n ∧
                               ∀ c, recoverable d' n c → c = record d' n
  | Err e => (∀ n, published n → record d' n = record d n) ∨
             e = StoreIO ∧ ∀ n, published n → record d' n = replaced name payload (record d) n
  end.
Proof.
  intros Hok Hn Hrun. set (A := λ n c, recoverable d n c ∨ n = name ∧ c = Some payload).
  assert (at_rest A (λ _ _, True) (record d) d) as Hd by (apply rest_start; [done|by left|done]).
  pose proof (cas_spec A (λ _ _, True) (record d) name payload Hn (λ _ _, I) expected (or_intror (conj eq_refl eq_refl)) d Hd) as H.
  rewrite Hrun in H.
  assert (∃ cur, at_rest A (λ _ _, True) cur d') as [cur Hd'] by (destruct r; naive_solver).
  split; [by eapply rest_ok|]. split; [intros n c; by apply (rest_recoverable _ _ _ _ n c Hd')|].
  destruct r as [[]|e].
  - destruct H as (Hr & Hol & He). split; [done|]. intros n Hpub. split; [by apply (rest_current _ _ _ _ Hr)|].
    intros c. by eapply rest_settled.
  - destruct H as [Hr|[-> Hr]]; [left|right; split; [done|]]; intros n Hpub; by apply (rest_current _ _ _ _ Hr).
Qed.

(** ** Sequences of operations *)

(** What happens to a directory: records of [swapped] names are replaced, immutable
    records are created as [created] says, the machine crashes, and every call may
    fail. *)
Inductive store_step (swapped : string → Prop) (created : string → string → Prop) : disk → disk → Prop :=
| step_swap name expected payload d d' r :
    swapped name → published name → compareAndSwap name expected payload d = (d', r) → store_step swapped created d d'
| step_create name payload d d' r :
    created name payload → published name → createImmutable name payload d = (d', r) → store_step swapped created d d'
| step_crash d d' : crash d d' → store_step swapped created d d'
| step_faults d faults : store_step swapped created d (d <| d_faults := faults |>).

(** What all operations keep, a crash keeps. *)
Lemma step_rest swapped created A (S : string → string → Prop) cur d d' :
  (∀ n s q, S n s → HasPrefix s q = true → S n q) →
  (∀ n payload q, swapped n → A n (Some payload) ∧ S (pending_name n) q) →
  (∀ n payload, created n payload → (cur n = None → A n (Some payload)) ∧
     ∀ q, HasPrefix payload q = true → S (pending_name n) q) →
  at_rest A S cur d → store_step swapped created d d' → ∃ cur', at_rest A S cur' d'.
Proof.
  intros HSp Hsw Hcr Hd Hst. destruct Hst as [name expected payload d d' r Hs Hn Hrun|name payload d d' r Hc Hn Hrun|d d' Hc|d fs].
  - pose proof (cas_spec A S cur name payload Hn (λ q _, proj2 (Hsw name payload q Hs)) expected (proj1 (Hsw name payload "" Hs)) d Hd) as H.
    rewrite Hrun in H. destruct r; naive_solver.
  - destruct (Hcr name payload Hc) as [HA HS]. pose proof (immutable_spec A S cur name payload Hn HS HA d Hd) as H.
    rewrite Hrun in H. destruct r; naive_solver.
  - eexists. by eapply rest_crash.
  - exists cur. by apply rest_steady.
Qed.

(** Every operation and every crash keeps a store sound. *)
Lemma store_step_ok swapped created d d' : store_ok d → store_step swapped created d d' → store_ok d'.
Proof.
  intros Hok Hst. destruct (step_rest swapped created (λ _ _, True) (λ _ _, True) (record d) d d') as [cur Hd']; try done.
  by apply rest_ok in Hd'.
Qed.


(** ** Runs in which no call fails *)

Definition quiet (d : disk) : Prop := d_faults d = [].

Definition completes {A} (m : io A) (Q : A → disk → Prop) (d : disk) : Prop :=
  ∃ d' a, m d = (d', Ok a) ∧ quiet d' ∧ Q a d'.

Lemma sys_quiet {A} (call : option nat → disk → disk * result store_error A) d : quiet d → sys call d = call None d.
Proof. unfold quiet, sys. by intros ->. Qed.

Lemma completes_bind {A B} (m : io A) (f : A → io B) Q Q' d :
  completes m Q d → (∀ a d', quiet d' → Q a d' → completes (f a) Q' d') → completes (m ≫= f) Q' d.
Proof.
  intros (d' & a & Hm & Hq & HQ) Hf. destruct (Hf a d' Hq HQ) as (d2 & b & Hb & ?). exists d2, b.
  split; [|done]. unfold mbind, eff_bind. by rewrite Hm.
Qed.

Lemma completes_weaken {A} (m : io A) (Q Q' : A → disk → Prop) d :
  completes m Q d → (∀ a d', quiet d' → Q a d' → Q' a d') → completes m Q' d.
Proof. intros (d' & a & Hm & Hq & HQ) Hw. exists d', a. auto. Qed.

Lemma completes_triple {A} (m : io A) P Q R d :
  completes m (λ _ _, True) d → triple P m Q R → P d → completes m Q d.
Proof.
  intros (d' & a & Hm & Hq & _) Ht Hd. exists d', a. split; [done|]. split; [done|]. specialize (Ht d Hd). by rewrite Hm in Ht.
Qed.

Lemma completes_sys {A} (call : option nat → disk → disk * result store_error A) d d' a (Q : A → disk → Prop) :
  quiet d → call None d = (d', Ok a) → quiet d' → Q a d' → completes (sys call) Q d.
Proof. intros Hq Hc Hq' HQ. exists d', a. by rewrite sys_quiet. Qed.

Lemma completes_check b e (Q : unit → disk → Prop) d : quiet d → b = false → Q tt d → completes (fail_if b e) Q d.
Proof. intros Hq -> HQ. by exists d, tt. Qed.

Lemma stat_completes fd bounded f d :
  quiet d → d_nodes d !! fd = Some f → i_private f = true → (bounded = true → payload_ok (i_data f)) →
  completes (validateProtectedFileFD fd bounded) (λ _ d', d' = d) d.
Proof.
  intros Hq Hf Hp Hb. eapply completes_bind.
  { eapply (completes_sys _ d d (i_private f, len (i_data f)) (λ a d', d' = d ∧ a = (i_private f, len (i_data f)))); [done| |done|done].
    unfold with_node. by rewrite Hf. }
  intros ? ? _ [-> ->]. rewrite Hp. eapply completes_bind; [by apply (completes_check _ _ (λ _ d', d' = d))|]. intros ? ? _ ->.
  apply completes_check; [done| |done]. destruct bounded; [|done]. specialize (Hb eq_refl). unfold payload_ok in Hb.
  apply orb_false_iff. split; lia.
Qed.

Lemma read_completes fd f d :
  quiet d → d_nodes d !! fd = Some f → len (i_data f) ≤ MaxProtectedRecordBytes →
  completes (read_limited (MaxProtectedRecordBytes + 1) fd) (λ text d', d' = d ∧ text = i_data f) d.
Proof.
  intros Hq Hf Hl. eapply completes_sys; [done| |done|done]. unfold with_node. rewrite Hf.
  destruct (Z.leb_spec (len (i_data f)) (MaxProtectedRecordBytes + 1)); [done|lia].
Qed.

Lemma readProtectedAt_completes n d :
  quiet d → store_ok d → published n →
  completes (readProtectedAt n) (λ s d', d' = d ∧ s = snapshot_of (record d n)) d.
Proof.
  intros Hq Hok Hpub. eapply completes_bind; [by eapply (completes_sys _ d d (d_names d !! n) (λ a d', d' = d ∧ a = d_names d !! n))|].
  intros ? ? _ [-> ->]. unfold record, content. destruct (d_names d !! n) as [fd|] eqn:Hn; [|by exists d, absentProtectedSnapshot].
  destruct (ok_names d Hok (d_names d) n fd) as (f & Hf & Hg & _); [by left|done|]. destruct (Hg Hpub) as (Hp & _ & Hpay).
  eapply completes_bind; [by eapply stat_completes|]. intros ? ? _ ->.
  eapply completes_bind; [eapply read_completes; [done..|apply Hpay]|]. intros ? ? _ [-> ->].
  eapply completes_bind; [apply (completes_check _ _ (λ _ d', d' = d)); [done| |done]|].
  { unfold payload_ok in Hpay. apply orb_false_iff. split; lia. }
  intros ? ? _ ->. simpl. rewrite Hf. by eexists d, _.
Qed.

Lemma prepare_completes p payload d :
  quiet d → store_ok d → (∀ fd f, holds p fd f d → HasPrefix payload (i_data f) = true) →
  completes (preparePendingAt p payload) (λ _ _, True) d.
Proof.
  intros Hq Hok Hpre.
  assert (∀ fd f remaining d', quiet d' → d_nodes d' !! fd = Some f →
    completes (when (0 <? len remaining) (append_file fd remaining);; fsync_file fd;; close_file;; fsync_dir) (λ _ _, True) d') as Htail.
  { intros fd f remaining d' Hq' Hf. eapply completes_bind with (Q := λ _ d', ∃ f, d_nodes d' !! fd = Some f).
    - unfold when. destruct (0 <? len remaining); [|by exists d', tt; eauto]. eapply completes_sys; [done| | |].
      + unfold with_node. by rewrite Hf.
      + done.
      + simpl. rewrite lookup_insert_eq. by eexists.
    - intros ? d2 Hq2 [f2 Hf2]. eapply completes_bind with (Q := λ _ _, True).
      { eapply completes_sys; [done| | |done]; [unfold with_node; by rewrite Hf2|done]. }
      intros ? d3 Hq3 _. eapply completes_bind with (Q := λ _ _, True); [by eapply completes_sys|].
      intros ? d4 Hq4 _. by eapply completes_sys. }
  unfold preparePendingAt. destruct (d_names d !! p) as [fd|] eqn:Hn.
  - destruct (ok_names d Hok (d_names d) p fd) as (f & Hf & _ & Hp & Hl); [by left|done|].
    eapply completes_bind; [eapply (completes_sys _ d d None (λ a d', d' = d ∧ a = None)); [done|by rewrite Hn|done|done]|].
    intros ? ? _ [-> ->]. eapply completes_bind; [by eapply (completes_sys _ d d (d_names d !! p) (λ a d', d' = d ∧ a = d_names d !! p))|].
    intros ? ? _ [-> ->]. rewrite Hn. eapply (completes_bind _ _ (λ a d', d' = d ∧ a = fd)); [by exists d, fd|]. intros ? ? _ [-> ->].
    eapply completes_bind; [by eapply stat_completes|]. intros ? ? _ ->.
    eapply (completes_bind _ _ (λ _ d', d' = d)); [|intros ? ? _ ->; by eapply Htail].
    eapply completes_bind; [by eapply read_completes|]. intros ? ? _ [-> ->].
    eapply completes_bind; [apply (completes_check _ _ (λ _ d', d' = d)); [done| |done]|].
    { rewrite (Hpre fd f) by done. apply orb_false_iff. split; [lia|done]. }
    intros ? ? _ ->. by eexists d, _.
  - set (fd := fresh (dom (d_nodes d))). set (f := mkInode "" "" true).
    set (d1 := rename_dir (<[p := fd]> (d_names d)) (d <| d_nodes := <[fd := f]> (d_nodes d) |>)).
    assert (quiet d1) as Hq1 by done. assert (d_nodes d1 !! fd = Some f) as Hf1 by (simpl; by rewrite lookup_insert_eq).
    eapply completes_bind; [eapply (completes_sys _ d d1 (Some fd) (λ a d', d' = d1 ∧ a = Some fd)); [done|by rewrite Hn|done|done]|].
    intros ? ? _ [-> ->]. eapply (completes_bind _ _ (λ a d', d' = d1 ∧ a = Some fd)); [by eexists d1, _|]. intros ? ? _ [-> ->].
    eapply (completes_bind _ _ (λ a d', d' = d1 ∧ a = fd)); [by eexists d1, _|]. intros ? ? _ [-> ->].
    eapply completes_bind; [by eapply stat_completes|]. intros ? ? _ ->.
    eapply (completes_bind _ _ (λ _ d', d' = d1)); [by eexists d1, _|]. intros ? ? _ ->. by eapply Htail.
Qed.

Lemma publish_completes name payload conflict d :
  quiet d → store_ok d → published name → payload_ok payload →
  (∀ fd f, holds (pending_name name) fd f d → HasPrefix payload (i_data f) = true) →
  completes (publishAt name (snapshot_of (record d name)) payload conflict) (λ _ _, True) d.
Proof.
  intros Hq Hok Hn Hpay Hpre.
  assert (∀ s, sameProtectedSnapshot s s = true) as Hsame by (intros; by apply sameProtectedSnapshot_spec).
  eapply completes_bind; [by apply readProtectedAt_completes|]. intros ? ? _ [-> ->].
  eapply completes_bind; [apply (completes_check _ _ (λ _ d', d' = d)); [done|by rewrite Hsame|done]|]. intros ? ? _ ->.
  eapply completes_bind.
  { destruct (completes_triple (preparePendingAt (pending_name name) payload) _ _ _ d (prepare_completes _ payload d Hq Hok Hpre)
      (prepare_spec (λ _ _, True) (λ _ _, True) (record d) _ payload (pending_staging name) Hpay (λ _ _, I))
      ltac:(apply rest_start; done)) as (d1 & u & Hrun & Hq1 & HQ).
    exists d1, u. unfold rescue. rewrite Hrun. split; [done|]. split; [done|exact HQ]. }
  intros ? d1 Hq1 (Hr1 & fd & Hh). pose proof (rest_ok _ _ _ _ Hr1) as Hok1.
  assert (record d1 name = record d name) as Hrec by (by apply (rest_current _ _ _ _ Hr1)).
  eapply (completes_bind _ _ (λ _ d', d' = d1)); [by eapply completes_sys|]. intros ? ? _ ->.
  eapply completes_bind; [by apply readProtectedAt_completes|]. intros ? ? _ [-> ->].
  eapply completes_bind; [apply (completes_check _ _ (λ _ d', d' = d1)); [done|by rewrite Hrec, Hsame|done]|]. intros ? ? _ ->.
  eapply (completes_bind _ _ (λ _ d', d' = d1)); [by eapply completes_sys|]. intros ? ? _ ->.
  eapply (completes_bind _ _ (λ b _, b = true)).
  - destruct Hh as [Hp _]. eapply completes_sys; [done| | |]; [rewrite Hp|..].
    + rewrite <-Hrec. unfold record, content. destruct (d_names d1 !! name) as [i|] eqn:Hi; [|done].
      destruct (ok_names d1 Hok1 (d_names d1) name i) as (f & Hf & _); [by left|done|]. simpl. by rewrite Hf.
    + done.
    + done.
  - intros ? d2 Hq2 ->. eapply (completes_bind _ _ (λ _ _, True)); [by exists d2, tt|]. intros ? d3 Hq3 _.
    eapply (completes_bind _ _ (λ _ _, True)); [by eapply completes_sys|]. intros ? d4 Hq4 _. by eapply completes_sys.
Qed.

Lemma snapshot_valid d n : store_ok d → published n → validProtectedSnapshot (snapshot_of (record d n)) = true.
Proof.
  intros Hok Hpub. unfold record, content. destruct (d_names d !! n) as [i|] eqn:Hi; [|done]. simpl.
  destruct (ok_names d Hok (d_names d) n i) as (f & Hf & Hg & _); [by left|done|]. destruct (Hg Hpub) as (_ & _ & Hpay).
  rewrite Hf. unfold validProtectedSnapshot. simpl. unfold payload_ok in Hpay. rewrite !andb_true_iff, bool_decide_eq_true. split; [split; lia|done].
Qed.

(** Without failing calls no left-over staging file stands in the way of a replacement. *)
Lemma discard_completes name payload d :
  quiet d → store_ok d → published name →
  completes (discardOrphanedCASPendingAt name (snapshot_of (record d name)) payload)
    (λ _ d', ∀ fd f, holds (pending_name name) fd f d' → HasPrefix payload (i_data f) = true) d.
Proof.
  intros Hq Hok Hn. unfold discardOrphanedCASPendingAt, readStagingAt. destruct (d_names d !! pending_name name) as [fd|] eqn:Hp.
  - destruct (ok_names d Hok (d_names d) (pending_name name) fd) as (f & Hf & _ & Hpriv & Hl); [by left|done|].
    eapply (completes_bind _ _ (λ s d', d' = d ∧ s = protectedSnapshotFromPayload (i_data f))).
    { eapply completes_bind; [by eapply (completes_sys _ d d (Some fd) (λ a d', d' = d ∧ a = Some fd)); [|rewrite Hp|..]|].
      intros ? ? _ [-> ->]. eapply completes_bind; [by eapply stat_completes|]. intros ? ? _ ->.
      eapply completes_bind; [by eapply read_completes|]. intros ? ? _ [-> ->].
      eapply completes_bind; [apply (completes_check _ _ (λ _ d', d' = d)); [done|lia|done]|]. intros ? ? _ ->. by eexists d, _. }
    intros ? ? _ [-> ->]. simpl. case_bool_decide as He; simpl.
    + exists d, tt. split; [done|]. split; [done|]. intros fd' f' [Hp' Hf']. simplify_eq. apply HasPrefix_refl.
    + eapply completes_bind; [by apply readProtectedAt_completes|]. intros ? ? _ [-> ->].
      eapply completes_bind; [apply (completes_check _ _ (λ _ d', d' = d)); [done| |done]|].
      { by rewrite (proj2 (sameProtectedSnapshot_spec _ _) eq_refl). }
      intros ? ? _ ->. eapply (completes_bind _ _ (λ _ d', d_names d' !! pending_name name = None)).
      * eapply completes_sys; [done|by rewrite Hp|done|]. simpl. by rewrite lookup_delete_eq.
      * intros ? d2 Hq2 Hnone. eapply completes_sys; [done|done|done|]. simpl. intros fd' f' [Hp' _]. simpl in Hp'. congruence.
  - eapply (completes_bind _ _ (λ s d', d' = d ∧ s = absentProtectedSnapshot)).
    { eapply completes_bind; [by eapply (completes_sys _ d d None (λ a d', d' = d ∧ a = None)); [|rewrite Hp|..]|].
      intros ? ? _ [-> ->]. by eexists d, _. }
    intros ? ? _ [-> ->]. exists d, tt. split; [done|]. split; [done|]. intros fd' f' [Hp' _]. congruence.
Qed.

(** C14: A replacement gets through.  From every sound store, whatever interrupted writes
    left behind, a replacement of what the record holds succeeds when no call fails,
    and its text is then on the medium. *)
Theorem cas_completes name payload d :
  store_ok d → published name → payload_ok payload → d_faults d = [] →
  ∃ d', compareAndSwap name (snapshot_of (record d name)) payload d = (d', Ok tt) ∧ store_ok d' ∧
        record d' name = Some payload ∧ ∀ c, recoverable d' name c → c = Some payload.
Proof.
  intros Hok Hn Hpay Hq.
  assert (completes (compareAndSwap name (snapshot_of (record d name)) payload) (λ _ _, True) d) as Hc.
  { eapply (completes_bind _ _ (λ _ d', d' = d)).
    { exists d, tt. split; [|done]. unfold pure. by rewrite (proj2 (payload_spec payload) Hpay). }
    intros ? ? _ ->. eapply completes_bind; [apply (completes_check _ _ (λ _ d', d' = d)); [done|by rewrite snapshot_valid|done]|].
    intros ? ? _ ->. eapply (completes_bind _ _ (λ _ d', d' = d)); [by eapply completes_sys|]. intros ? ? _ ->.
    assert (at_rest (λ _ _, True) (λ _ _, True) (record d) d) as Hd by (by apply rest_start).
    pose proof (discard_completes name payload d Hq Hok Hn) as (d1 & [] & Hrun & Hq1 & Hpre).
    pose proof (discard_spec _ _ _ name payload (snapshot_of (record d name)) d Hd) as Hd1. rewrite Hrun in Hd1.
    eapply (completes_bind _ _ (λ _ d', d' = d1)); [by exists d1, tt|]. intros ? ? _ ->.
    rewrite <-(rest_current _ _ _ _ Hd1 name Hn). apply publish_completes; try done. by apply rest_ok in Hd1. }
  destruct (completes_triple _ _ _ _ d Hc (cas_spec (λ _ _, True) (λ _ _, True) (record d) name payload Hn (λ _ _, I) _ I)
    ltac:(by apply rest_start)) as (d' & [] & Hrun & Hq' & Hr & Hol & _).
  assert (record d' name = Some payload) as Hrec.
  { rewrite (rest_current _ _ _ _ Hr name Hn). unfold replaced. by rewrite decide_True. }
  exists d'. split; [done|]. split; [by apply rest_ok in Hr|]. split; [done|]. intros c Hrc. rewrite <-Hrec. by eapply rest_settled.
Qed.

Lemma pending_name_inj n m : pending_name n = pending_name m → n = m.
Proof. unfold pending_name. intros H%(inj _). by apply string_app_inj in H. Qed.

Lemma create_completes name payload d :
  quiet d → store_ok d → published name → payload_ok payload → record d name = None ∨ record d name = Some payload →
  (∀ fd f, holds (pending_name name) fd f d → HasPrefix payload (i_data f) = true) →
  completes (createImmutable name payload) (λ _ _, True) d.
Proof.
  intros Hq Hok Hn Hpay Hrec Hpre. eapply (completes_bind _ _ (λ _ d', d' = d)).
  { exists d, tt. split; [|done]. unfold pure. by rewrite (proj2 (payload_spec payload) Hpay). }
  intros ? ? _ ->. eapply (completes_bind _ _ (λ _ d', d' = d)); [by eapply completes_sys|]. intros ? ? _ ->.
  eapply completes_bind; [by apply readProtectedAt_completes|]. intros ? ? _ [-> ->].
  destruct Hrec as [Hc|Hc]; rewrite Hc; simpl.
  - change absentProtectedSnapshot with (snapshot_of None). rewrite <-Hc. by apply publish_completes.
  - rewrite bool_decide_eq_true_2 by done. by eapply completes_sys.
Qed.

(** Creating a record can be repeated.  When every attempt to create a record has the
    same text, then after any failing attempts, crashes and operations on other
    records, one attempt in which no call fails succeeds, and the record is then on
    the medium. *)
Theorem create_resumes swapped created name payload d d2 :
  store_ok d → published name → payload_ok payload → ¬ swapped name → (∀ other, created name other → other = payload) →
  (∀ v, v ∈ versions d → v !! name = None ∧ v !! pending_name name = None) →
  rtc (store_step swapped created) d d2 →
  ∃ d3, createImmutable name payload (d2 <| d_faults := [] |>) = (d3, Ok tt) ∧
        record d3 name = Some payload ∧ ∀ c, recoverable d3 name c → c = Some payload.
Proof.
  intros Hok Hn Hpay Hsw Hcr Hnew Hst.
  set (A := λ n c, n = name → c = None ∨ c = Some payload).
  set (S := λ n q, n = pending_name name → HasPrefix payload q = true).
  assert (∀ n s q, S n s → HasPrefix s q = true → S n q) as HSp by (intros n s q HS Hq He; by eapply HasPrefix_trans; [apply HS|]).
  assert (∃ cur, at_rest A S cur d) as H1.
  { exists (record d). apply rest_start; [done|..].
    - intros n c Hpub (v & Hv & ->)%recoverable_versions ->; [|done|done]. left. unfold content. by rewrite (proj1 (Hnew v Hv)).
    - intros v n i f Hv _ Hni _ ->. by rewrite (proj2 (Hnew v Hv)) in Hni. }
  assert (∃ cur, at_rest A S cur d2) as [cur H2].
  { clear Hok Hnew. induction Hst as [|d1 d' d2 Hs Hst IH]; [done|]. apply IH. destruct H1 as [cur H1].
    eapply (step_rest swapped created A S cur); [done| | |done|done].
    - intros n p q Hs'. split; [by intros ->|]. intros ->%pending_name_inj. done.
    - intros n p Hc. split; [intros _ ->; right; by rewrite (Hcr p Hc)|].
      intros q Hq ->%pending_name_inj. by rewrite (Hcr p Hc) in Hq. }
  set (dq := d2 <| d_faults := [] |>). assert (at_rest A S cur dq) as Hd by (by apply rest_steady). assert (quiet dq) as Hq by done.
  pose proof (rest_ok _ _ _ _ Hd) as Hok'.
  assert (completes (createImmutable name payload) (λ _ _, True) dq) as Hc.
  { apply create_completes; try done.
    - apply (rest_allowed _ _ _ _ Hd (d_names dq)); [by left|done|done].
    - intros fd f [Hp Hf]. by apply (rest_staging _ _ _ _ Hd (d_names dq) (pending_name name) fd f); [left|apply pending_staging|..]. }
  destruct (completes_triple _ _ _ _ dq Hc (immutable_spec A S cur name payload Hn (λ q Hq _, Hq) (λ _ _, or_intror eq_refl)) Hd)
    as (dq' & [] & Hrun & Hq' & Hr & Hol & _).
  assert (record dq' name = Some payload) as Hrec.
  { rewrite (rest_current _ _ _ _ Hr name Hn). unfold replaced. by rewrite decide_True. }
  exists dq'. split; [done|]. split; [done|]. intros c Hrc. rewrite <-Hrec. by eapply rest_settled.
Qed.

(** ** Interrupted writes of another text *)

(** A staging file that an interrupted attempt left, on the medium, without a record. *)
Definition blocked (name staged : string) (d : disk) : Prop :=
  len staged ≤ MaxProtectedRecordBytes ∧
  ∀ v, v ∈ versions d → v !! name = None ∧
    ∃ i f, v !! pending_name name = Some i ∧ d_nodes d !! i = Some f ∧ i_data f = staged ∧ i_synced f = staged.

Lemma blocked_crash name staged d d' : blocked name staged d → crash d d' → blocked name staged d'.
Proof.
  intros [Hl Hb] Hc. split; [done|]. pose proof Hc as (Hin & Hol & _). unfold versions. rewrite Hol.
  intros v ->%list_elem_of_singleton. destruct (Hb _ Hin) as (Hn & i & f & Hp & Hf & Hd & Hs). split; [done|].
  destruct (crash_node d d' i f) as (f' & Hf' & Hcf); [done..|]. exists i, f'. split; [done|]. split; [done|].
  pose proof Hcf as (_ & _ & -> & _). rewrite (crashed_record f f') by congruence. done.
Qed.

(** An attempt with a text that the staging file does not start changes nothing. *)
Lemma blocked_attempt name staged other :
  HasPrefix other staged = false →
  triple (blocked name staged) (createImmutable name other) (λ _ _, False) (λ _, blocked name staged).
Proof.
  intros Hpre. set (B := blocked name staged).
  assert (∀ d faults, B d → B (d <| d_faults := faults |>)) as HB by (by intros d fs).
  assert (∀ d, B d → record d name = None) as Hrec.
  { intros d [_ Hb]. destruct (Hb (d_names d)) as [Hn _]; [by left|]. unfold record, content. by rewrite Hn. }
  assert (∀ d, B d → ∃ i f, d_names d !! pending_name name = Some i ∧ d_nodes d !! i = Some f ∧ i_data f = staged) as Hst.
  { intros d [_ Hb]. destruct (Hb (d_names d)) as (_ & i & f & ? & ? & ? & _); [by left|]. eauto. }
  eapply triple_seq; [apply (triple_pure _ B) with (R := λ _, B); auto|done|done|]. intros ?.
  eapply triple_seq; [by apply (inject_spec B "openParent")|by intros d []|by intros ? ? []|]. intros ?.
  eapply triple_seq; [by apply (readProtectedAt_spec name B)|done|done|]. intros current d [-> Hd]. rewrite (Hrec d Hd). simpl.
  revert d Hd. enough (triple B (publishAt name absentProtectedSnapshot other StoreExists) (λ _ _, False) (λ _, B)) by done.
  eapply triple_seq; [by apply (readProtectedAt_spec name B)|done|done|]. intros ?.
  eapply triple_seq; [apply triple_fail_if with (P := B) (R := λ _, B); auto|by intros d []|done|]. intros ?.
  eapply triple_bind with (Q := λ _ _, False); [|by intros ? ?]. apply triple_rescue with (R := λ _, B).
  eapply triple_bind with (Q := λ o d, o = None ∧ B d).
  { apply triple_sys; [done|..].
    - intros d [_ Hd]. destruct (Hst d Hd) as (i & f & Hp & _). by rewrite Hp.
    - intros d extent [_ Hd]. destruct (Hst d Hd) as (i & f & Hp & _). by rewrite Hp. }
  intros o. destruct o as [fd|]; [by intros d []|].
  eapply triple_seq; [by apply (triple_look (λ d, Ok (d_names d !! pending_name name)) B)|by intros d []|done|].
  intros [fd|]; [|by intros d [[= Hp] Hd]; destruct (Hst d Hd) as (i & f & Hp' & _); congruence]. apply (triple_ret_bind fd).
  pose (P1 := λ d, d_names d !! pending_name name = Some fd ∧ B d).
  assert (∀ d faults, P1 d → P1 (d <| d_faults := faults |>)) as HP1 by (intros d fs []; by split).
  eapply triple_seq; [by apply (stat_spec fd false P1)|by intros d [[= ?] ?]|by intros ? ? []|]. intros ?.
  eapply triple_bind with (Q := λ _ _, False); [|by intros ? ?].
  eapply triple_seq; [by apply (read_spec (MaxProtectedRecordBytes + 1) fd P1)|by intros d []|by intros ? ? []|]. intros text.
  eapply triple_bind with (Q := λ _ _, False); [|by intros ? ?]. apply triple_check; [by intros d ? (? & ? & ?)|].
  intros d Hb ((f & Hf & Ht & _) & Hp & Hd). destruct (Hst d Hd) as (i & f' & Hp' & Hf' & Hs). simplify_eq.
  rewrite Ht, Hpre in Hb by (destruct Hd; lia). by rewrite orb_true_r in Hb.
Qed.

(** The run of a first attempt that stops once its staging file is flushed. *)
Lemma interrupted_create name first :
  payload_ok first →
  blocked name first (createImmutable name first (mkDisk ∅ ∅ [] (replicate 9 Succeeds ++ [Fails 0]))).1.
Proof.
  intros Hpay. assert (0 <? len first = true) as Hpos by (unfold payload_ok in Hpay; lia).
  set (p := pending_name name). set (node := mkInode first first true).
  assert (∀ k, readProtectedAt name (mkDisk ∅ ∅ [] (Succeeds :: k)) = (mkDisk ∅ ∅ [] k, Ok absentProtectedSnapshot)) as Hread by done.
  assert (∀ k, preparePendingAt p first (mkDisk ∅ ∅ [] (replicate 6 Succeeds ++ k)) =
               (mkDisk (<[0%nat := node]> ∅) (<[p := 0%nat]> ∅) [] k, Ok tt)) as Hprep.
  { intros k. unfold preparePendingAt.
    erewrite bind_ok by reflexivity. erewrite bind_ok by reflexivity. erewrite bind_ok by reflexivity.
    erewrite bind_ok by reflexivity. erewrite bind_ok by reflexivity. unfold when. by rewrite Hpos. }
  assert ((createImmutable name first (mkDisk ∅ ∅ [] (replicate 9 Succeeds ++ [Fails 0]))).1 =
          mkDisk (<[0%nat := node]> ∅) (<[p := 0%nat]> ∅) [] []) as ->.
  { unfold createImmutable. erewrite bind_ok by (unfold pure; by rewrite (proj2 (payload_spec first) Hpay)).
    erewrite bind_ok by reflexivity. erewrite bind_ok by apply Hread. change (ps_Exists absentProtectedSnapshot) with false. cbv iota. unfold publishAt. fold p.
    erewrite bind_ok by apply Hread. erewrite bind_ok; [|unfold fail_if, pure; by rewrite (proj2 (sameProtectedSnapshot_spec _ _) eq_refl)].
    erewrite bind_ok; [|unfold rescue; pose proof (Hprep [Fails 0]) as Hrun; simpl replicate in Hrun; simpl app in Hrun; by rewrite Hrun]. done. }
  split; [apply Hpay|]. unfold versions. simpl. intros v ->%list_elem_of_singleton.
  split; [|exists 0%nat, node; by rewrite lookup_insert_eq].
  rewrite lookup_insert_ne; [done|]. intros He%(f_equal len). unfold p, pending_name in He. rewrite !len_app in He.
  unfold len in He. simpl in He. lia.
Qed.

(** C36: An interrupted creation blocks every other text for ever.  When the attempt to create
    a record stops after its staging file was flushed, then no attempt with a text that
    does not start with the first one succeeds any more, whatever crashes come in
    between. *)
Theorem staging_blocks name first others :
  payload_ok first → (∀ other, others other → HasPrefix other first = false) →
  ∃ faults, let d := (createImmutable name first (mkDisk ∅ ∅ [] faults)).1 in
  ∀ d2 other d3, rtc (store_step (λ _, False) (λ n p, n = name ∧ others p)) d d2 → others other →
    createImmutable name other d2 ≠ (d3, Ok tt).
Proof.
  intros Hpay Hoth. exists (replicate 9 Succeeds ++ [Fails 0]). intros d d2 other d3 Hst Ho Hrun.
  assert (blocked name first d2) as Hb.
  { pose proof (interrupted_create name first Hpay) as Hb. fold d in Hb.
    induction Hst as [|d1 d' d2 Hs Hst IH]; [done|]. apply IH; [done|].
    destruct Hs as [n expected p d1 d' r [] _ _|n p d1 d' r [-> Hp] _ Hr|d1 d' Hc|d1 fs].
    - pose proof (blocked_attempt name first p (Hoth p Hp) d1 Hb) as H. rewrite Hr in H. by destruct r.
    - by eapply blocked_crash.
    - exact Hb. }
  pose proof (blocked_attempt name first other (Hoth other Ho) d2 Hb) as H. by rewrite Hrun in H.
Qed.

(** ** Examples *)

Lemma empty_ok faults : store_ok (mkDisk ∅ ∅ [] faults).
Proof.
  split; simpl.
  - intros i f Hf. by rewrite lookup_empty in Hf.
  - by intros v n i ->%list_elem_of_singleton.
  - by intros v n m i ->%list_elem_of_singleton.
  - by intros v n m i ->%list_elem_of_singleton.
Qed.

(** The renaming had its effect and reports a failure. *)
Lemma cas_atomic_witness :
  let run := compareAndSwap "journal.json" absentProtectedSnapshot "one" (mkDisk ∅ ∅ [] (replicate 12 Succeeds ++ [Fails 1])) in
  run.2 = Err StoreIO ∧ record run.1 "journal.json" = Some "one" ∧ store_ok run.1 ∧
  ∀ c, recoverable run.1 "journal.json" c →
    recoverable (mkDisk ∅ ∅ [] (replicate 12 Succeeds ++ [Fails 1])) "journal.json" c ∨ c = Some "one".
Proof.
  intros run. split; [vm_compute; reflexivity|]. split; [vm_compute; reflexivity|].
  destruct (cas_atomic "journal.json" absentProtectedSnapshot "one" _ run.1 run.2 (empty_ok _) (json_published "journal")
    (surjective_pairing _)) as (Hok & Hrec & _). split; [exact Hok|]. intros c Hc.
  destruct (Hrec "journal.json" c (json_published "journal") Hc) as [H|[_ H]]; auto.
Defined.


(** A replacement after one that stopped in the middle of its write. *)
Lemma cas_completes_witness :
  let d := (compareAndSwap "journal.json" absentProtectedSnapshot "one" (mkDisk ∅ ∅ [] (replicate 5 Succeeds ++ [Fails 2]))).1 in
  record d ".journal.json.pending" = Some "on" ∧
  ∃ d', compareAndSwap "journal.json" (snapshot_of (record d "journal.json")) "two" d = (d', Ok tt) ∧
        record d' "journal.json" = Some "two".
Proof.
  intros d. split; [vm_compute; reflexivity|].
  destruct (cas_completes "journal.json" "two" d) as (d' & Hrun & _ & Hrec & _).
  - eapply (store_step_ok (λ _, True) (λ _ _, True)), step_swap; [apply empty_ok|exact I|exact (json_published "journal")|].
    apply surjective_pairing.
  - exact (json_published "journal").
  - split; vm_compute; [reflexivity|discriminate].
  - vm_compute. reflexivity.
  - exists d'. split; [exact Hrun|exact Hrec].
Defined.

(** A creation that stopped in the middle of its write is taken up again. *)
Lemma create_resumes_witness :
  let d := (createImmutable "step.captured.json" "one" (mkDisk ∅ ∅ [] (replicate 5 Succeeds ++ [Fails 2]))).1 in
  record d ".step.captured.json.pending" = Some "on" ∧
  ∃ d3, createImmutable "step.captured.json" "one" (d <| d_faults := [] |>) = (d3, Ok tt) ∧
        record d3 "step.captured.json" = Some "one".
Proof.
  intros d. split; [vm_compute; reflexivity|].
  destruct (create_resumes (λ _, False) (λ n p, n = "step.captured.json" ∧ p = "one") "step.captured.json" "one"
    (mkDisk ∅ ∅ [] (replicate 5 Succeeds ++ [Fails 2])) d) as (d3 & Hrun & Hrec & _).
  - apply empty_ok.
  - exact (json_published "step.captured").
  - split; vm_compute; [reflexivity|discriminate].
  - intros [].
  - by intros other [_ ->].
  - intros v ->%list_elem_of_singleton. split; reflexivity.
  - apply rtc_once. eapply step_create; [done|exact (json_published "step.captured")|]. apply surjective_pairing.
  - exists d3. split; [exact Hrun|exact Hrec].
Defined.

(** Two recovery records that differ in a random token. *)
Lemma staging_blocks_witness :
  ∃ faults, let d := (createImmutable "owner.json" "token aa" (mkDisk ∅ ∅ [] faults)).1 in
  ∀ d3, createImmutable "owner.json" "token bb" d ≠ (d3, Ok tt).
Proof.
  destruct (staging_blocks "owner.json" "token aa" (λ other, other = "token bb")) as (faults & H).
  - split; vm_compute; [reflexivity|discriminate].
  - by intros other ->.
  - exists faults. intros d d3. apply (H d "token bb" d3); [apply rtc_refl|reflexivity].
Defined.
