(* ===== verification/Converge.v ===== *)
(** * Convergence of a release transition

    internal/releasetransition/transition_v2.go: how a journaled transition is carried
    out.  Every step of the journal goes from its intent over captured evidence and the
    change of its resource to a verified state, each checkpoint being saved before the
    next action; then the release links are switched and the activation reconciled.

    [Engine] is what convergence calls: the protected store, the observation and change
    of the resources, the links and the reconcilers.  Every call may fail and may have
    had its effect when it does.  How the journal and the work for it are found
    ([Inspect], [observe], the first half of [Converge]), and the outcome that [Converge]
    makes of an error, are not modelled. *)

From S2P Require Import Prelude GoStrings GoSort Sha256 Names GoJson JournalV2 Transition MigrationHistory LedgerV2 Effects ProtectedStore.

#[export] Instance JournalStep_eta : Eta JournalStep := λ s,
  mkJournalStep (step_ID s) (step_Migration s) (step_Resource s) (step_Decision s) (step_Expected s) (step_Desired s)
    (step_Checkpoint s) (step_Evidence s).

#[export] Instance JournalRecord_eta : Eta JournalRecord := λ j,
  mkJournalRecord (jr_SchemaVersion j) (jr_Transaction j) (jr_Goal j) (jr_Releases j) (jr_AuthorizationPlan j)
    (jr_ResumePlan j) (jr_ArtifactDigest j) (jr_RegistryDigest j) (jr_CatalogDigest j) (jr_ObservationScope j)
    (jr_AuthorizationDigest j) (jr_IntentDigest j) (jr_SourceIngress j) (jr_Checkpoint j) (jr_Steps j).

(** ** Work *)

(** internal/config/envedit.go:26-33 [PersistentFileIdentity] *)
Record PersistentFileIdentity := mkFileIdentity {
  pfi_Device : Z; pfi_Inode : Z; pfi_Mode : Z; pfi_UID : Z; pfi_GID : Z; pfi_Links : Z }.

(** internal/config/envedit.go:16-20 [PersistentFileSnapshot] *)
Record PersistentFileSnapshot := mkFileSnapshot {
  pfs_Exists : bool; pfs_Content : string; pfs_Identity : PersistentFileIdentity }.

(** internal/releasetransition/settings_test_vms_v2.go:57-61 [settingsV2BeforeValue] *)
Record settingsV2BeforeValue := mkBeforeValue { bv_Setting : string; bv_Present : bool; bv_Value : string }.

(** internal/releasetransition/settings_test_vms_v2.go:43-55 [settingsV2FilePlan] *)
Record settingsV2FilePlan := mkFilePlan {
  fp_LocalSSHPort : bool; fp_RegisteredEndpoints : bool; fp_Yard : string; fp_Path : string;
  fp_Expected : PersistentFileSnapshot; fp_Desired : string; fp_Inheritance : string;
  fp_ExpectedFingerprint : string; fp_DesiredFingerprint : string; fp_Decision : string;
  fp_Before : list settingsV2BeforeValue }.

(** internal/releasetransition/owner_registration_v2.go:28-39 [OwnerRegistrationObservation] *)
Record OwnerRegistrationObservation := mkOwnerObservation {
  or_State : string; or_Registration : string; or_Overrides : string; or_Controller : string;
  or_SharedImages : bool; or_RecoveryToken : string; or_TerminalCleanup : bool }.

(** internal/releasetransition/owner_registration_v2.go:71-75 [ownerRegistrationV2Plan] *)
Record ownerRegistrationV2Plan := mkOwnerPlan {
  op_Before : OwnerRegistrationObservation; op_ExpectedFingerprint : string; op_DesiredFingerprint : string }.

(** internal/releasetransition/source_ingress.go:64-70 [V2IngressStepBinding] *)
Record V2IngressStepBinding := mkIngressStepBinding {
  isb_Kind : string; isb_Checkpoint : string; isb_Expected : string; isb_Desired : string; isb_Static : string }.

(** internal/releasetransition/source_ingress.go:57-62 [V2IngressBinding] *)
Record V2IngressBinding := mkIngressBinding {
  ib_Transaction : string; ib_Plan : string; ib_Releases : ReleasePair; ib_Steps : list V2IngressStepBinding }.

(** internal/releasetransition/source_ingress.go:72-78 [V2IngressStep] *)
Record V2IngressStep := mkIngressStep {
  is_Binding : V2IngressBinding; is_Kind : string; is_Expected : string; is_Desired : string; is_Static : string }.

(** internal/releasetransition/source_ingress.go:80-86 [V2IngressOperation] *)
Record V2IngressOperation := mkIngressOperation {
  io_Kind : string; io_Decision : string; io_Expected : string; io_Desired : string; io_Static : string }.

(** internal/releasetransition/work_v2.go:17-43 [v2WorkRecipe]: its closed variants. *)
Inductive v2WorkRecipe :=
| nativeWorkRecipe
| settingsWorkRecipe (file : settingsV2FilePlan)
| recordedSettingsWork (intent : PlannerStepIntent)
| ownerWorkRecipe (plan : ownerRegistrationV2Plan)
| ingressWorkRecipe (operation : V2IngressOperation) (binding : V2IngressBinding)
| ledgerWorkRecipe (edge : Edge) (from : ProtectedSnapshot) (to : string).

(** internal/releasetransition/work_v2.go:12-16 [v2Work] *)
Record v2Work := mkWork { w_intent : PlannerStepIntent; w_migration : Migration; w_recipe : v2WorkRecipe }.

(** internal/releasetransition/transition_v2.go:145-153 [v2WorkKind] *)
Inductive v2WorkKind := v2NativeWork | v2SettingsWork | v2OwnerWork | v2LedgerWork | v2IngressWork.

#[export] Instance v2WorkKind_eq_dec : EqDecision v2WorkKind.
Proof. solve_decision. Defined.
#[export] Instance PlannerStepIntent_eq_dec : EqDecision PlannerStepIntent.
Proof. solve_decision. Defined.

(** internal/releasetransition/work_v2.go:46-74 [kind] *)
Definition work_kind (work : v2Work) : v2WorkKind :=
  match w_recipe work with
  | nativeWorkRecipe => v2NativeWork
  | settingsWorkRecipe _ | recordedSettingsWork _ => v2SettingsWork
  | ownerWorkRecipe _ => v2OwnerWork
  | ingressWorkRecipe _ _ => v2IngressWork
  | ledgerWorkRecipe _ _ _ => v2LedgerWork
  end.

Definition kind_is (kind : v2WorkKind) (work : v2Work) : bool := bool_decide (work_kind work = kind).

(** ** Ingress steps *)

Definition V2LegacyV1Import : string := "legacy-v1-import".

(** internal/releasetransition/source_ingress.go:175-186 [ingressOperationRank] *)
Definition ingressOperationRank (kind : string) : Z :=
  if bool_decide (kind = V2LegacyV1Import) then 1
  else if bool_decide (kind = "import") then 2
  else if bool_decide (kind = "entrypoints") then 3 else 0.

(** internal/releasetransition/source_ingress.go:188-199 [ingressOperationIDs]: migration,
    step, resource, scope and class. *)
Definition ingressOperationIDs (kind : string) : string * string * string * string * string :=
  if bool_decide (kind = V2LegacyV1Import)
  then ("legacy-v1-import", "legacy-v1.import", "legacy-v1.journal", "legacy-v1", "legacy-v1-journal")
  else if bool_decide (kind = "import")
  then ("source-install-v1", "source-install.import", "source-install.config", "source-install", "source-install-v1")
  else if bool_decide (kind = "entrypoints")
  then ("source-install-v1", "source-install.entrypoints", "source-install.entrypoints", "source-install", "source-install-v1")
  else ("", "", "", "", "").

(** internal/releasetransition/source_ingress.go:209-219 [ingressOperationKindForIntent] *)
Definition ingressOperationKindForIntent (id migration resource : string) : option string :=
  head (filter (λ kind, let '(m, step, r, _, _) := ingressOperationIDs kind in migration = m ∧ id = step ∧ resource = r)
    [V2LegacyV1Import; "import"; "entrypoints"]).

(** internal/releasetransition/source_ingress.go:266-284 [ingressStepBindings] *)
Definition ingressStepBindings (steps : list JournalStep) : list V2IngressStepBinding :=
  steps ≫= λ step,
    match ingressOperationKindForIntent (step_ID step) (step_Migration step) (step_Resource step) with
    | Some kind =>
        [mkIngressStepBinding kind (step_Checkpoint step) (step_Expected step) (step_Desired step)
           (match step_Evidence step with Some evidence => ev_Recovery evidence | None => "" end)]
    | None => []
    end.

(** internal/releasetransition/source_ingress.go:234-248 [ingressStep]: one bound step, the
    rank of the one before as state. *)
Definition ingress_binding_ok (previousRank : Z) (step : V2IngressStepBinding) : result journal_error Z :=
  let rank := ingressOperationRank (isb_Kind step) in
  refuse ((rank =? 0) || (rank <=? previousRank) || negb (validStepCheckpoint (isb_Checkpoint step)) ||
          negb (validFingerprint (isb_Expected step)) || negb (validFingerprint (isb_Desired step)))
    (InvalidRecord "ingress step bindings are not canonical");;
  (if bool_decide (isb_Static step ≠ "")
   then validateFingerprint (isb_Static step) "bound ingress static fingerprint" else Ok tt);;
  Ok rank.

(** internal/releasetransition/source_ingress.go:221-264 [ingressStep] *)
Definition ingressStep (binding : V2IngressBinding) (operation : V2IngressOperation) : result journal_error V2IngressStep :=
  validateTransactionID (ib_Transaction binding);;
  validatePlanToken (ib_Plan binding);;
  ReleasePair_Validate (ib_Releases binding);;
  for_range ingress_binding_ok (ib_Steps binding) 0 ≫= λ _,
  refuse (ingressOperationRank (io_Kind operation) =? 0) (InvalidRecord "ingress step has an unknown operation kind");;
  validateFingerprint (io_Expected operation) "ingress expected fingerprint";;
  validateFingerprint (io_Desired operation) "ingress desired fingerprint";;
  Ok (mkIngressStep binding (io_Kind operation) (io_Expected operation) (io_Desired operation) (io_Static operation)).

(** ** Records *)

(** internal/releasetransition/records.go:323-332 [MarshalEvidence] *)
Definition MarshalEvidence (record : EvidenceRecord) : result journal_error string :=
  EvidenceRecord_validate record;;
  Ok (match evidenceToJournalV2 (Some record) with
      | Some wire => marshal (V2Evidence_json wire)
      | None => ""
      end +:+ String "010" "").

(** internal/releasetransition/records.go:112-118 [CompatibilityEvidence] *)
Record CompatibilityEvidence := mkCompatibility {
  ce_SchemaVersion : Z; ce_Kind : string; ce_Identity : string; ce_From : string; ce_Previous : string }.

(** internal/releasetransition/records.go:381-399 [CompatibilityEvidence.validate] *)
Definition CompatibilityEvidence_validate (record : CompatibilityEvidence) : result journal_error unit :=
  refuse (negb (ce_SchemaVersion record =? 1) || bool_decide (ce_Kind record ≠ V2LegacyV1Import))
    (InvalidRecord "unsupported compatibility evidence schema or kind");;
  validateFingerprint (ce_Identity record) "compatibility evidence identity";;
  validateReleaseID (ce_From record) "compatibility source release";;
  validateReleaseID (ce_Previous record) "compatibility previous release";;
  refuse (bool_decide (ce_From record = ce_Previous record))
    (InvalidRecord "compatibility evidence releases are identical").

(** internal/releasetransition/records.go:370-379 [MarshalCompatibilityEvidence] *)
Definition MarshalCompatibilityEvidence (record : CompatibilityEvidence) : result journal_error string :=
  CompatibilityEvidence_validate record;;
  Ok (marshal (JObject (field "schemaVersion" (JInt (ce_SchemaVersion record)) ++
                        field "kind" (JString (ce_Kind record)) ++
                        field "identity" (JString (ce_Identity record)) ++
                        field "from" (JString (ce_From record)) ++
                        field "previous" (JString (ce_Previous record)))) +:+ String "010" "").

(** internal/releasetransition/ledger_checkpoint_v1.go:39-45 [MigrationLedgerSnapshot] *)
Record MigrationLedgerSnapshot := mkLedgerState {
  mls_Ledger : LedgerV2; mls_Checkpoint : LedgerCheckpointV1; mls_Authority : ProtectedSnapshot;
  mls_Projection : ProtectedSnapshot; mls_Checkpointed : bool }.

(** internal/releasetransition/transition_v2.go:4089-4103 [v2PublicOutcome] *)
Definition v2PublicOutcome (status : string) (links : ReleaseLinks) (target : string) (transaction : option string)
    (code message retry : string) : Outcome :=
  mkOutcome status false (links_Active links) (links_Previous links) target code message retry transaction [].

(** internal/releasetransition/transition_v2.go:4064-4075 [v2OperatorOutcome] *)
Definition v2OperatorOutcome (links : ReleaseLinks) (target : string) (transaction : option string)
    (code message retry : string) : Outcome :=
  v2PublicOutcome StatusOperatorActionRequired links target transaction code message retry.

(** ** What convergence calls *)

(** The error of a call: a stale compare-and-swap or target, or anything else. *)
Inductive call_error := CallStale | CallFailed (what : string).

(** The errors of convergence: a check of its own, a record that cannot be written, or
    the error of a call. *)
Inductive conv_error :=
| ConvInvalid (what : string)
| ConvMarshal (e : journal_error)
| ConvStale
| ConvCall (what : string).

#[export] Instance conv_error_eq_dec : EqDecision conv_error.
Proof. solve_decision. Defined.

Definition call_failed (e : call_error) : conv_error :=
  match e with CallStale => ConvStale | CallFailed what => ConvCall what end.

(** A call from convergence. *)
Definition call {W A} (m : eff W call_error A) : eff W conv_error A := λ w,
  match m w with
  | (w', Ok a) => (w', Ok a)
  | (w', Err e) => (w', Err (call_failed e))
  end.

Class Engine (W : Type) := {
  CompareAndSwapCurrentJournal : ProtectedSnapshot → string → eff W call_error unit;
  CreateEvidence : string → string → string → string → eff W call_error unit;
  CreateCompatibilityEvidence : string → string → eff W call_error unit;
  ReadMigrationCheckpoint : eff W call_error ProtectedSnapshot;
  ReadMigrationLedger : eff W call_error MigrationLedgerSnapshot;
  ParseLedgerV2 : string → result call_error LedgerV2;
  CompareAndSwapMigrationLedger : MigrationLedgerSnapshot → LedgerV2 → eff W call_error unit;
  SwapLedger : ProtectedSnapshot → string → eff W call_error unit;
  validateRecipe : v2Work → JournalRecord → JournalStep → eff W call_error unit;
  pinNativeIdentity : JournalRecord → JournalStep → v2Work → eff W call_error unit;
  ensureRecovery : JournalRecord → JournalStep → v2Work → eff W call_error string;
  ensureOwnerRecovery : JournalRecord → JournalStep → v2Work → eff W call_error (string * string);
  workFingerprint : v2Work → JournalRecord → eff W call_error string;
  ReconcileNative : Migration → string → ReleaseLinks → eff W call_error unit;
  observeSettingsMigrationWork : Migration → string → eff W call_error (PersistentFileSnapshot * string * string);
  inspectRegisteredSettings : Migration → ReleaseLinks → eff W call_error (list string * list settingsV2FilePlan);
  publishSettings : Migration → string → PersistentFileSnapshot → string → eff W call_error unit;
  CommitOwner : option (OwnerRegistrationObservation → eff W call_error unit);
  ApplyIngress : option (V2IngressStep → eff W call_error unit);
  VerifyIngress : V2IngressStep → eff W call_error unit;
  inject : string → eff W call_error unit;
  ObserveLinks : eff W call_error ReleaseLinks;
  ActivateLinks : option (ReleasePair → eff W call_error ReleaseLinks);
  verifyPreparedSourceActivation : option (JournalRecord → eff W call_error Outcome);
  reconcileActivation : JournalRecord → eff W call_error Outcome;
  evaluateTerminal : JournalRecord → eff W call_error Outcome }.

(** ** One step *)

Definition CodeVerificationFailed : string := "verification-failed".

Definition registeredYardsMigration : string := "registered-yards-v2-to-v3".

(** A call whose stale error is not an error: the state is observed again. *)
Definition tolerate_stale {W} (m : eff W conv_error unit) : eff W conv_error unit := λ w,
  match m w with
  | (w', Err ConvStale) => (w', Ok tt)
  | r => r
  end.

Definition stopped (outcome : Outcome) : bool := bool_decide (o_Code outcome ≠ "").

Section convergence.
Context {W : Type} `{!Engine W}.
Notation M := (eff W conv_error).

(** The options of the transition that convergence reads, its registry, and the address at
    which the history of the registry is built. *)
Context (addr : Z) (registry : RegistryV2) (MigrationCheckpoint : bool) (Releases : ReleasePair)
        (goal : ReleaseGoal).

(** internal/releasetransition/transition_v2.go:2936-2949 [persistJournal] *)
Definition persistJournal (journal : JournalRecord) (snapshot : ProtectedSnapshot) : M ProtectedSnapshot :=
  payload ← pure (map_err ConvMarshal (MarshalJournal journal));
  call (CompareAndSwapCurrentJournal snapshot payload);;
  mret (protectedSnapshotFromPayload payload).

(** internal/releasetransition/transition_v2.go:2951-2959 [persistEvidence] *)
Definition persistEvidence (record : EvidenceRecord) : M unit :=
  payload ← pure (map_err ConvMarshal (MarshalEvidence record));
  call (CreateEvidence (ev_Transaction record) (ev_Step record) (ev_Checkpoint record) payload).

(** internal/releasetransition/transition_v2.go:3231-3236 [ingressStepForWork] *)
Definition ingressStepForWork (work : v2Work) : M V2IngressStep :=
  match ApplyIngress, w_recipe work with
  | Some _, ingressWorkRecipe operation binding =>
      pure (map_err (λ _, ConvInvalid "ingress step") (ingressStep binding operation))
  | _, _ => pure (Err (ConvInvalid "ingress work is unavailable"))
  end.

(** internal/releasetransition/work_v2.go:118-134 [validateWorkRecipe]: what is checked of
    every recipe, then what the kind of recipe asks for. *)
Definition validateWorkRecipe (work : v2Work) (journal : JournalRecord) (step : JournalStep) : M unit :=
  let expected := mkPlannerStepIntent (step_ID step) (step_Migration step) (step_Resource step) (step_Decision step)
                    (step_Expected step) (step_Desired step) in
  fail_if (negb (validStepCheckpoint (step_Checkpoint step))) (ConvInvalid "migration work has an unknown evidence phase");;
  pure (map_err (λ _, ConvInvalid "planner intent") (validatePlannerIntents [expected]));;
  pure (map_err (λ _, ConvInvalid "step evidence") (validateStepEvidence journal step));;
  fail_if (bool_decide (w_intent work ≠ expected)) (ConvInvalid "migration work differs from its journal intent");;
  call (validateRecipe work journal step).

(** internal/releasetransition/work_v2.go:240-246 [boundWorkStep] *)
Record boundWorkStep := mkBound { bw_transaction : string; bw_index : nat; bw_checkpoint : string; bw_work : v2Work }.

(** internal/releasetransition/work_v2.go:248-259 [bindWorkStep] *)
Definition bindWorkStep (journal : JournalRecord) (index : nat) (work : v2Work) : M boundWorkStep :=
  step ← pure (expect (jr_steps journal !! index) (ConvInvalid "migration work has no journal step"));
  validateWorkRecipe work journal step;;
  mret (mkBound (jr_Transaction journal) index (step_Checkpoint step) work).

(** internal/releasetransition/work_v2.go:263-268 [validateBoundWorkStep]: and the step. *)
Definition validateBoundWorkStep (bound : boundWorkStep) (journal : JournalRecord) : M JournalStep :=
  step ← pure (expect (jr_steps journal !! bw_index bound) (ConvInvalid "stale bound work step"));
  fail_if (bool_decide (bw_transaction bound ≠ jr_Transaction journal) ||
           bool_decide (bw_checkpoint bound ≠ step_Checkpoint step)) (ConvInvalid "stale bound work step");;
  validateWorkRecipe (bw_work bound) journal step;;
  mret step.

(** internal/releasetransition/transition_v2.go:2573-2580 [convergeStep]: an ingress recipe is
    bound to the journal. *)
Definition bind_ingress (journal : JournalRecord) (work : v2Work) : v2Work :=
  match w_recipe work with
  | ingressWorkRecipe operation _ =>
      mkWork (w_intent work) (w_migration work)
        (ingressWorkRecipe operation
           (mkIngressBinding (jr_Transaction journal) (jr_AuthorizationPlan journal) (jr_Releases journal)
              (ingressStepBindings (jr_steps journal))))
  | _ => work
  end.

(** Recipes with a recovery record: the legacy import among the ingress operations. *)
Definition legacy_import (work : v2Work) : bool :=
  match w_recipe work with
  | ingressWorkRecipe operation _ => bool_decide (io_Kind operation = V2LegacyV1Import)
  | _ => false
  end.

Definition needsRecovery (work : v2Work) : bool :=
  kind_is v2SettingsWork work || kind_is v2OwnerWork work || legacy_import work.

(** internal/releasetransition/transition_v2.go:2581-2607 [convergeStep]: the recovery record
    of the step; the token of an owner recovery goes into the recipe. *)
Definition step_recovery (journal : JournalRecord) (step : JournalStep) (work : v2Work) : M (string * v2Work) :=
  if needsRecovery work then
    rw ← match w_recipe work with
         | settingsWorkRecipe _ | recordedSettingsWork _ =>
             recovery ← call (ensureRecovery journal step work); mret (recovery, work)
         | ownerWorkRecipe plan =>
             rt ← call (ensureOwnerRecovery journal step work);
             let '(recovery, token) := (rt : string * string) in
             let b := op_Before plan in
             let before := mkOwnerObservation (or_State b) (or_Registration b) (or_Overrides b) (or_Controller b)
                             (or_SharedImages b) token (or_TerminalCleanup b) in
             mret (recovery, mkWork (w_intent work) (w_migration work)
                     (ownerWorkRecipe (mkOwnerPlan before (op_ExpectedFingerprint plan) (op_DesiredFingerprint plan))))
         | ingressWorkRecipe operation _ =>
             pure (map_err (λ _, ConvInvalid "legacy ingress static fingerprint")
               (validateFingerprint (io_Static operation) "legacy ingress static fingerprint"));;
             mret (io_Static operation, work)
         | _ => mret ("", work)
         end;
    let '(recovery, work) := (rw : string * v2Work) in
    fail_if (bool_decide (step_Checkpoint step ≠ "intent") &&
             negb match step_Evidence step with Some e => bool_decide (ev_Recovery e = recovery) | None => false end)
      (ConvInvalid "journaled migration recovery binding is missing or stale");;
    mret (recovery, work)
  else mret ("", work).

(** internal/releasetransition/transition_v2.go:2572-2572 [convergeStep]: the step at [index]
    replaced; the code writes through this pointer to it. *)
Definition put_step (journal : JournalRecord) (index : nat) (step : JournalStep) : JournalRecord :=
  journal <| jr_Steps := Some (<[index := step]> (jr_steps journal)) |>.

(** internal/releasetransition/transition_v2.go:2621-2621 [convergeStep]: a step moves to a
    checkpoint with its evidence, here and in the two later phases. *)
Definition with_evidence (step : JournalStep) (checkpoint : string) (evidence : EvidenceRecord) : JournalStep :=
  step <| step_Checkpoint := checkpoint |> <| step_Evidence := Some evidence |>.

(** internal/releasetransition/transition_v2.go:2608-2631 [convergeStep]: from intent to
    captured evidence. *)
Definition capture_step (journal : JournalRecord) (snapshot : ProtectedSnapshot) (index : nat) (step : JournalStep)
    (work : v2Work) (recovery : string) : M (JournalRecord * ProtectedSnapshot * JournalStep) :=
  call (pinNativeIdentity journal step work);;
  when (kind_is v2SettingsWork work || kind_is v2OwnerWork work) (call (inject "after-recovery"));;
  let evidence := evidenceFor journal step "captured" (step_Expected step) recovery in
  persistEvidence evidence;;
  let step := with_evidence step "evidence" evidence in
  let journal := put_step journal index step in
  let journal := if bool_decide (jr_Checkpoint journal = "authorized")
                 then journal <| jr_Checkpoint := "migrating" |> else journal in
  snapshot ← persistJournal journal snapshot;
  call (inject "after-step-evidence");;
  mret (journal, snapshot, step).

Definition operator (links : ReleaseLinks) (journal : JournalRecord) (code message : string) : Outcome :=
  v2OperatorOutcome links (goal_Target (jr_Goal journal)) (Some (jr_Transaction journal)) code message
    "run yard update --check".

(** internal/releasetransition/transition_v2.go:2643-2684 [convergeStep]: a settings file is
    replaced. *)
Definition apply_settings (journal : JournalRecord) (step : JournalStep) (work : v2Work) (links : ReleaseLinks) : M Outcome :=
  match w_recipe work with
  | settingsWorkRecipe file => λ w,
      match call (observeSettingsMigrationWork (w_migration work) (int_Resource (w_intent work))) w with
      | (w, Err _) => (w, Ok (operator links journal CodeMigrationStale "the settings resource changed before its protected update"))
      | (w, Ok (expected, path, observed)) =>
          (if bool_decide (path ≠ fp_Path file) || bool_decide (observed ≠ step_Expected step)
           then mret (operator links journal CodeMigrationStale "the settings resource changed before its protected update")
           else
             when (bool_decide (m_Kind (w_migration work) = registeredYardsMigration))
               (plan ← call (inspectRegisteredSettings (w_migration work) links);
                let '(blockers, files) := (plan : list string * list settingsV2FilePlan) in
                fail_if (negb (bool_decide (blockers = []))) (ConvCall "migration blocker");;
                fail_if (negb (existsb (λ f, bool_decide (fp_Path f = path) &&
                                             bool_decide (fp_ExpectedFingerprint f = step_Expected step) &&
                                             bool_decide (fp_DesiredFingerprint f = step_Desired step)) files))
                  (ConvInvalid "registered endpoint source changed before settings CAS"));;
             tolerate_stale (call (publishSettings (w_migration work) (fp_Path file) expected (fp_Desired file)));;
             call (inject "after-settings-cas");;
             mret empty_outcome) w
      end
  | _ => mret (operator links journal CodeRecoveryAmbiguous "the expected settings recipe cannot be reconstructed")
  end.

(** internal/releasetransition/transition_v2.go:2709-2753 [convergeStep]: the ledger is
    replaced. *)
Definition apply_ledger (edge : Edge) (from : ProtectedSnapshot) (to : string) : M Outcome :=
  pure (map_err (λ _, ConvInvalid "ledger edge") (Edge_Validate edge));;
  fail_if (len to =? 0) (ConvInvalid "journaled ledger recipe is missing");;
  checkpoint ← call ReadMigrationCheckpoint;
  (if MigrationCheckpoint || ps_Exists checkpoint then
     actual ← call ReadMigrationLedger;
     virtual ← pure (map_err (λ _, ConvInvalid "ledger") (MarshalLedgerV2 addr (mls_Ledger actual) registry));
     let virtualSnapshot :=
       if negb (mls_Checkpointed actual) && negb (ps_Exists (mls_Projection actual)) then absentProtectedSnapshot
       else protectedSnapshotFromPayload virtual.1 in
     fail_if (negb (sameProtectedSnapshot virtualSnapshot from)) ConvStale;;
     next ← pure (map_err call_failed (ParseLedgerV2 to));
     tolerate_stale (call (CompareAndSwapMigrationLedger actual next))
   else tolerate_stale (call (SwapLedger from to)));;
  call (inject "after-ledger-cas");;
  mret empty_outcome.

(** internal/releasetransition/transition_v2.go:2638-2755 [convergeStep]: the resource of the
    step is changed, by the kind of work. *)
Definition apply_work (journal : JournalRecord) (step : JournalStep) (work : v2Work) (links : ReleaseLinks) : M Outcome :=
  match w_recipe work with
  | nativeWorkRecipe => call (ReconcileNative (w_migration work) (int_Resource (w_intent work)) links);; mret empty_outcome
  | settingsWorkRecipe _ | recordedSettingsWork _ => apply_settings journal step work links
  | ownerWorkRecipe plan =>
      match CommitOwner with
      | None => mret (operator links journal CodeRecoveryAmbiguous "the expected owner-registration recipe cannot be reconstructed")
      | Some Commit => call (Commit (op_Before plan));; call (inject "after-owner-registration-commit");; mret empty_outcome
      end
  | ingressWorkRecipe _ _ =>
      request ← ingressStepForWork work;
      match ApplyIngress with
      | None => pure (Err (ConvInvalid "ingress work is unavailable"))
      | Some Apply => call (Apply request);; call (inject ("after-source-" +:+ is_Kind request +:+ "-apply"));; mret empty_outcome
      end
  | ledgerWorkRecipe edge from to => apply_ledger edge from to
  end.

(** What the rest of a step returns: an outcome when the step stops, and the journal, its
    snapshot and the step as they are. *)
Definition step_state : Type := Outcome * JournalRecord * ProtectedSnapshot * JournalStep.

(** internal/releasetransition/transition_v2.go:2632-2779 [convergeStep]: from captured
    evidence to applied. *)
Definition apply_step (journal : JournalRecord) (snapshot : ProtectedSnapshot) (index : nat) (step : JournalStep)
    (work : v2Work) (recovery : string) (links : ReleaseLinks) : M step_state :=
  actual ← call (workFingerprint work journal);
  outcome ← (if bool_decide (actual = step_Expected step) ||
                kind_is v2OwnerWork work && bool_decide (actual = step_Desired step)
             then apply_work journal step work links else mret empty_outcome);
  if stopped outcome then mret (outcome, journal, snapshot, step)
  else
    actual ← call (workFingerprint work journal);
    if bool_decide (actual ≠ step_Desired step)
    then mret (operator links journal CodeMigrationStale "a migration resource differs from both expected and desired state",
               journal, snapshot, step)
    else
      let evidence := evidenceFor journal step "applied" (step_Desired step) recovery in
      persistEvidence evidence;;
      let step := with_evidence step "applied" evidence in
      let journal := put_step journal index step in
      snapshot ← persistJournal journal snapshot;
      when (kind_is v2SettingsWork work || kind_is v2OwnerWork work || kind_is v2NativeWork work) (call (inject "after-step-applied"));;
      mret (empty_outcome, journal, snapshot, step).

(** internal/releasetransition/transition_v2.go:2791-2809 [convergeStep]: an ingress operation
    verifies itself and is observed again. *)
Definition verify_ingress (journal : JournalRecord) (step : JournalStep) (work : v2Work) (links : ReleaseLinks) : M Outcome :=
  if kind_is v2IngressWork work then
    request ← ingressStepForWork work;
    call (VerifyIngress request);;
    actual ← call (workFingerprint work journal);
    mret (if bool_decide (actual ≠ step_Desired step)
          then operator links journal CodeVerificationFailed "a source operation failed typed verification" else empty_outcome)
  else mret empty_outcome.

(** internal/releasetransition/transition_v2.go:2814-2832 [convergeStep]: the import of a legacy
    journal leaves evidence for later engines. *)
Definition compatibility_evidence (journal : JournalRecord) (work : v2Work) (recovery : string) : M unit :=
  when (legacy_import work)
    (previous ← pure (expect (pair_Previous (jr_Releases journal)) (ConvInvalid "legacy import has no previous release"));
     payload ← pure (map_err (λ _, ConvInvalid "compatibility evidence") (MarshalCompatibilityEvidence
       (mkCompatibility 1 V2LegacyV1Import recovery (pair_From (jr_Releases journal)) previous)));
     call (CreateCompatibilityEvidence recovery payload)).

(** internal/releasetransition/transition_v2.go:2780-2844 [convergeStep]: from applied to
    verified. *)
Definition verify_step (journal : JournalRecord) (snapshot : ProtectedSnapshot) (index : nat) (step : JournalStep)
    (work : v2Work) (recovery : string) (links : ReleaseLinks) : M step_state :=
  actual ← call (workFingerprint work journal);
  if bool_decide (actual ≠ step_Desired step)
  then mret (operator links journal CodeVerificationFailed "a migration resource failed typed verification",
             journal, snapshot, step)
  else
    outcome ← verify_ingress journal step work links;
    if stopped outcome then mret (outcome, journal, snapshot, step)
    else
      let evidence := evidenceFor journal step "verified" (step_Desired step) recovery in
      persistEvidence evidence;;
      compatibility_evidence journal work recovery;;
      let step := with_evidence step "verified" evidence in
      let journal := put_step journal index step in
      snapshot ← persistJournal journal snapshot;
      call (inject (if kind_is v2LedgerWork work then "after-ledger-verified" else "after-step-verified"));;
      mret (empty_outcome, journal, snapshot, step).

(** internal/releasetransition/transition_v2.go:2558-2846 [convergeStep] *)
Definition convergeStep (journal : JournalRecord) (snapshot : ProtectedSnapshot) (bound : boundWorkStep)
    (links : ReleaseLinks) : M (Outcome * JournalRecord * ProtectedSnapshot) :=
  fail_if (negb (validProtectedSnapshot snapshot)) (ConvInvalid "journaled work snapshot is malformed");;
  step ← validateBoundWorkStep bound journal;
  let index := bw_index bound in
  rw ← step_recovery journal step (bind_ingress journal (bw_work bound));
  let '(recovery, work) := (rw : string * v2Work) in
  st ← (if bool_decide (step_Checkpoint step = "intent")
        then capture_step journal snapshot index step work recovery else mret (journal, snapshot, step));
  let '(journal, snapshot, step) := (st : JournalRecord * ProtectedSnapshot * JournalStep) in
  st ← (if bool_decide (step_Checkpoint step = "evidence")
        then apply_step journal snapshot index step work recovery links else mret (empty_outcome, journal, snapshot, step));
  let '(outcome, journal, snapshot, step) := (st : step_state) in
  if stopped outcome then mret (outcome, journal, snapshot)
  else
    st ← (if bool_decide (step_Checkpoint step = "applied")
          then verify_step journal snapshot index step work recovery links else mret (empty_outcome, journal, snapshot, step));
    let '(outcome, journal, snapshot, _) := (st : step_state) in
    mret (outcome, journal, snapshot).

(** ** The whole journal *)

(** internal/releasetransition/transition_v2.go:3842-3859 [guardJournalLinks] *)
Definition guardJournalLinks (journal : JournalRecord) : M (ReleaseLinks * Outcome) :=
  links ← call ObserveLinks;
  mret (links, if negb (journalLinksAllowed journal links)
               then operator links journal CodeActivationAmbiguous "release links do not match the journaled activation checkpoint"
               else empty_outcome).

(** internal/releasetransition/transition_v2.go:979-997 [Converge]: every step of the journal
    in order, with the work that was reconstructed for it. *)
Fixpoint converge_steps (workByID : gmap string v2Work) (links : ReleaseLinks) (todo : list nat)
    (journal : JournalRecord) (snapshot : ProtectedSnapshot) : M (Outcome * JournalRecord * ProtectedSnapshot) :=
  match todo with
  | [] => mret (empty_outcome, journal, snapshot)
  | index :: todo =>
      match jr_steps journal !! index ≫= λ step, workByID !! step_ID step with
      | None => mret (v2OperatorOutcome links (goal_Target goal) (Some (jr_Transaction journal)) CodeRecoveryAmbiguous
                        "a journaled migration resource cannot be reconstructed safely" "run yard update --check",
                      journal, snapshot)
      | Some work =>
          bound ← bindWorkStep journal index work;
          st ← convergeStep journal snapshot bound links;
          let '(outcome, journal, snapshot) := (st : Outcome * JournalRecord * ProtectedSnapshot) in
          if stopped outcome then mret (outcome, journal, snapshot)
          else converge_steps workByID links todo journal snapshot
      end
  end.

(** The journal moves to a checkpoint, which is saved. *)
Definition advance_journal (journal : JournalRecord) (snapshot : ProtectedSnapshot) (checkpoint point : string) :
    M (JournalRecord * ProtectedSnapshot) :=
  let journal := journal <| jr_Checkpoint := checkpoint |> in
  snapshot ← persistJournal journal snapshot;
  call (inject point);;
  mret (journal, snapshot).

(** internal/releasetransition/transition_v2.go:1005-1005 [Converge]: the test made here and on
    the other branch. *)
Definition before_activation (journal : JournalRecord) : bool :=
  bool_decide (jr_Checkpoint journal = "authorized") || bool_decide (jr_Checkpoint journal = "migrating").

(** internal/releasetransition/transition_v2.go:1004-1032 [Converge]: the activation intent, or
    the active target when the release stays. *)
Definition intend_activation (journal : JournalRecord) (snapshot : ProtectedSnapshot) :
    M (Outcome * JournalRecord * ProtectedSnapshot) :=
  if negb (before_activation journal) then mret (empty_outcome, journal, snapshot)
  else if bool_decide (pair_From Releases = pair_Target Releases) then
    js ← advance_journal journal snapshot "target-active" "after-target-active"; mret (empty_outcome, js.1, js.2)
  else
    links ← call ObserveLinks;
    if negb (initialReleaseLinks links (jr_Releases journal))
    then mret (operator links journal CodeActivationAmbiguous "release links changed before the journaled activation intent",
               journal, snapshot)
    else
      js ← advance_journal journal snapshot "activation-intent" "after-activation-intent"; mret (empty_outcome, js.1, js.2).

(** internal/releasetransition/transition_v2.go:1037-1057 [Converge]: the links are switched. *)
Definition activate (journal : JournalRecord) (snapshot : ProtectedSnapshot)
    (Activate : ReleasePair → eff W call_error ReleaseLinks) : M (Outcome * JournalRecord * ProtectedSnapshot) :=
  links ← call (Activate (jr_Releases journal));
  if bool_decide (links_Active links ≠ pair_Target (jr_Releases journal)) ||
     bool_decide (links_Previous links ≠ Some (pair_From (jr_Releases journal)))
  then mret (operator links journal CodeActivationAmbiguous "release activation did not reach the exact journaled links",
             journal, snapshot)
  else
    js ← advance_journal journal snapshot "target-active" "after-target-active"; mret (empty_outcome, js.1, js.2).

(** internal/releasetransition/transition_v2.go:1058-1088 [Converge]: reconciliation and the
    end. *)
Definition finish_journal (journal : JournalRecord) (snapshot : ProtectedSnapshot) : M Outcome :=
  js ← (if bool_decide (jr_Checkpoint journal = "target-active")
        then advance_journal journal snapshot "reconciling" "after-reconciling" else mret (journal, snapshot));
  let '(journal, snapshot) := (js : JournalRecord * ProtectedSnapshot) in
  if bool_decide (jr_Checkpoint journal = "reconciling") then
    outcome ← call (reconcileActivation journal);
    if stopped outcome then mret outcome
    else
      call (inject "before-journal-complete");;
      js ← advance_journal journal snapshot "complete" "after-journal-complete";
      call (evaluateTerminal js.1)
  else call (evaluateTerminal journal).

(** internal/releasetransition/transition_v2.go:969-1088 [Converge]: the second half, with the
    journal that was saved or found and the work for its steps. *)
Definition converge_journal (workByID : gmap string v2Work) (journal : JournalRecord) (snapshot : ProtectedSnapshot) :
    M Outcome :=
  guard ← guardJournalLinks journal;
  let '(links, outcome) := (guard : ReleaseLinks * Outcome) in
  if stopped outcome then mret outcome
  else
    st ← converge_steps workByID links (seq 0 (length (jr_steps journal))) journal snapshot;
    let '(outcome, journal, snapshot) := (st : Outcome * JournalRecord * ProtectedSnapshot) in
    if stopped outcome then mret outcome
    else
      outcome ← match verifyPreparedSourceActivation with Some verify => call (verify journal) | None => mret empty_outcome end;
      if stopped outcome then mret outcome
      else
        st ← intend_activation journal snapshot;
        let '(outcome, journal, snapshot) := (st : Outcome * JournalRecord * ProtectedSnapshot) in
        if stopped outcome then mret outcome
        else if bool_decide (pair_From Releases = pair_Target Releases) then finish_journal journal snapshot
        else
          match ActivateLinks with
          | None => call (evaluateTerminal journal)
          | Some Activate =>
              if bool_decide (jr_Checkpoint journal = "activation-intent") then
                st ← activate journal snapshot Activate;
                let '(outcome, journal, snapshot) := (st : Outcome * JournalRecord * ProtectedSnapshot) in
                if stopped outcome then mret outcome else finish_journal journal snapshot
              else finish_journal journal snapshot
          end.
End convergence.
