(* ===== verification/ConvergeProofs.v ===== *)
(** * The order of convergence

    The journals that convergence saves form a path of a small state machine, and every
    change of a resource, of the links and of the activation happens in the state of the
    machine that permits it: [converge_run].  From the machine follow the properties of
    every run, interrupted or not. *)

From S2P Require Import Prelude GoStrings GoSort Sha256 Names GoJson JournalV2 Transition MigrationHistory LedgerV2 Effects ProtectedStore Converge.

(** ** The machine *)

Definition verified (s : JournalStep) : Prop := step_Checkpoint s = "verified".

Definition all_verified (j : JournalRecord) : Prop := ∀ s, s ∈ jr_steps j → verified s.

(** The step in progress: those before it are verified. *)
Definition in_progress (j : JournalRecord) (i : nat) (s : JournalStep) : Prop :=
  jr_steps j !! i = Some s ∧ ∀ k t, (k < i)%nat → jr_steps j !! k = Some t → verified t.

(** The checkpoint after [c], with the kind of evidence that it needs and the fingerprint
    that the evidence shows. *)
Definition next_checkpoint (s : JournalStep) (c evidence observed : string) : Prop :=
  (step_Checkpoint s = "intent" ∧ c = "evidence" ∧ evidence = "captured" ∧ observed = step_Expected s) ∨
  (step_Checkpoint s = "evidence" ∧ c = "applied" ∧ evidence = "applied" ∧ observed = step_Desired s) ∨
  (step_Checkpoint s = "applied" ∧ c = "verified" ∧ evidence = "verified" ∧ observed = step_Desired s).

Definition recovery_ok (recovery : string) : Prop := recovery = "" ∨ fingerprint_ok recovery.

Definition migrating (j : JournalRecord) : JournalRecord :=
  if bool_decide (jr_Checkpoint j = "authorized") then j <| jr_Checkpoint := "migrating" |> else j.

(** One saved journal after another. *)
Inductive journal_step : JournalRecord → JournalRecord → Prop :=
| js_step j i s c evidence observed recovery j' :
    in_progress j i s → next_checkpoint s c evidence observed → recovery_ok recovery →
    j' = put_step j i (with_evidence s c (evidenceFor j s evidence observed recovery)) →
    journal_step j (if bool_decide (c = "evidence") then migrating j' else j')
| js_intent j :
    all_verified j → before_activation j = true → journal_step j (j <| jr_Checkpoint := "activation-intent" |>)
| js_same j :
    all_verified j → before_activation j = true → journal_step j (j <| jr_Checkpoint := "target-active" |>)
| js_active j :
    jr_Checkpoint j = "activation-intent" → journal_step j (j <| jr_Checkpoint := "target-active" |>)
| js_reconcile j :
    jr_Checkpoint j = "target-active" → journal_step j (j <| jr_Checkpoint := "reconciling" |>)
| js_complete j :
    jr_Checkpoint j = "reconciling" → journal_step j (j <| jr_Checkpoint := "complete" |>).

(** ** Every journal of the machine is valid *)

(** The proofs below never look inside a digest. *)
#[local] Opaque Sum256 bindIntent.

Definition journal_valid (j : JournalRecord) : Prop := JournalRecord_Validate j = Ok tt.

Lemma before_activation_spec j : before_activation j = true ↔ jr_Checkpoint j = "authorized" ∨ jr_Checkpoint j = "migrating".
Proof. unfold before_activation. by rewrite orb_true_iff, !bool_decide_eq_true. Qed.

Lemma wire_steps j : v2_steps (journalRecordToV2 j) = journalStepToV2 <$> jr_steps j.
Proof. apply v2_steps_journalRecordToV2. Qed.

Lemma step_progress_ext j j' s :
  v2_Transaction j = v2_Transaction j' → v2_Releases j = v2_Releases j' → step_progress j s → step_progress j' s.
Proof.
  intros Ht Hr [?|e ? ? Hb ? ?|e ? ? Hb ? ?]; [by apply at_intent|eapply at_evidence|eapply at_desired];
    try done; unfold evidence_binds in *; naive_solver congruence.
Qed.

(** Moving the checkpoint of a journal. *)
Lemma checkpoint_valid j c :
  journal_valid j → v2_validJournalCheckpoint c = true → (v2_journalAfterMigrations c = true → all_verified j) →
  journal_valid (j <| jr_Checkpoint := c |>).
Proof.
  unfold journal_valid. rewrite !record_ok_spec. intros [] Hc Ha. split; try done.
  intros s Hs. specialize (ok_steps s Hs). destruct ok_steps as (H1 & H2 & H3 & H4 & H5 & H6 & H7 & _).
  split_and!; try done; [by eapply step_progress_ext; [..|exact H7]|]. intros Hafter. rewrite wire_steps in Hs. apply list_elem_of_fmap in Hs as (t & -> & Ht).
  by apply Ha.
Qed.

Lemma after_activation j : journal_valid j → before_activation j = false → all_verified j.
Proof.
  unfold journal_valid. rewrite record_ok_spec. intros [] Hb s Hs.
  assert (journalStepToV2 s ∈ v2_steps (journalRecordToV2 j)) as Hs' by (rewrite wire_steps; by apply list_elem_of_fmap_2).
  destruct (ok_steps _ Hs') as (_ & _ & _ & _ & _ & _ & _ & Hv). apply Hv.
  unfold v2_validJournalCheckpoint in ok_checkpoint. apply bool_decide_eq_true in ok_checkpoint.
  unfold before_activation in Hb. apply orb_false_iff in Hb as [Hb1 Hb2]. rewrite bool_decide_eq_false in Hb1, Hb2.
  unfold v2_journalAfterMigrations. simpl in *.
  repeat (apply elem_of_cons in ok_checkpoint as [Hc|ok_checkpoint]; [by rewrite Hc in *|]). by apply elem_of_nil in ok_checkpoint.
Qed.

(** Replacing a step that keeps its intent. *)
Lemma put_step_valid j i s s' :
  journal_valid j → jr_steps j !! i = Some s → before_activation j = true →
  intent_of s' = intent_of s → step_progress (journalRecordToV2 j) (journalStepToV2 s') →
  journal_valid (put_step j i s').
Proof.
  unfold journal_valid. rewrite !record_ok_spec. intros [] Hs Hb Hi Hp.
  assert (v2_steps (journalRecordToV2 (put_step j i s')) = <[i := journalStepToV2 s']> (v2_steps (journalRecordToV2 j))) as Hst.
  { rewrite !wire_steps. unfold jr_steps at 1. simpl. apply list_fmap_insert. }
  assert (v2_steps (journalRecordToV2 j) !! i = Some (journalStepToV2 s)) as Hold by (by rewrite wire_steps, list_lookup_fmap, Hs).
  assert (∀ A (f : V2Step → A), (∀ t t', v2s_ID t = v2s_ID t' → v2s_Migration t = v2s_Migration t' →
    v2s_Resource t = v2s_Resource t' → v2s_Decision t = v2s_Decision t' → v2s_Expected t = v2s_Expected t' →
    v2s_Desired t = v2s_Desired t' → f t = f t') →
    f <$> v2_steps (journalRecordToV2 (put_step j i s')) = f <$> v2_steps (journalRecordToV2 j)) as Hsame.
  { intros A f Hf. rewrite Hst, list_fmap_insert. apply list_insert_id. rewrite list_lookup_fmap, Hold. simpl. f_equal.
    unfold intent_of in Hi. injection Hi. intros. by apply Hf. }
  split; [exact ok_schema|exact ok_transaction|exact ok_goal|exact ok_releases|exact ok_plans|exact ok_digests|exact ok_ingress
    |exact ok_checkpoint|..].
  - rewrite Hst, length_insert. exact ok_bound.
  - rewrite (Hsame _ v2s_ID) by (intros; assumption). exact ok_unique.
  - intros t. rewrite Hst. intros [k Hk]%list_elem_of_lookup. apply list_lookup_insert_Some in Hk as [(-> & <- & _)|[_ Hk]].
    + destruct (ok_steps _ (list_elem_of_lookup_2 _ _ _ Hold)) as (H1 & H2 & H3 & H4 & H5 & H6 & _ & _).
      unfold intent_of in Hi. injection Hi. intros E1 E2 E3 E4 E5 E6. unfold step_ok. simpl in *.
      rewrite E1, E2, E3, E4, E5, E6. split_and!; [done|done|done|done|done|done|by eapply step_progress_ext; [..|exact Hp]|].
      intros Ha. exfalso. apply before_activation_spec in Hb. by destruct Hb as [Hb|Hb]; rewrite Hb in Ha.
    + destruct (ok_steps _ (list_elem_of_lookup_2 _ _ _ Hk)) as (H1 & H2 & H3 & H4 & H5 & H6 & H7 & H8).
      split_and!; try done. by eapply step_progress_ext; [..|exact H7].
  - etransitivity; [exact ok_intent|]. symmetry. Transparent bindIntent. unfold bindIntent, v2_intent_json.
    assert (∀ l, List.map v2_intent_step l = v2_intent_step <$> l) as Hmap by (induction l as [|x l IH]; [done|]; csimpl; by rewrite IH).
    rewrite !Hmap, (Hsame _ v2_intent_step); [reflexivity|]. intros t t' ? ? ? ? ? ?. unfold v2_intent_step. congruence.
Qed.

(** The step of the machine: a step of the journal gets its next evidence. *)
Lemma evidence_progress j s c evidence observed recovery :
  journal_valid j → s ∈ jr_steps j → next_checkpoint s c evidence observed → recovery_ok recovery →
  step_progress (journalRecordToV2 j) (journalStepToV2 (with_evidence s c (evidenceFor j s evidence observed recovery))).
Proof.
  unfold journal_valid. rewrite record_ok_spec. intros [] Hs Hn Hr.
  assert (journalStepToV2 s ∈ v2_steps (journalRecordToV2 j)) as Hs' by (rewrite wire_steps; by apply list_elem_of_fmap_2).
  destruct (ok_steps _ Hs') as (_ & _ & _ & _ & He & Hd & _ & _). simpl in He, Hd.
  destruct Hn as [(_ & -> & -> & ->)|[(_ & -> & -> & ->)|(_ & -> & -> & ->)]].
  - eapply at_evidence; try reflexivity. by split_and!.
  - eapply at_desired; [by left|reflexivity|by split_and!|reflexivity|reflexivity].
  - eapply at_desired; [by right|reflexivity|by split_and!|reflexivity|reflexivity].
Qed.

Lemma next_not_verified s c evidence observed : next_checkpoint s c evidence observed → ¬ verified s.
Proof. unfold next_checkpoint, verified. intros [(H & _)|[(H & _)|(H & _)]]; by rewrite H. Qed.

Lemma step_before_activation j s :
  journal_valid j → s ∈ jr_steps j → ¬ verified s → before_activation j = true.
Proof. intros Hj Hs Hv. destruct (before_activation j) eqn:Hb; [done|]. by destruct Hv; apply (after_activation j). Qed.

Lemma migrating_valid j : journal_valid j → journal_valid (migrating j).
Proof. intros Hj. unfold migrating. case_bool_decide; [|done]. by apply checkpoint_valid. Qed.

(** Every journal that the machine reaches is valid, so that it can always be saved. *)
Lemma journal_step_valid j j' : journal_valid j → journal_step j j' → journal_valid j'.
Proof.
  intros Hj Hs. destruct Hs as [j i s c evidence observed recovery j' [Hi _] Hn Hr ->|j Hv Hb|j Hv Hb|j Hc|j Hc|j Hc].
  - pose proof (list_elem_of_lookup_2 _ _ _ Hi) as Hin.
    assert (journal_valid (put_step j i (with_evidence s c (evidenceFor j s evidence observed recovery)))) as Hp.
    { eapply put_step_valid; [done..| |reflexivity|by apply evidence_progress].
      eapply step_before_activation; [done..|by eapply next_not_verified]. }
    case_bool_decide; [by apply migrating_valid|done].
  - by apply checkpoint_valid.
  - by apply checkpoint_valid.
  - apply checkpoint_valid; [done..|]. intros _. apply after_activation; [done|]. unfold before_activation. by rewrite Hc.
  - apply checkpoint_valid; [done..|]. intros _. apply after_activation; [done|]. unfold before_activation. by rewrite Hc.
  - apply checkpoint_valid; [done..|]. intros _. apply after_activation; [done|]. unfold before_activation. by rewrite Hc.
Qed.

Lemma valid_marshals j : journal_valid j → ∃ payload, MarshalJournal j = Ok payload.
Proof.
  intros Hj%record_ok_spec%journal_ok_spec. unfold MarshalJournal, marshalJournalV2JSON, V2Encode. rewrite Hj. by eexists.
Qed.

Lemma evidence_marshals j s c evidence observed recovery :
  journal_valid j → s ∈ jr_steps j → next_checkpoint s c evidence observed → recovery_ok recovery →
  ∃ payload, MarshalEvidence (evidenceFor j s evidence observed recovery) = Ok payload.
Proof.
  intros Hj Hs Hn Hr. pose proof (evidence_progress j s c evidence observed recovery Hj Hs Hn Hr) as Hp.
  unfold journal_valid in Hj. rewrite record_ok_spec in Hj. destruct Hj.
  assert (journalStepToV2 s ∈ v2_steps (journalRecordToV2 j)) as Hs' by (rewrite wire_steps; by apply list_elem_of_fmap_2).
  destruct (ok_steps _ Hs') as (Hid & _ & _ & _ & He & Hd & _ & _). simpl in Hid, He, Hd.
  assert (EvidenceRecord_validate (evidenceFor j s evidence observed recovery) = Ok tt) as Hv.
  { apply (EvidenceRecord_validate_Ok _ _ tt eq_refl), V2Evidence_validate_Ok. simpl.
    destruct Hn as [(_ & _ & -> & ->)|[(_ & _ & -> & ->)|(_ & _ & -> & ->)]]; split_and!; try done; try apply ok_releases.
    all: naive_solver. }
  unfold MarshalEvidence. rewrite Hv. by eexists.
Qed.

(** ** Runs *)

(** What convergence does to the world: it saves journals and evidence, changes the
    resource of a step, switches the links, and reconciles the activation.  An event is
    the call, whether or not it succeeds. *)
Inductive event :=
| Saved (payload : string)
| Recorded (transaction step checkpoint payload : string)
| Changed
| Activated
| Reconciled.

(** The evidence of a saved step is recorded before: the step is as it was, or its evidence
    is among the events. *)
Definition evidence_first (log : list event) (j j' : JournalRecord) : Prop :=
  ∀ i s e, jr_steps j' !! i = Some s → step_Evidence s = Some e →
    jr_steps j !! i = Some s ∨
    ∃ payload, MarshalEvidence e = Ok payload ∧ Recorded (ev_Transaction e) (ev_Step e) (ev_Checkpoint e) payload ∈ log.

(** A run from journal [j0]: the events so far and the journal that was saved last. *)
Inductive path (j0 : JournalRecord) : list event → JournalRecord → Prop :=
| path_start : path j0 [] j0
| path_saved log j j' payload :
    path j0 log j → journal_step j j' → evidence_first log j j' → MarshalJournal j' = Ok payload →
    path j0 (log ++ [Saved payload]) j'
| path_recorded log j transaction step checkpoint payload :
    path j0 log j → path j0 (log ++ [Recorded transaction step checkpoint payload]) j
| path_changed log j i s :
    path j0 log j → in_progress j i s → step_Checkpoint s = "evidence" → path j0 (log ++ [Changed]) j
| path_activated log j :
    path j0 log j → jr_Checkpoint j = "activation-intent" → path j0 (log ++ [Activated]) j
| path_reconciled log j :
    path j0 log j → jr_Checkpoint j = "reconciling" → path j0 (log ++ [Reconciled]) j.

(** An engine whose calls are written down. *)
Section logging.
Context {W : Type} (E : Engine W).

Definition lift {A} (m : eff W call_error A) : eff (W * list event) call_error A := λ wl,
  let '(w', r) := m wl.1 in ((w', wl.2), r).

Definition note {A} (e : event) (m : eff W call_error A) : eff (W * list event) call_error A := λ wl,
  let '(w', r) := m wl.1 in ((w', wl.2 ++ [e]), r).

Definition logging : Engine (W * list event) := {|
  CompareAndSwapCurrentJournal s p := note (Saved p) (CompareAndSwapCurrentJournal s p);
  CreateEvidence t s c p := note (Recorded t s c p) (CreateEvidence t s c p);
  CreateCompatibilityEvidence i p := lift (CreateCompatibilityEvidence i p);
  ReadMigrationCheckpoint := lift ReadMigrationCheckpoint;
  ReadMigrationLedger := lift ReadMigrationLedger;
  ParseLedgerV2 := ParseLedgerV2;
  CompareAndSwapMigrationLedger a n := note Changed (CompareAndSwapMigrationLedger a n);
  SwapLedger f t := note Changed (SwapLedger f t);
  validateRecipe w j s := lift (validateRecipe w j s);
  pinNativeIdentity j s w := lift (pinNativeIdentity j s w);
  ensureRecovery j s w := lift (ensureRecovery j s w);
  ensureOwnerRecovery j s w := lift (ensureOwnerRecovery j s w);
  workFingerprint w j := lift (workFingerprint w j);
  ReconcileNative m r l := note Changed (ReconcileNative m r l);
  observeSettingsMigrationWork m r := lift (observeSettingsMigrationWork m r);
  inspectRegisteredSettings m l := lift (inspectRegisteredSettings m l);
  publishSettings m p e d := note Changed (publishSettings m p e d);
  CommitOwner := (λ commit before, note Changed (commit before)) <$> CommitOwner;
  ApplyIngress := (λ apply request, note Changed (apply request)) <$> ApplyIngress;
  VerifyIngress r := lift (VerifyIngress r);
  inject p := lift (inject p);
  ObserveLinks := lift ObserveLinks;
  ActivateLinks := (λ activate pair, note Activated (activate pair)) <$> ActivateLinks;
  verifyPreparedSourceActivation := (λ verify j, lift (verify j)) <$> verifyPreparedSourceActivation;
  reconcileActivation j := note Reconciled (reconcileActivation j);
  evaluateTerminal j := lift (evaluateTerminal j) |}.
End logging.

(** What convergence relies on: the fingerprint of a recovery record is one. *)
Class EngineLaws {W} (E : Engine W) := {
  ensureRecovery_fingerprint j s w world world' r : ensureRecovery j s w world = (world', Ok r) → fingerprint_ok r;
  ensureOwnerRecovery_fingerprint j s w world world' r t : ensureOwnerRecovery j s w world = (world', Ok (r, t)) → fingerprint_ok r }.

(** ** The runs of convergence are paths *)

Lemma stopped_empty : stopped empty_outcome = false.
Proof. done. Qed.

Lemma put_step_lookup j i s k : (i < length (jr_steps j))%nat →
  jr_steps (put_step j i s) !! k = if decide (k = i) then Some s else jr_steps j !! k.
Proof.
  intros Hi. unfold put_step, jr_steps at 1. simpl. case_decide as Hk; [subst; by apply list_lookup_insert_eq|].
  by apply list_lookup_insert_ne.
Qed.

Lemma migrating_steps j : jr_steps (migrating j) = jr_steps j.
Proof. unfold migrating. by case_bool_decide. Qed.

Lemma in_progress_put j i s s' : in_progress j i s → in_progress (put_step j i s') i s'.
Proof.
  intros [Hs Hp]. pose proof (lookup_lt_Some _ _ _ Hs). split.
  - by rewrite put_step_lookup, decide_True.
  - intros k t Hk. rewrite put_step_lookup, decide_False by lia. by apply Hp.
Qed.

Lemma in_progress_migrating j i s : in_progress j i s ↔ in_progress (migrating j) i s.
Proof. unfold in_progress. by rewrite migrating_steps. Qed.

Section runs.
Context {W : Type} (E : Engine W) {L : EngineLaws E}.
Context (addr : Z) (registry : RegistryV2) (MigrationCheckpoint : bool) (Releases : ReleasePair) (goal : ReleaseGoal).
Context (j0 : JournalRecord).

#[local] Instance log_engine : Engine (W * list event) := logging E.

(** A failing run is a path, and no record was refused. *)
Definition broken (e : conv_error) (wl : W * list event) : Prop :=
  (∃ j, path j0 wl.2 j) ∧ ∀ x, e ≠ ConvMarshal x.

Definition at_journal (j : JournalRecord) (wl : W * list event) : Prop := path j0 wl.2 j.

Lemma triple_call {A} (m : eff (W * list event) call_error A) P (Q : A → W * list event → Prop) :
  triple P m Q (λ _ wl, ∃ j, path j0 wl.2 j) → triple P (call m) Q broken.
Proof.
  intros Hm w Hw. specialize (Hm w Hw). unfold call. destruct (m w) as [w' [a|e]]; [done|]. split; [done|]. by destruct e.
Qed.

Lemma call_value {A} (m : eff W call_error A) (φ : A → Prop) (F : list event → Prop) :
  (∀ w w' a, m w = (w', Ok a) → φ a) → (∀ l, F l → ∃ j, path j0 l j) →
  triple (λ wl, F wl.2) (call (lift m)) (λ a wl, φ a ∧ F wl.2) broken.
Proof.
  intros Hφ HF. apply triple_call. intros [w l] Hw. unfold lift. simpl. destruct (m w) as [w' [a|e]] eqn:Hm; simpl; eauto.
Qed.

Lemma call_lift {A} (m : eff W call_error A) (F : list event → Prop) :
  (∀ l, F l → ∃ j, path j0 l j) → triple (λ wl, F wl.2) (call (lift m)) (λ _ wl, F wl.2) broken.
Proof.
  intros HF. eapply triple_weaken; [apply (call_value m (λ _, True) F); auto|done|by intros ? ? []|done].
Qed.

Lemma call_at {A} (m : eff W call_error A) j : triple (at_journal j) (call (lift m)) (λ _, at_journal j) broken.
Proof. apply (call_lift m (λ l, path j0 l j)). eauto. Qed.

Lemma call_note {A} e (m : eff W call_error A) (F G : list event → Prop) :
  (∀ l, F l → G (l ++ [e])) → (∀ l, G l → ∃ j, path j0 l j) →
  triple (λ wl, F wl.2) (call (note e m)) (λ _ wl, G wl.2) broken.
Proof.
  intros HF HG. apply triple_call. intros [w l] Hw. unfold note. simpl. destruct (m w) as [w' [a|e']]; simpl; auto.
Qed.

Lemma check_at b what j : triple (at_journal j) (fail_if b (ConvInvalid what)) (λ _ wl, at_journal j wl) broken.
Proof. apply triple_check; [|auto]. intros wl _ Hw. split; [by exists j|done]. Qed.

Lemma pure_at {A} (m : result conv_error A) j :
  (∀ e x, m = Err e → e ≠ ConvMarshal x) → triple (at_journal j) (pure m) (λ a wl, m = Ok a ∧ at_journal j wl) broken.
Proof. intros He. apply triple_pure. intros e wl Hm Hw. split; [by exists j|]. intros x. by apply He. Qed.

Lemma map_err_invalid {A} (m : result journal_error A) what e x :
  map_err (λ _, ConvInvalid what) m = Err e → e ≠ ConvMarshal x.
Proof. unfold map_err. destruct m; congruence. Qed.

(** *** Saving *)

Lemma persistJournal_spec (F : list event → Prop) j j' snapshot :
  journal_valid j → journal_step j j' → (∀ l, F l → path j0 l j ∧ evidence_first l j j') →
  triple (λ wl, F wl.2) (persistJournal j' snapshot) (λ _, at_journal j') broken.
Proof.
  intros Hj Hs HF. destruct (valid_marshals j') as [payload Hp]; [by eapply journal_step_valid|].
  unfold persistJournal. rewrite Hp. apply (triple_ret_bind payload).
  eapply triple_bind; [|intros ?; intros wl Hw; exact Hw].
  apply (call_note (Saved payload) _ F (λ l, path j0 l j')); [|eauto].
  intros l [Hl He]%HF. by eapply path_saved.
Qed.

Definition recorded (e : EvidenceRecord) (l : list event) : Prop :=
  ∃ payload, MarshalEvidence e = Ok payload ∧ Recorded (ev_Transaction e) (ev_Step e) (ev_Checkpoint e) payload ∈ l.

Lemma persistEvidence_spec j s c evidence observed recovery :
  journal_valid j → s ∈ jr_steps j → next_checkpoint s c evidence observed → recovery_ok recovery →
  let e := evidenceFor j s evidence observed recovery in
  triple (at_journal j) (persistEvidence e) (λ _ wl, path j0 wl.2 j ∧ recorded e wl.2) broken.
Proof.
  intros Hj Hs Hn Hr e. destruct (evidence_marshals j s c evidence observed recovery) as [payload Hp]; [done..|]. fold e in Hp.
  unfold persistEvidence. rewrite Hp. apply (triple_ret_bind payload).
  apply (call_note _ _ (λ l, path j0 l j) (λ l, path j0 l j ∧ recorded e l)); [|intros l []; eauto].
  intros l Hl. split; [by apply path_recorded|]. exists payload. split; [done|]. apply elem_of_app. right. by left.
Qed.

Lemma evidence_first_put l j i s c e :
  in_progress j i s → recorded e l → evidence_first l j (put_step j i (with_evidence s c e)).
Proof.
  intros [Hs _] Hr k t e' Hk He. rewrite put_step_lookup in Hk by (by eapply lookup_lt_Some). case_decide as Hki; [|by left].
  simplify_eq. right. simpl in He. by simplify_eq.
Qed.

(** A step that got its evidence is saved. *)
Lemma save_step_spec j i s c evidence observed recovery snapshot :
  journal_valid j → in_progress j i s → next_checkpoint s c evidence observed → recovery_ok recovery →
  let e := evidenceFor j s evidence observed recovery in
  let j' := put_step j i (with_evidence s c e) in
  let j' := if bool_decide (c = "evidence") then migrating j' else j' in
  triple (λ wl, path j0 wl.2 j ∧ recorded e wl.2) (persistJournal j' snapshot) (λ _, at_journal j') broken ∧
  journal_valid j' ∧ in_progress j' i (with_evidence s c e) ∧ length (jr_steps j') = length (jr_steps j).
Proof.
  intros Hj Hi Hn Hr e j1 j'.
  assert (journal_step j j') as Hs by (by eapply js_step).
  assert (jr_steps j' = jr_steps j1) as Hst by (unfold j'; case_bool_decide; [apply migrating_steps|done]).
  split; [|split; [by eapply journal_step_valid|split]].
  - apply (persistJournal_spec (λ l, path j0 l j ∧ recorded e l) j); [done..|]. intros l [Hl Hrec]. split; [done|].
    unfold evidence_first. rewrite Hst. by apply evidence_first_put.
  - unfold in_progress. rewrite Hst. by eapply in_progress_put.
  - rewrite Hst. unfold j1, put_step, jr_steps at 1. simpl. apply length_insert.
Qed.

(** *** One step *)

Lemma validateWorkRecipe_at work journal step j :
  triple (at_journal j) (validateWorkRecipe work journal step) (λ _, at_journal j) broken.
Proof.
  eapply triple_bind; [apply check_at|]. intros ?.
  eapply triple_bind; [apply pure_at; intros ? ?; apply map_err_invalid|]. intros ?.
  eapply triple_bind; [eapply triple_weaken; [apply (pure_at _ j); intros ? ?; apply map_err_invalid|by intros ? []|done|done]|]. intros ?.
  eapply triple_seq; [apply (check_at _ _ j)|by intros ? []|done|]. intros ?. apply call_at.
Qed.

Lemma recovery_spec j s work :
  triple (at_journal j) (step_recovery j s work) (λ (rw : string * v2Work) wl, recovery_ok rw.1 ∧ at_journal j wl) broken.
Proof.
  unfold step_recovery. destruct (needsRecovery work); [|intros wl Hw; split; [by left|done]].
  eapply triple_bind with (Q := λ (rw : string * v2Work) wl, recovery_ok rw.1 ∧ at_journal j wl).
  - assert (∀ w, triple (at_journal j) (recovery ← call (ensureRecovery j s work); mret (recovery, w))
      (λ (rw : string * v2Work) wl, recovery_ok rw.1 ∧ at_journal j wl) broken) as Hr.
    { intros w. eapply triple_bind; [apply (call_value (ensureRecovery j s work) fingerprint_ok (λ l, path j0 l j))|].
      - intros ? ? ?. apply ensureRecovery_fingerprint.
      - eauto.
      - intros r wl [Hr Hw]. split; [by right|done]. }
    destruct (w_recipe work) as [|file|intent|plan|operation binding|edge from to]; [|apply Hr|apply Hr| | |].
    + intros wl Hw. split; [by left|done].
    + eapply triple_bind; [apply (call_value (ensureOwnerRecovery j s work) (λ rt, fingerprint_ok rt.1) (λ l, path j0 l j))|].
      * intros w w' [r t]. apply ensureOwnerRecovery_fingerprint.
      * eauto.
      * intros [r t] wl [Hr' Hw]. split; [by right|done].
    + eapply triple_bind; [apply (pure_at _ j); intros ? ?; apply map_err_invalid|]. intros ? wl [Hv Hw]. split; [right|done].
      simpl. apply map_err_Ok, validateFingerprint_Ok in Hv. exact Hv.
    + intros wl Hw. split; [by left|done].
  - intros [recovery w]. simpl. eapply triple_bind with (Q := λ _ wl, recovery_ok recovery ∧ at_journal j wl); [|by intros ? wl].
    apply triple_check; [|by auto]. intros wl _ [_ Hw]. split; [by exists j|done].
Qed.

Lemma when_at b (m : eff (W * list event) conv_error unit) (F : list event → Prop) :
  triple (λ wl, F wl.2) m (λ _ wl, F wl.2) broken → triple (λ wl, F wl.2) (when b m) (λ _ wl, F wl.2) broken.
Proof. intros Hm. apply triple_when; [|auto]. intros wl [_ Hw]. by apply Hm. Qed.

Lemma capture_spec j snapshot i s work recovery :
  journal_valid j → in_progress j i s → step_Checkpoint s = "intent" → recovery_ok recovery →
  triple (at_journal j) (capture_step j snapshot i s work recovery)
    (λ (st : JournalRecord * ProtectedSnapshot * JournalStep) wl, journal_valid st.1.1 ∧ in_progress st.1.1 i st.2 ∧ step_Checkpoint st.2 = "evidence" ∧
              length (jr_steps st.1.1) = length (jr_steps j) ∧ at_journal st.1.1 wl) broken.
Proof.
  intros Hj Hi Hc Hr. assert (next_checkpoint s "evidence" "captured" (step_Expected s)) as Hn by (by left).
  destruct (save_step_spec j i s "evidence" "captured" (step_Expected s) recovery snapshot) as (Hsave & Hv & Hp & Hl); [done..|].
  eapply triple_bind; [apply call_at|]. intros ?.
  eapply triple_bind; [apply (when_at _ _ (λ l, path j0 l j)), call_at|]. intros ?.
  eapply triple_bind; [eapply persistEvidence_spec; [done|by eapply list_elem_of_lookup_2, Hi|done|done]|]. intros ?.
  eapply triple_bind; [exact Hsave|]. intros snapshot'.
  eapply triple_bind; [apply call_at|]. intros ? wl Hw. done.
Qed.

Lemma changed_call {A} (m : eff W call_error A) j i s :
  in_progress j i s → step_Checkpoint s = "evidence" → triple (at_journal j) (call (note Changed m)) (λ _, at_journal j) broken.
Proof. intros Hi Hc. apply (call_note Changed m (λ l, path j0 l j) (λ l, path j0 l j)); [|eauto]. intros l Hl. by eapply path_changed. Qed.

Lemma tolerate_spec (m : eff (W * list event) conv_error unit) j :
  triple (at_journal j) m (λ _, at_journal j) (λ e wl, (∀ x, e ≠ ConvMarshal x) ∧ at_journal j wl) →
  triple (at_journal j) (tolerate_stale m) (λ _, at_journal j) broken.
Proof.
  intros Hm wl Hw. specialize (Hm wl Hw). unfold tolerate_stale. destruct (m wl) as [wl' [a|e]]; [done|].
  destruct Hm as [He Hm]. destruct e; [split; [by exists j|done]|by destruct (He e)|done|split; [by exists j|done]].
Qed.

Lemma changed_tolerated (m : eff W call_error unit) j i s :
  in_progress j i s → step_Checkpoint s = "evidence" →
  triple (at_journal j) (tolerate_stale (call (note Changed m))) (λ _, at_journal j) broken.
Proof.
  intros Hi Hc. apply tolerate_spec. intros [w l] Hw. unfold call, note. simpl.
  assert (∀ w', at_journal j (w', l ++ [Changed])) as Hp by (intros w'; by eapply path_changed).
  destruct (m w) as [w' [a|e]]; [by apply Hp|]. split; [by destruct e|apply Hp].
Qed.

Ltac at_step := eapply triple_bind; [apply call_at|intros ?].

Lemma apply_settings_spec j s work links i :
  in_progress j i s → step_Checkpoint s = "evidence" →
  triple (at_journal j) (apply_settings j s work links) (λ _, at_journal j) broken.
Proof.
  intros Hi Hc. unfold apply_settings. destruct (w_recipe work) as [|file|intent|plan|operation binding|edge from to]; try (by intros wl Hw).
  intros [w l] Hw. unfold call at 1, log_engine at 1, logging, lift. simpl.
  destruct (observeSettingsMigrationWork (w_migration work) (int_Resource (w_intent work)) w) as [w' [[[expected fpath] observed]|e]];
    [|exact Hw].
  assert (at_journal j (w', l)) as Hw' by exact Hw. clear Hw. revert Hw'. generalize (w', l). clear w l w'.
  match goal with |- ∀ p, _ → match ?m p with _ => _ end => change (triple (at_journal j) m (λ _, at_journal j) broken) end.
  case_match; [by intros wl Hw|].
  eapply triple_bind; [apply (when_at _ _ (λ l, path j0 l j))|intros ?].
  { at_step. destruct a as [blockers files]. eapply triple_bind.
    - apply triple_check with (Q := λ _, at_journal j); [|auto]. intros wl _ Hw. split; [by exists j|done].
    - intros ?. apply check_at. }
  eapply triple_bind; [by eapply changed_tolerated|intros ?]. at_step. by intros wl Hw.
Qed.

Lemma apply_ledger_spec edge from to j i s :
  in_progress j i s → step_Checkpoint s = "evidence" →
  triple (at_journal j) (apply_ledger addr registry MigrationCheckpoint edge from to) (λ _, at_journal j) broken.
Proof.
  intros Hi Hc. eapply triple_seq; [apply (pure_at _ j); intros e x; unfold map_err; destruct (Edge_Validate edge); congruence|done|done|]. intros ?.
  eapply triple_seq; [apply (check_at _ _ j)|by intros ? []|done|]. intros ?. at_step.
  eapply triple_bind with (Q := λ _, at_journal j); [|intros ?; at_step; by intros wl Hw].
  destruct (MigrationCheckpoint || ps_Exists _); [|by eapply changed_tolerated]. at_step.
  eapply triple_seq; [apply (pure_at _ j); intros e x; unfold map_err; destruct (MarshalLedgerV2 _ _ _); congruence|done|done|]. intros virtual.
  eapply triple_bind with (Q := λ _, at_journal j).
  { apply triple_check; [|by intros ? _ []]. intros wl _ [_ Hw]. split; [by exists j|done]. }
  intros ?. eapply triple_seq; [apply (pure_at _ j)|done|done|].
  { intros e x. unfold map_err. destruct (ParseLedgerV2 to) as [|e']; [done|]. destruct e'; intros [= <-]; done. }
  intros next. eapply triple_weaken; [by eapply changed_tolerated|by intros ? []|done|done].
Qed.

Lemma ingressStepForWork_at work j : triple (at_journal j) (ingressStepForWork work) (λ _, at_journal j) broken.
Proof.
  unfold ingressStepForWork.
  assert (triple (at_journal j) (pure (Err (ConvInvalid "ingress work is unavailable")) : eff _ _ V2IngressStep) (λ _, at_journal j) broken) as Hn.
  { intros wl Hw. split; [by exists j|done]. }
  destruct ApplyIngress; [|exact Hn]. destruct (w_recipe work); try exact Hn.
  eapply triple_weaken; [apply (pure_at _ j); intros ? ?; apply map_err_invalid|done|by intros ? ? []|done].
Qed.

Lemma apply_work_spec j s work links i :
  in_progress j i s → step_Checkpoint s = "evidence" →
  triple (at_journal j) (apply_work addr registry MigrationCheckpoint j s work links) (λ _, at_journal j) broken.
Proof.
  intros Hi Hc. unfold apply_work. destruct (w_recipe work) as [|file|intent|plan|operation binding|edge from to].
  - eapply triple_bind; [by eapply changed_call|]. by intros ? wl Hw.
  - by eapply apply_settings_spec.
  - by eapply apply_settings_spec.
  - unfold CommitOwner, log_engine, logging. destruct (@CommitOwner W E) as [commit|]; simpl; [|by intros wl Hw].
    eapply triple_bind; [by eapply changed_call|]. intros ?. at_step. by intros wl Hw.
  - eapply triple_bind; [apply ingressStepForWork_at|]. intros request.
    unfold ApplyIngress, log_engine, logging. destruct (@ApplyIngress W E) as [apply|]; simpl; [|intros wl Hw; split; [by exists j|done]].
    eapply triple_bind; [by eapply changed_call|]. intros ?. at_step. by intros wl Hw.
  - by eapply apply_ledger_spec.
Qed.

Ltac on_test := match goal with |- triple _ (if ?b then _ else _) _ _ => destruct b end.

(** The state after a phase: a valid journal with the step in progress, at [c] unless the
    phase stopped. *)
Definition phase_done (i n : nat) (c : string) (st : step_state) (wl : W * list event) : Prop :=
  let '(o, j', _, s') := st in
  journal_valid j' ∧ in_progress j' i s' ∧ length (jr_steps j') = n ∧
  (stopped o = false → step_Checkpoint s' = c) ∧ at_journal j' wl.

Lemma phase_ret i n c o j snapshot s :
  journal_valid j → in_progress j i s → length (jr_steps j) = n → (stopped o = false → step_Checkpoint s = c) →
  triple (at_journal j) (mret (o, j, snapshot, s)) (phase_done i n c) broken.
Proof. intros H1 H2 H3 H4 wl Hw. exact (conj H1 (conj H2 (conj H3 (conj H4 Hw)))). Qed.

Lemma apply_step_spec j snapshot i s work recovery links :
  journal_valid j → in_progress j i s → step_Checkpoint s = "evidence" → recovery_ok recovery →
  triple (at_journal j) (apply_step addr registry MigrationCheckpoint j snapshot i s work recovery links)
    (phase_done i (length (jr_steps j)) "applied") broken.
Proof.
  intros Hj Hi Hc Hr. assert (next_checkpoint s "applied" "applied" (step_Desired s)) as Hn by (right; by left).
  destruct (save_step_spec j i s "applied" "applied" (step_Desired s) recovery snapshot) as (Hsave & Hv & Hp & Hl); [done..|].
  unfold apply_step. at_step.
  eapply triple_bind with (Q := λ _, at_journal j); [destruct (_ || _); [by eapply apply_work_spec|by intros wl Hw]|]. intros outcome.
  destruct (stopped outcome) eqn:Hstop; [apply phase_ret; [done..|congruence]|]. at_step.
  on_test; [by apply phase_ret|].
  eapply triple_bind; [eapply persistEvidence_spec; [done|by eapply list_elem_of_lookup_2, Hi|done|done]|]. intros ?.
  eapply triple_bind; [exact Hsave|]. intros snapshot'.
  eapply triple_bind; [apply (when_at _ _ (λ l, path j0 l _)), call_at|]. intros ?. by apply phase_ret.
Qed.

Lemma verify_ingress_at j s work links : triple (at_journal j) (verify_ingress j s work links) (λ _, at_journal j) broken.
Proof.
  unfold verify_ingress. destruct (kind_is v2IngressWork work); [|by intros wl Hw].
  eapply triple_bind; [apply ingressStepForWork_at|]. intros request. at_step. at_step. by intros wl Hw.
Qed.

Lemma compatibility_spec j work recovery (F : list event → Prop) :
  (∀ l, F l → ∃ j, path j0 l j) →
  triple (λ wl, F wl.2) (compatibility_evidence j work recovery) (λ _ wl, F wl.2) broken.
Proof.
  intros HF. apply when_at. 
  assert (∀ A (m : result conv_error A), (∀ e x, m = Err e → e ≠ ConvMarshal x) →
    triple (λ wl, F wl.2) (pure m) (λ _ (wl : W * list event), F wl.2) broken) as Hpure.
  { intros A m Hm. eapply triple_weaken; [apply (triple_pure m (λ wl, F wl.2) broken)|done|by intros ? ? []|done].
    intros e wl He Hw. split; [by apply HF|]. intros x. by apply (Hm e x). }
  eapply triple_bind; [apply Hpure; destruct (pair_Previous _); simpl; congruence|]. intros previous.
  eapply triple_bind; [apply Hpure; intros ? ?; apply map_err_invalid|]. intros payload. by apply call_lift.
Qed.

Lemma verify_step_spec j snapshot i s work recovery links :
  journal_valid j → in_progress j i s → step_Checkpoint s = "applied" → recovery_ok recovery →
  triple (at_journal j) (verify_step j snapshot i s work recovery links) (phase_done i (length (jr_steps j)) "verified") broken.
Proof.
  intros Hj Hi Hc Hr. assert (next_checkpoint s "verified" "verified" (step_Desired s)) as Hn by (right; by right).
  destruct (save_step_spec j i s "verified" "verified" (step_Desired s) recovery snapshot) as (Hsave & Hv & Hp & Hl); [done..|].
  unfold verify_step. at_step. on_test; [by apply phase_ret|].
  eapply triple_bind; [apply verify_ingress_at|]. intros outcome.
  destruct (stopped outcome) eqn:Hstop; [apply phase_ret; [done..|congruence]|].
  eapply triple_bind; [eapply persistEvidence_spec; [done|by eapply list_elem_of_lookup_2, Hi|done|done]|]. intros ?.
  eapply triple_bind; [apply (compatibility_spec j work recovery (λ l, path j0 l j ∧ recorded _ l)); intros ? []; eauto|]. intros ?.
  eapply triple_bind; [exact Hsave|]. intros snapshot'. at_step. by apply phase_ret.
Qed.

(** After a step that did not stop, the steps up to it are verified. *)
Definition steps_done (n len : nat) (st : Outcome * JournalRecord * ProtectedSnapshot) (wl : W * list event) : Prop :=
  journal_valid st.1.2 ∧ length (jr_steps st.1.2) = len ∧ at_journal st.1.2 wl ∧
  (stopped st.1.1 = false → ∀ k t, (k < n)%nat → jr_steps st.1.2 !! k = Some t → verified t).

Lemma valid_checkpoints j s :
  journal_valid j → s ∈ jr_steps j → step_Checkpoint s ∈ ["intent"; "evidence"; "applied"; "verified"].
Proof.
  unfold journal_valid. rewrite record_ok_spec. intros [] Hs.
  assert (journalStepToV2 s ∈ v2_steps (journalRecordToV2 j)) as Hs' by (rewrite wire_steps; by apply list_elem_of_fmap_2).
  destruct (ok_steps _ Hs') as (_ & _ & _ & _ & _ & _ & [H _|e H _ _ _ _|e [H|H] _ _ _ _] & _); simpl in H; rewrite H; set_solver.
Qed.

Lemma convergeStep_spec j snapshot bound links :
  journal_valid j → (∀ k t, (k < bw_index bound)%nat → jr_steps j !! k = Some t → verified t) →
  triple (at_journal j) (convergeStep addr registry MigrationCheckpoint j snapshot bound links)
    (steps_done (S (bw_index bound)) (length (jr_steps j))) broken.
Proof.
  intros Hj Hbefore. set (i := bw_index bound) in *.
  eapply triple_bind; [apply (check_at _ _ j)|]. intros ?.
  eapply triple_bind with (Q := λ step wl, in_progress j i step ∧ at_journal j wl).
  { unfold validateBoundWorkStep.
    eapply triple_bind; [apply (pure_at _ j); intros e x; destruct (jr_steps j !! _); simpl; congruence|]. intros step.
    eapply triple_bind with (Q := λ _ wl, in_progress j i step ∧ at_journal j wl).
    - apply triple_check; [intros wl _ [_ Hw]; split; [by exists j|done]|]. intros wl _ [Hs%expect_Ok Hw]. by split.
    - intros ?. apply triple_given. intros Hi. eapply triple_bind; [apply validateWorkRecipe_at|]. by intros ? wl Hw. }
  intros step. apply triple_given. intros Hi.
  eapply triple_bind; [apply recovery_spec|]. intros [recovery work]. simpl. apply triple_given. intros Hr.
  eapply triple_bind with (Q := λ st wl, journal_valid st.1.1 ∧ in_progress st.1.1 i st.2 ∧ step_Checkpoint st.2 ≠ "intent" ∧
    length (jr_steps st.1.1) = length (jr_steps j) ∧ at_journal st.1.1 wl).
  { case_bool_decide as Hc; [|by intros wl Hw]. eapply triple_weaken; [by apply capture_spec|done| |done].
    intros st wl (? & ? & Hc' & ? & ?). by rewrite Hc'. }
  intros [[j1 snapshot1] s1]. simpl. do 4 (apply triple_given; intros ?).
  rename H into Hj1, H0 into Hi1, H1 into Hc1, H2 into Hl1.
  eapply triple_bind with (Q := λ st wl, let '(o, j2, _, s2) := (st : step_state) in
    journal_valid j2 ∧ in_progress j2 i s2 ∧ length (jr_steps j2) = length (jr_steps j) ∧
    (stopped o = false → step_Checkpoint s2 ∈ ["applied"; "verified"]) ∧ at_journal j2 wl).
  { case_bool_decide as Hc.
    - eapply triple_weaken; [by apply apply_step_spec|done| |done]. intros [[[o j2] ?] s2] wl (? & ? & ? & Hst & ?).
      split_and!; try done; [congruence|]. intros Ho. rewrite (Hst Ho). set_solver.
    - intros wl Hw. split_and!; try done. intros _. pose proof (valid_checkpoints j1 s1 Hj1 (list_elem_of_lookup_2 _ _ _ (proj1 Hi1))).
      set_solver. }
  intros [[[o j2] snapshot2] s2]. simpl. do 4 (apply triple_given; intros ?).
  rename H into Hj2, H0 into Hi2, H1 into Hl2, H2 into Hc2.
  destruct (stopped o) eqn:Ho; [intros wl Hw; unfold steps_done; simpl; rewrite Ho; by split_and!|].
  eapply triple_bind with (Q := phase_done i (length (jr_steps j)) "verified").
  { case_bool_decide as Hc; [rewrite <-Hl2; by apply verify_step_spec|]. intros wl Hw. split_and!; try done. intros _.
    specialize (Hc2 eq_refl). set_solver. }
  intros [[[o3 j3] snapshot3] s3] wl (Hj3 & [Hs3 Hi3] & Hl3 & Hc3 & Hw). split_and!; try done.
  simpl. intros Ho3 k t Hk Ht. destruct (decide (k = i)) as [->|]; [|apply (Hi3 k t); [lia|done]].
  simplify_eq. by apply Hc3.
Qed.

(** *** All steps *)

Lemma converge_steps_spec workByID links m n j snapshot :
  journal_valid j → (∀ k t, (k < n)%nat → jr_steps j !! k = Some t → verified t) →
  triple (at_journal j) (converge_steps addr registry MigrationCheckpoint goal workByID links (seq n m) j snapshot)
    (steps_done (n + m) (length (jr_steps j))) broken.
Proof.
  revert n j snapshot. induction m as [|m IH]; intros n j snapshot Hj Hn; simpl.
  - intros wl Hw. rewrite Nat.add_0_r. by split_and!.
  - destruct (jr_steps j !! n ≫= _) as [work|]; [|intros wl Hw; by split_and!].
    eapply triple_bind with (Q := λ bound wl, bw_index bound = n ∧ at_journal j wl).
    { eapply triple_bind; [apply (pure_at _ j); intros e x; destruct (jr_steps j !! _); simpl; congruence|]. intros step.
      eapply triple_seq; [apply (validateWorkRecipe_at work j step j)|by intros ? []|done|]. by intros ? wl Hw. }
    intros bound. apply triple_given. intros Hb.
    eapply triple_bind; [apply convergeStep_spec; [done|by rewrite Hb]|]. intros [[o j1] snapshot1]. simpl.
    apply triple_given. intros Hj1. simpl in Hj1. apply triple_given. intros Hl1. simpl in Hl1.
    apply triple_fact. intros Hv. simpl in Hv.
    destruct (stopped o) eqn:Ho; [intros wl Hw; split_and!; try done; simpl; congruence|].
    replace (n + S m)%nat with (S n + m)%nat by lia. rewrite <-Hl1. apply IH; [done|]. rewrite <-Hb. by apply Hv.
Qed.

(** *** Activation *)

Lemma advance_spec j snapshot c point :
  journal_valid j → journal_step j (j <| jr_Checkpoint := c |>) →
  triple (at_journal j) (advance_journal j snapshot c point)
    (λ js wl, js.1 = j <| jr_Checkpoint := c |> ∧ at_journal js.1 wl) broken.
Proof.
  intros Hj Hs. eapply triple_bind; [apply (persistJournal_spec (λ l, path j0 l j) j); [done..|]|].
  { intros l Hl. split; [done|]. intros i s e Hi _. by left. }
  intros snapshot'. at_step. by intros wl Hw.
Qed.

Lemma intend_spec j snapshot :
  journal_valid j → all_verified j →
  triple (at_journal j) (intend_activation Releases j snapshot)
    (λ st wl, journal_valid st.1.2 ∧ at_journal st.1.2 wl) broken.
Proof.
  intros Hj Hv. unfold intend_activation. destruct (before_activation j) eqn:Hb; simpl; [|by intros wl Hw].
  assert (journal_step j (j <| jr_Checkpoint := "target-active" |>)) as H1 by (by apply js_same).
  assert (journal_step j (j <| jr_Checkpoint := "activation-intent" |>)) as H2 by (by apply js_intent).
  on_test.
  - eapply triple_bind; [by apply advance_spec|]. intros js wl [Hjs Hw]. simpl. rewrite Hjs in *.
    split; [by eapply journal_step_valid|done].
  - at_step. on_test; [by intros wl Hw|]. eapply triple_bind; [by apply advance_spec|]. intros js wl [Hjs Hw]. simpl.
    rewrite Hjs in *. split; [by eapply journal_step_valid|done].
Qed.

Lemma activate_spec j snapshot m :
  journal_valid j → jr_Checkpoint j = "activation-intent" →
  triple (at_journal j) (activate j snapshot (λ pair, note Activated (m pair)))
    (λ st wl, journal_valid st.1.2 ∧ at_journal st.1.2 wl) broken.
Proof.
  intros Hj Hc. assert (journal_step j (j <| jr_Checkpoint := "target-active" |>)) as H1 by (by apply js_active).
  eapply triple_bind; [apply (call_note Activated _ (λ l, path j0 l j) (λ l, path j0 l j)); [|eauto]|].
  { intros l Hl. by apply path_activated. }
  intros links. on_test; [by intros wl Hw|]. eapply triple_bind; [by apply advance_spec|]. intros js wl [Hjs Hw]. simpl.
  rewrite Hjs in *. split; [by eapply journal_step_valid|done].
Qed.

Lemma finish_spec j snapshot :
  journal_valid j → triple (at_journal j) (finish_journal j snapshot) (λ _ wl, ∃ j', path j0 wl.2 j') broken.
Proof.
  intros Hj. eapply triple_bind with (Q := λ js wl, journal_valid js.1 ∧ at_journal js.1 wl).
  { destruct (bool_decide_reflect (jr_Checkpoint j = "target-active")) as [Hc|Hc]; [|by intros wl Hw].
    assert (journal_step j (j <| jr_Checkpoint := "reconciling" |>)) as H1 by (by apply js_reconcile).
    eapply triple_weaken; [by apply advance_spec|done| |done]. intros js wl [Hjs Hw]. rewrite Hjs in *.
    split; [by eapply journal_step_valid|done]. }
  intros [j1 snapshot1]. simpl. apply triple_given. intros Hj1. simpl in Hj1.
  destruct (bool_decide_reflect (jr_Checkpoint j1 = "reconciling")) as [Hc|Hc].
  2:{ eapply triple_weaken; [apply call_at|done|intros ? wl Hw; by exists j1|done]. }
  assert (journal_step j1 (j1 <| jr_Checkpoint := "complete" |>)) as H2 by (by apply js_complete).
  eapply triple_bind; [apply (call_note Reconciled _ (λ l, path j0 l j1) (λ l, path j0 l j1)); [|eauto]|].
  { intros l Hl. by apply path_reconciled. }
  intros outcome. on_test; [intros wl Hw; by exists j1|]. at_step.
  eapply triple_bind; [by apply advance_spec|]. intros [j2 snapshot2]. simpl. apply triple_given. intros Hj2. simpl in Hj2.
  eapply triple_weaken; [apply call_at|done|intros ? wl Hw; by exists j2|done].
Qed.

Lemma converge_run workByID snapshot :
  journal_valid j0 →
  triple (at_journal j0) (converge_journal addr registry MigrationCheckpoint Releases goal workByID j0 snapshot)
    (λ _ wl, ∃ j, path j0 wl.2 j) broken.
Proof.
  intros Hj. assert (∀ j (wl : W * list event), at_journal j wl → ∃ j, path j0 wl.2 j) as Hex by (intros j wl Hw; by exists j).
  eapply triple_bind with (Q := λ _, at_journal j0); [unfold guardJournalLinks; at_step; by intros wl Hw|]. intros [links outcome].
  on_test; [intros wl Hw; by eapply Hex|].
  eapply triple_bind; [apply converge_steps_spec; [done|lia]|]. intros [[o j1] snapshot1]. simpl.
  apply triple_given. intros Hj1. simpl in Hj1. apply triple_given. intros Hl1. simpl in Hl1. apply triple_fact. intros Hv. simpl in Hv.
  destruct (stopped o) eqn:Ho; [intros wl Hw; by eapply Hex|].
  assert (all_verified j1) as Hall.
  { intros s [k Hk]%list_elem_of_lookup. eapply (Hv eq_refl k); [|done]. rewrite <-Hl1. by eapply lookup_lt_Some. }
  eapply triple_bind with (Q := λ _, at_journal j1).
  { match goal with |- triple _ (match ?x with _ => _ end) _ _ =>
      change x with ((λ (verify : JournalRecord → eff W call_error Outcome) j, lift (verify j)) <$> @verifyPreparedSourceActivation W E) end.
    destruct (@verifyPreparedSourceActivation W E); simpl; [apply call_at|].
    by intros wl Hw. }
  intros outcome1. on_test; [intros wl Hw; by eapply Hex|].
  eapply triple_bind; [by apply intend_spec|]. intros [[o2 j2] snapshot2]. simpl. apply triple_given. intros Hj2. simpl in Hj2.
  on_test; [intros wl Hw; by eapply Hex|]. on_test; [by apply finish_spec|].
  match goal with |- triple _ (match ?x with _ => _ end) _ _ =>
    change x with ((λ (activate : ReleasePair → eff W call_error ReleaseLinks) pair, note Activated (activate pair)) <$> @ActivateLinks W E) end.
  destruct (@ActivateLinks W E) as [m|]; simpl.
  2:{ eapply triple_weaken; [apply call_at|done|intros ? wl Hw; exact (Hex j2 wl Hw)|done]. }
  destruct (bool_decide_reflect (jr_Checkpoint j2 = "activation-intent")) as [Hc|Hc]; [|by apply finish_spec].
  eapply triple_bind; [by apply activate_spec|]. intros [[o3 j3] snapshot3]. simpl. apply triple_given. intros Hj3. simpl in Hj3.
  on_test; [intros wl Hw; by eapply Hex|]. by apply finish_spec.
Qed.
End runs.

(** ** Progress *)

Definition journal_rank (c : string) : nat :=
  if bool_decide (c = "authorized") then 0 else if bool_decide (c = "migrating") then 1
  else if bool_decide (c = "activation-intent") then 2 else if bool_decide (c = "target-active") then 3
  else if bool_decide (c = "reconciling") then 4 else 5.

Definition step_rank (s : JournalStep) : nat :=
  if bool_decide (step_Checkpoint s = "intent") then 0 else if bool_decide (step_Checkpoint s = "evidence") then 1
  else if bool_decide (step_Checkpoint s = "applied") then 2 else 3.

Definition progress (j : JournalRecord) : nat := journal_rank (jr_Checkpoint j) + sum_list (step_rank <$> jr_steps j).

(** What is authorized: everything of a journal but its checkpoints and evidence. *)
Definition authority (j : JournalRecord) : JournalRecord := j <| jr_Checkpoint := "" |> <| jr_Steps := None |>.

Lemma sum_list_insert (l : list nat) i x y : l !! i = Some x → (x < y)%nat → (sum_list l < sum_list (<[i := y]> l))%nat.
Proof. revert i. induction l as [|z l IH]; intros [|i] Hi Hxy; simplify_eq/=; [lia|]. specialize (IH i Hi Hxy). lia. Qed.

Lemma sum_list_le (l : list nat) n : Forall (λ x, x ≤ n)%nat l → (sum_list l ≤ n * length l)%nat.
Proof. induction 1; simpl; nia. Qed.

Lemma steps_rank_refl l : Forall2 (λ s t, step_rank s ≤ step_rank t)%nat l l.
Proof. induction l; constructor; [lia|done]. Qed.

Lemma steps_rank_trans l1 l2 l3 :
  Forall2 (λ s t, step_rank s ≤ step_rank t)%nat l1 l2 → Forall2 (λ s t, step_rank s ≤ step_rank t)%nat l2 l3 →
  Forall2 (λ s t, step_rank s ≤ step_rank t)%nat l1 l3.
Proof. intros H. revert l3. induction H; inversion 1; subst; constructor; [lia|auto]. Qed.

Lemma journal_step_forward j j' :
  journal_valid j → journal_step j j' →
  authority j' = authority j ∧ intent_of <$> jr_steps j' = intent_of <$> jr_steps j ∧
  (progress j < progress j')%nat ∧ (journal_rank (jr_Checkpoint j) ≤ journal_rank (jr_Checkpoint j'))%nat ∧
  Forall2 (λ s t, step_rank s ≤ step_rank t)%nat (jr_steps j) (jr_steps j').
Proof.
  intros Hv Hs.
  assert (∀ c, (journal_rank (jr_Checkpoint j) < journal_rank c)%nat → let j' := j <| jr_Checkpoint := c |> in
    authority j' = authority j ∧ intent_of <$> jr_steps j' = intent_of <$> jr_steps j ∧ (progress j < progress j')%nat ∧
    (journal_rank (jr_Checkpoint j) ≤ journal_rank (jr_Checkpoint j'))%nat ∧
    Forall2 (λ s t, step_rank s ≤ step_rank t)%nat (jr_steps j) (jr_steps j')) as Hmove.
  { intros c Hc j1. split_and!; [done|done| |simpl; lia|exact (steps_rank_refl (jr_steps j))].
    change (progress j1) with (journal_rank c + sum_list (step_rank <$> jr_steps j))%nat. unfold progress. lia. }
  destruct Hs as [j i s c evidence observed recovery j' [Hi _] Hn Hr ->|j Hall Hb|j Hall Hb|j Hc|j Hc|j Hc].
  2,3: apply (Hmove _); apply before_activation_spec in Hb as [-> | ->]; vm_compute; lia.
  2-4: apply (Hmove _); rewrite Hc; vm_compute; lia.
  clear Hmove. set (s' := with_evidence s c _). set (j1 := put_step j i s').
  assert (jr_steps j1 = <[i := s']> (jr_steps j)) as Hst by done.
  assert (step_rank s < step_rank s')%nat as Hlt.
  { unfold step_rank, s'. simpl. destruct Hn as [(-> & -> & _)|[(-> & -> & _)|(-> & -> & _)]]; vm_compute; lia. }
  assert (∀ j2, jr_steps j2 = jr_steps j1 → authority j2 = authority j → (journal_rank (jr_Checkpoint j) ≤ journal_rank (jr_Checkpoint j2))%nat →
    authority j2 = authority j ∧ intent_of <$> jr_steps j2 = intent_of <$> jr_steps j ∧ (progress j < progress j2)%nat ∧
    (journal_rank (jr_Checkpoint j) ≤ journal_rank (jr_Checkpoint j2))%nat ∧
    Forall2 (λ s t, step_rank s ≤ step_rank t)%nat (jr_steps j) (jr_steps j2)) as Hput.
  { intros j2 H2 Ha Hrk. rewrite H2, Hst. split_and!; [done| | |done|].
    - rewrite list_fmap_insert. apply list_insert_id. by rewrite list_lookup_fmap, Hi.
    - unfold progress. rewrite H2, Hst, list_fmap_insert.
      pose proof (sum_list_insert (step_rank <$> jr_steps j) i (step_rank s) (step_rank s')) as Hsum.
      rewrite list_lookup_fmap, Hi in Hsum. specialize (Hsum eq_refl Hlt). lia.
    - apply Forall2_same_length_lookup_2; [by rewrite length_insert|]. intros k t t' Ht.
      rewrite list_lookup_insert_Some. intros [(-> & <- & _)|[_ Ht']]; simplify_eq; lia. }
  case_bool_decide; [|by apply Hput]. unfold migrating. case_bool_decide as Hau; [|by apply Hput].
  apply Hput; [done|done|]. change (jr_Checkpoint j1) with (jr_Checkpoint j) in Hau. rewrite Hau. vm_compute. lia.
Qed.


(** ** What follows for every run *)

Lemma path_valid j0 log j : journal_valid j0 → path j0 log j → journal_valid j.
Proof. intros H0. induction 1; eauto using journal_step_valid. Qed.

(** What is true when an event happens, with the journal that was saved last. *)
Definition permitted (log : list event) (j : JournalRecord) (e : event) : Prop :=
  match e with
  | Saved payload => ∃ j', journal_step j j' ∧ evidence_first log j j' ∧ MarshalJournal j' = Ok payload
  | Recorded _ _ _ _ => True
  | Changed => ∃ i s, in_progress j i s ∧ step_Checkpoint s = "evidence"
  | Activated => jr_Checkpoint j = "activation-intent" ∧ all_verified j
  | Reconciled => jr_Checkpoint j = "reconciling" ∧ all_verified j
  end.

Lemma path_snoc j0 log e j' :
  journal_valid j0 → path j0 (log ++ [e]) j' → ∃ j, path j0 log j ∧ permitted log j e.
Proof.
  intros H0 Hp. inversion Hp as [Hl|l j j1 p Hj Hs He Hm Hl|l j ? ? ? ? Hj Hl|l j i s Hj Hi Hc Hl|l j Hj Hc Hl|l j Hj Hc Hl]; subst.
  - by destruct log.
  - apply app_inj_tail in Hl as [-> <-]. exists j. split; [done|]. by exists j'.
  - apply app_inj_tail in Hl as [-> <-]. by exists j'.
  - apply app_inj_tail in Hl as [-> <-]. exists j'. split; [done|]. by exists i, s.
  - apply app_inj_tail in Hl as [-> <-]. exists j'. split; [done|]. split; [done|].
    apply after_activation; [by eapply path_valid|]. unfold before_activation. by rewrite Hc.
  - apply app_inj_tail in Hl as [-> <-]. exists j'. split; [done|]. split; [done|].
    apply after_activation; [by eapply path_valid|]. unfold before_activation. by rewrite Hc.
Qed.

Lemma path_prefix j0 l1 l2 j' : journal_valid j0 → path j0 (l1 ++ l2) j' → ∃ j, path j0 l1 j.
Proof.
  intros H0. revert j'. induction l2 as [|e l2 IH] using rev_ind; intros j' Hp; [rewrite app_nil_r in Hp; eauto|].
  rewrite app_assoc in Hp. destruct (path_snoc _ _ _ _ H0 Hp) as (j & Hj & _). by eapply IH.
Qed.

(** A run never takes the journal back, and once the links were switched the activation has
    begun. *)
Lemma path_rank j0 log j :
  journal_valid j0 → path j0 log j →
  (journal_rank (jr_Checkpoint j0) ≤ journal_rank (jr_Checkpoint j))%nat ∧
  (Activated ∈ log → (2 ≤ journal_rank (jr_Checkpoint j))%nat).
Proof.
  intros H0. assert (∀ (l : list event) e, Activated ∈ l ++ [e] → Activated ∈ l ∨ Activated = e) as Hin.
  { intros l e. rewrite elem_of_app, list_elem_of_singleton. done. }
  induction 1 as [|log j j' p Hp [IH1 IH2] Hs|log j ? ? ? ? Hp [IH1 IH2]|log j ? ? Hp [IH1 IH2]|log j Hp [IH1 IH2] Hc|log j Hp [IH1 IH2]].
  { split; [lia|]. by intros ?%elem_of_nil. }
  { destruct (journal_step_forward j j') as (_ & _ & _ & Hr & _); [by eapply path_valid|done|]. split; [lia|].
    intros [Hx|[=]]%Hin. specialize (IH2 Hx). lia. }
  4: { split; [done|]. intros [Hx|[=]]%Hin. by apply IH2. }
  3: { split; [done|]. intros _. rewrite Hc. vm_compute. lia. }
  all: split; [done|]; intros [Hx|[=]]%Hin; by apply IH2.
Qed.

Lemma rank_before_activation j : before_activation j = true ↔ (journal_rank (jr_Checkpoint j) ≤ 1)%nat.
Proof.
  rewrite before_activation_spec. unfold journal_rank. repeat case_bool_decide; split; try lia; tauto.
Qed.


(** ** An example: one native step, from the authorization to the end *)
Section samples.

Definition intended_record : JournalRecord :=
  sample_record "authorized" [mkV2Step "s1" "migrate" "yard" "transform" (hex64 "1") (hex64 "2") "intent" None].

(** The state of the resource and of the links. *)
Definition sample_links (active : bool) : ReleaseLinks :=
  if active then mkReleaseLinks "0.12.0-b" (Some "0.11.1-a") else mkReleaseLinks "0.11.1-a" (pair_Previous (jr_Releases intended_record)).

Definition answer {W A} (a : A) : eff W call_error A := λ w, (w, Ok a).

Definition unavailable {W A} : eff W call_error A := λ w, (w, Err (CallFailed "unavailable")).

Definition sample_engine : Engine (bool * bool) := {|
  CompareAndSwapCurrentJournal _ _ := answer tt;
  CreateEvidence _ _ _ _ := answer tt;
  CreateCompatibilityEvidence _ _ := unavailable;
  ReadMigrationCheckpoint := unavailable;
  ReadMigrationLedger := unavailable;
  ParseLedgerV2 _ := Err (CallFailed "unavailable");
  CompareAndSwapMigrationLedger _ _ := unavailable;
  SwapLedger _ _ := unavailable;
  validateRecipe _ _ _ := answer tt;
  pinNativeIdentity _ _ _ := answer tt;
  ensureRecovery _ _ _ := unavailable;
  ensureOwnerRecovery _ _ _ := unavailable;
  workFingerprint work _ := λ w : bool * bool, (w, Ok (if w.1 then int_Desired (w_intent work) else int_Expected (w_intent work)));
  ReconcileNative _ _ _ := λ w : bool * bool, ((true, w.2), Ok tt);
  observeSettingsMigrationWork _ _ := unavailable;
  inspectRegisteredSettings _ _ := unavailable;
  publishSettings _ _ _ _ := unavailable;
  CommitOwner := None;
  ApplyIngress := None;
  VerifyIngress _ := unavailable;
  inject _ := answer tt;
  ObserveLinks := λ w : bool * bool, (w, Ok (sample_links w.2));
  ActivateLinks := Some (λ _ (w : bool * bool), ((w.1, true), Ok (sample_links true)));
  verifyPreparedSourceActivation := None;
  reconcileActivation _ := answer empty_outcome;
  evaluateTerminal j := answer (mkOutcome (jr_Checkpoint j) true "" None "" "" "" "" None []) |}.

#[local] Instance sample_laws : EngineLaws sample_engine.
Proof. split; discriminate. Qed.

Definition sample_work : v2Work :=
  mkWork (mkPlannerStepIntent "s1" "migrate" "yard" "transform" (hex64 "1") (hex64 "2"))
    (mkMigration "migrate" "yard" 1 2 "native" []) nativeWorkRecipe.

Definition sample_run : (bool * bool) * list event * result conv_error Outcome :=
  converge_journal (Engine0 := logging sample_engine) 0 (mkRegistryV2 2 ∅ ∅ [] ∅) false (jr_Releases intended_record)
    (jr_Goal intended_record) {["s1" := sample_work]} intended_record (protectedSnapshotFromPayload "{}") ((false, false), []).

Definition finishing_record (checkpoint : string) : JournalRecord :=
  sample_record "reconciling" [sample_step "s1" "verified" "verified" (hex64 "2")] <| jr_Checkpoint := checkpoint |>.
End samples.





