(* ===== verification/JournalDecode.v ===== *)
(** * Reading durable records

    The decoders of internal/releasetransition/journal/v2/codec.go and records.go: a text of
    bounded size becomes a record, which is validated.  The encoders and the validators are
    in [JournalV2], [Transition] and [Converge]; this file shows that what they write is read
    back, and that it always fits the bound. *)

From S2P Require Import Prelude GoStrings GoSort GoPath Sha256 Names GoJson GoJsonDecode JournalV2 Transition MigrationHistory LedgerV2 Effects ProtectedStore Converge.

#[export] Instance V2Goal_eta : Eta V2Goal := λ g, mkV2Goal (v2g_Target g) (v2g_Direction g).
#[export] Instance V2ReleasePair_eta : Eta V2ReleasePair := λ p,
  mkV2ReleasePair (v2p_From p) (v2p_Previous p) (v2p_Target p).
#[export] Instance V2SourceIngress_eta : Eta V2SourceIngress := λ i,
  mkV2SourceIngress (v2i_SchemaVersion i) (v2i_Kind i) (v2i_SourceRoot i) (v2i_DataHome i) (v2i_BinDir i) (v2i_RC i)
    (v2i_LoginRC i).
#[export] Instance V2Evidence_eta : Eta V2Evidence := λ e,
  mkV2Evidence (v2e_SchemaVersion e) (v2e_Transaction e) (v2e_Releases e) (v2e_Step e) (v2e_Expected e) (v2e_Desired e)
    (v2e_Observed e) (v2e_Recovery e) (v2e_Checkpoint e).
#[export] Instance V2Step_eta : Eta V2Step := λ s,
  mkV2Step (v2s_ID s) (v2s_Migration s) (v2s_Resource s) (v2s_Decision s) (v2s_Expected s) (v2s_Desired s)
    (v2s_Checkpoint s) (v2s_Evidence s).
#[export] Instance V2Record_eta : Eta V2Record := λ r,
  mkV2Record (v2_SchemaVersion r) (v2_Transaction r) (v2_Goal r) (v2_Releases r) (v2_AuthorizationPlan r) (v2_ResumePlan r)
    (v2_ArtifactDigest r) (v2_RegistryDigest r) (v2_CatalogDigest r) (v2_ObservationScope r) (v2_AuthorizationDigest r)
    (v2_IntentDigest r) (v2_SourceIngress r) (v2_Checkpoint r) (v2_Steps r).
#[export] Instance V2Replacement_eta : Eta V2Replacement := λ r,
  mkV2Replacement (v2r_Transaction r) (v2r_Fingerprint r) (v2r_Reason r) (v2r_SourceVersion r).
#[export] Instance V2Archive_eta : Eta V2Archive := λ a,
  mkV2Archive (v2a_SchemaVersion a) (v2a_AuthorizationPlan a) (v2a_Replacement a) (v2a_Journal a).
#[export] Instance CompatibilityEvidence_eta : Eta CompatibilityEvidence := λ c,
  mkCompatibility (ce_SchemaVersion c) (ce_Kind c) (ce_Identity c) (ce_From c) (ce_Previous c).

(** ** The fields of the records *)

Definition zero_goal : V2Goal := mkV2Goal "" "".
Definition zero_pair : V2ReleasePair := mkV2ReleasePair "" None "".
Definition zero_ingress : V2SourceIngress := mkV2SourceIngress 0 "" "" "" "" "" "".
Definition zero_evidence : V2Evidence := mkV2Evidence 0 "" zero_pair "" "" "" "" "" "".
Definition zero_step : V2Step := mkV2Step "" "" "" "" "" "" "" None.
Definition zero_record : V2Record := mkV2Record 0 "" zero_goal zero_pair "" "" "" "" "" "" "" "" None "" None.
Definition zero_replacement : V2Replacement := mkV2Replacement "" "" "" "".
Definition zero_archive : V2Archive := mkV2Archive 0 "" zero_replacement zero_record.

(** internal/releasetransition/journal/v2/record.go:30-33 [Goal] *)
Definition goal_fields : list (string * decoder V2Goal) :=
  [("target", at_field v2g_Target decode_string); ("direction", at_field v2g_Direction decode_string)].

(** internal/releasetransition/journal/v2/record.go:35-39 [ReleasePair] *)
Definition pair_fields : list (string * decoder V2ReleasePair) :=
  [("from", at_field v2p_From decode_string); ("previous", at_field v2p_Previous (decode_ptr "" decode_string));
   ("target", at_field v2p_Target decode_string)].

(** internal/releasetransition/journal/v2/record.go:41-49 [SourceIngress] *)
Definition ingress_fields : list (string * decoder V2SourceIngress) :=
  [("schemaVersion", at_field v2i_SchemaVersion decode_int); ("kind", at_field v2i_Kind decode_string);
   ("sourceRoot", at_field v2i_SourceRoot decode_string); ("dataHome", at_field v2i_DataHome decode_string);
   ("binDir", at_field v2i_BinDir decode_string); ("rc", at_field v2i_RC decode_string);
   ("loginRC", at_field v2i_LoginRC decode_string)].

(** internal/releasetransition/journal/v2/record.go:80-90 [Evidence] *)
Definition evidence_fields : list (string * decoder V2Evidence) :=
  [("schemaVersion", at_field v2e_SchemaVersion decode_int); ("transaction", at_field v2e_Transaction decode_string);
   ("releases", at_field v2e_Releases (decode_struct pair_fields)); ("step", at_field v2e_Step decode_string);
   ("expectedFingerprint", at_field v2e_Expected decode_string); ("desiredFingerprint", at_field v2e_Desired decode_string);
   ("observedFingerprint", at_field v2e_Observed decode_string); ("recoveryFingerprint", at_field v2e_Recovery decode_string);
   ("checkpoint", at_field v2e_Checkpoint decode_string)].

(** internal/releasetransition/journal/v2/record.go:69-78 [Step] *)
Definition step_fields : list (string * decoder V2Step) :=
  [("id", at_field v2s_ID decode_string); ("migration", at_field v2s_Migration decode_string);
   ("resource", at_field v2s_Resource decode_string); ("decision", at_field v2s_Decision decode_string);
   ("expectedFingerprint", at_field v2s_Expected decode_string); ("desiredFingerprint", at_field v2s_Desired decode_string);
   ("checkpoint", at_field v2s_Checkpoint decode_string);
   ("evidence", at_field v2s_Evidence (decode_ptr zero_evidence (decode_struct evidence_fields)))].

(** A record while it is decoded, with the steps behind its slice. *)
Definition record_state : Type := V2Record * list V2Step.

Definition on_record {A} (f : V2Record → A) `{!Setter f} (d : decoder A) : decoder record_state := λ t st,
  r ← at_field f d t st.1; Some (r, st.2).

Definition decode_steps : decoder record_state := λ t st,
  steps ← decode_slice zero_step (decode_struct step_fields) t (mkSlice (v2_Steps st.1) st.2);
  Some (st.1 <| v2_Steps := sl_items steps |>, sl_stale steps).

(** internal/releasetransition/journal/v2/record.go:51-67 [Record] *)
Definition record_fields : list (string * decoder record_state) :=
  [("schemaVersion", on_record v2_SchemaVersion decode_int); ("transaction", on_record v2_Transaction decode_string);
   ("goal", on_record v2_Goal (decode_struct goal_fields)); ("releases", on_record v2_Releases (decode_struct pair_fields));
   ("authorizationPlan", on_record v2_AuthorizationPlan decode_string); ("resumePlan", on_record v2_ResumePlan decode_string);
   ("artifactDigest", on_record v2_ArtifactDigest decode_string); ("registryDigest", on_record v2_RegistryDigest decode_string);
   ("catalogDigest", on_record v2_CatalogDigest decode_string); ("observationScope", on_record v2_ObservationScope decode_string);
   ("authorizationDigest", on_record v2_AuthorizationDigest decode_string); ("intentDigest", on_record v2_IntentDigest decode_string);
   ("sourceIngress", on_record v2_SourceIngress (decode_ptr zero_ingress (decode_struct ingress_fields)));
   ("checkpoint", on_record v2_Checkpoint decode_string); ("steps", decode_steps)].

(** internal/releasetransition/journal/v2/record.go:101-106 [Replacement] *)
Definition replacement_fields : list (string * decoder V2Replacement) :=
  [("transaction", at_field v2r_Transaction decode_string); ("fingerprint", at_field v2r_Fingerprint decode_string);
   ("reason", at_field v2r_Reason decode_string); ("sourceVersion", at_field v2r_SourceVersion decode_string)].

(** An archive while it is decoded, with the steps behind the slice of its journal. *)
Definition archive_state : Type := V2Archive * list V2Step.

Definition on_archive {A} (f : V2Archive → A) `{!Setter f} (d : decoder A) : decoder archive_state := λ t st,
  r ← at_field f d t st.1; Some (r, st.2).

Definition decode_journal : decoder archive_state := λ t st,
  r ← decode_struct record_fields t (v2a_Journal st.1, st.2);
  Some (st.1 <| v2a_Journal := r.1 |>, r.2).

(** internal/releasetransition/journal/v2/record.go:92-99 [Archive] *)
Definition archive_fields : list (string * decoder archive_state) :=
  [("schemaVersion", on_archive v2a_SchemaVersion decode_int); ("authorizationPlan", on_archive v2a_AuthorizationPlan decode_string);
   ("replacement", on_archive v2a_Replacement (decode_struct replacement_fields)); ("journal", decode_journal)].

(** internal/releasetransition/records.go:112-118 [CompatibilityEvidence] *)
Definition compatibility_fields : list (string * decoder CompatibilityEvidence) :=
  [("schemaVersion", at_field ce_SchemaVersion decode_int); ("kind", at_field ce_Kind decode_string);
   ("identity", at_field ce_Identity decode_string); ("from", at_field ce_From decode_string);
   ("previous", at_field ce_Previous decode_string)].

(** ** The decoders *)

(** internal/releasetransition/journal/v2/record.go:22-22 [MaxBytes] *)
Definition MaxBytes : Z := 1048576.

(** internal/releasetransition/records.go:401-418 [decodeBoundedRecord]: the journal decoders
    have the same statements of their own. *)
Definition decodeBoundedRecord {R} (fields : list (string * decoder R)) (zero : R) (payload : string) (maximum : Z) :
    result journal_error R :=
  refuse ((len payload =? 0) || (maximum <? len payload)) (InvalidRecord "record size is outside the allowed bound");;
  expect (decode_text fields zero payload) (InvalidRecord "decode").

(** internal/releasetransition/journal/v2/codec.go:10-31 [Decode] *)
Definition V2Decode (payload : string) : result journal_error V2Record :=
  st ← decodeBoundedRecord record_fields (zero_record, []) payload MaxBytes;
  V2Record_Validate st.1;; Ok st.1.

(** internal/releasetransition/journal/v2/codec.go:48-69 [DecodeArchive] *)
Definition V2DecodeArchive (payload : string) : result journal_error V2Archive :=
  st ← decodeBoundedRecord archive_fields (zero_archive, []) payload MaxBytes;
  V2Archive_Validate st.1;; Ok st.1.

(** internal/releasetransition/journal_codec.go:9-16 [parseJournalV2] *)
Definition parseJournalV2 (payload : string) : result journal_error JournalRecord :=
  wire ← V2Decode payload; Ok (journalRecordFromV2 wire).

(** internal/releasetransition/records.go:288-290 [ParseJournal] *)
Definition ParseJournal (payload : string) : result journal_error JournalRecord := parseJournalV2 payload.

(** internal/releasetransition/journal_codec.go:203-211 [parseSupersededJournalV1] *)
Definition parseSupersededJournalV1 (payload : string) : result journal_error SupersededJournalRecord :=
  wire ← V2DecodeArchive payload; Ok (supersededJournalFromV1 wire).

(** internal/releasetransition/records.go:334-336 [ParseSupersededJournal] *)
Definition ParseSupersededJournal (payload : string) : result journal_error SupersededJournalRecord :=
  parseSupersededJournalV1 payload.

(** internal/releasetransition/records.go:312-321 [ParseEvidence]: its record has the fields of
    the wire record, so that one is decoded and converted. *)
Definition ParseEvidence (payload : string) : result journal_error EvidenceRecord :=
  wire ← decodeBoundedRecord evidence_fields zero_evidence payload MaxBytes;
  record ← expect (evidenceFromJournalV2 (Some wire)) (InvalidRecord "decode");
  EvidenceRecord_validate record;; Ok record.

(** internal/releasetransition/records.go:359-368 [ParseCompatibilityEvidence] *)
Definition ParseCompatibilityEvidence (payload : string) : result journal_error CompatibilityEvidence :=
  record ← decodeBoundedRecord compatibility_fields (mkCompatibility 0 "" "" "" "") payload MaxBytes;
  CompatibilityEvidence_validate record;; Ok record.

(** ** Round trips of the parts *)

#[local] Instance codec_pair : Codec V2ReleasePair_json (decode_struct pair_fields) zero_pair (λ _, True).
Proof. intros [from [previous|] target] _; reflexivity. Qed.

#[local] Instance codec_ingress :
  Codec V2SourceIngress_json (decode_struct ingress_fields) zero_ingress (λ i, v2i_SchemaVersion i = 1).
Proof. intros [v kind root home bin rc login] Hv. simpl in Hv. subst v. reflexivity. Qed.

#[local] Instance codec_evidence :
  Codec V2Evidence_json (decode_struct evidence_fields) zero_evidence (λ e, v2e_SchemaVersion e = SchemaVersion).
Proof.
  intros [v tx [from [previous|] target] step expected desired observed recovery checkpoint] Hv; simpl in Hv; subst v;
    unfold V2Evidence_json, field_omitempty; cbn [v2e_Recovery]; case_bool_decide as Hr; subst; reflexivity.
Qed.

#[local] Instance codec_step :
  Codec V2Step_json (decode_struct step_fields) zero_step
    (λ s, ∀ e, v2s_Evidence s = Some e → v2e_SchemaVersion e = SchemaVersion).
Proof.
  intros [id migration resource decision expected desired checkpoint [e|]] He; [|reflexivity]. simpl in He.
  pose proof (codec (to := V2Evidence_json) e (He e eq_refl)) as Hc. unfold V2Step_json. cbn [v2s_Evidence field_opt].
  assert (∃ l, V2Evidence_json e = JObject l) as [l Hl] by (by eexists). rewrite Hl in *.
  cbn [tree_of] in Hc. unfold step_fields. cbn [field app tree_of List.map]. revert Hc. generalize (List.map (λ '(k, w), (k, tree_of w)) l).
  generalize (decode_struct evidence_fields). intros from members Hc. revert Hc. vm_compute. intros ->. reflexivity.
Qed.

Definition steps_ok (steps : option (list V2Step)) : Prop :=
  ∀ l, steps = Some l → Forall (λ s, ∀ e, v2s_Evidence s = Some e → v2e_SchemaVersion e = SchemaVersion) l.

Lemma steps_codec steps :
  steps_ok steps →
  decode_slice zero_step (decode_struct step_fields) (tree_of (steps_json steps)) (mkSlice None []) = Some (mkSlice steps []).
Proof.
  intros Hs. destruct steps as [l|]; [|done]. specialize (Hs l eq_refl). by apply (decode_slice_codec V2Step_json _ _ _).
Qed.

(** A record as the decoder starts it and as it leaves it. *)
Lemma record_codec j :
  v2_SchemaVersion j = SchemaVersion → (∀ i, v2_SourceIngress j = Some i → v2i_SchemaVersion i = 1) → steps_ok (v2_Steps j) →
  decode_struct record_fields (tree_of (V2Record_json j)) (zero_record, []) = Some (j, []).
Proof.
  destruct j as [v tx [gt gd] [from previous target] ap rp ad rd cd os aud id ingress checkpoint steps]. simpl. intros -> Hi Hs.
  pose proof (steps_codec steps Hs) as Hst. unfold V2Record_json, record_fields, decode_steps.
  cbn [v2_SchemaVersion v2_Transaction v2_Goal v2_Releases v2_AuthorizationPlan v2_ResumePlan v2_ArtifactDigest v2_RegistryDigest
    v2_CatalogDigest v2_ObservationScope v2_AuthorizationDigest v2_IntentDigest v2_SourceIngress v2_Checkpoint v2_Steps].
  change (match steps with Some l => JArray (List.map V2Step_json l) | None => JNull end) with (steps_json steps).
  revert Hst. generalize (decode_slice zero_step (decode_struct step_fields)). generalize (steps_json steps).
  intros vs from_steps Hst. clear Hs. destruct ingress as [i|]; cbn [field_opt].
  - pose proof (codec (to := V2SourceIngress_json) i (Hi i eq_refl)) as Hc. clear Hi.
    assert (∃ l, V2SourceIngress_json i = JObject l) as [l Hl] by (by eexists). rewrite Hl in *. revert Hc Hst.
    cbn [field app tree_of List.map]. generalize (List.map (λ '(k, w), (k, tree_of w)) l). generalize (tree_of vs).
    generalize (decode_struct ingress_fields). intros from_ingress ts members. destruct previous; vm_compute; intros -> ->; reflexivity.
  - clear Hi. revert Hst. cbn [field app tree_of List.map]. generalize (tree_of vs). intros ts.
    destruct previous; vm_compute; intros ->; reflexivity.
Qed.

Lemma journal_record_codec j :
  journal_ok j → decode_struct record_fields (tree_of (V2Record_json j)) (zero_record, []) = Some (j, []).
Proof.
  intros []. apply record_codec; [done| |].
  - intros i Hi. by destruct (ok_ingress i Hi).
  - intros l Hl. apply Forall_forall. intros s Hs e He.
    destruct (ok_steps s) as (_ & _ & _ & _ & _ & _ & Hp & _); [unfold v2_steps; by rewrite Hl|].
    destruct Hp as [_ Hn|e' _ He' Hb|e' _ He' Hb]; [congruence|..]; rewrite He in He'; injection He' as <-; apply Hb.
Qed.

(** ** Sizes *)

(** A character that the encoder copies. *)
Definition plain_char (b : Z) : bool :=
  between 32 b 126 && negb (b =? 34) && negb (b =? 92) && negb (b =? 60) && negb (b =? 62) && negb (b =? 38).

Definition plain (s : string) : Prop := forallb plain_char (bytes s) = true.

Lemma len_nonneg s : 0 ≤ len s.
Proof. unfold len. lia. Qed.

Lemma segments_nonempty s : Forall (λ seg, 1 ≤ len seg.2) (segments s).
Proof.
  apply (segments_ind (λ _ l, Forall (λ seg, 1 ≤ len seg.2) l)); [constructor|]. intros a t r k _ IH. constructor; [|done].
  unfold len. simpl. lia.
Qed.

Lemma quote_segment_max seg : 1 ≤ len seg.2 → len (quote_segment seg) ≤ 6 * len seg.2.
Proof.
  intros H. unfold quote_segment, escape_u, escape_short. repeat case_match; unfold len in *; simpl String.length in *; lia.
Qed.

(** An escape takes six characters at most. *)
Lemma len_quote_max s : len (quote s) ≤ 6 * len s + 2.
Proof.
  rewrite <-(concat_segments_id s) at 2. unfold quote. change (String dquote ?t) with (String dquote "" +:+ t). rewrite !len_app.
  change (len (String dquote "")) with 1. enough (len (quote_body (segments s)) ≤ 6 * len (concat_segments (segments s))) by lia.
  induction (segments_nonempty s) as [|seg l Hs _ IH]; [done|].
  change (quote_body (seg :: l)) with (quote_segment seg +:+ quote_body l).
  change (concat_segments (seg :: l)) with (seg.2 +:+ concat_segments l). rewrite !len_app.
  pose proof (quote_segment_max seg Hs). lia.
Qed.

Lemma quote_segment_plain a : plain_char (byteZ a) = true → quote_segment (byteZ a, String a "") = String a "".
Proof.
  unfold plain_char, quote_segment, bad_segment. intros H. bools. cbn [fst snd].
  rewrite !(proj2 (Z.eqb_neq (byteZ a) _)) by (done || lia || (unfold RuneError; lia)). rewrite (proj2 (Z.ltb_ge _ _)) by lia. done.
Qed.

Lemma len_quote_plain s : plain s → len (quote s) = len s + 2.
Proof.
  intros Hp. unfold quote. rewrite segments_ascii.
  - change (String dquote ?t) with (String dquote "" +:+ t). rewrite !len_app. change (len (String dquote "")) with 1.
    enough (quote_body ((λ a, (byteZ a, String a "")) <$> String.list_ascii_of_string s) = s) as -> by lia.
    induction s as [|a s IH]; [done|]. unfold plain in Hp. cbn [bytes forallb] in Hp. apply andb_true_iff in Hp as [Ha Hs].
    cbn [String.list_ascii_of_string fmap list_fmap quote_body foldr]. rewrite quote_segment_plain by done.
    rewrite string_app_cons. f_equal. by apply IH.
  - apply bytes_ascii. intros b Hb%list_elem_of_In. unfold plain in Hp. rewrite forallb_forall in Hp. apply Hp in Hb.
    unfold plain_char in Hb. bools. lia.
Qed.

(** The members of an object with their separators. *)
Definition members_len (l : list (string * json)) : Z := foldr (λ m n, len (member m) + 1 + n) 0 l.

Lemma members_len_app l k : members_len (l ++ k) = members_len l + members_len k.
Proof. induction l as [|m l IH]; [done|]. cbn [app members_len foldr]. fold (members_len (l ++ k)) (members_len l). lia. Qed.

Lemma len_Join l : len (Join l ",") ≤ foldr (λ s n, len s + 1 + n) 0 l.
Proof.
  induction l as [|x l IH]; [done|]. destruct l as [|y l].
  - cbn [Join foldr]. lia.
  - rewrite Join_cons2, !len_app. change (len ",") with 1. cbn [foldr] in *. lia.
Qed.

Lemma len_object l : len (marshal (JObject l)) ≤ 2 + members_len l.
Proof.
  change (marshal (JObject l)) with ("{" +:+ Join (List.map member l) "," +:+ "}"). rewrite !len_app.
  change (len "{") with 1. change (len "}") with 1. pose proof (len_Join (List.map member l)) as H.
  enough (foldr (λ s n, len s + 1 + n) 0 (List.map member l) = members_len l) by lia.
  clear H. induction l as [|m l IH]; [done|]. cbn [List.map foldr members_len]. fold (members_len l). lia.
Qed.

Lemma len_array {A} (f : A → json) (l : list A) bound :
  (∀ x, x ∈ l → len (marshal (f x)) ≤ bound) → len (marshal (JArray (List.map f l))) ≤ 2 + Z.of_nat (length l) * (bound + 1).
Proof.
  intros H. cbn [marshal]. rewrite !len_app. change (len "[") with 1. change (len "]") with 1.
  pose proof (len_Join (List.map marshal (List.map f l))) as HJ.
  enough (foldr (λ s n, len s + 1 + n) 0 (List.map marshal (List.map f l)) ≤ Z.of_nat (length l) * (bound + 1)) by lia.
  clear HJ. induction l as [|x l IH]; [done|]. cbn [List.map foldr length].
  assert (len (marshal (f x)) ≤ bound) by (apply H; left). assert (∀ y, y ∈ l → len (marshal (f y)) ≤ bound) as Hl by (intros y Hy; apply H; by right).
  specialize (IH Hl). lia.
Qed.

Lemma len_field k v : plain k → members_len (field k v) = len k + 4 + len (marshal v).
Proof. intros Hk. cbn [field members_len foldr member]. rewrite !len_app, len_quote_plain by done. change (len ":") with 1. lia. Qed.

Lemma len_field_opt {A} k (f : A → json) o bound :
  plain k → 0 ≤ bound → (∀ a, o = Some a → len (marshal (f a)) ≤ bound) → members_len (field_opt k f o) ≤ len k + 4 + bound.
Proof.
  intros Hk Hb Ho. destruct o as [a|].
  - change (field_opt k f (Some a)) with (field k (f a)). rewrite len_field by done. specialize (Ho a eq_refl). lia.
  - pose proof (len_nonneg k). cbn. lia.
Qed.

Lemma len_field_omitempty k s bound :
  plain k → plain s → len s ≤ bound → members_len (field_omitempty k s) ≤ len k + 6 + bound.
Proof.
  intros Hk Hp Hs. pose proof (len_nonneg k). pose proof (len_nonneg s). unfold field_omitempty. case_bool_decide; [cbn; lia|].
  change [(k, JString s)] with (field k (JString s)). rewrite len_field by done. cbn [marshal]. rewrite len_quote_plain by done. lia.
Qed.

Lemma len_string s bound : plain s → len s ≤ bound → len (marshal (JString s)) ≤ bound + 2.
Proof. intros Hp Hs. cbn [marshal]. rewrite len_quote_plain by done. lia. Qed.

(** A string of a journal: copied, and not longer than that. *)
Definition short (n : Z) (s : string) : Prop := plain s ∧ len s ≤ n.

Lemma plain_bytes s : (∀ b, b ∈ bytes s → plain_char b = true) → plain s.
Proof. intros H. unfold plain. apply forallb_forall. intros b Hb%list_elem_of_In. by apply H. Qed.

Lemma safe_id_short s : safe_id s → short 128 s.
Proof.
  intros [Hs Hl]. split; [|done]. apply plain_bytes. intros b Hb. apply SafeID_bytes in Hs as (_ & _ & _ & _ & Hs). apply Hs in Hb.
  rewrite safe_id_rune_true in Hb. unfold plain_char. bools. lia.
Qed.

Lemma fingerprint_short s : fingerprint_ok s → short 64 s.
Proof.
  intros Hf. pose proof (fingerprint_utf8 s Hf) as Ha. unfold fingerprint_ok, v2_validFingerprint in Hf. bools.
  split; [|lia]. apply plain_bytes. intros b Hb%list_elem_of_In.
  match goal with H : forallb _ _ = true |- _ => rewrite runes_ascii, forallb_forall in H by done; apply H in Hb end.
  unfold hex_rune, plain_char in *. bools. lia.
Qed.

Lemma plain_app s t : plain (s +:+ t) ↔ plain s ∧ plain t.
Proof. unfold plain. by rewrite bytes_app, forallb_app, andb_true_iff. Qed.

Lemma token_short s p : v2_validToken s p = true → plain p → short (64 + len p) s.
Proof.
  unfold v2_validToken. intros [[r ->]%HasPrefix_spec Hf]%andb_true_iff Hp. unfold TrimPrefix in Hf.
  rewrite HasPrefix_app, string_drop_app in Hf. destruct (fingerprint_short r Hf) as [Hr Hl]. split; [by apply plain_app|].
  rewrite len_app. lia.
Qed.

Lemma elem_short n s l : s ∈ l → forallb (λ t, forallb plain_char (bytes t) && (len t <=? n)) l = true → short n s.
Proof. intros Hs H. rewrite forallb_forall in H. apply list_elem_of_In, H in Hs. unfold short, plain. bools. done. Qed.

Lemma path_short s : path_ok s → len s ≤ 4096.
Proof. unfold path_ok, v2_path_bad. intros H. bools. lia. Qed.

Lemma len_field_short k s n : plain k → short n s → members_len (field k (JString s)) ≤ len k + 6 + n.
Proof. intros Hk [Hp Hs]. rewrite len_field by done. pose proof (len_string s n Hp Hs). lia. Qed.

Lemma len_field_max k v n : plain k → len (marshal v) ≤ n → members_len (field k v) ≤ len k + 4 + n.
Proof. intros Hk Hv. rewrite len_field by done. lia. Qed.

(** Replaces the length of a member by a variable with the bound that the hypotheses give. *)
Ltac bound_by B k :=
  let n := eval vm_compute in (len k) in change (len k) with n in B; revert B;
  match goal with |- ?x ≤ _ → _ => generalize x; intros ? ? end.

Ltac size_field :=
  match goal with
  | H : short ?n ?s |- context [members_len (field ?k (JString ?s))] =>
      let B := fresh "B" in pose proof (len_field_short k s n eq_refl H) as B; bound_by B k
  | H : len (marshal ?v) ≤ ?n |- context [members_len (field ?k ?v)] =>
      let B := fresh "B" in pose proof (len_field_max k v n eq_refl H) as B; bound_by B k
  | |- context [members_len (field ?k (JInt ?z))] =>
      let n := eval vm_compute in (members_len (field k (JInt z))) in change (members_len (field k (JInt z))) with n
  end.

Ltac size_object := etransitivity; [apply len_object|]; rewrite !members_len_app; repeat size_field.

Lemma pair_size p : pair_ok p → len (marshal (V2ReleasePair_json p)) ≤ 422.
Proof.
  intros (Hf%safe_id_short & Ht%safe_id_short & Hp). unfold V2ReleasePair_json. size_object.
  assert (members_len (field_opt "previous" JString (v2p_Previous p)) ≤ 8 + 4 + 130); [|lia].
  apply (len_field_opt "previous"); [done|lia|]. intros a Ha. destruct (Hp a Ha) as [[Hpl Hl]%safe_id_short _].
  by apply (len_string a 128).
Qed.

Lemma evidence_size e :
  v2e_SchemaVersion e = SchemaVersion → safe_id (v2e_Transaction e) → pair_ok (v2e_Releases e) → safe_id (v2e_Step e) →
  fingerprint_ok (v2e_Expected e) → fingerprint_ok (v2e_Desired e) → fingerprint_ok (v2e_Observed e) →
  v2e_Recovery e = "" ∨ fingerprint_ok (v2e_Recovery e) → short 8 (v2e_Checkpoint e) → len (marshal (V2Evidence_json e)) ≤ 1200.
Proof.
  intros Hv Ht%safe_id_short Hp%pair_size Hid%safe_id_short He%fingerprint_short Hd%fingerprint_short Ho%fingerprint_short Hr Hc.
  unfold V2Evidence_json. rewrite Hv. size_object.
  assert (members_len (field_omitempty "recoveryFingerprint" (v2e_Recovery e)) ≤ 19 + 6 + 64); [|lia].
  apply (len_field_omitempty "recoveryFingerprint"); [done|..]; destruct Hr as [->|[? ?]%fingerprint_short]; done.
Qed.

Lemma bound_evidence_size j s e :
  pair_ok (v2_Releases j) → safe_id (v2_Transaction j) → safe_id (v2s_ID s) →
  fingerprint_ok (v2s_Expected s) → fingerprint_ok (v2s_Desired s) → evidence_binds j s e →
  short 8 (v2e_Checkpoint e) → len (marshal (V2Evidence_json e)) ≤ 1200.
Proof. intros ? ? ? ? ? (? & B2 & B3 & B4 & B5 & B6 & ? & ?) ?. apply evidence_size; congruence. Qed.

Lemma step_size j s :
  pair_ok (v2_Releases j) → safe_id (v2_Transaction j) → step_ok j s → len (marshal (V2Step_json s)) ≤ 2200.
Proof.
  intros Hp Ht (H1 & H2 & H3 & H4 & H5 & H6 & Hprog & _).
  assert (short 8 (v2s_Checkpoint s) ∧ ∀ e, v2s_Evidence s = Some e → len (marshal (V2Evidence_json e)) ≤ 1200) as [Hc He].
  { destruct Hprog as [-> ->|e -> -> Hb Hc _|e Hs -> Hb Hc _].
    - split; [split; [reflexivity|unfold len; simpl; lia]|done].
    - split; [split; [reflexivity|unfold len; simpl; lia]|]. intros ? [= <-]. eapply bound_evidence_size; try done. rewrite Hc.
      split; [reflexivity|unfold len; simpl; lia].
    - assert (short 8 (v2s_Checkpoint s)) as Hv by (destruct Hs as [->| ->]; (split; [reflexivity|unfold len; simpl; lia])).
      split; [done|]. intros ? [= <-]. eapply bound_evidence_size; try done. by rewrite Hc. }
  apply safe_id_short in H1, H2, H3. apply fingerprint_short in H5, H6.
  assert (short 12 (v2s_Decision s)) as Hdec by (by apply (elem_short 12 _ decisions)).
  unfold V2Step_json. size_object.
  assert (members_len (field_opt "evidence" V2Evidence_json (v2s_Evidence s)) ≤ 8 + 4 + 1200); [|lia].
  apply (len_field_opt "evidence"); [done|lia|done].
Qed.

Lemma ingress_size i : ingress_ok i → len (marshal (V2SourceIngress_json i)) ≤ 123100.
Proof.
  intros (Hv & Hk & H1%path_short & H2%path_short & H3%path_short & H4%path_short & H5%path_short).
  assert (∀ s, len s ≤ 4096 → len (marshal (JString s)) ≤ 24578) as Hmax.
  { intros s Hs. cbn [marshal]. pose proof (len_quote_max s). lia. }
  apply Hmax in H1, H2, H3, H4, H5. unfold V2SourceIngress_json. rewrite Hv, Hk.
  assert (short 16 "pre-go-source-v1") by (split; [reflexivity|unfold len; simpl; lia]). size_object. lia.
Qed.

(** Every valid journal is shorter than the decoders accept, whatever its paths. *)
Lemma journal_size j : journal_ok j → len (marshal (V2Record_json j)) ≤ 700000.
Proof.
  intros []. destruct ok_goal as [Hg1%safe_id_short Hg2], ok_releases as [Hr1 Hr2], ok_plans as (Hp1 & Hp2 & _).
  destruct ok_digests as (D1%fingerprint_short & D2%fingerprint_short & D3%fingerprint_short & D4%fingerprint_short & D5%fingerprint_short).
  apply token_short in Hp1; [|done]. apply token_short in Hp2; [|done].
  change (64 + len "plan-v1-") with 72 in Hp1. change (64 + len "resume-v1-") with 74 in Hp2.
  assert (short 64 (v2_IntentDigest j)) by (rewrite ok_intent; apply fingerprint_short, digest_fingerprint_ok).
  assert (short 17 (v2_Checkpoint j)) by (unfold v2_validJournalCheckpoint in ok_checkpoint; apply bool_decide_eq_true in ok_checkpoint; by eapply elem_short).
  assert (short 17 (v2g_Direction (v2_Goal j))) by (by eapply elem_short).
  pose proof (pair_size _ Hr1) as Hpair. pose proof (safe_id_short _ ok_transaction) as Htx.
  assert (len (marshal (V2Goal_json (v2_Goal j))) ≤ 200) by (unfold V2Goal_json; size_object; lia).
  assert (len (marshal (steps_json (v2_Steps j))) ≤ 2 + 256 * 2201) as Hsteps.
  { unfold steps_json, v2_steps in *. destruct (v2_Steps j) as [l|]; [|unfold len; simpl; lia].
    etransitivity; [apply (len_array _ l 2200)|]; [by intros s Hs; eapply step_size; [..|apply ok_steps]|].
    unfold MaxSteps in ok_bound. simpl in ok_bound. lia. }
  unfold V2Record_json. change (match v2_Steps j with Some l => JArray (List.map V2Step_json l) | None => JNull end) with (steps_json (v2_Steps j)).
  rewrite ok_schema. size_object.
  assert (members_len (field_opt "sourceIngress" V2SourceIngress_json (v2_SourceIngress j)) ≤ 13 + 4 + 123100); [|lia].
  apply (len_field_opt "sourceIngress"); [done|lia|]. intros i Hi. by apply ingress_size, ok_ingress.
Qed.

(** ** Depths *)

Definition members_depth (l : list (string * json)) : Z := foldr (λ '(_, w) d, Z.max (json_depth w) d) 0 l.

Lemma object_depth l : json_depth (JObject l) = 1 + members_depth l.
Proof. done. Qed.

Lemma members_depth_app l k : members_depth (l ++ k) = Z.max (members_depth l) (members_depth k).
Proof.
  assert (∀ l, 0 ≤ members_depth l) as H0 by (clear; induction l as [|[] l IH]; simpl; lia).
  pose proof (H0 k) as Hk. induction l as [|[s w] l IH].
  - change (members_depth k = Z.max 0 (members_depth k)). lia.
  - change (Z.max (json_depth w) (members_depth (l ++ k)) = Z.max (Z.max (json_depth w) (members_depth l)) (members_depth k)). lia.
Qed.

Lemma field_depth k v : members_depth (field k v) = Z.max (json_depth v) 0.
Proof. done. Qed.

Lemma field_opt_depth {A} k (f : A → json) o n :
  0 ≤ n → (∀ a, json_depth (f a) ≤ n) → members_depth (field_opt k f o) ≤ n.
Proof. intros Hn H. destruct o as [a|]; cbn [field_opt members_depth foldr]; [specialize (H a)|]; lia. Qed.

Lemma field_omitempty_depth k s : members_depth (field_omitempty k s) ≤ 0.
Proof. unfold field_omitempty. by case_bool_decide. Qed.

Ltac depth_object := rewrite object_depth, !members_depth_app, !field_depth; cbn [json_depth].

Lemma pair_depth p : json_depth (V2ReleasePair_json p) ≤ 1.
Proof. by destruct p as [from [previous|] target]. Qed.

Lemma evidence_depth e : json_depth (V2Evidence_json e) ≤ 2.
Proof.
  unfold V2Evidence_json. depth_object. pose proof (pair_depth (v2e_Releases e)).
  pose proof (field_omitempty_depth "recoveryFingerprint" (v2e_Recovery e)). lia.
Qed.

Lemma step_depth s : json_depth (V2Step_json s) ≤ 3.
Proof.
  unfold V2Step_json. depth_object.
  pose proof (field_opt_depth "evidence" V2Evidence_json (v2s_Evidence s) 2 ltac:(lia) evidence_depth). lia.
Qed.

Lemma steps_depth steps : json_depth (steps_json steps) ≤ 4.
Proof.
  destruct steps as [l|]; [|done]. cbn [steps_json json_depth]. enough (foldr (λ w d, Z.max (json_depth w) d) 0 (List.map V2Step_json l) ≤ 3) by lia.
  induction l as [|s l IH]; [done|]. cbn [List.map foldr]. pose proof (step_depth s). lia.
Qed.

Lemma record_depth j : json_depth (V2Record_json j) ≤ 5.
Proof.
  unfold V2Record_json. change (match v2_Steps j with Some l => JArray (List.map V2Step_json l) | None => JNull end) with (steps_json (v2_Steps j)).
  depth_object. pose proof (pair_depth (v2_Releases j)). pose proof (steps_depth (v2_Steps j)).
  change (json_depth (V2Goal_json (v2_Goal j))) with 1.
  pose proof (field_opt_depth "sourceIngress" V2SourceIngress_json (v2_SourceIngress j) 1 ltac:(lia) ltac:(done)). lia.
Qed.

(** ** Reading back *)

(** A text of an encoded record, with or without the newline that ends a durable record. *)
Definition line_end (s : string) : Prop := s = "" ∨ s = String "010" "".

Lemma decodeBoundedRecord_marshal {R} (fields : list (string * decoder R)) zero v r maximum space :
  json_valid v = true → json_depth v ≤ max_depth → line_end space → len (marshal v) < maximum →
  decode_struct fields (tree_of v) zero = Some r →
  decodeBoundedRecord fields zero (marshal v +:+ space) maximum = Ok r.
Proof.
  intros Hv Hd Hs Hl Hr. unfold decodeBoundedRecord, decode_text.
  rewrite (read_text_marshal v space) by (done || by destruct Hs as [->| ->]). cbn [mbind option_bind]. rewrite Hr.
  destruct (marshal_head v) as (c & t & Hm & _). assert (0 < len (marshal v)) by (rewrite Hm; unfold len; simpl; lia).
  rewrite len_app. assert (0 ≤ len space ≤ 1) by (destruct Hs as [->| ->]; unfold len; simpl; lia).
  rewrite (proj2 (Z.eqb_neq _ _)) by lia. rewrite (proj2 (Z.ltb_ge _ _)) by lia. done.
Qed.

Lemma decode_encode j space : journal_ok j → utf8_paths j → line_end space → V2Decode (marshal (V2Record_json j) +:+ space) = Ok j.
Proof.
  intros Hj Hu Hs. unfold V2Decode.
  rewrite (decodeBoundedRecord_marshal record_fields (zero_record, []) (V2Record_json j) (j, []) MaxBytes space).
  - cbn [mbind result_bind fst]. apply journal_ok_spec in Hj. by rewrite Hj.
  - by apply journal_utf8.
  - pose proof (record_depth j). unfold max_depth. lia.
  - done.
  - pose proof (journal_size j Hj). unfold MaxBytes. lia.
  - by apply journal_record_codec.
Qed.

(** ** What was read can be written *)

Definition ingress_utf8 (i : V2SourceIngress) : Prop :=
  ValidString (v2i_SourceRoot i) = true ∧ ValidString (v2i_DataHome i) = true ∧ ValidString (v2i_BinDir i) = true ∧
  ValidString (v2i_RC i) = true ∧ ValidString (v2i_LoginRC i) = true.

Lemma at_field_inv {R A} (f : R → A) `{!Setter f} d t r r' :
  at_field f d t r = Some r' → ∃ a, d t (f r) = Some a ∧ r' = set_field f a r.
Proof. unfold at_field. destruct (d t (f r)) as [a|]; [|done]. intros [= <-]. by exists a. Qed.

Lemma ingress_keeps : keeps_field ingress_utf8 (decode_struct ingress_fields).
Proof.
  apply decode_struct_keeps. repeat (apply Forall_cons_2); [..|constructor];
    intros t r r' Ht (H1 & H2 & H3 & H4 & H5) (a & Ha & ->)%at_field_inv; unfold ingress_utf8; cbn; split_and!; try done;
    (eapply (decode_string_valid t); [exact Ht| |exact Ha]; done).
Qed.

Lemma record_keeps : keeps_field (λ st : record_state, utf8_paths st.1) (decode_struct record_fields).
Proof.
  apply decode_struct_keeps. repeat (apply Forall_cons_2); [..|constructor]; intros t [r stale] r' Ht Hr; cbn [snd];
    try (unfold on_record; cbn [fst snd]; destruct (at_field _ _ _ _) as [x|] eqn:Hx; [|done]; cbn [mbind option_bind]; intros [= <-];
         apply at_field_inv in Hx as (a & Ha & ->); cbn [fst]).
  13: { unfold utf8_paths in *. cbn. intros i ->. unfold decode_ptr in Ha. destruct t as [| | | | |members]; try done.
    cbn [tree_valid] in Ht. destruct (decode_struct ingress_fields (TObject members) _) as [i'|] eqn:Hi; [|done].
    injection Ha as ->. eapply ingress_keeps; [|..|exact Hi]; [done|].
    cbn [fst] in *. destruct (v2_SourceIngress r) as [i0|]; [exact (Hr i0 eq_refl)|done]. }
  14: { unfold decode_steps. destruct (decode_slice _ _ _ _) as [x|]; [|done]. cbn [mbind option_bind]. intros [= <-]. exact Hr. }
  all: exact Hr.
Qed.

(** A decoded journal is valid and its strings are valid UTF-8. *)
Lemma decode_ok payload j : V2Decode payload = Ok j → journal_ok j ∧ utf8_paths j.
Proof.
  unfold V2Decode, decodeBoundedRecord. intros H. ok_inv.
  match goal with H : decode_text _ _ _ = Some ?st |- _ => rename H into Hd; rename st into st' end.
  unfold decode_text in Hd. destruct (read_text payload) as [t|] eqn:Ht; [|done]. cbn [mbind option_bind] in Hd.
  subst j. split; [by apply journal_ok_spec|]. apply (record_keeps t (zero_record, []) st'); [by eapply read_text_valid|done|done].
Qed.

(** ** Records *)

Lemma evidenceFromTo e : evidenceFromJournalV2 (evidenceToJournalV2 e) = e.
Proof. destruct e as [[? ? [] ? ? ? ? ? ?]|]; done. Qed.

Lemma journalStepFromTo s : journalStepFromV2 (journalStepToV2 s) = s.
Proof. destruct s. unfold journalStepFromV2, journalStepToV2. cbn. by rewrite evidenceFromTo. Qed.

Lemma journalRecordFromTo r : journalRecordFromV2 (journalRecordToV2 r) = r.
Proof.
  destruct r as [v tx [] [] ap rp ad rd cd os aud id ingress cp steps]. unfold journalRecordFromV2, journalRecordToV2. cbn. f_equal.
  - by destruct ingress as [[]|].
  - destruct steps as [l|]; [|done]. f_equal. rewrite <-list_fmap_compose. induction l as [|s l IH]; [done|].
    cbn. f_equal; [apply journalStepFromTo|exact IH].
Qed.

Lemma journalRecordToFrom w : journalRecordToV2 (journalRecordFromV2 w) = w.
Proof.
  destruct w as [v tx [] [] ap rp ad rd cd os aud id ingress cp steps]. unfold journalRecordFromV2, journalRecordToV2. cbn. f_equal.
  - by destruct ingress as [[]|].
  - destruct steps as [l|]; [|done]. f_equal. rewrite <-list_fmap_compose. induction l as [|s l IH]; [done|].
    cbn. f_equal; [|exact IH]. by destruct s as [? ? ? ? ? ? ? [[? ? [] ? ? ? ? ? ?]|]].
Qed.

(** The ingress paths of a journal are valid UTF-8. *)
Definition utf8_journal (r : JournalRecord) : Prop := utf8_paths (journalRecordToV2 r).

Lemma MarshalJournal_Ok r payload :
  MarshalJournal r = Ok payload ↔ journal_ok (journalRecordToV2 r) ∧ payload = marshal (V2Record_json (journalRecordToV2 r)) +:+ String "010" "".
Proof.
  unfold MarshalJournal, marshalJournalV2JSON, V2Encode. rewrite <-journal_ok_spec. split.
  - intros H. ok_inv. split; [done|congruence].
  - intros [-> ->]. done.
Qed.

Lemma ParseJournal_Marshal r payload :
  utf8_journal r → MarshalJournal r = Ok payload → ParseJournal payload = Ok r.
Proof.
  intros Hu [Hj ->]%MarshalJournal_Ok. unfold ParseJournal, parseJournalV2. rewrite decode_encode by (done || by right).
  cbn [mbind result_bind]. by rewrite journalRecordFromTo.
Qed.

Lemma ParseJournal_ok payload r :
  ParseJournal payload = Ok r → JournalRecord_Validate r = Ok tt ∧ utf8_journal r ∧ len payload ≤ MaxBytes.
Proof.
  unfold ParseJournal, parseJournalV2. intros H. ok_inv.
  match goal with H : V2Decode _ = Ok ?w |- _ => destruct (decode_ok _ w H) as [Hj Hu]; rename H into Hd end.
  subst r. rewrite record_ok_spec. unfold utf8_journal. rewrite journalRecordToFrom. split_and!; [done|done|].
  unfold V2Decode, decodeBoundedRecord in Hd. ok_inv. bools. lia.
Qed.

(** What was read can be written: it is valid, so that the encoder takes it, and its text is
    read back as the same journal. *)
Theorem ParseJournal_rewrite payload r :
  ParseJournal payload = Ok r →
  ∃ canonical, MarshalJournal r = Ok canonical ∧ ParseJournal canonical = Ok r ∧ len canonical ≤ MaxBytes.
Proof.
  intros (Hv & Hu & _)%ParseJournal_ok. apply record_ok_spec in Hv.
  assert (MarshalJournal r = Ok (marshal (V2Record_json (journalRecordToV2 r)) +:+ String "010" "")) as Hm by (by apply MarshalJournal_Ok).
  eexists. split; [exact Hm|]. split; [by apply ParseJournal_Marshal|]. rewrite len_app.
  pose proof (journal_size _ Hv). change (len (String "010" "")) with 1. unfold MaxBytes. lia.
Qed.

Lemma ParseJournal_rewrite_witness :
  ∃ canonical, MarshalJournal (journalRecordFromV2 migrating_journal) = Ok canonical ∧
    ParseJournal canonical = Ok (journalRecordFromV2 migrating_journal) ∧ len canonical ≤ MaxBytes.
Proof.
  apply (ParseJournal_rewrite (marshal (V2Record_json migrating_journal) +:+ String "010" "")).
  apply ParseJournal_Marshal; [by intros i [=]|vm_compute; reflexivity].
Defined.

(** C16: Saving and loading a journal gives it back.  Every journal that can be written fits the
    size that the store and the decoder accept, and when its ingress paths are valid UTF-8,
    decoding gives the same journal. *)
Theorem journal_roundtrip r payload :
  MarshalJournal r = Ok payload →
  validateProtectedPayload payload = Ok tt ∧ (utf8_journal r → ParseJournal payload = Ok r).
Proof.
  intros H. split; [|intros Hu; by apply ParseJournal_Marshal]. apply MarshalJournal_Ok in H as [Hj ->].
  unfold validateProtectedPayload. change MaxProtectedRecordBytes with MaxBytes. rewrite len_app.
  pose proof (journal_size _ Hj). pose proof (len_nonneg (marshal (V2Record_json (journalRecordToV2 r)))).
  change (len (String "010" "")) with 1. unfold MaxBytes. rewrite (proj2 (Z.eqb_neq _ _)) by lia. rewrite (proj2 (Z.ltb_ge _ _)) by lia. done.
Qed.

Lemma journal_roundtrip_witness :
  validateProtectedPayload (marshal (V2Record_json migrating_journal) +:+ String "010" "") = Ok tt ∧
  ParseJournal (marshal (V2Record_json migrating_journal) +:+ String "010" "") = Ok (journalRecordFromV2 migrating_journal).
Proof.
  destruct (journal_roundtrip (journalRecordFromV2 migrating_journal) (marshal (V2Record_json migrating_journal) +:+ String "010" ""))
    as [H1 H2]; [vm_compute; reflexivity|]. split; [exact H1|]. apply H2. by intros i [=].
Defined.

(** Evidence that was written is read back, for every record. *)
Theorem evidence_roundtrip e payload : MarshalEvidence e = Ok payload → ParseEvidence payload = Ok e.
Proof.
  unfold MarshalEvidence. intros H. ok_inv. subst payload. rename select (EvidenceRecord_validate e = Ok _) into Hv.
  set (w := mkV2Evidence (ev_SchemaVersion e) (ev_Transaction e) (releasePairToJournalV2 (ev_Releases e)) (ev_Step e) (ev_Expected e)
    (ev_Desired e) (ev_Observed e) (ev_Recovery e) (ev_Checkpoint e)).
  change (evidenceToJournalV2 (Some e)) with (Some w).
  pose proof Hv as (W1 & W2 & W3 & W4 & W5 & W6 & W7 & W8 & W9)%(EvidenceRecord_validate_Ok e w _ eq_refl)%V2Evidence_validate_Ok.
  assert (short 8 (v2e_Checkpoint w)) as Hc.
  { apply (elem_short 8 _ ["captured"; "applied"; "verified"]); [|reflexivity]. set_solver. }
  unfold ParseEvidence. rewrite (decodeBoundedRecord_marshal evidence_fields zero_evidence (V2Evidence_json w) w MaxBytes).
  - cbn [mbind result_bind]. rewrite (evidenceFromTo (Some e) : evidenceFromJournalV2 (Some w) = Some e).
    cbn [mbind result_bind expect]. by rewrite Hv.
  - unfold V2Evidence_json. json_fields; try utf8; [by apply pair_utf8| |].
    + apply json_valid_omitempty; [done|]. destruct W8; [by left|right; utf8].
    + destruct W9 as [[-> _]|[[-> | ->] _]]; done.
  - pose proof (evidence_depth w). unfold max_depth. lia.
  - by right.
  - eapply Z.le_lt_trans; [by apply evidence_size|]. unfold MaxBytes. lia.
  - by apply codec_evidence.
Qed.

Lemma evidence_roundtrip_witness :
  let e := mkEvidenceRecord 2 "tx-1" (mkReleasePair "0.11.1-a" None "0.12.0-b") "s1" (hex64 "1") (hex64 "2") (hex64 "1") "" "captured" in
  ∃ payload, MarshalEvidence e = Ok payload ∧ ParseEvidence payload = Ok e.
Proof. intros e. eexists. split; [reflexivity|]. apply evidence_roundtrip. reflexivity. Defined.

(** The decoder is strict about fields, not about how a record is written: an unknown field is
    refused; case, order, space, repetition and null are not. *)
Example decode_examples :
  let q s := String dquote (s +:+ String dquote "") in
  let goal text := g ← decode_text goal_fields zero_goal text; Some (v2g_Target g, v2g_Direction g) in
  goal ("{" +:+ q "TARGET" +:+ " : " +:+ q "a" +:+ " }") = Some ("a", "") ∧
  goal ("{" +:+ q "target" +:+ ":" +:+ q "a" +:+ "," +:+ q "target" +:+ ":" +:+ q "b" +:+ "}") = Some ("b", "") ∧
  goal ("{" +:+ q "target" +:+ ":null}") = Some ("", "") ∧
  goal ("{" +:+ q "other" +:+ ":null}") = None ∧
  goal "{} {}" = None ∧
  goal ("{" +:+ q "target" +:+ ":1}") = None.
Proof. vm_compute. done. Qed.
