(* ===== verification/JournalDurability.v ===== *)
(** * The journal survives

    The store ([ProtectedStore], [StoreProofs]), the text of a journal ([JournalDecode]) and
    the order of convergence ([ConvergeProofs]) together: whatever call fails and whenever the
    machine crashes, the journal that the next run finds is one that the journal machine
    reaches from the first. *)

From S2P Require Import Prelude GoStrings GoSort GoPath Sha256 Names GoJson GoJsonDecode JournalV2 Transition MigrationHistory LedgerV2 Effects ProtectedStore StoreProofs Converge ConvergeProofs JournalDecode.

(** internal/releasetransition/store_posix.go:58-60 [ReadCurrentJournal] *)
Definition ReadCurrentJournal : io ProtectedSnapshot := readRecord "journal.json".

(** Whether or not the first call succeeds, the second follows. *)
Definition ignoring (m next : io unit) : io unit := λ d, next (m d).1.

Section current_journal.

(** What is kept of a transition that is complete when the next one begins. *)
Context (recordCompletedMigrationOwner RecordCompletedRecovery : JournalRecord → io unit).

(** The journals on both sides of a replacement, when the first is complete and belongs to
    another transaction. *)
Definition completed_before (expected : ProtectedSnapshot) (payload : string) : option JournalRecord :=
  match ParseJournal (ps_Payload expected), ParseJournal payload with
  | Ok before, Ok after =>
      if ps_Exists expected && bool_decide (jr_Checkpoint before = "complete") &&
         bool_decide (jr_Transaction before ≠ jr_Transaction after) then Some before else None
  | _, _ => None
  end.

(** internal/releasetransition/store_posix.go:62-91 [CompareAndSwapCurrentJournal]: a failure to
    record the recovery is reported later and does not stop the replacement. *)
Definition Store_CompareAndSwapCurrentJournal (expected : ProtectedSnapshot) (payload : string) : io unit :=
  match completed_before expected payload with
  | Some before =>
      current ← ReadCurrentJournal;
      fail_if (negb (sameProtectedSnapshot current expected)) StoreStale;;
      recordCompletedMigrationOwner before;;
      ignoring (RecordCompletedRecovery before) (compareAndSwap "journal.json" expected payload)
  | None => compareAndSwap "journal.json" expected payload
  end.

(** ** Saving journals *)

(** What happens to the store while a transition converges: the next journal is saved over the
    one that is there, other records are replaced and created, calls fail, the machine
    crashes. *)
Inductive saving (swapped : string → Prop) (created : string → string → Prop) : disk → disk → Prop :=
| saving_journal d d' r text j j' payload :
    record d "journal.json" = Some text → ParseJournal text = Ok j → journal_step j j' → MarshalJournal j' = Ok payload →
    Store_CompareAndSwapCurrentJournal (snapshot_of (Some text)) payload d = (d', r) → saving swapped created d d'
| saving_other d d' : store_step swapped created d d' → saving swapped created d d'.

(** The record holds a journal that the machine reaches from [j0]. *)
Definition holds_journal (j0 : JournalRecord) (c : option string) : Prop :=
  ∃ text j, c = Some text ∧ ParseJournal text = Ok j ∧ rtc journal_step j0 j.

Definition journal_allowed (j0 : JournalRecord) (n : string) (c : option string) : Prop :=
  n = "journal.json" → holds_journal j0 c.

Lemma step_utf8_journal j j' : journal_valid j → journal_step j j' → utf8_journal j → utf8_journal j'.
Proof.
  intros Hv Hs Hu. destruct (journal_step_forward j j' Hv Hs) as (Ha & _).
  unfold utf8_journal, utf8_paths in *. cbn [journalRecordToV2 v2_SourceIngress] in *.
  assert (jr_SourceIngress j' = jr_SourceIngress j) as -> by exact (f_equal jr_SourceIngress Ha). exact Hu.
Qed.

Lemma step_transaction j j' : journal_valid j → journal_step j j' → jr_Transaction j' = jr_Transaction j.
Proof. intros Hv Hs. destruct (journal_step_forward j j' Hv Hs) as (Ha & _). exact (f_equal jr_Transaction Ha). Qed.

(** Within a transaction the replacement is that of any record. *)
Lemma swap_within text j j' payload :
  ParseJournal text = Ok j → ParseJournal payload = Ok j' → jr_Transaction j' = jr_Transaction j →
  Store_CompareAndSwapCurrentJournal (snapshot_of (Some text)) payload = compareAndSwap "journal.json" (snapshot_of (Some text)) payload.
Proof.
  intros Hj Hj' Ht. unfold Store_CompareAndSwapCurrentJournal, completed_before.
  change (ps_Payload (snapshot_of (Some text))) with text. rewrite Hj, Hj'. rewrite (bool_decide_false (_ ≠ _)) by (rewrite Ht; tauto).
  by rewrite andb_false_r.
Qed.

Lemma saving_rest swapped created j0 cur d d' :
  ¬ swapped "journal.json" → (∀ payload, ¬ created "journal.json" payload) →
  at_rest (journal_allowed j0) (λ _ _, True) cur d → saving swapped created d d' →
  ∃ cur', at_rest (journal_allowed j0) (λ _ _, True) cur' d'.
Proof.
  intros Hsw Hcr Hd Hst. destruct Hst as [d d' r text j j' payload Hrec Hj Hs Hm Hrun|d d' Hst].
  - destruct (ParseJournal_ok text j Hj) as (Hv & Hu & _).
    assert (ParseJournal payload = Ok j') as Hj' by (eapply ParseJournal_Marshal; [by eapply step_utf8_journal|done]).
    rewrite (swap_within text j j' payload Hj Hj') in Hrun by (by eapply step_transaction).
    assert (journal_allowed j0 "journal.json" (Some payload)) as Ha.
    { intros _. exists payload, j'. split_and!; [done..|].
      destruct (rest_allowed _ _ _ _ Hd (d_names d) "journal.json" ltac:(by left) (json_published "journal") eq_refl) as (t & i & Ht & Hi & Hr).
      unfold record in Hrec. rewrite Hrec in Ht. injection Ht as <-. rewrite Hj in Hi. injection Hi as <-. by eapply rtc_r. }
    pose proof (cas_spec (journal_allowed j0) (λ _ _, True) cur "journal.json" payload (json_published "journal") (λ _ _, I) (snapshot_of (Some text)) Ha d Hd) as H.
    rewrite Hrun in H. destruct r; naive_solver.
  - eapply (step_rest swapped created _ (λ _ _, True) cur); [done| | |done|done].
    + intros n p qq Hn. split; [|done]. by intros ->.
    + intros n p Hn. split; [|done]. intros _ ->. by apply Hcr in Hn.
Qed.

Lemma saving_all swapped created j0 d0 d :
  ¬ swapped "journal.json" → (∀ payload, ¬ created "journal.json" payload) →
  store_ok d0 → (∀ c, recoverable d0 "journal.json" c → holds_journal j0 c) →
  rtc (saving swapped created) d0 d → ∃ cur, at_rest (journal_allowed j0) (λ _ _, True) cur d.
Proof.
  intros Hsw Hcr Hok H0 Hst.
  assert (∃ cur, at_rest (journal_allowed j0) (λ _ _, True) cur d0) as H.
  { exists (record d0). apply rest_start; [done| |done]. intros n c _ Hc ->. by apply H0. }
  clear H0 Hok. induction Hst as [|d0 d1 d Hs _ IH]; [done|]. apply IH. destruct H as [cur H]. by eapply saving_rest.
Qed.

End current_journal.

(** ** An example *)

(** A store with one journal. *)
Definition one_journal (text : string) : disk :=
  mkDisk {[ 0%nat := mkInode text text true ]} {[ "journal.json" := 0%nat ]} [] [Fails 1].

Lemma one_journal_ok text : 0 < len text ≤ MaxBytes → store_ok (one_journal text).
Proof.
  intros Ht. assert (HasPrefix text text = true) as Hp by (apply HasPrefix_spec; exists ""; by rewrite string_app_nil_r).
  split; unfold versions, one_journal; simpl.
  - intros i f [_ <-]%lookup_singleton_Some. done.
  - intros v n i ->%list_elem_of_singleton [<- <-]%lookup_singleton_Some. eexists. split; [by rewrite lookup_singleton_eq|].
    unfold good_record, good_staging, payload_ok. cbn [i_private i_synced i_data].
    change MaxProtectedRecordBytes with MaxBytes. split_and!; try done; lia.
  - by intros v n m i ->%list_elem_of_singleton [<- _]%lookup_singleton_Some [<- _]%lookup_singleton_Some.
  - by intros v n m i ->%list_elem_of_singleton _ [<- _]%lookup_singleton_Some [<- _]%lookup_singleton_Some.
Qed.

Definition sample_text : string := marshal (V2Record_json (journalRecordToV2 intended_record)) +:+ String "010" "".

Lemma sample_text_written : MarshalJournal intended_record = Ok sample_text.
Proof. apply MarshalJournal_Ok. split; [|done]. apply record_ok_spec. vm_compute. reflexivity. Qed.

Lemma sample_text_size : 0 < len sample_text ≤ MaxBytes.
Proof.
  destruct (MarshalJournal_Ok intended_record sample_text) as [H _]. destruct (H sample_text_written) as [Hj _].
  unfold sample_text. rewrite len_app. change (len (String "010" "")) with 1. pose proof (journal_size _ Hj).
  pose proof (len_nonneg (marshal (V2Record_json (journalRecordToV2 intended_record)))). unfold MaxBytes. lia.
Qed.

