(* ===== verification/Rpc.v ===== *)
(** * The RPC protocol

    internal/rpc/protocol.go: frames of a length and a JSON text, the check of a request, and
    the search for fields that may carry a secret.  A request is modelled after it was decoded;
    its parameters are the JSON text that the decoder kept ([json.RawMessage]). *)

From S2P Require Import Prelude GoStrings Sha256 GoJson GoJsonDecode.

(** ** Data *)

(** internal/rpc/protocol.go:16-19 [ProtocolVersion, MaxFrameSize] *)
Definition ProtocolVersion : Z := 1.
Definition MaxFrameSize : Z := 1048576.

(** internal/rpc/protocol.go:21-29 [Request]: a deadline is a number. *)
Record RPCRequest := mkRPCRequest {
  rq_Version : Z; rq_Type : string; rq_ID : string; rq_Method : string; rq_OperationID : string;
  rq_Deadline : option Z; rq_Params : string }.

(** The text of an error; what [fmt.Sprintf] puts into it is kept apart. *)
Inductive message := Text (s : string) | UnsupportedVersion (version : Z) | UnknownFrameType (type : string).

(** internal/rpc/protocol.go:44-47 [Error] *)
Record Error := mkError { err_Code : string; err_Message : message }.

(** internal/rpc/protocol.go:31-42 [Response]: the result as the value that is encoded, data as the text. *)
Record Response := mkResponse {
  rs_Version : Z; rs_Type : string; rs_ID : string; rs_OperationID : string; rs_Sequence : Z; rs_Revision : Z;
  rs_Event : string; rs_Result : option json; rs_Error : option Error; rs_Data : string }.

#[export] Instance message_eq_dec : EqDecision message.
Proof. solve_decision. Defined.
#[export] Instance Error_eq_dec : EqDecision Error.
Proof. solve_decision. Defined.

(** ** Frames *)

(** [binary.BigEndian.PutUint32] and [Uint32]. *)
Definition put_uint32 (n : Z) : string := of_bytes [n / 16777216 mod 256; n / 65536 mod 256; n / 256 mod 256; n mod 256].

Definition uint32 (s : string) : Z := foldl (λ acc b, acc * 256 + b) 0 (bytes s).

Inductive frame_error := FrameSize | FrameEOF | FrameShort.

(** internal/rpc/protocol.go:84-101 [Write]: the bytes of a frame. *)
Definition write_frame (payload : string) : result frame_error string :=
  refuse ((len payload =? 0) || (MaxFrameSize <? len payload)) FrameSize;;
  Ok (put_uint32 (len payload) +:+ payload).

(** [io.ReadFull] on a stream that ends after [s]: that many bytes and the rest. *)
Definition read_full (n : nat) (s : string) : result frame_error (string * string) :=
  if bool_decide (s = "") && (0 <? n)%nat then Err FrameEOF
  else if (String.length s <? n)%nat then Err FrameShort
  else Ok (string_take n s, string_drop n s).

(** internal/rpc/protocol.go:103-117 [readPayload]: the payload and what follows on the stream. *)
Definition readPayload (stream : string) : result frame_error (string * string) :=
  '(header, stream) ← read_full 4 stream;
  let size := uint32 header in
  refuse ((size =? 0) || (MaxFrameSize <? size)) FrameSize;;
  read_full (Z.to_nat size) stream.

(** internal/rpc/protocol.go:119-131 [writeAll]: the writer takes as many bytes as it says, one at
    least, or fails; the bytes that it took, and whether all of them were. *)
Fixpoint writeAll (takes : list (option nat)) (payload : string) : string * bool :=
  match payload, takes with
  | EmptyString, _ => ("", true)
  | _, Some (S n) :: takes =>
      let '(taken, all) := writeAll takes (string_drop (S n) payload) in (string_take (S n) payload +:+ taken, all)
  | _, _ => ("", false)
  end.

(** ** Requests *)

(** internal/rpc/protocol.go:167-177 [validRPCIdentity] *)
Definition validRPCIdentity (value : string) : bool :=
  negb ((len value =? 0) || (128 <? len value)) && forallb (λ b, between 0x21 b 0x7e) (bytes value).

(** internal/rpc/protocol.go:217-230 [normalizeKey] *)
Definition normalizeKey (value : string) : string :=
  of_bytes (omap (λ b, if (b =? 95) || (b =? 45) then None else Some (if between 65 b 90 then b + 32 else b)) (bytes value)).

(** internal/rpc/protocol.go:197-200 [containsSensitive]: the test of a key. *)
Definition sensitive_key (key : string) : bool :=
  let normalized := normalizeKey key in
  bool_decide (normalized ∈ ["secret"; "password"; "token"; "payload"; "privatekey"]) ||
  Contains normalized "secret" || Contains normalized "password" || Contains normalized "token" || Contains normalized "privatekey".

(** internal/rpc/protocol.go:192-215 [containsSensitive]: an object is decoded into a map, which
    keeps the last of the members with one key. *)
Fixpoint containsSensitive (value : tree) : bool :=
  match value with
  | TObject members =>
      (fix go members :=
         match members with
         | [] => false
         | (key, child) :: rest =>
             sensitive_key key || negb (bool_decide (key ∈ rest.*1)) && containsSensitive child || go rest
         end) members
  | TArray items => (fix go items := match items with [] => false | item :: rest => containsSensitive item || go rest end) items
  | _ => false
  end.

(** [json.Valid] *)
Definition json_Valid (raw : string) : bool := match read_text raw with Some _ => true | None => false end.

(** internal/rpc/protocol.go:179-190 [containsSensitiveJSON] *)
Definition containsSensitiveJSON (raw : string) : bool :=
  if len raw =? 0 then false
  else match read_value (2 * String.length raw + 1) max_depth raw with
       | Some (value, _) => containsSensitive value
       | None => false
       end.

(** internal/rpc/protocol.go:133-165 [validateRequest] *)
Definition validateRequest (request : RPCRequest) : result Error unit :=
  refuse (negb (rq_Version request =? ProtocolVersion)) (mkError "incompatible_version" (UnsupportedVersion (rq_Version request)));;
  refuse (negb (validRPCIdentity (rq_ID request))) (mkError "invalid_request" (Text "request ID is invalid"));;
  refuse (bool_decide (rq_OperationID request ≠ "") && negb (validRPCIdentity (rq_OperationID request)))
    (mkError "invalid_request" (Text "operation ID is invalid"));;
  refuse (negb (len (rq_Params request) =? 0) && negb (json_Valid (rq_Params request)))
    (mkError "invalid_request" (Text "params must be valid JSON"));;
  (if bool_decide (rq_Type request = "request") then
     refuse (bool_decide (rq_Method request = "")) (mkError "invalid_request" (Text "method is required"))
   else if bool_decide (rq_Type request = "cancel") then
     refuse (bool_decide (rq_OperationID request = "")) (mkError "invalid_request" (Text "operation ID is required"));;
     refuse (match rq_Deadline request with Some _ => true | None => false end)
       (mkError "invalid_request" (Text "cancel frame must not carry a deadline"))
   else Err (mkError "invalid_request" (UnknownFrameType (rq_Type request))));;
  refuse (containsSensitiveJSON (rq_Params request)) (mkError "secret_forbidden" (Text "secret-bearing fields are not accepted by RPC")).

(** ** Errors of a handler *)

(** An error value as the code looks at it: the first [*Error] of its chain, whether the chain has
    [contextCanceled], [context.Canceled] or [context.DeadlineExceeded], and its text. *)
Record go_error := mkGoError {
  ge_fault : option Error; ge_contextCanceled : bool; ge_Canceled : bool; ge_DeadlineExceeded : bool; ge_text : string }.

(** internal/rpc/protocol.go:246-246 [contextCanceled] *)
Definition contextCanceled : go_error := mkGoError None true false false "operation cancelled".

(** internal/rpc/protocol.go:232-244 [asFault] *)
Definition asFault (err : go_error) : Error :=
  match ge_fault err with
  | Some fault => fault
  | None =>
      if ge_contextCanceled err || ge_Canceled err then mkError "cancelled" (Text "operation cancelled")
      else if ge_DeadlineExceeded err then mkError "deadline_exceeded" (Text "operation deadline exceeded")
      else mkError "internal" (Text (ge_text err))
  end.

(** ** Frames are read back *)

Lemma uint32_put n : 0 ≤ n < 2 ^ 32 → uint32 (put_uint32 n) = n.
Proof.
  intros Hn. change (2 ^ 32) with 4294967296 in Hn. unfold uint32, put_uint32. cbn [of_bytes foldr bytes foldl].
  rewrite !byteZ_of by (apply Z.mod_pos_bound; lia).
  change 16777216 with (256 * 256 * 256). change 65536 with (256 * 256). rewrite <-!Z.div_div by lia.
  remember (n / 256) as a eqn:Ea. remember (a / 256) as b eqn:Eb. remember (b / 256) as c eqn:Ec.
  pose proof (Z.div_mod n 256 ltac:(lia)). pose proof (Z.div_mod a 256 ltac:(lia)). pose proof (Z.div_mod b 256 ltac:(lia)).
  pose proof (Z.mod_pos_bound n 256 ltac:(lia)). pose proof (Z.mod_pos_bound a 256 ltac:(lia)). pose proof (Z.mod_pos_bound b 256 ltac:(lia)).
  rewrite <-Ea in H. rewrite <-Eb in H0. rewrite <-Ec in H1. clear Ea Eb Ec.
  revert H H0 H1 H2 H3 H4. generalize (n mod 256) (a mod 256) (b mod 256). intros x y z. intros. rewrite (Z.mod_small c 256) by lia. lia.
Qed.

Lemma read_full_app s t : 0 < len s → read_full (String.length s) (s +:+ t) = Ok (s, t).
Proof.
  intros Hs. unfold read_full, len in *. rewrite string_length_app.
  rewrite bool_decide_false by (destruct s; [simpl in Hs; lia|done]).
  cbn [andb]. rewrite (proj2 (Nat.ltb_ge _ _)) by lia. rewrite string_take_exact, string_drop_exact by done. done.
Qed.

Lemma readPayload_frame payload frame rest :
  write_frame payload = Ok frame → readPayload (frame +:+ rest) = Ok (payload, rest).
Proof.
  unfold write_frame. intros H. ok_inv. bools. subst frame. assert (0 ≤ len payload) as H0 by (unfold len; lia). unfold readPayload.
  rewrite <-string_app_assoc. change 4%nat with (String.length (put_uint32 (len payload))).
  rewrite read_full_app by (unfold len; simpl; lia). cbn [mbind result_bind]. unfold MaxFrameSize in *. rewrite uint32_put by lia.
  rewrite (proj2 (Z.eqb_neq _ _)) by done. rewrite (proj2 (Z.ltb_ge _ _)) by lia. cbn [orb refuse mbind result_bind].
  unfold len. rewrite Nat2Z.id. apply read_full_app. unfold len in *. lia.
Qed.

(** So many payloads from a stream. *)
Fixpoint read_payloads (n : nat) (stream : string) : result frame_error (list string * string) :=
  match n with
  | O => Ok ([], stream)
  | S n => '(payload, stream) ← readPayload stream; '(payloads, stream) ← read_payloads n stream; Ok (payload :: payloads, stream)
  end.

Definition frames_of (payloads : list string) : string := foldr (λ p s, put_uint32 (len p) +:+ p +:+ s) "" payloads.

Lemma writeAll_spec takes payload :
  ∃ rest, payload = (writeAll takes payload).1 +:+ rest ∧ ((writeAll takes payload).2 = true ↔ rest = "").
Proof.
  revert payload. induction takes as [|[[|n]|] takes IH]; intros [|a payload]; try (by exists ""); try (by exists (String a payload)).
  cbn [writeAll]. destruct (IH (string_drop (S n) (String a payload))) as (rest & Hr & Hall). exists rest.
  destruct (writeAll takes _) as [taken all]. cbn [fst snd] in *. split; [|done].
  rewrite <-string_app_assoc, <-Hr. symmetry. apply string_take_drop.
Qed.

Lemma writeAll_completes takes payload :
  (String.length payload ≤ length takes)%nat → Forall (λ t, ∃ n, t = Some (S n)) takes → writeAll takes payload = (payload, true).
Proof.
  revert payload. induction takes as [|t takes IH]; intros [|a payload] Hl Ht; simpl in Hl; try done; try lia.
  apply Forall_cons in Ht as [[n ->] Ht]. cbn [writeAll]. rewrite IH; [|rewrite length_string_drop; simpl; lia|done].
  by rewrite string_take_drop.
Qed.



Lemma read_full_short n s : s ≠ "" → (String.length s < n)%nat → read_full n s = Err FrameShort.
Proof. intros Hs Hn. unfold read_full. rewrite bool_decide_false by done. cbn [andb]. by rewrite (proj2 (Nat.ltb_lt _ _) Hn). Qed.

(** C39: A stream that ends inside a frame.  The end is told apart from the end of input, except after
    the header: a frame cut there is reported as [io.EOF], with which the session ends without an
    error. *)
Theorem readPayload_cut payload frame k :
  write_frame payload = Ok frame → (k < String.length frame)%nat →
  readPayload (string_take k frame) = Err (if decide (k = 0 ∨ k = 4)%nat then FrameEOF else FrameShort).
Proof.
  intros Hw Hk. pose proof (readPayload_frame payload frame "" Hw) as Hr. rewrite string_app_nil_r in Hr.
  unfold write_frame in Hw. ok_inv. bools. subst frame. rewrite string_length_app in Hk. change (String.length (put_uint32 _)) with 4%nat in Hk.
  destruct (decide (k < 4)%nat) as [H4|H4].
  - do 4 (destruct k as [|k]; [reflexivity|]). lia.
  - assert (string_take k (put_uint32 (len payload) +:+ payload) = put_uint32 (len payload) +:+ string_take (k - 4) payload) as ->.
    { do 4 (destruct k as [|k]; [lia|]). by replace (S (S (S (S k))) - 4)%nat with k by lia. }
    unfold readPayload, MaxFrameSize in *. change 4%nat with (String.length (put_uint32 (len payload))) at 1.
    rewrite read_full_app by (unfold len; simpl; lia). cbn [mbind result_bind]. assert (0 ≤ len payload) as Hpos by (unfold len; lia). rewrite uint32_put by lia.
    rewrite (proj2 (Z.eqb_neq _ _)) by done. rewrite (proj2 (Z.ltb_ge _ _)) by lia. cbn [orb refuse mbind result_bind].
    unfold len in *. rewrite Nat2Z.id. case_decide as Hd.
    + replace (k - 4)%nat with 0%nat by lia. unfold read_full. cbn [string_take]. rewrite bool_decide_true, (proj2 (Nat.ltb_lt _ _)) by lia || done. done.
    + rewrite read_full_short; [done| |rewrite length_string_take by lia; lia].
      intros E. apply (f_equal String.length) in E. rewrite length_string_take in E by lia. simpl in E. lia.
Qed.

Lemma readPayload_cut_witness : readPayload (string_take 4 (put_uint32 2 +:+ "{}")) = Err FrameEOF.
Proof. apply (readPayload_cut "{}" _ 4); [reflexivity|simpl; lia]. Defined.

(** ** Secrets *)

(** A key of an object at any depth. *)
Inductive key_at (key : string) : tree → Prop :=
| key_here child members : (key, child) ∈ members → key_at key (TObject members)
| key_member k child members : (k, child) ∈ members → key_at key child → key_at key (TObject members)
| key_item item items : item ∈ items → key_at key item → key_at key (TArray items).

(** No object has a key twice. *)
Fixpoint distinct_keys (t : tree) : bool :=
  match t with
  | TObject members =>
      (fix go members :=
         match members with
         | [] => true
         | (key, child) :: rest => negb (bool_decide (key ∈ rest.*1)) && distinct_keys child && go rest
         end) members
  | TArray items => (fix go items := match items with [] => true | item :: rest => distinct_keys item && go rest end) items
  | _ => true
  end.

Section tree_induction.
Variable P : tree → Prop.
Hypothesis P_scalar : ∀ t, match t with TArray _ | TObject _ => False | _ => True end → P t.
Hypothesis P_array : ∀ l, Forall P l → P (TArray l).
Hypothesis P_object : ∀ l, Forall (λ m, P m.2) l → P (TObject l).

Fixpoint tree_nested_ind (t : tree) : P t :=
  match t with
  | TArray l => P_array l
      ((fix go l : Forall P l :=
          match l with [] => Forall_nil_2 P | x :: l' => Forall_cons_2 P x l' (tree_nested_ind x) (go l') end) l)
  | TObject l => P_object l
      ((fix go l : Forall (λ m, P m.2) l :=
          match l with
          | [] => Forall_nil_2 _
          | (k, x) :: l' => Forall_cons_2 (λ m, P m.2) (k, x) l' (tree_nested_ind x) (go l')
          end) l)
  | TNull => P_scalar TNull I
  | TBool b => P_scalar (TBool b) I
  | TNumber s => P_scalar (TNumber s) I
  | TString s => P_scalar (TString s) I
  end.
End tree_induction.

Lemma key_at_object key members :
  key_at key (TObject members) ↔ ∃ k child, (k, child) ∈ members ∧ (key = k ∨ key_at key child).
Proof.
  split.
  - inversion 1; subst; eauto.
  - intros (k & child & Hin & [-> |Hk]); [by eapply key_here|by eapply key_member].
Qed.

Lemma containsSensitive_sound t : containsSensitive t = true → ∃ key, key_at key t ∧ sensitive_key key = true.
Proof.
  induction t as [t Ht|l IH|l IH] using tree_nested_ind; [by destruct t|..].
  - induction IH as [|x l Hx _ IHl]; [done|]. simpl. intros [H|H]%orb_true_iff.
    + destruct (Hx H) as (k & Hk & Hs). exists k. split; [|done]. eapply key_item; [left|done].
    + destruct (IHl H) as (k & Hk & Hs). exists k. split; [|done]. inversion Hk; subst. eapply key_item; [by right|done].
  - induction IH as [|[k v] l Hv _ IHl]; [done|]. simpl. intros [[H|[_ H]%andb_true_iff]%orb_true_iff|H]%orb_true_iff.
    + exists k. split; [|done]. eapply key_here. left.
    + destruct (Hv H) as (key & Hk & Hs). exists key. split; [|done]. eapply key_member; [left|done].
    + destruct (IHl H) as (key & Hk & Hs). exists key. split; [|done]. apply key_at_object in Hk as (k' & c & Hin & Hc).
      apply key_at_object. exists k', c. split; [by right|done].
Qed.

Lemma containsSensitive_complete t key :
  distinct_keys t = true → key_at key t → sensitive_key key = true → containsSensitive t = true.
Proof.
  intros Hd Hk Hs. induction t as [t Ht|l IH|l IH] using tree_nested_ind; [by destruct t; inversion Hk|..].
  - inversion Hk as [| |item items Hin Hi]; subst. clear Hk. induction IH as [|x l Hx _ IHl]; [by apply elem_of_nil in Hin|].
    simpl in *. apply andb_true_iff in Hd as [Hd1 Hd2]. apply orb_true_iff.
    apply elem_of_cons in Hin as [-> |Hin]; [left; by apply Hx|right; by apply IHl].
  - apply key_at_object in Hk as (k & c & Hin & Hc). induction IH as [|[k' v] l Hv _ IHl]; [by apply elem_of_nil in Hin|].
    simpl in *. apply andb_true_iff in Hd as [[Hd0 Hd1]%andb_true_iff Hd2]. rewrite !orb_true_iff, andb_true_iff.
    apply elem_of_cons in Hin as [[= -> ->]|Hin]; [|right; by apply IHl].
    left. destruct Hc as [-> |Hc]; [by left|right; split; [done|by apply Hv]].
Qed.

(** C22: An accepted request has the shape that the session relies on.  Its parameters are one JSON
    value, and when no object of it repeats a key, no key at any depth names a secret. *)
Theorem validateRequest_accepts request :
  validateRequest request = Ok tt →
  rq_Version request = ProtocolVersion ∧ validRPCIdentity (rq_ID request) = true ∧
  (rq_OperationID request = "" ∨ validRPCIdentity (rq_OperationID request) = true) ∧
  (rq_Type request = "request" ∧ rq_Method request ≠ "" ∨
   rq_Type request = "cancel" ∧ rq_OperationID request ≠ "" ∧ rq_Deadline request = None) ∧
  (rq_Params request = "" ∨ ∃ t, read_text (rq_Params request) = Some t ∧
     (distinct_keys t = true → ∀ key, key_at key t → sensitive_key key = false)).
Proof.
  unfold validateRequest. intros H. ok_inv. bools.
  match goal with H : (if bool_decide (rq_Type request = "request") then _ else _) = Ok _ |- _ => rename H into Ht end.
  match goal with H : containsSensitiveJSON _ = false |- _ => rename H into Hs end.
  split_and!; try done.
  - destruct (decide (rq_OperationID request = "")); [by left|right]. naive_solver.
  - revert Ht. case_bool_decide; [intros Ht; ok_inv; bools; by left|]. case_bool_decide; [|done]. intros Ht. ok_inv. bools. right.
    by destruct (rq_Deadline request).
  - destruct (decide (rq_Params request = "")) as [|Hne]; [by left|right].
    assert (len (rq_Params request) ≠ 0) as Hl by (destruct (rq_Params request); [done|unfold len; simpl; lia]).
    unfold containsSensitiveJSON in Hs. rewrite (proj2 (Z.eqb_neq _ _)) in Hs by done.
    assert (json_Valid (rq_Params request) = true) as Hv by naive_solver. unfold json_Valid in Hv.
    destruct (read_text (rq_Params request)) as [t|] eqn:Hr; [|done]. exists t. split; [done|]. intros Hd key Hk.
    unfold read_text in Hr. destruct (read_value _ _ _) as [[v rest]|]; [|done]. cbn [mbind option_bind fst snd] in Hr.
    case_bool_decide; [|done]. injection Hr as ->. destruct (sensitive_key key) eqn:E; [|done].
    by rewrite (containsSensitive_complete t key) in Hs.
Qed.

Definition sample_request (params : string) : RPCRequest := mkRPCRequest 1 "request" "r1" "yard.list" "" None params.

Lemma validateRequest_accepts_witness :
  ∃ t, read_text "[{}]" = Some t ∧ (distinct_keys t = true → ∀ key, key_at key t → sensitive_key key = false).
Proof.
  destruct (validateRequest_accepts (sample_request "[{}]")) as (_ & _ & _ & _ & [H|H]); [vm_compute; reflexivity|discriminate H|exact H].
Defined.

Definition json_quoted (s : string) : string := String dquote (s +:+ String dquote "").

