(* ===== verification/RpcSession.v ===== *)
(** * A session of the RPC protocol

    internal/rpc/session.go: [Serve] runs a reader, a writer and a worker for each call that it
    accepts.  They share the map of active operations, the context of the session, a bounded
    channel of outgoing frames and the counter of events.  The state of a session is that shared
    state with the point that each of them has reached; an action is one access of one of them to
    what is shared, so that a run is a list of actions in any interleaving.  What comes from
    outside (frames, results of a handler, failing writes, cancellation) is an argument of the
    action.  A handler emits events before it returns, not after.

    [RpcSessionProofs] has the theorems. *)

From S2P Require Import Prelude GoStrings Sha256 GoJson GoJsonDecode Rpc.

(** ** Data *)

(** internal/rpc/session.go:50-59 [Session]: the handler apart; a nil slice of capabilities is [None]. *)
Record Session := mkSession {
  Capabilities : option (list string); EngineVersion : string; Buffer : Z; DrainOnEOF : bool }.

(** internal/rpc/session.go:84-87 [Serve]: the size of the channel. *)
Definition buffer_size (session : Session) : nat :=
  if Buffer session <=? 0 then 64 else Z.to_nat (Buffer session).

(** [context.Cause] of the context of an operation: [contextCanceled] from a frame of the client,
    or the end of the session, of the deadline or of the operation. *)
Inductive cause := ByClient | ByContext.

(** The point that the handling of a request has reached: the reader answers it, or a worker runs
    the handler, has its result, has made the response, has released the operation, is done. *)
Inductive phase :=
| Answered
| Running
| Handled (result : result go_error (option json))
| Responding (response : Response)
| Released (response : Response)
| Finished.

(** A request that was read, with the variables of its worker. *)
Record rpc_call := mkCall { c_request : RPCRequest; c_OperationID : string; c_cause : option cause; c_phase : phase }.

#[export] Instance rpc_call_eta : Eta rpc_call := λ c, mkCall (c_request c) (c_OperationID c) (c_cause c) (c_phase c).

Inductive serve_error := ReadFailed | WriteFailed.

(** The point that [Serve] has reached: at the head of its loop, in [ReadRequest], holding the
    cancel function of an operation, with an answer to enqueue, past the loop, waiting for the
    workers, waiting for the writer, returned.  Requests are numbered as they are read. *)
Inductive reader :=
| Looping
| Reading
| Cancelling (number target : nat)
| Replying (number : nat) (response : Response)
| Leaving
| Waiting
| Closed
| Returned (err : option serve_error).

(** The writer waits for a frame, writes one, or has ended, with an error or without. *)
Inductive writer := Idle | Writing (entry : nat * Response) | Ended (failed : bool).

(** internal/rpc/session.go:88-105 [Serve]: the variables that the goroutines share, with the point that
    each has reached and what was written.  A frame carries the number of the request that it belongs to. *)
Record state := mkState {
  st_reader : reader; st_readErr : bool; st_stopped : bool; st_negotiated : bool;
  st_operations : gmap string nat; st_calls : list rpc_call; st_next : Z;
  st_outgoing : list (nat * Response); st_writer : writer; st_written : list (nat * Response); st_panicked : bool }.

#[export] Instance state_eta : Eta state := λ s,
  mkState (st_reader s) (st_readErr s) (st_stopped s) (st_negotiated s) (st_operations s) (st_calls s) (st_next s)
    (st_outgoing s) (st_writer s) (st_written s) (st_panicked s).

Definition initial : state := mkState Looping false false false ∅ [] 0 [] Idle [] false.

(** ** Operations *)

(** The channel was closed. *)
Definition closed (s : state) : bool := match st_reader s with Closed | Returned _ => true | _ => false end.

(** internal/rpc/session.go:106-116 [Serve]: of the cases that are ready, [select] takes
    either; sending on a closed channel panics. *)
Definition enqueue (session : Session) (prefer_done : bool) (entry : nat * Response) (s : state) : state :=
  if closed s then s <| st_panicked := true |>
  else if (length (st_outgoing s) <? buffer_size session)%nat && negb (prefer_done && st_stopped s) then
    s <| st_outgoing := st_outgoing s ++ [entry] |>
  else s <| st_stopped := true |>.

(** internal/rpc/session.go:29-38 [publish]: the mutex makes numbering and enqueueing one action. *)
Definition publish (session : Session) (prefer_done : bool) (number : nat) (response : Response) (s : state) : state :=
  let next := (st_next s + 1) mod 2 ^ 64 in
  let response := mkResponse (rs_Version response) (rs_Type response) (rs_ID response) (rs_OperationID response) next next
    (rs_Event response) (rs_Result response) (rs_Error response) (rs_Data response) in
  enqueue session prefer_done (number, response) (s <| st_next := next |>).

Definition reply_error (request : RPCRequest) (operationID : string) (err : go_error) : Response :=
  mkResponse ProtocolVersion "response" (rq_ID request) operationID 0 0 "" None (Some (asFault err)) "".

Definition reply_result (request : RPCRequest) (operationID : string) (value : option json) : Response :=
  mkResponse ProtocolVersion "response" (rq_ID request) operationID 0 0 "" value None "".

Definition request_fault (err : Error) : go_error := mkGoError (Some err) false false false "".

(** internal/rpc/session.go:150-153 [Serve]: what a client is told of the session. *)
Definition negotiation (session : Session) : json :=
  JObject [("capabilities", match Capabilities session with None => JNull | Some l => JArray (map JString l) end);
           ("engineVersion", JString (EngineVersion session)); ("protocolMax", JInt ProtocolVersion);
           ("protocolMin", JInt ProtocolVersion); ("version", JInt ProtocolVersion)].

(** internal/rpc/session.go:127-184 [Serve]: a frame that was read, up to the answer that the
    reader enqueues or the worker that it starts. *)
Definition accept (session : Session) (request : RPCRequest) (s : state) : state :=
  let number := length (st_calls s) in
  let answered := s <| st_calls := st_calls s ++ [mkCall request (rq_OperationID request) None Answered] |> in
  let reply response := answered <| st_reader := Replying number response |> in
  let operationID := if bool_decide (rq_OperationID request = "") then rq_ID request else rq_OperationID request in
  match validateRequest request with
  | Err err => reply (reply_error request (rq_OperationID request) (request_fault err))
  | Ok _ =>
      if bool_decide (rq_Type request = "cancel") then
        match st_operations s !! rq_OperationID request with
        | None => reply (reply_error request (rq_OperationID request)
            (request_fault (mkError "operation_not_found" (Text "operation is not active"))))
        | Some target => answered <| st_reader := Cancelling number target |>
        end
      else if bool_decide (rq_Method request = "rpc.negotiate") then
        reply (reply_result request "" (Some (negotiation session))) <| st_negotiated := true |>
      else if negb (st_negotiated s) then
        reply (reply_error request (rq_OperationID request)
          (request_fault (mkError "negotiation_required" (Text "rpc.negotiate must be called first"))))
      else match st_operations s !! operationID with
           | Some _ => reply (reply_error request operationID
               (request_fault (mkError "duplicate_operation" (Text "operation ID is already active"))))
           | None =>
               s <| st_operations := <[operationID := number]> (st_operations s) |>
                 <| st_calls := st_calls s ++ [mkCall request operationID None Running] |>
                 <| st_reader := Looping |>
           end
  end.

(** A context is cancelled once; later causes are ignored. *)
Definition cancel (why : cause) (c : rpc_call) : rpc_call :=
  match c_cause c with Some _ => c | None => c <| c_cause := Some why |> end.

(** internal/rpc/session.go:140-145 [Serve]: the reader cancels the operation that it found. *)
Definition cancel_operation (number target : nat) (s : state) : state :=
  match st_calls s !! number with
  | Some c =>
      let request := c_request c in
      s <| st_calls := alter (cancel ByClient) target (st_calls s) |>
        <| st_reader := Replying number (reply_result request (rq_OperationID request)
             (Some (JObject [("cancelled", JString (rq_OperationID request))]))) |>
  | None => s
  end.

(** internal/rpc/session.go:210-218 [Serve]: the response of a worker. *)
Definition respond (c : rpc_call) (outcome : result go_error (option json)) : Response :=
  match outcome with
  | Ok value => reply_result (c_request c) (c_OperationID c) value
  | Err err =>
      reply_error (c_request c) (c_OperationID c)
        (if ge_Canceled err || match c_cause c with Some ByClient => true | _ => false end then contextCanceled else err)
  end.

(** internal/rpc/session.go:188-196 [Serve]: [finish]. *)
Definition finish_call (number : nat) (c : rpc_call) (response : Response) (s : state) : state :=
  s <| st_operations := delete (c_OperationID c) (st_operations s) |>
    <| st_calls := <[number := cancel ByContext c <| c_phase := Released response |>]> (st_calls s) |>.

(** internal/rpc/session.go:225-234 [Serve]: past the loop the session is stopped, unless the
    input ended and it drains; the operations of a stopped session are cancelled. *)
Definition leave (session : Session) (s : state) : state :=
  let stopped := st_stopped s || st_readErr s || negb (DrainOnEOF session) in
  s <| st_stopped := stopped |> <| st_reader := Waiting |>
    <| st_calls := if stopped
         then imap (λ n c, if bool_decide (st_operations s !! c_OperationID c = Some n) then cancel ByContext c else c) (st_calls s)
         else st_calls s |>.

(** ** Steps *)

Inductive action :=
| ALoop | ARead (request : RPCRequest) | AReadEnd (err : bool) | ACancel | AReply (prefer_done : bool) | ALeave
| AEmit (number : nat) (event data : string) (prefer_done : bool)
| AHandle (number : nat) (outcome : result go_error (option json)) | ARespond (number : nat) | ARelease (number : nat)
| ASend (number : nat) (prefer_done : bool)
| AExpire (number : nat) | AStop
| ATake | AWrite (failed : bool) | AEnd
| AClose | AReturn.

Definition put_phase (number : nat) (p : phase) (c : rpc_call) (s : state) : state :=
  s <| st_calls := <[number := c <| c_phase := p |>]> (st_calls s) |>.

(** internal/rpc/session.go:119-126 [Serve]: the loop and what ends it; a failed read that is not
    the end of input is kept. *)
Definition read_step (session : Session) (a : action) (s : state) : option state :=
  match st_reader s, a with
  | Looping, ALoop => Some (s <| st_reader := if st_stopped s then Leaving else Reading |>)
  | Reading, ARead request => Some (accept session request s)
  | Reading, AReadEnd err => Some (s <| st_readErr := err |> <| st_reader := Leaving |>)
  | Cancelling number target, ACancel => Some (cancel_operation number target s)
  | Replying number response, AReply prefer_done =>
      Some (enqueue session prefer_done (number, response) (s <| st_reader := Looping |>))
  | Leaving, ALeave => Some (leave session s)
  | _, _ => None
  end.

(** internal/rpc/session.go:198-222 [Serve]: the worker of a call. *)
Definition worker_step (session : Session) (number : nat) (a : action) (s : state) : option state :=
  match st_calls s !! number with
  | None => None
  | Some c =>
      match c_phase c, a with
      | Running, AEmit _ event data prefer_done =>
          Some (publish session prefer_done number
            (mkResponse ProtocolVersion "event" (rq_ID (c_request c)) (c_OperationID c) 0 0 event None None data) s)
      | Running, AHandle _ outcome => Some (put_phase number (Handled outcome) c s)
      | Handled outcome, ARespond _ => Some (put_phase number (Responding (respond c outcome)) c s)
      | Responding response, ARelease _ => Some (finish_call number c response s)
      | Released response, ASend _ prefer_done =>
          Some (enqueue session prefer_done (number, response) (put_phase number Finished c s))
      | _, _ => None
      end
  end.

(** internal/rpc/session.go:90-99 [Serve]: the writer; a failed write stops the session. *)
Definition writer_step (a : action) (s : state) : option state :=
  match st_writer s, a with
  | Idle, ATake =>
      match st_outgoing s with
      | entry :: rest => Some (s <| st_outgoing := rest |> <| st_writer := Writing entry |>)
      | [] => None
      end
  | Idle, AEnd =>
      if closed s && bool_decide (st_outgoing s = []) then Some (s <| st_writer := Ended false |>) else None
  | Writing entry, AWrite failed =>
      Some (if failed then s <| st_stopped := true |> <| st_writer := Ended true |>
            else s <| st_written := st_written s ++ [entry] |> <| st_writer := Idle |>)
  | _, _ => None
  end.

(** The worker of the call is not running. *)
Definition settled_call (c : rpc_call) : bool := match c_phase c with Answered | Finished => true | _ => false end.

(** internal/rpc/session.go:235-241 [Serve]: the end. *)
Definition end_step (a : action) (s : state) : option state :=
  match st_reader s, a with
  | Waiting, AClose => if forallb settled_call (st_calls s) then Some (s <| st_reader := Closed |>) else None
  | Closed, AReturn =>
      match st_writer s with
      | Ended failed =>
          Some (s <| st_reader := Returned (if st_readErr s then Some ReadFailed
                                             else if failed then Some WriteFailed else None) |>)
      | _ => None
      end
  | _, _ => None
  end.

(** The context of the session is cancelled from outside; the context of an operation follows it,
    or its deadline passes. *)
Definition context_step (a : action) (s : state) : option state :=
  match a with
  | AStop => if st_stopped s then None else Some (s <| st_stopped := true |>)
  | AExpire number =>
      match st_calls s !! number with
      | Some c =>
          match c_cause c with
          | None =>
              if st_stopped s || bool_decide (rq_Deadline (c_request c) ≠ None)
              then Some (s <| st_calls := <[number := cancel ByContext c]> (st_calls s) |>) else None
          | Some _ => None
          end
      | None => None
      end
  | _ => None
  end.

Definition session_step (session : Session) (a : action) (s : state) : option state :=
  match a with
  | ALoop | ARead _ | AReadEnd _ | ACancel | AReply _ | ALeave => read_step session a s
  | AEmit number _ _ _ | AHandle number _ | ARespond number | ARelease number | ASend number _ => worker_step session number a s
  | AExpire _ | AStop => context_step a s
  | ATake | AWrite _ | AEnd => writer_step a s
  | AClose | AReturn => end_step a s
  end.

(** A run of the session. *)
Fixpoint session_run (session : Session) (actions : list action) (s : state) : option state :=
  match actions with
  | [] => Some s
  | a :: rest => match session_step session a s with Some s' => session_run session rest s' | None => None end
  end.
