(* ===== verification/RpcSessionProofs.v ===== *)
(** * Properties of an RPC session

    For every interleaving of the reader, the writer and the workers of [RpcSession]: the invariant
    of the shared state, the order of what a client sees, that nothing is lost unless the session
    is stopped, and that [Serve] returns. *)

From S2P Require Import Prelude GoStrings Sha256 GoJson GoJsonDecode Rpc RpcSession.

(** ** The transcript

    What is sent, independent of who sends it: which requests were read, which of them are still
    open, the frames in the order in which the client gets them, whether the session was stopped,
    and the number of the last event. *)

Definition is_response (entry : nat * Response) : bool := bool_decide (rs_Type entry.2 = "response").

(** Nothing of a request follows its response. *)
Fixpoint answers_last (l : list (nat * Response)) : Prop :=
  match l with
  | [] => True
  | e :: l => (is_response e = true → e.1 ∉ l.*1) ∧ answers_last l
  end.

Definition event_numbers (l : list (nat * Response)) : list Z :=
  omap (λ e, if is_response e then None else Some (rs_Sequence e.2)) l.

(** The frame belongs to that request. *)
Definition belongs (id : RPCRequest * string * bool) (r : Response) : Prop :=
  rs_Version r = ProtocolVersion ∧ rs_ID r = rq_ID id.1.1 ∧
  (rs_Type r = "response" ∨
   rs_Type r = "event" ∧ id.2 = true ∧ rs_OperationID r = id.1.2 ∧ rs_Revision r = rs_Sequence r).

Record transcript (ids : list (RPCRequest * string * bool)) (open : nat → bool) (l : list (nat * Response))
  (stopped : bool) (next : Z) : Prop := {
  t_belongs e : e ∈ l → ∃ id, ids !! e.1 = Some id ∧ belongs id e.2;
  t_open e : e ∈ l → is_response e = true → open e.1 = false;
  t_last : answers_last l;
  t_all n : stopped = false → (n < length ids)%nat → open n = false → ∃ e, e ∈ l ∧ e.1 = n ∧ is_response e = true;
  t_next : 0 ≤ next;
  t_sorted : StronglySorted Z.lt (event_numbers l);
  t_range : Forall (λ q, 1 ≤ q ≤ next) (event_numbers l);
  t_dense : stopped = false → event_numbers l = seqZ 1 next }.

(** What [enqueue] makes of the transcript: the frame is added, or lost in a session that stops. *)
Definition sent (e : nat * Response) (l l' : list (nat * Response)) (stopped stopped' : bool) : Prop :=
  l' = l ++ [e] ∧ stopped' = stopped ∨ l' = l ∧ stopped' = true.

Lemma answers_last_snoc l e : answers_last l → (∀ e', e' ∈ l → is_response e' = true → e'.1 ≠ e.1) → answers_last (l ++ [e]).
Proof.
  induction l as [|x l IH]; simpl; intros Hl He.
  - split; [set_solver|done].
  - destruct Hl as [Hx Hl]. split; [|apply IH; [done|set_solver]].
    intros Hr. rewrite fmap_app, elem_of_app. intros [Hin|Hin]; [by apply Hx|].
    apply list_elem_of_singleton in Hin. by apply (He x); [left|..].
Qed.

Lemma answers_last_sublist l l' : l' `sublist_of` l → answers_last l → answers_last l'.
Proof.
  induction 1 as [|x l1 l2 Hs IH|x l1 l2 Hs IH]; simpl; [done|..]; intros [Hx Hl]; [|by apply IH].
  split; [|by apply IH]. intros Hr Hin. apply (Hx Hr). apply list_elem_of_fmap in Hin as (e & -> & He).
  apply list_elem_of_fmap. exists e. split; [done|]. by eapply elem_of_sublist.
Qed.

Section transcripts.
Context {ids : list (RPCRequest * string * bool)} {open : nat → bool} {l : list (nat * Response)} {stopped : bool} {next : Z}.
Hypothesis T : transcript ids open l stopped next.

Lemma entry_number e : e ∈ l → (e.1 < length ids)%nat.
Proof. intros He. destruct (t_belongs _ _ _ _ _ T e He) as (? & Hid & _). by apply lookup_lt_Some in Hid. Qed.

Lemma tr_stop : transcript ids open l true next.
Proof. destruct T. split; try done. Qed.

Lemma tr_open open' : (∀ n, (n < length ids)%nat → open' n = open n) → transcript ids open' l stopped next.
Proof.
  intros Ho. pose proof entry_number. destruct T. split; try done; [|intros; apply t_all0; [done..|by rewrite <-Ho]].
  intros e He Hr. rewrite Ho by auto. by apply t_open0.
Qed.

(** A request was read; it is open. *)
Lemma tr_new id open' :
  open' (length ids) = true → (∀ n, (n < length ids)%nat → open' n = open n) → transcript (ids ++ [id]) open' l stopped next.
Proof.
  intros Hn Ho. pose proof entry_number. destruct T. split; try done.
  - intros e He. destruct (t_belongs0 e He) as (x & Hx & Hb). exists x. split; [|done]. by apply lookup_app_l_Some.
  - intros e He Hr. rewrite Ho by auto. by apply t_open0.
  - intros n Hs. rewrite length_app; simpl. intros Hl Hc. destruct (decide (n = length ids)) as [-> |]; [congruence|].
    apply t_all0; [done|lia|]. rewrite <-Ho by lia. done.
Qed.

(** An open request is answered. *)
Lemma tr_answer n id r open' l' stopped' :
  ids !! n = Some id → belongs id r → rs_Type r = "response" → open n = true → open' n = false →
  (∀ m, m ≠ n → (m < length ids)%nat → open' m = open m) → sent (n, r) l l' stopped stopped' →
  transcript ids open' l' stopped' next.
Proof.
  intros Hid Hb Hr Hn Hn' Ho Hsent. pose proof entry_number.
  assert (is_response (n, r) = true) as Hres by (by apply bool_decide_eq_true).
  assert (∀ e, e ∈ l → is_response e = true → e.1 ≠ n ∧ open' e.1 = false) as Hold.
  { intros e He Her. pose proof (t_open _ _ _ _ _ T e He Her). assert (e.1 ≠ n) by congruence. split; [done|]. by rewrite Ho; auto. }
  destruct T, Hsent as [[-> ->]|[-> ->]].
  - split; try done.
    + intros e [He| ->%list_elem_of_singleton]%elem_of_app; [by apply t_belongs0|by exists id].
    + intros e [He| ->%list_elem_of_singleton]%elem_of_app; [|done]. intros. by apply Hold.
    + apply answers_last_snoc; [done|]. intros. by apply Hold.
    + intros m Hs Hm Hc. destruct (decide (m = n)) as [-> |]; [exists (n, r); set_solver|].
      rewrite Ho in Hc by done. destruct (t_all0 m Hs Hm Hc) as (e & He & Hm' & Her). exists e. set_solver.
    + unfold event_numbers. rewrite omap_app. simpl. rewrite Hres. by rewrite app_nil_r.
    + unfold event_numbers. rewrite omap_app. simpl. rewrite Hres. by rewrite app_nil_r.
    + unfold event_numbers. rewrite omap_app. simpl. rewrite Hres. by rewrite app_nil_r.
  - split; try done. intros. by apply Hold.
Qed.

(** An open call emits an event. *)
Lemma tr_event n id r l' stopped' :
  ids !! n = Some id → belongs id r → rs_Type r = "event" → rs_Sequence r = next + 1 → open n = true →
  sent (n, r) l l' stopped stopped' → transcript ids open l' stopped' (next + 1).
Proof.
  intros Hid Hb Hr Hq Hn Hsent. assert (is_response (n, r) = false) as Hres by (apply bool_decide_eq_false; simpl; by rewrite Hr).
  destruct T, Hsent as [[-> ->]|[-> ->]].
  - assert (event_numbers (l ++ [(n, r)]) = event_numbers l ++ [next + 1]) as Hev.
    { unfold event_numbers. rewrite omap_app. simpl. by rewrite Hres, Hq. }
    split; rewrite ?Hev; try done.
    + intros e [He| ->%list_elem_of_singleton]%elem_of_app; [by apply t_belongs0|by exists id].
    + intros e [He| ->%list_elem_of_singleton]%elem_of_app; [by apply t_open0|by rewrite Hres].
    + apply answers_last_snoc; [done|]. intros e He Her. pose proof (t_open0 e He Her). simpl. congruence.
    + intros m Hs Hm Hc. destruct (t_all0 m Hs Hm Hc) as (e & He & ? & ?). exists e. set_solver.
    + lia.
    + apply StronglySorted_app_2; [|done|by repeat constructor].
      intros x y Hx ->%list_elem_of_singleton. rewrite Forall_forall in t_range0. apply t_range0 in Hx. lia.
    + apply Forall_app. split; [|repeat constructor; lia]. eapply Forall_impl; [done|]. simpl. lia.
    + intros Hs. rewrite t_dense0 by done. rewrite seqZ_app by lia. f_equal. simpl. by rewrite Z.add_comm.
  - split; try done; [lia|]. eapply Forall_impl; [done|]. simpl. lia.
Qed.

(** Frames are lost in a session that was stopped. *)
Lemma tr_lost l' : l' `sublist_of` l → transcript ids open l' true next.
Proof.
  intros Hsub. assert (event_numbers l' `sublist_of` event_numbers l) as Hn.
  { clear T. unfold event_numbers. induction Hsub as [|x l1 l2 Hs IH|x l1 l2 Hs IH]; simpl; [done|..].
    - destruct (is_response x); [done|]. by constructor.
    - destruct (is_response x); [done|]. by constructor. }
  assert (∀ e, e ∈ l' → e ∈ l) by (intros; by eapply elem_of_sublist).
  destruct T. split; try done; [by auto..|by eapply answers_last_sublist| |].
  - clear -Hn t_sorted0. induction Hn as [|x l1 l2 Hs IH|x l1 l2 Hs IH]; [done|..]; apply StronglySorted_inv in t_sorted0 as [H1 H2].
    + constructor; [by apply IH|]. apply Forall_forall. intros y Hy. rewrite Forall_forall in H2. apply H2. by eapply elem_of_sublist.
    + by apply IH.
  - apply Forall_forall. intros q Hq. rewrite Forall_forall in t_range0. apply t_range0. by eapply elem_of_sublist.
Qed.
End transcripts.

(** ** The invariant *)

(** The frames of the session in the order in which the client gets them. *)
Definition stream (s : state) : list (nat * Response) :=
  st_written s ++ match st_writer s with Writing e => [e] | _ => [] end ++ st_outgoing s.

Definition identity (c : rpc_call) : RPCRequest * string * bool :=
  (c_request c, c_OperationID c, match c_phase c with Answered => false | _ => true end).

(** The reader holds the answer of the request. *)
Definition holds_answer (r : reader) (n : nat) : bool :=
  match r with Replying m _ | Cancelling m _ => bool_decide (m = n) | _ => false end.

(** The request is to be answered. *)
Definition open_call (r : reader) (calls : list rpc_call) (n : nat) : bool :=
  match calls !! n with
  | Some c => match c_phase c with Answered => holds_answer r n | Finished => false | _ => true end
  | None => false
  end.

(** The operation of the call is in the map. *)
Definition active_call (c : rpc_call) : bool := match c_phase c with Running | Handled _ | Responding _ => true | _ => false end.

Definition answer_of (c : rpc_call) (r : Response) : Prop := belongs (identity c) r ∧ rs_Type r = "response".

Definition worker_ok (c : rpc_call) : Prop :=
  match c_phase c with Responding r | Released r => answer_of c r | _ => True end.

Definition accepted (request : RPCRequest) : Prop :=
  validateRequest request = Ok tt ∧ rq_Type request = "request" ∧ rq_Method request ≠ "rpc.negotiate".

Definition negotiates (request : RPCRequest) : Prop :=
  validateRequest request = Ok tt ∧ rq_Type request = "request" ∧ rq_Method request = "rpc.negotiate".

Record calls_ok (operations : gmap string nat) (calls : list rpc_call) (negotiated : bool) : Prop := {
  k_operations id n : operations !! id = Some n ↔ ∃ c, calls !! n = Some c ∧ active_call c = true ∧ c_OperationID c = id;
  k_worker n c : calls !! n = Some c → worker_ok c;
  k_accepted n c : calls !! n = Some c → (identity c).2 = true →
    accepted (c_request c) ∧ ∃ m c', (m < n)%nat ∧ calls !! m = Some c' ∧ negotiates (c_request c');
  k_negotiated : negotiated = true → ∃ m c, calls !! m = Some c ∧ negotiates (c_request c) }.

Definition reader_ok (r : reader) (calls : list rpc_call) : Prop :=
  match r with
  | Replying n response => ∃ c, calls !! n = Some c ∧ c_phase c = Answered ∧ answer_of c response
  | Cancelling n _ => ∃ c, calls !! n = Some c ∧ c_phase c = Answered
  | _ => True
  end.

Definition writer_ok (s : state) : Prop :=
  match st_writer s with
  | Ended false => closed s = true ∧ st_outgoing s = []
  | Ended true => st_stopped s = true
  | _ => True
  end.

Definition result_ok (s : state) : Prop :=
  match st_reader s with
  | Returned err => ∃ failed, st_writer s = Ended failed ∧
      err = if st_readErr s then Some ReadFailed else if failed then Some WriteFailed else None
  | _ => True
  end.

(** The shared state apart from the frames. *)
Record control (session : Session) (s : state) : Prop := {
  v_panic : st_panicked s = false;
  v_room : (length (st_outgoing s) ≤ buffer_size session)%nat;
  v_calls : calls_ok (st_operations s) (st_calls s) (st_negotiated s);
  v_reader : reader_ok (st_reader s) (st_calls s);
  v_closed : closed s = true → forallb settled_call (st_calls s) = true;
  v_writer : writer_ok s;
  v_readErr : st_readErr s = true → st_stopped s = true ∨ st_reader s = Leaving;
  v_result : result_ok s }.

Definition sends (s : state) : Prop :=
  transcript (identity <$> st_calls s) (open_call (st_reader s) (st_calls s)) (stream s) (st_stopped s) (st_next s).

(** *** Calls that change only by a cancellation *)

Definition same_call (c c' : rpc_call) : Prop :=
  c_request c' = c_request c ∧ c_OperationID c' = c_OperationID c ∧ c_phase c' = c_phase c.

#[local] Instance same_call_reflexive : Reflexive same_call.
Proof. by intros c. Qed.

Lemma cancel_same why c : same_call c (cancel why c).
Proof. unfold cancel. by destruct c as [? ? [] ?]. Qed.

#[local] Hint Resolve cancel_same : core.

Lemma alter_same f n calls : (∀ c, same_call c (f c)) → Forall2 same_call calls (alter f n calls).
Proof.
  intros Hf. apply Forall2_same_length_lookup_2; [by rewrite length_alter|]. intros i x y Hx Hy.
  destruct (decide (i = n)) as [-> |].
  - rewrite list_lookup_alter_eq, Hx in Hy. by injection Hy as <-.
  - rewrite list_lookup_alter_ne in Hy by done. rewrite Hx in Hy. by injection Hy as <-.
Qed.

Section same_calls.
Context {calls calls' : list rpc_call} (Hs : Forall2 same_call calls calls').

Lemma same_forward n c : calls !! n = Some c → ∃ c', calls' !! n = Some c' ∧ same_call c c'.
Proof. intros H. destruct (Forall2_lookup_l _ _ _ _ _ Hs H) as (c' & ? & ?). eauto. Qed.

Lemma same_backward n c' : calls' !! n = Some c' → ∃ c, calls !! n = Some c ∧ same_call c c'.
Proof. intros H. destruct (Forall2_lookup_r _ _ _ _ _ Hs H) as (c & ? & ?). eauto. Qed.

Lemma same_identities : identity <$> calls' = identity <$> calls.
Proof. induction Hs as [|c c' l l' (H1 & H2 & H3) Hl IH]; [done|].
  rewrite !fmap_cons. f_equal; [|exact (IH Hl)]. unfold identity. by rewrite H1, H2, H3.
Qed.

Lemma same_open r n : open_call r calls' n = open_call r calls n.
Proof.
  unfold open_call. destruct (calls !! n) as [c|] eqn:E.
  - destruct (same_forward n c E) as (c' & -> & _ & _ & ->). done.
  - destruct (calls' !! n) as [c'|] eqn:E'; [|done]. destruct (same_backward n c' E') as (? & ? & _). congruence.
Qed.

Lemma same_settled : forallb settled_call calls' = forallb settled_call calls.
Proof. induction Hs as [|c c' l l' (H1 & H2 & H3) Hl IH]; [done|].
  simpl. f_equal; [|exact (IH Hl)]. unfold settled_call. by rewrite H3.
Qed.

Lemma same_reader r : reader_ok r calls → reader_ok r calls'.
Proof.
  unfold reader_ok. destruct r as [| |n t|n resp| | | |]; try done; intros (c & Hc & Hp); destruct (same_forward n c Hc) as (c' & Hc' & H1 & H2 & H3);
    exists c'; rewrite H3; [done|]. destruct Hp as [Hp Ha]. split_and!; [done..|]. unfold answer_of, identity in *. by rewrite H1, H2, H3.
Qed.

Lemma same_calls_ok operations negotiated : calls_ok operations calls negotiated → calls_ok operations calls' negotiated.
Proof.
  intros K. assert (∀ c c', same_call c c' → identity c' = identity c) as Hi.
  { intros c c' (H1 & H2 & H3). unfold identity. by rewrite H1, H2, H3. }
  destruct K as [K1 K2 K3 K4]. split.
  - intros id n. rewrite K1. split; intros (c & Hc & Ha & Hid).
    + destruct (same_forward n c Hc) as (c' & Hc' & _ & H2 & H3). exists c'. unfold active_call in *. rewrite H3, H2. done.
    + destruct (same_backward n c Hc) as (c' & Hc' & _ & H2 & H3). exists c'. unfold active_call in *. rewrite H3, H2 in *. done.
  - intros n c Hc. destruct (same_backward n c Hc) as (c' & Hc' & Hsc). pose proof (Hi _ _ Hsc) as E. destruct Hsc as (H1 & H2 & H3).
    pose proof (K2 n c' Hc') as Hw. unfold worker_ok, answer_of in *. by rewrite H3, E.
  - intros n c Hc Hst. destruct (same_backward n c Hc) as (c' & Hc' & Hsc). rewrite (Hi _ _ Hsc) in Hst. destruct Hsc as (H1 & _). rewrite H1.
    destruct (K3 n c' Hc' Hst) as (? & m & d & Hm & Hd & Hn). split; [done|]. destruct (same_forward m d Hd) as (d' & Hd' & E & _).
    exists m, d'. by rewrite E.
  - intros H. destruct (K4 H) as (m & d & Hd & Hn). destruct (same_forward m d Hd) as (d' & Hd' & E & _). exists m, d'. by rewrite E.
Qed.
End same_calls.

(** *** Steps of the calls *)

Lemma lookup_snoc_last {A} (l : list A) x : (l ++ [x]) !! length l = Some x.
Proof. by apply list_lookup_middle. Qed.

Lemma lookup_snoc_Some {A} (l : list A) x i y : (l ++ [x]) !! i = Some y ↔ l !! i = Some y ∨ i = length l ∧ y = x.
Proof.
  rewrite lookup_app_Some. split.
  - intros [H|[Hi H]]; [by left|right]. destruct (i - length l)%nat as [|j] eqn:E; [|done]. simpl in H. injection H as ->. split; [lia|done].
  - intros [H|[-> ->]]; [by left|right]. rewrite Nat.sub_diag. done.
Qed.

Lemma calls_new operations operations' calls negotiated negotiated' c :
  calls_ok operations calls negotiated → worker_ok c →
  (negotiated' = true → negotiated = true ∨ negotiates (c_request c)) →
  (if active_call c then operations !! c_OperationID c = None ∧ operations' = <[c_OperationID c := length calls]> operations
   else operations' = operations) →
  ((identity c).2 = true → accepted (c_request c) ∧ negotiated = true) →
  calls_ok operations' (calls ++ [c]) negotiated'.
Proof.
  intros [K1 K2 K3 K4] Hw Hn Ha Hs. split.
  - intros id n. setoid_rewrite lookup_snoc_Some. destruct (active_call c) eqn:E.
    + destruct Ha as [Hfree ->]. rewrite lookup_insert_Some, K1. split.
      * intros [[<- <-]|[_ (d & Hd & ?)]]; [exists c; auto|exists d; auto].
      * intros (d & [Hd|[-> ->]] & Had & Hid); [right; split; [|eauto]|by left].
        intros Heq. rewrite Heq in Hfree. assert (operations !! id = Some n) by (apply K1; eauto). congruence.
    + subst operations'. rewrite K1. split; intros (d & Hd & Had & Hid); [exists d; auto|]. destruct Hd as [Hd|[-> ->]]; [eauto|congruence].
  - intros n d [Hd|[-> ->]]%lookup_snoc_Some; [eauto|done].
  - setoid_rewrite lookup_snoc_Some. intros n d [Hd|[-> ->]] Hst.
    + destruct (K3 n d Hd Hst) as (? & m & c' & ? & ? & ?). split; [done|]. exists m, c'. auto.
    + destruct (Hs Hst) as [? Hneg]. split; [done|]. destruct (K4 Hneg) as (m & c' & Hc' & ?). exists m, c'. split; [|auto].
      by apply lookup_lt_Some in Hc'.
  - intros H. setoid_rewrite lookup_snoc_Some. destruct (Hn H) as [H'|H']; [destruct (K4 H') as (m & c' & ? & ?); eauto 6|].
    exists (length calls), c. auto.
Qed.

Lemma calls_update operations operations' calls negotiated n c c' :
  calls_ok operations calls negotiated → calls !! n = Some c → identity c' = identity c → worker_ok c' →
  (if active_call c && negb (active_call c') then operations' = delete (c_OperationID c) operations
   else operations' = operations ∧ active_call c' = active_call c) →
  calls_ok operations' (<[n := c']> calls) negotiated.
Proof.
  intros [K1 K2 K3 K4] Hc Hi Hw Ha. pose proof (lookup_lt_Some _ _ _ Hc) as Hlt. injection Hi as Hreq Hid Hst.
  assert (∀ m d, calls !! m = Some d → ∃ d', <[n:=c']> calls !! m = Some d' ∧ c_request d' = c_request d) as Hfwd.
  { intros m d Hd. destruct (decide (m = n)) as [-> |]; [exists c'|exists d].
    - rewrite list_lookup_insert_eq by done. split; congruence.
    - by rewrite list_lookup_insert_ne. }
  split.
  - intros id m. setoid_rewrite list_lookup_insert_Some. destruct (active_call c && negb (active_call c')) eqn:E.
    + subst operations'. apply andb_true_iff in E as [E1 E2]. rewrite lookup_delete_Some, K1. split.
      * intros (Hne & d & Hd & Had & Hdid). exists d. split; [|done]. right. split; [|done]. intros <-.
        assert (d = c) by congruence. congruence.
      * intros (d & [(-> & <- & _)|(Hne & Hd)] & Had & Hdid); [rewrite Had in E2; done|]. split; [|eauto].
        intros <-. apply Hne. assert (operations !! c_OperationID c = Some n) by (apply K1; eauto).
        assert (operations !! c_OperationID c = Some m) by (apply K1; eauto). congruence.
    + destruct Ha as [-> Ha]. rewrite K1. split.
      * intros (d & Hd & Had & Hdid). destruct (decide (n = m)) as [<- |Hne]; [exists c'|exists d; auto].
        assert (d = c) as -> by congruence. split; [by left|]. split; congruence.
      * intros (d & [(-> & <- & _)|(Hne & Hd)] & Had & Hdid); [exists c|exists d]; split; try done; split; congruence.
  - intros m d [(-> & <- & _)|(Hne & Hd)]%list_lookup_insert_Some; [done|eauto].
  - intros m d Hd Hs. assert (∃ d0, calls !! m = Some d0 ∧ c_request d0 = c_request d ∧ (identity d0).2 = true) as (d0 & Hd0 & Hr & Hs0).
    { apply list_lookup_insert_Some in Hd as [(-> & <- & _)|(Hne & Hd)]; [exists c|by exists d]. split_and!; [done|congruence|].
      simpl in *. congruence. }
    destruct (K3 m d0 Hd0 Hs0) as (Hacc & m' & c'' & Hm & Hc'' & Hn). rewrite <-Hr. split; [done|].
    destruct (Hfwd m' c'' Hc'') as (d' & ? & E). exists m', d'. by rewrite E.
  - intros H. destruct (K4 H) as (m & d & Hd & Hn). destruct (Hfwd m d Hd) as (d' & ? & E). exists m, d'. by rewrite E.
Qed.

Lemma identity_update (calls : list rpc_call) n c c' : calls !! n = Some c → identity c' = identity c → identity <$> <[n := c']> calls = identity <$> calls.
Proof. intros Hc Hi. rewrite list_fmap_insert, Hi. apply list_insert_id. by rewrite list_lookup_fmap, Hc. Qed.

Lemma reader_update r calls n c c' :
  reader_ok r calls → calls !! n = Some c → c_phase c ≠ Answered → reader_ok r (<[n := c']> calls).
Proof.
  intros Hr Hc Hp. unfold reader_ok in *. destruct r; try done; destruct Hr as (d & Hd & Ha); exists d;
    (rewrite list_lookup_insert_ne; [done|]; intros ->; assert (d = c) by congruence; naive_solver).
Qed.

Lemma open_update r calls n c c' m :
  calls !! n = Some c → open_call r (<[n := c']> calls) m =
    if decide (m = n) then match c_phase c' with Answered => holds_answer r n | Finished => false | _ => true end else open_call r calls m.
Proof.
  intros Hc. unfold open_call. case_decide as E; [subst m|].
  - rewrite list_lookup_insert_eq by (by apply lookup_lt_Some in Hc). done.
  - by rewrite list_lookup_insert_ne.
Qed.

Lemma open_new r calls c m :
  open_call r (calls ++ [c]) m =
    if decide (m = length calls) then match c_phase c with Answered => holds_answer r m | Finished => false | _ => true end else open_call r calls m.
Proof.
  unfold open_call. case_decide as E; [subst m; by rewrite lookup_snoc_last|].
  destruct (decide (m < length calls)%nat); [by rewrite lookup_app_l|].
  rewrite (lookup_ge_None_2 (calls ++ [c])), (lookup_ge_None_2 calls) by (rewrite ?length_app; simpl; lia). done.
Qed.

Lemma settled_lookup calls n c : forallb settled_call calls = true → calls !! n = Some c → settled_call c = true.
Proof. intros H Hc. rewrite forallb_forall in H. apply H. apply list_elem_of_In. by eapply list_elem_of_lookup_2. Qed.

(** *** The channel *)

Lemma enqueue_cases session prefer e s :
  closed s = false →
  ∃ outgoing stopped, enqueue session prefer e s = s <| st_outgoing := outgoing |> <| st_stopped := stopped |> ∧
    (outgoing = st_outgoing s ++ [e] ∧ stopped = st_stopped s ∧ (length (st_outgoing s) < buffer_size session)%nat ∨
     outgoing = st_outgoing s ∧ stopped = true).
Proof.
  intros Hc. unfold enqueue. rewrite Hc. destruct (_ && _) eqn:E.
  - apply andb_true_iff in E as [E%Nat.ltb_lt _]. exists (st_outgoing s ++ [e]), (st_stopped s). split; [by destruct s|]. by left.
  - exists (st_outgoing s), true. split; [by destruct s|]. by right.
Qed.

Lemma enqueue_control session prefer e s : control session s → closed s = false → control session (enqueue session prefer e s).
Proof.
  intros [] Hc. destruct (enqueue_cases session prefer e s Hc) as (out & st & -> & Hcase). split; try done; simpl.
  - destruct Hcase as [(-> & -> & ?)|[-> ->]]; [rewrite length_app; simpl; lia|done].
  - revert v_writer0. unfold writer_ok. simpl. unfold closed in *. simpl. destruct (st_writer s) as [| |[]]; try done.
    + destruct Hcase as [(-> & -> & ?)|[-> ->]]; done.
    + intros [H _]. congruence.
  - intros H. destruct (v_readErr0 H) as [?|?]; [left|by right]. destruct Hcase as [(-> & -> & ?)|[-> ->]]; done.
Qed.

Lemma enqueue_sent session prefer e s :
  closed s = false →
  sent e (stream s) (stream (enqueue session prefer e s)) (st_stopped s) (st_stopped (enqueue session prefer e s)) ∧
  st_calls (enqueue session prefer e s) = st_calls s ∧ st_reader (enqueue session prefer e s) = st_reader s ∧
  st_next (enqueue session prefer e s) = st_next s.
Proof.
  intros Hc. destruct (enqueue_cases session prefer e s Hc) as (out & st & -> & Hcase). split; [|done].
  unfold sent, stream. simpl. destruct Hcase as [(-> & -> & ?)|[-> ->]]; [left|by right]. by rewrite !app_assoc.
Qed.

Lemma enqueue_next session prefer e s : st_next (enqueue session prefer e s) = st_next s.
Proof. unfold enqueue. destruct (closed s); [done|]. by destruct (_ && _). Qed.

(** *** Steps of the session *)

Definition sound (session : Session) (s : state) : Prop := control session s ∧ sends s.

Lemma reader_sound session s r err :
  sound session s → closed s = false → (∀ n, holds_answer (st_reader s) n = false) →
  match r with Looping | Reading | Leaving => True | _ => False end → (err = true → r = Leaving ∨ st_stopped s = true) →
  sound session (s <| st_readErr := err |> <| st_reader := r |>).
Proof.
  intros [[] T] Hc Hh Hr Herr. split.
  - split; try done; simpl.
    + by destruct r.
    + unfold closed. simpl. by destruct r.
    + revert v_writer0. unfold writer_ok. simpl. destruct (st_writer s) as [| |[]]; try done. unfold closed in *. simpl. intros [? _]. congruence.
    + intros H. destruct (Herr H); auto.
    + unfold result_ok. simpl. by destruct r.
  - unfold sends in *. simpl. eapply tr_open; [exact T|]. intros n _. unfold open_call. simpl.
    destruct (st_calls s !! n) as [c|]; [|done]. destruct (c_phase c); try done. rewrite Hh. by destruct r.
Qed.

Lemma answered_sound session s request id r negotiated :
  sound session s → st_reader s = Reading → (∀ n, holds_answer r n = bool_decide (length (st_calls s) = n)) →
  reader_ok r (st_calls s ++ [mkCall request id None Answered]) →
  (negotiated = true → st_negotiated s = true ∨ negotiates request) →
  sound session (s <| st_calls := st_calls s ++ [mkCall request id None Answered] |> <| st_reader := r |> <| st_negotiated := negotiated |>).
Proof.
  intros [[] T] Hr Hh Hok Hneg.
  assert ((∃ n x, r = Replying n x) ∨ ∃ n t, r = Cancelling n t) as Hcase.
  { pose proof (Hh (length (st_calls s))) as E. rewrite bool_decide_true in E by done. destruct r; try done; eauto. }
  split.
  - split; try done; simpl.
    + eapply calls_new; try done.
    + unfold closed. simpl. destruct Hcase as [(? & ? & ->)|(? & ? & ->)]; done.
    + revert v_writer0. unfold writer_ok, closed. simpl. rewrite Hr. destruct (st_writer s) as [| |[]]; try done. by intros [? _].
    + intros H. destruct (v_readErr0 H) as [?|?]; [by left|congruence].
    + unfold result_ok. simpl. destruct Hcase as [(? & ? & ->)|(? & ? & ->)]; done.
  - unfold sends in *. simpl. rewrite fmap_app. eapply tr_new; [exact T|..].
    + rewrite length_fmap, open_new, decide_True by done. simpl. rewrite Hh. by apply bool_decide_eq_true.
    + intros m Hm. rewrite length_fmap in Hm. rewrite open_new, decide_False by lia. unfold open_call.
      destruct (st_calls s !! m) as [c|]; [|done]. destruct (c_phase c); try done. rewrite Hh, Hr. apply bool_decide_eq_false. lia.
Qed.

Lemma negotiated_same s calls r :
  s <| st_calls := calls |> <| st_reader := r |> = s <| st_calls := calls |> <| st_reader := r |> <| st_negotiated := st_negotiated s |>.
Proof. by destruct s. Qed.

Lemma reply_sound session s request response negotiated :
  sound session s → st_reader s = Reading →
  rs_Version response = ProtocolVersion → rs_ID response = rq_ID request → rs_Type response = "response" →
  (negotiated = true → st_negotiated s = true ∨ negotiates request) →
  sound session (s <| st_calls := st_calls s ++ [mkCall request (rq_OperationID request) None Answered] |>
                   <| st_reader := Replying (length (st_calls s)) response |> <| st_negotiated := negotiated |>).
Proof.
  intros Hs Hr Hv Hid Ht Hn. apply answered_sound; try done.
  simpl. eexists. split; [apply lookup_snoc_last|]. split; [done|]. split; [|done]. split_and!; [done..|by left].
Qed.

Lemma validateRequest_type request :
  validateRequest request = Ok tt → rq_Type request ≠ "cancel" → rq_Type request = "request".
Proof.
  unfold validateRequest. intros H Hc. ok_inv.
  match goal with H : (if bool_decide (rq_Type request = "request") then _ else _) = Ok _ |- _ => revert H end.
  destruct (decide (rq_Type request = "request")); [done|]. by rewrite !bool_decide_false.
Qed.

Lemma running_sound session s request id :
  sound session s → st_reader s = Reading → st_operations s !! id = None → accepted request → st_negotiated s = true →
  sound session (s <| st_operations := <[id := length (st_calls s)]> (st_operations s) |>
                   <| st_calls := st_calls s ++ [mkCall request id None Running] |> <| st_reader := Looping |>).
Proof.
  intros [[] T] Hr Hid Hacc Hneg. split.
  - split; try done; simpl.
    + eapply calls_new; try done. auto.
    + revert v_writer0. unfold writer_ok, closed. simpl. rewrite Hr. destruct (st_writer s) as [| |[]]; try done.
    + intros H. destruct (v_readErr0 H) as [?|?]; [by left|congruence].
  - unfold sends in *. simpl. rewrite fmap_app. eapply tr_new; [exact T|..].
    + rewrite length_fmap, open_new, decide_True by done. done.
    + intros m Hm. rewrite length_fmap in Hm. rewrite open_new, decide_False by lia. unfold open_call.
      destruct (st_calls s !! m) as [c|]; [|done]. destruct (c_phase c); try done. by rewrite Hr.
Qed.

Lemma accept_sound session request s : sound session s → st_reader s = Reading → sound session (accept session request s).
Proof.
  intros Hs Hr. unfold accept. destruct (validateRequest request) as [[]|err] eqn:Ev.
  2:{ rewrite negotiated_same. apply reply_sound; auto. }
  case_bool_decide as Ec.
  { destruct (st_operations s !! rq_OperationID request) as [t|]; rewrite negotiated_same.
    - apply answered_sound; auto. simpl. eexists. split; [apply lookup_snoc_last|done].
    - apply reply_sound; auto. }
  pose proof (validateRequest_type request Ev Ec) as Ht. case_bool_decide as Em.
  { apply reply_sound; auto. by right. }
  destruct (st_negotiated s) eqn:En.
  2:{ cbn [negb]. rewrite negotiated_same. apply reply_sound; auto. }
  cbn [negb]. match goal with |- context [st_operations s !! ?id] => destruct (st_operations s !! id) eqn:Eo end.
  - rewrite negotiated_same. apply reply_sound; auto.
  - apply running_sound; try done.
Qed.

(** Calls that change only by a cancellation. *)
Lemma same_sound session s calls : sound session s → Forall2 same_call (st_calls s) calls → sound session (s <| st_calls := calls |>).
Proof.
  intros [[] T] Hs. split.
  - split; try done; simpl; [by eapply same_calls_ok|by eapply same_reader|]. intros H. rewrite (same_settled Hs). auto.
  - unfold sends in *. simpl. rewrite (same_identities Hs). eapply tr_open; [exact T|]. intros n _. apply (same_open Hs).
Qed.

Lemma stop_sound session s : sound session s → sound session (s <| st_stopped := true |>).
Proof.
  intros [[] T]. split; [|by eapply tr_stop]. split; try done; simpl; [|by left].
  revert v_writer0. unfold writer_ok. simpl. by destruct (st_writer s) as [| |[]].
Qed.

Lemma answer_sound session prefer s n response :
  control session s → closed s = false →
  (∀ l' stopped', sent (n, response) (stream s) l' (st_stopped s) stopped' →
    transcript (identity <$> st_calls s) (open_call (st_reader s) (st_calls s)) l' stopped' (st_next s)) →
  sound session (enqueue session prefer (n, response) s).
Proof.
  intros Hc Hcl Ht. split; [by apply enqueue_control|]. unfold sends.
  destruct (enqueue_sent session prefer (n, response) s Hcl) as (Hsent & -> & -> & ->). by apply Ht.
Qed.

Lemma looping_control session s n response :
  control session s → st_reader s = Replying n response → control session (s <| st_reader := Looping |>).
Proof.
  intros [] Hr. split; try done; simpl.
  - revert v_writer0. unfold writer_ok, closed. simpl. rewrite Hr. by destruct (st_writer s) as [| |[]].
  - intros H. destruct (v_readErr0 H); [by left|congruence].
Qed.

Lemma reading_step_sound session prefer s n response :
  sound session s → st_reader s = Replying n response →
  sound session (enqueue session prefer (n, response) (s <| st_reader := Looping |>)).
Proof.
  intros [K T] Hr. apply answer_sound; [by eapply looping_control|done|]. intros l' stopped' Hsent. simpl in Hsent |- *.
  pose proof (v_reader _ _ K) as Hok. rewrite Hr in Hok. destruct Hok as (c & Hc & Hp & Hb & Ht).
  unfold sends in T. rewrite Hr in T.
  eapply (tr_answer T n (identity c) response); try done.
  - by rewrite list_lookup_fmap, Hc.
  - unfold open_call. rewrite Hc, Hp. simpl. by apply bool_decide_eq_true.
  - unfold open_call. by rewrite Hc, Hp.
  - intros m Hm _. unfold open_call. destruct (st_calls s !! m) as [d|]; [|done]. destruct (c_phase d); try done. simpl.
    symmetry. by apply bool_decide_eq_false.
Qed.

Lemma cancel_sound session s n t : sound session s → st_reader s = Cancelling n t → sound session (cancel_operation n t s).
Proof.
  intros Hs Hr. unfold cancel_operation. destruct (st_calls s !! n) as [c0|] eqn:Hc0; [|done].
  pose proof (v_reader _ _ (proj1 Hs)) as Hok. rewrite Hr in Hok. destruct Hok as (c & Hc & Hp). assert (c0 = c) as -> by congruence.
  pose proof (alter_same (cancel ByClient) t (st_calls s) (cancel_same ByClient)) as Hsame.
  destruct (same_sound session s _ Hs Hsame) as [[] T]. destruct (same_forward Hsame n c Hc) as (c' & Hc' & Hcc). split.
  - split; try done; simpl.
    + exists c'. destruct Hcc as (H1 & H2 & H3). split; [done|]. split; [congruence|]. split; [|done].
      unfold belongs. simpl. split_and!; [done|by rewrite H1|by left].
    + revert v_writer0. unfold writer_ok, closed. simpl. rewrite Hr. by destruct (st_writer s) as [| |[]].
    + intros H. destruct (v_readErr0 H) as [?|H']; [by left|]. simpl in H'. congruence.
  - unfold sends in *. simpl in *. rewrite Hr in T. exact T.
Qed.

Lemma leave_sound session s : sound session s → st_reader s = Leaving → sound session (leave session s).
Proof.
  intros Hs Hr. unfold leave. set (stopped := st_stopped s || st_readErr s || negb (DrainOnEOF session)).
  set (calls := if stopped then _ else _).
  assert (Forall2 same_call (st_calls s) calls) as Hsame.
  { subst calls. destruct stopped; [|by apply reflexivity]. apply Forall2_same_length_lookup_2; [by rewrite length_imap|].
    intros i x y Hx. rewrite list_lookup_imap, Hx. intros [= <-]. by case_bool_decide. }
  assert (sound session (s <| st_stopped := stopped |>)) as Hs'.
  { destruct stopped eqn:E; [by apply stop_sound|]. subst stopped. destruct (st_stopped s) eqn:Es; [done|].
    replace (s <| st_stopped := false |>) with s by (destruct s; simpl in *; by subst). done. }
  destruct (same_sound session _ calls Hs' Hsame) as [[] T]. split.
  - split; try done; simpl.
    + revert v_writer0. unfold writer_ok, closed. simpl. rewrite Hr. by destruct (st_writer s) as [| |[]].
    + intros H. simpl in H. left. subst stopped. rewrite H. by destruct (st_stopped s).
  - unfold sends in *. simpl in *. rewrite Hr in T. exact T.
Qed.

Lemma read_step_sound session a s s' :
  sound session s → read_step session a s = Some s' → sound session s' ∧ st_next s' = st_next s.
Proof.
  intros Hs. unfold read_step. destruct (st_reader s) eqn:Hr; destruct a; intros [= <-]; split; try done.
  - replace (s <| st_reader := _ |>) with
      (s <| st_readErr := st_readErr s |> <| st_reader := if st_stopped s then Leaving else Reading |>) by (by destruct s).
    apply reader_sound; [done|by unfold closed; rewrite Hr|by rewrite Hr|by destruct (st_stopped s)|].
    intros H. destruct (v_readErr _ _ (proj1 Hs) H); [by right|congruence].
  - by apply accept_sound.
  - unfold accept. destruct (validateRequest _); [|done]. case_bool_decide; [by destruct (st_operations s !! _)|].
    case_bool_decide; [done|]. destruct (negb _); [done|]. by destruct (st_operations s !! _).
  - apply reader_sound; [done|by unfold closed; rewrite Hr|by rewrite Hr|done|by left].
  - by apply cancel_sound.
  - unfold cancel_operation. by destruct (st_calls s !! number).
  - by apply reading_step_sound.
  - by rewrite enqueue_next.
  - by apply leave_sound.
Qed.

(** A worker moves its call from one phase to another; the operation is released or stays. *)
Lemma worker_control session s operations n c c' :
  control session s → st_calls s !! n = Some c → settled_call c = false → identity c' = identity c → worker_ok c' →
  (if active_call c && negb (active_call c') then operations = delete (c_OperationID c) (st_operations s)
   else operations = st_operations s ∧ active_call c' = active_call c) →
  control session (s <| st_operations := operations |> <| st_calls := <[n := c']> (st_calls s) |>).
Proof.
  intros [] Hc Hset Hi Hw Ho. split; try done; simpl.
  - by eapply calls_update.
  - eapply reader_update; [done..|]. intros E. unfold settled_call in Hset. by rewrite E in Hset.
  - intros H. pose proof (settled_lookup _ n c (v_closed0 H) Hc). congruence.
Qed.

Lemma worker_sound session s operations n c c' :
  sound session s → st_calls s !! n = Some c → settled_call c = false → settled_call c' = false → identity c' = identity c → worker_ok c' →
  (if active_call c && negb (active_call c') then operations = delete (c_OperationID c) (st_operations s)
   else operations = st_operations s ∧ active_call c' = active_call c) →
  sound session (s <| st_operations := operations |> <| st_calls := <[n := c']> (st_calls s) |>).
Proof.
  intros [K T] Hc Hset Hset' Hi Hw Ho. split; [by eapply worker_control|]. unfold sends in *. simpl. rewrite (identity_update _ n c) by done.
  eapply tr_open; [exact T|]. intros m _. rewrite (open_update _ _ _ c) by done. case_decide as E; [subst m|done].
  unfold open_call. rewrite Hc. unfold settled_call in *. by destruct (c_phase c), (c_phase c').
Qed.

Lemma worker_open session s n c : control session s → st_calls s !! n = Some c → settled_call c = false → closed s = false.
Proof.
  intros [] Hc Hset. destruct (closed s) eqn:E; [|done]. pose proof (settled_lookup _ n c (v_closed0 eq_refl) Hc). congruence.
Qed.

Lemma respond_answer c outcome : answer_of c (respond c outcome).
Proof. split; [|by destruct outcome]. destruct outcome; (split_and!; [done..|by left]). Qed.

Lemma send_sound session prefer s n c response :
  sound session s → st_calls s !! n = Some c → c_phase c = Released response →
  sound session (enqueue session prefer (n, response) (put_phase n Finished c s)).
Proof.
  intros [K T] Hc Hp. assert (settled_call c = false) as Hset by (unfold settled_call; by rewrite Hp).
  assert (identity (c <| c_phase := Finished |>) = identity c) as Hi by (unfold identity; simpl; by rewrite Hp).
  pose proof (worker_open _ _ _ _ K Hc Hset) as Hcl.
  assert (control session (put_phase n Finished c s)) as K'.
  { unfold put_phase. replace (s <| st_calls := _ |>) with
      (s <| st_operations := st_operations s |> <| st_calls := <[n := c <| c_phase := Finished |>]> (st_calls s) |>) by (by destruct s).
    eapply worker_control; try done. unfold active_call. by rewrite Hp. }
  apply answer_sound; [done..|]. intros l' stopped' Hsent. simpl in Hsent |- *. rewrite (identity_update _ n c) by done.
  pose proof (k_worker _ _ _ (v_calls _ _ K) n c Hc) as Hw. unfold worker_ok in Hw. rewrite Hp in Hw. destruct Hw as [Hb Ht].
  unfold sends in T. eapply (tr_answer T n (identity c) response); try done.
  - by rewrite list_lookup_fmap, Hc.
  - unfold open_call. by rewrite Hc, Hp.
  - rewrite (open_update _ _ _ c) by done. by rewrite decide_True.
  - intros m Hm _. rewrite (open_update _ _ _ c) by done. by rewrite decide_False.
Qed.

Lemma emit_sound session prefer s n c event data :
  sound session s → st_calls s !! n = Some c → c_phase c = Running → st_next s + 1 < 2 ^ 64 →
  sound session (publish session prefer n
    (mkResponse ProtocolVersion "event" (rq_ID (c_request c)) (c_OperationID c) 0 0 event None None data) s) ∧
  st_next (publish session prefer n
    (mkResponse ProtocolVersion "event" (rq_ID (c_request c)) (c_OperationID c) 0 0 event None None data) s) = st_next s + 1.
Proof.
  intros [K T] Hc Hp Hlt. assert (settled_call c = false) as Hset by (unfold settled_call; by rewrite Hp).
  pose proof (worker_open _ _ _ _ K Hc Hset) as Hcl. pose proof (t_next _ _ _ _ _ T) as Hpos.
  unfold publish. cbn [rs_Version rs_Type rs_ID rs_OperationID rs_Event rs_Result rs_Error rs_Data]. rewrite Z.mod_small by lia.
  split; [|by rewrite enqueue_next].
  apply answer_sound; [by destruct K|done|]. intros l' stopped' Hsent. simpl in Hsent |- *.
  eapply (tr_event T n (identity c)); [| | | | |exact Hsent]; try done.
  - by rewrite list_lookup_fmap, Hc.
  - unfold belongs. simpl. rewrite Hp. split_and!; [done..|]. by right.
  - unfold open_call. by rewrite Hc, Hp.
Qed.

Lemma operations_same s calls : s <| st_calls := calls |> = s <| st_operations := st_operations s |> <| st_calls := calls |>.
Proof. by destruct s. Qed.

Lemma worker_step_sound session n a s s' :
  sound session s → st_next s + 1 < 2 ^ 64 → worker_step session n a s = Some s' →
  sound session s' ∧ st_next s' ≤ st_next s + 1.
Proof.
  intros Hs Hlt. unfold worker_step. destruct (st_calls s !! n) as [c|] eqn:Hc; [|done].
  assert (∀ p, c_phase c ≠ Answered → p ≠ Answered → identity (c <| c_phase := p |>) = identity c) as Hi.
  { intros p H1 H2. unfold identity. simpl. by destruct (c_phase c), p. }
  destruct (c_phase c) eqn:Hp; destruct a; intros [= <-]; try done.
  - destruct (emit_sound session prefer_done s n c event data) as [H1 H2]; [done..|]. split; [done|]. rewrite H2. lia.
  - split; [|simpl; lia]. unfold put_phase. rewrite operations_same. eapply worker_sound; try done; unfold settled_call, active_call; rewrite ?Hp; try (by apply Hi); try done.
  - split; [|simpl; lia]. unfold put_phase. rewrite operations_same. eapply worker_sound; try done; unfold settled_call, active_call; rewrite ?Hp; try (by apply Hi); try done.
    change (answer_of (c <| c_phase := Responding (respond c result) |>) (respond c result)). unfold answer_of. rewrite Hi by done. apply respond_answer.
  - split; [|simpl; lia]. unfold finish_call. pose proof (cancel_same ByContext c) as (E1 & E2 & E3).
    assert (identity (cancel ByContext c <| c_phase := Released response |>) = identity c) as Hid.
    { unfold identity. simpl. by rewrite E1, E2, Hp. }
    eapply worker_sound; try done; unfold settled_call, active_call; rewrite ?Hp; try done.
    pose proof (k_worker _ _ _ (v_calls _ _ (proj1 Hs)) n c Hc) as Hw. unfold worker_ok, answer_of in Hw. rewrite Hp in Hw.
    change (answer_of (cancel ByContext c <| c_phase := Released response |>) response). unfold answer_of. by rewrite Hid.
  - split; [by apply send_sound|]. rewrite enqueue_next. simpl. lia.
Qed.

Lemma write_step_sound session a s s' :
  sound session s → writer_step a s = Some s' → sound session s' ∧ st_next s' = st_next s.
Proof.
  intros [K T]. unfold writer_step. destruct (st_writer s) as [|e|] eqn:Hw; destruct a; try done.
  - destruct (st_outgoing s) as [|x l] eqn:Ho; [done|]. intros [= <-]. split; [|done]. destruct K. rewrite Ho in v_room0. split.
    + split; try done; simpl in *; [lia|]. revert v_result0. unfold result_ok. simpl. destruct (st_reader s); try done.
      intros (f & ? & _). congruence.
    + unfold sends, stream in *. simpl in *. by rewrite Hw, Ho in T.
  - destruct (closed s && _) eqn:E; [|done]. intros [= <-]. split; [|done]. apply andb_true_iff in E as [E1 E2%bool_decide_eq_true]. destruct K. split.
    + split; try done. revert v_result0. unfold result_ok. simpl. destruct (st_reader s); try done. intros (f & ? & _). congruence.
    + unfold sends, stream in *. simpl in *. by rewrite Hw in T.
  - intros [= <-]. split; [|by destruct failed]. destruct K, failed; split.
    + split; try done; simpl; [by left|]. revert v_result0. unfold result_ok. simpl. destruct (st_reader s); try done. intros (f & ? & _). congruence.
    + unfold sends, stream in *. simpl in *. rewrite Hw in T. eapply tr_lost; [exact T|]. apply sublist_app; [done|]. by apply sublist_cons.
    + split; try done; simpl. revert v_result0. unfold result_ok. simpl. destruct (st_reader s); try done. intros (f & ? & _). congruence.
    + unfold sends, stream in *. simpl in *. rewrite Hw in T. by rewrite <-app_assoc.
Qed.

Lemma end_step_sound session a s s' :
  sound session s → end_step a s = Some s' → sound session s' ∧ st_next s' = st_next s.
Proof.
  intros [K T]. unfold end_step. destruct (st_reader s) eqn:Hr; destruct a; try done.
  - destruct (forallb settled_call (st_calls s)) eqn:E; [|done]. intros [= <-]. split; [|done]. destruct K. split.
    + split; try done; simpl.
      * revert v_writer0. unfold writer_ok, closed. simpl. rewrite Hr. destruct (st_writer s) as [| |[]]; naive_solver.
      * intros H. destruct (v_readErr0 H); [by left|congruence].
    + unfold sends in *. simpl. by rewrite Hr in T.
  - destruct (st_writer s) as [| |f] eqn:Hw; try done. intros [= <-]. split; [|done]. destruct K. split.
    + split; try done; simpl.
      * intros _. apply v_closed0. unfold closed. by rewrite Hr.
      * revert v_writer0. unfold writer_ok, closed. simpl. by rewrite Hr.
      * intros H. destruct (v_readErr0 H); [by left|congruence].
      * unfold result_ok. simpl. eauto.
    + unfold sends in *. simpl. by rewrite Hr in T.
Qed.

Lemma context_step_sound session a s s' :
  sound session s → context_step a s = Some s' → sound session s' ∧ st_next s' = st_next s.
Proof.
  intros Hs. unfold context_step. destruct a; try done.
  - destruct (st_calls s !! number) as [c|] eqn:Hc; [|done]. destruct (c_cause c) eqn:Hca; [done|]. destruct (_ || _); [|done].
    intros [= <-]. split; [|done]. apply same_sound; [done|].
    replace (<[number := cancel ByContext c]> (st_calls s)) with (alter (cancel ByContext) number (st_calls s)).
    { by apply alter_same. }
    apply list_eq. intros i. destruct (decide (i = number)) as [-> |].
    + rewrite list_lookup_alter_eq, Hc, list_lookup_insert_eq by (by apply lookup_lt_Some in Hc). done.
    + by rewrite list_lookup_alter_ne, list_lookup_insert_ne.
  - destruct (st_stopped s); [done|]. intros [= <-]. split; [|done]. by apply stop_sound.
Qed.

Lemma session_step_sound session a s s' :
  sound session s → st_next s + 1 < 2 ^ 64 → session_step session a s = Some s' →
  sound session s' ∧ st_next s' ≤ st_next s + 1.
Proof.
  intros Hs Hlt. unfold session_step.
  assert (∀ s'', sound session s'' ∧ st_next s'' = st_next s → sound session s'' ∧ st_next s'' ≤ st_next s + 1) as He.
  { intros s'' [? ->]. split; [done|lia]. }
  destruct a; intros H; eauto using read_step_sound, write_step_sound, end_step_sound, context_step_sound, worker_step_sound.
Qed.

Lemma initial_sound session : sound session initial.
Proof.
  split.
  - split; try done; simpl; [lia|]. split; try done. intros id n. split; [done|]. by intros (c & ? & _).
  - split; simpl; try (intros e He; by apply elem_of_nil in He); try done; [|constructor..]. intros n _ Hn. lia.
Qed.

Lemma run_sound session actions s s' :
  sound session s → st_next s + Z.of_nat (length actions) < 2 ^ 64 → session_run session actions s = Some s' →
  sound session s' ∧ st_next s' ≤ st_next s + Z.of_nat (length actions).
Proof.
  revert s. induction actions as [|a actions IH]; intros s Hs Hn; cbn [session_run length] in *.
  - intros [= <-]. split; [done|lia].
  - destruct (session_step session a s) as [s1|] eqn:E; [|done]. intros H.
    destruct (session_step_sound session a s s1) as [H1 H2]; [done|lia|done|].
    destruct (IH s1) as [? ?]; [done|lia|done|]. split; [done|lia].
Qed.

Lemma reach_sound session actions s :
  session_run session actions initial = Some s → Z.of_nat (length actions) < 2 ^ 64 → sound session s.
Proof. intros H Hn. by destruct (run_sound session actions initial s (initial_sound session) Hn H). Qed.

(** ** Theorems *)

(** C19: The shared state is consistent in every interleaving.  An operation is in the map exactly while
    a worker runs for it, so that two running calls never share an identifier; a worker runs only a
    valid request, read after a valid negotiation; the channel stays within its bound; and nothing is
    sent on it after it was closed. *)
Theorem session_consistent session actions s :
  session_run session actions initial = Some s → Z.of_nat (length actions) < 2 ^ 64 →
  (∀ id n, st_operations s !! id = Some n ↔ ∃ c, st_calls s !! n = Some c ∧ active_call c = true ∧ c_OperationID c = id) ∧
  (∀ n c, st_calls s !! n = Some c → c_phase c ≠ Answered →
     accepted (c_request c) ∧ ∃ m c', (m < n)%nat ∧ st_calls s !! m = Some c' ∧ negotiates (c_request c')) ∧
  (length (st_outgoing s) ≤ buffer_size session)%nat ∧ st_panicked s = false.
Proof.
  intros H Hn. destruct (reach_sound _ _ _ H Hn) as [[] _]. destruct v_calls0 as [K1 K2 K3 K4]. split_and!; try done.
  intros n c Hc Hp. apply (K3 n c Hc). unfold identity. simpl. by destruct (c_phase c).
Qed.

Lemma answers_last_split l1 e l2 : answers_last (l1 ++ e :: l2) → is_response e = true → ∀ e', e' ∈ l2 → e'.1 ≠ e.1.
Proof.
  induction l1 as [|x l1 IH]; simpl; intros [Hx Hl]; [|by apply IH]. intros Hr e' He' E. apply (Hx Hr). rewrite <-E.
  by apply list_elem_of_fmap_2.
Qed.

Definition responses_to (n : nat) (l : list (nat * Response)) : list (nat * Response) :=
  filter (λ e, e.1 = n ∧ is_response e = true) l.

Lemma answers_last_one n l e : answers_last l → e ∈ l → e.1 = n → is_response e = true → responses_to n l = [e].
Proof.
  unfold responses_to. induction l as [|x l IH]; intros Ha He Hn Hr; [by apply elem_of_nil in He|].
  destruct Ha as [Hx Ha]. apply elem_of_cons in He as [-> |He].
  - rewrite filter_cons_True by done. f_equal. destruct (filter _ l) as [|y k] eqn:E; [done|].
    assert (y ∈ filter (λ e, e.1 = n ∧ is_response e = true) l) as Hy by (rewrite E; left).
    apply list_elem_of_filter in Hy as [[Hy _] Hin]. destruct (Hx Hr). rewrite Hn, <-Hy. by apply list_elem_of_fmap_2.
  - destruct (decide (x.1 = n ∧ is_response x = true)) as [[H1 H2]|Hno]; [|rewrite filter_cons_False by done; by apply IH].
    destruct (Hx H2). rewrite H1, <-Hn. by apply list_elem_of_fmap_2.
Qed.

(** C18: What the client sees is ordered.  Every frame belongs to a request that was read and carries its
    identifiers; events are numbered upwards over the whole session; after the response to a request
    nothing of that request follows, and its operation is released before, so that the identifier can
    be used again at once. *)
Theorem session_ordered session actions s :
  session_run session actions initial = Some s → Z.of_nat (length actions) < 2 ^ 64 →
  (∀ e, e ∈ stream s → ∃ c, st_calls s !! e.1 = Some c ∧ rs_ID e.2 = rq_ID (c_request c) ∧
     (is_response e = true ∨ rs_Type e.2 = "event" ∧ c_phase c ≠ Answered ∧ rs_OperationID e.2 = c_OperationID c)) ∧
  StronglySorted Z.lt (event_numbers (stream s)) ∧
  (∀ l1 e l2, stream s = l1 ++ e :: l2 → is_response e = true →
     (∀ e', e' ∈ l2 → e'.1 ≠ e.1) ∧ (∀ id, st_operations s !! id ≠ Some e.1)).
Proof.
  intros H Hn. destruct (reach_sound _ _ _ H Hn) as [K T]. split_and!.
  - intros e He. destruct (t_belongs _ _ _ _ _ T e He) as (id & Hid & _ & Hi & Hb). rewrite list_lookup_fmap in Hid.
    destruct (st_calls s !! e.1) as [c|]; [|done]. injection Hid as <-. exists c. split_and!; [done..|].
    destruct Hb as [Hb|(Hb & Hst & Hop & _)]; [left; by apply bool_decide_eq_true|right]. split_and!; [done| |done].
    intros E. simpl in Hst. by rewrite E in Hst.
  - apply T.
  - intros l1 e l2 El Hr. split.
    + pose proof (t_last _ _ _ _ _ T) as Hl. rewrite El in Hl. by apply (answers_last_split l1).
    + intros id Hid. apply (k_operations _ _ _ (v_calls _ _ K)) in Hid as (c & Hc & Ha & _).
      assert (open_call (st_reader s) (st_calls s) e.1 = false) as Ho.
      { apply (t_open _ _ _ _ _ T); [|done]. rewrite El. set_solver. }
      unfold open_call in Ho. rewrite Hc in Ho. unfold active_call in Ha. by destruct (c_phase c).
Qed.

(** C17: A session that is never stopped loses nothing.  When [Serve] returns then, it returns no error,
    every request that was read has exactly one response, and all events were written, numbered from
    one without a gap. *)
Theorem session_drains session actions s err :
  session_run session actions initial = Some s → Z.of_nat (length actions) < 2 ^ 64 →
  st_reader s = Returned err → st_stopped s = false →
  err = None ∧ (∀ n, (n < length (st_calls s))%nat → ∃ e, responses_to n (st_written s) = [e]) ∧
  event_numbers (st_written s) = seqZ 1 (st_next s).
Proof.
  intros H Hn Hr Hst. destruct (reach_sound _ _ _ H Hn) as [[] T].
  unfold result_ok in *. rewrite Hr in v_result0. destruct v_result0 as (failed & Hw & ->).
  unfold writer_ok in v_writer0. rewrite Hw in v_writer0. destruct failed; [congruence|]. destruct v_writer0 as [Hcl Ho].
  destruct (st_readErr s) eqn:Ere; [destruct (v_readErr0 eq_refl); congruence|].
  assert (stream s = st_written s) as Es by (unfold stream; by rewrite Hw, Ho, !app_nil_r).
  rewrite <-Es. split_and!; [done| |by apply T].
  intros n Hlt. destruct (t_all _ _ _ _ _ T n Hst) as (e & He & En & Er).
  - by rewrite length_fmap.
  - destruct (lookup_lt_is_Some_2 _ _ Hlt) as [c Hc]. unfold open_call. rewrite Hc, Hr.
    pose proof (settled_lookup _ n c (v_closed0 Hcl) Hc) as Hset. unfold settled_call in Hset. by destruct (c_phase c).
  - exists e. apply answers_last_one; [by apply T|done..].
Qed.

(** ** Termination *)

(** The action neither reads a request nor emits an event. *)
Definition quiet_action (a : action) : bool := match a with ARead _ | AEmit _ _ _ _ => false | _ => true end.

Definition reader_work (r : reader) : nat :=
  match r with
  | Looping => 5 | Reading => 4 | Cancelling _ _ => 10 | Replying _ _ => 9 | Leaving => 3 | Waiting => 2 | Closed => 1
  | Returned _ => 0
  end.

Definition call_work (c : rpc_call) : nat :=
  (match c_phase c with Answered | Finished => 0 | Running => 7 | Handled _ => 6 | Responding _ => 5 | Released _ => 4 end) +
  match c_cause c with None => 1 | Some _ => 0 end.

Definition writer_work (w : writer) : nat := match w with Idle => 1 | Writing _ => 3 | Ended _ => 0 end.

(** A bound of the actions that are left when nothing more is read or emitted. *)
Definition work (s : state) : nat :=
  reader_work (st_reader s) + sum_list_with call_work (st_calls s) + 3 * length (st_outgoing s) +
  writer_work (st_writer s) + (if st_stopped s then 0 else 1).

Lemma sum_update (f : rpc_call → nat) calls n c c' :
  calls !! n = Some c → (sum_list_with f (<[n := c']> calls) + f c = sum_list_with f calls + f c')%nat.
Proof.
  revert n. induction calls as [|d calls IH]; intros [|n] Hc; [done..| |].
  - injection Hc as ->. simpl. lia.
  - simpl in *. specialize (IH n Hc). lia.
Qed.

Lemma cancel_work why c : (call_work (cancel why c) ≤ call_work c)%nat.
Proof. unfold cancel, call_work. destruct c as [? ? [] ?]; simpl; lia. Qed.

Lemma sum_alter f n calls :
  (∀ c, call_work (f c) ≤ call_work c)%nat → (sum_list_with call_work (alter f n calls) ≤ sum_list_with call_work calls)%nat.
Proof.
  intros Hf. revert n. induction calls as [|d calls IH]; intros [|n]; simpl; [lia..| |].
  - specialize (Hf d). lia.
  - specialize (IH n). unfold alter in IH. lia.
Qed.

Lemma sum_imap (f : nat → rpc_call → rpc_call) calls :
  (∀ n c, call_work (f n c) ≤ call_work c)%nat → (sum_list_with call_work (imap f calls) ≤ sum_list_with call_work calls)%nat.
Proof.
  revert f. induction calls as [|d calls IH]; intros f Hf; simpl; [lia|].
  pose proof (Hf 0%nat d). specialize (IH (f ∘ S) ltac:(intros; apply Hf)). lia.
Qed.

Lemma enqueue_work session prefer e s : closed s = false → (work (enqueue session prefer e s) ≤ work s + 3)%nat.
Proof.
  intros Hc. destruct (enqueue_cases session prefer e s Hc) as (out & st & -> & Hcase). unfold work. simpl.
  destruct Hcase as [(-> & -> & _)|[-> ->]]; [rewrite length_app; simpl; lia|]. destruct (st_stopped s); lia.
Qed.

Lemma put_phase_work n p c s :
  st_calls s !! n = Some c → (work (put_phase n p c s) + call_work c = work s + call_work (c <| c_phase := p |>))%nat.
Proof. intros Hc. unfold work, put_phase. simpl. pose proof (sum_update call_work _ n c (c <| c_phase := p |>) Hc). simpl in *. lia. Qed.

Lemma read_step_work session a s s' :
  sound session s → read_step session a s = Some s' → quiet_action a = true → (work s' < work s)%nat.
Proof.
  intros Hs. unfold read_step. destruct (st_reader s) eqn:Hr; destruct a; intros [= <-] Hq; try done.
  - unfold work. simpl. rewrite Hr. destruct (st_stopped s); simpl; lia.
  - unfold work. simpl. rewrite Hr. simpl. lia.
  - pose proof (v_reader _ _ (proj1 Hs)) as Hok. rewrite Hr in Hok. destruct Hok as (c & Hc & _).
    unfold cancel_operation. rewrite Hc. unfold work. simpl. rewrite Hr.
    pose proof (sum_alter (cancel ByClient) target (st_calls s) (cancel_work ByClient)). simpl. lia.
  - pose proof (enqueue_work session prefer_done (number, response) (s <| st_reader := Looping |>) eq_refl) as Hw.
    apply (Nat.le_lt_trans _ _ _ Hw). unfold work. rewrite Hr. simpl. lia.
  - unfold leave, work. simpl. rewrite Hr. set (stopped := st_stopped s || _ || _).
    assert (sum_list_with call_work (if stopped then imap (λ n c, if bool_decide (st_operations s !! c_OperationID c = Some n)
      then cancel ByContext c else c) (st_calls s) else st_calls s) ≤ sum_list_with call_work (st_calls s))%nat as Hsum.
    { destruct stopped; [|lia]. apply sum_imap. intros n c. case_bool_decide; [apply cancel_work|lia]. }
    assert ((if stopped then 0 else 1) ≤ (if st_stopped s then 0 else 1))%nat by (subst stopped; destruct (st_stopped s); simpl; [lia|destruct (_ || _); lia]).
    simpl. lia.
Qed.

Lemma worker_step_work session n a s s' :
  sound session s → worker_step session n a s = Some s' → quiet_action a = true → (work s' < work s)%nat.
Proof.
  intros Hs. unfold worker_step. destruct (st_calls s !! n) as [c|] eqn:Hc; [|done].
  assert (∀ p, c_phase c ≠ Answered → call_work (c <| c_phase := p |>) < call_work c → work (put_phase n p c s) < work s)%nat as Hput.
  { intros p _ Hlt. pose proof (put_phase_work n p c s Hc). lia. }
  destruct (c_phase c) eqn:Hp; destruct a; intros [= <-] Hq; try done.
  - apply Hput; [done|]. unfold call_work. rewrite Hp. simpl. lia.
  - apply Hput; [done|]. unfold call_work. rewrite Hp. simpl. lia.
  - unfold finish_call, work. simpl. pose proof (sum_update call_work _ n c (cancel ByContext c <| c_phase := Released response |>) Hc) as Hsum.
    assert (call_work (cancel ByContext c <| c_phase := Released response |>) < call_work c)%nat.
    { unfold call_work, cancel. rewrite Hp. destruct (c_cause c) eqn:E; simpl; [rewrite E|]; lia. }
    simpl in *. lia.
  - assert (closed s = false) as Hcl by (eapply (worker_open session); [apply Hs|done|unfold settled_call; by rewrite Hp]).
    pose proof (enqueue_work session prefer_done (n, response) (put_phase n Finished c s) Hcl).
    pose proof (put_phase_work n Finished c s Hc).
    assert (call_work (c <| c_phase := Finished |>) + 4 = call_work c)%nat by (unfold call_work; rewrite Hp; simpl; lia). lia.
Qed.

Lemma session_step_work session a s s' :
  sound session s → session_step session a s = Some s' → quiet_action a = true → (work s' < work s)%nat.
Proof.
  intros Hs. unfold session_step. destruct a; intros H Hq; try done;
    try (by eapply read_step_work); try (by eapply worker_step_work); revert H; simpl.
  - destruct (st_calls s !! number) as [c|] eqn:Hc; [|done]. destruct (c_cause c) eqn:Hca; [done|]. destruct (_ || _); [|done].
    intros [= <-]. unfold work. simpl. pose proof (sum_update call_work _ number c (cancel ByContext c) Hc).
    assert (call_work (cancel ByContext c) < call_work c)%nat by (unfold call_work, cancel; rewrite Hca; simpl; lia). lia.
  - destruct (st_stopped s) eqn:E; [done|]. intros [= <-]. unfold work. simpl. rewrite E. lia.
  - unfold writer_step. destruct (st_writer s) eqn:Hw; try done. destruct (st_outgoing s) eqn:Ho; [done|]. intros [= <-].
    unfold work. simpl. rewrite Hw, Ho. simpl. lia.
  - unfold writer_step. destruct (st_writer s) eqn:Hw; try done. intros [= <-]. unfold work.
    destruct failed; simpl; rewrite Hw; simpl; destruct (st_stopped s); lia.
  - unfold writer_step. destruct (st_writer s) eqn:Hw; try done. destruct (_ && _); [|done]. intros [= <-]. unfold work. simpl. rewrite Hw. simpl. lia.
  - unfold end_step. destruct (st_reader s) eqn:Hr; try done. destruct (forallb _ _); [|done]. intros [= <-]. unfold work. simpl. rewrite Hr. simpl. lia.
  - unfold end_step. destruct (st_reader s) eqn:Hr; try done. destruct (st_writer s); try done. intros [= <-]. unfold work. simpl. rewrite Hr. simpl. lia.
Qed.

Lemma session_run_work session actions s s' :
  sound session s → st_next s + Z.of_nat (length actions) < 2 ^ 64 → forallb quiet_action actions = true →
  session_run session actions s = Some s' → (length actions + work s' ≤ work s)%nat.
Proof.
  revert s. induction actions as [|a actions IH]; intros s Hs Hn Hq; cbn [session_run length] in *.
  - intros [= <-]. lia.
  - apply andb_true_iff in Hq as [Hqa Hq]. destruct (session_step session a s) as [s1|] eqn:E; [|done]. intros H.
    pose proof (session_step_work _ _ _ _ Hs E Hqa). destruct (session_step_sound session a s s1) as [H1 H2]; [done|lia|done|].
    specialize (IH s1 H1 ltac:(lia) Hq H). lia.
Qed.

Lemma session_progress session s :
  sound session s → (∀ err, st_reader s ≠ Returned err) → ∃ a, quiet_action a = true ∧ is_Some (session_step session a s).
Proof.
  intros Hs Hr. destruct (forallb settled_call (st_calls s)) eqn:Hset.
  - destruct (st_reader s) as [| |n t|n r| | | |err] eqn:E.
    + exists ALoop. split; [done|]. simpl. unfold read_step. rewrite E. eauto.
    + exists (AReadEnd false). split; [done|]. simpl. unfold read_step. rewrite E. eauto.
    + exists ACancel. split; [done|]. simpl. unfold read_step. rewrite E. eauto.
    + exists (AReply false). split; [done|]. simpl. unfold read_step. rewrite E. eauto.
    + exists ALeave. split; [done|]. simpl. unfold read_step. rewrite E. eauto.
    + exists AClose. split; [done|]. simpl. unfold end_step. rewrite E, Hset. eauto.
    + destruct (st_writer s) as [|e|f] eqn:Hw.
      * destruct (st_outgoing s) as [|e l] eqn:Ho.
        -- exists AEnd. split; [done|]. simpl. unfold writer_step, closed. rewrite Hw, E, Ho. simpl. eauto.
        -- exists ATake. split; [done|]. simpl. unfold writer_step. rewrite Hw, Ho. eauto.
      * exists (AWrite false). split; [done|]. simpl. unfold writer_step. rewrite Hw. eauto.
      * exists AReturn. split; [done|]. simpl. unfold end_step. rewrite E, Hw. eauto.
    + by destruct (Hr err).
  - apply not_true_iff_false in Hset. rewrite forallb_forall in Hset.
    assert (∃ n c, st_calls s !! n = Some c ∧ settled_call c = false) as (n & c & Hc & Hn).
    { destruct (decide (Exists (λ c, settled_call c = false) (st_calls s))) as [(c & Hin & Hc)%Exists_exists|Hno].
      - apply list_elem_of_lookup in Hin as [n ?]. eauto.
      - destruct Hset. intros c Hin. destruct (settled_call c) eqn:E; [done|]. destruct Hno. apply Exists_exists. exists c. split; [|done].
        by apply list_elem_of_In. }
    unfold settled_call in Hn. destruct (c_phase c) eqn:Hp; try done.
    + exists (AHandle n (Ok None)). split; [done|]. simpl. unfold worker_step. rewrite Hc, Hp. eauto.
    + exists (ARespond n). split; [done|]. simpl. unfold worker_step. rewrite Hc, Hp. eauto.
    + exists (ARelease n). split; [done|]. simpl. unfold worker_step. rewrite Hc, Hp. eauto.
    + exists (ASend n false). split; [done|]. simpl. unfold worker_step. rewrite Hc, Hp. eauto.
Qed.

(** C20: [Serve] returns.  From whatever state of whatever session, once nothing more is read or emitted,
    every run has a bounded number of actions, and until [Serve] has returned there is always one more
    that can be taken: no reader, worker or writer waits for ever, whatever the buffer holds and
    whatever fails, as long as handlers return. *)
Theorem session_terminates session actions rest s s' :
  session_run session actions initial = Some s → session_run session rest s = Some s' → forallb quiet_action rest = true →
  Z.of_nat (length actions + length rest) < 2 ^ 64 →
  (length rest ≤ work s)%nat ∧
  ((∃ err, st_reader s' = Returned err) ∨ ∃ a, quiet_action a = true ∧ is_Some (session_step session a s')).
Proof.
  intros H H' Hq Hn.
  destruct (run_sound session actions initial s (initial_sound session) ltac:(simpl; lia) H) as [Hs Hnext]. simpl in Hnext.
  destruct (run_sound session rest s s' Hs ltac:(lia) H') as [Hs' _].
  split; [pose proof (session_run_work session rest s s' Hs ltac:(lia) Hq H'); lia|].
  destruct (st_reader s') eqn:E; try (right; apply session_progress; [done|by rewrite E]). left. eauto.
Qed.

(** ** A session *)

Definition sample_session : Session := mkSession (Some ["events"]) "1.0" 1 true.

Definition negotiate_request : RPCRequest := mkRPCRequest 1 "request" "n" "rpc.negotiate" "" None "".
Definition list_request : RPCRequest := mkRPCRequest 1 "request" "r" "yard.list" "" None "".

(** A client negotiates, makes a call that emits an event, and closes its side. *)
Definition sample_actions : list action :=
  [ALoop; ARead negotiate_request; AReply false; ATake; AWrite false; ALoop; ARead list_request; ALoop; AReadEnd false;
   AEmit 1 "progress" "{}" false; ATake; AHandle 1 (Ok None); AWrite false; ARespond 1; ARelease 1; ASend 1 false; ALeave; AClose;
   ATake; AWrite false; AEnd; AReturn].

Definition sample_state : state :=
  match session_run sample_session sample_actions initial with Some s => s | None => initial end.

Lemma session_consistent_witness : st_panicked sample_state = false ∧ (length (st_outgoing sample_state) ≤ 1)%nat.
Proof.
  destruct (session_consistent sample_session sample_actions sample_state) as (_ & _ & H1 & H2); [vm_compute; reflexivity|reflexivity|].
  split; [exact H2|exact H1].
Defined.

Lemma session_ordered_witness : StronglySorted Z.lt (event_numbers (stream sample_state)).
Proof. apply (session_ordered sample_session sample_actions sample_state); [vm_compute; reflexivity|reflexivity]. Defined.

Lemma session_drains_witness : ∃ e, responses_to 1 (st_written sample_state) = [e].
Proof.
  destruct (session_drains sample_session sample_actions sample_state None) as (_ & H & _); [vm_compute; reflexivity|reflexivity|vm_compute; reflexivity|vm_compute; reflexivity|].
  apply H. vm_compute. lia.
Defined.

(** The state after the event was emitted. *)
Definition sample_middle : state :=
  match session_run sample_session (take 10 sample_actions) initial with Some s => s | None => initial end.

Lemma session_terminates_witness : (length (drop 10 sample_actions) ≤ work sample_middle)%nat.
Proof.
  apply (session_terminates sample_session (take 10 sample_actions) (drop 10 sample_actions) sample_middle sample_state);
    vm_compute; reflexivity.
Defined.
