(* ===== verification/ProjectState.v ===== *)
(** * Project state

    internal/state: the records of the projects of a yard and the reservations of projects that are
    being added, each a file in a private directory (store.go, admission.go), and the operations on
    them that the owner service offers (service.go).  Every operation that writes holds the exclusive
    lock of the directory, so that an operation is one function on the files.  A file is modelled by
    what its decoder makes of it; a call that writes may fail, before or after its effect.

    The names of projects are compared without regard to case; for names that are not ASCII that is
    a table of the unicode package, a parameter here. *)

From S2P Require Import Prelude GoStrings GoSort GoPath Sha256 Names GoJson GoJsonDecode Effects.

(** ** Records *)

(** internal/domain/types.go:216-222 [ProjectMode] *)
Definition ProjectSync : string := "sync".
Definition ProjectGit : string := "git".
Definition ProjectBind : string := "bind".

Definition known_mode (mode : string) : bool := bool_decide (mode ∈ [ProjectSync; ProjectGit; ProjectBind]).

(** internal/domain/types.go:224-238 [ProjectRecord] *)
Record ProjectRecord := mkProjectRecord {
  pr_Schema : Z; pr_IdentityVersion : Z; pr_ProjectID : string; pr_Name : string; pr_HostPath : string; pr_SourceKey : string;
  pr_YardPath : string; pr_Mode : string; pr_SSHHost : string; pr_ImportedAt : string; pr_Target : string; pr_Profile : string;
  pr_RegistrySource : string }.

#[export] Instance ProjectRecord_eta : Eta ProjectRecord := λ r,
  mkProjectRecord (pr_Schema r) (pr_IdentityVersion r) (pr_ProjectID r) (pr_Name r) (pr_HostPath r) (pr_SourceKey r)
    (pr_YardPath r) (pr_Mode r) (pr_SSHHost r) (pr_ImportedAt r) (pr_Target r) (pr_Profile r) (pr_RegistrySource r).

Inductive state_error :=
| RecordSchema | RecordID | RecordVersion | RecordCanonical | RecordFilename | RecordRequired | RecordSourceKey | RecordYardPath
| RecordMode | RecordTarget | RecordProfile | RecordRegistry
| InvalidState | StateNotFound | InvalidProjectID | InvalidProjectName | NameConflict (owner : string) | PendingConflict (operation : string)
| UnsafeOperation | SourceRequired | ModeRequired | ModeChanged | ImplicitRename | AdmissionPending | AdmissionDiffers
| InvalidReservation | ReservationExists | ReservationMismatch | ReservationMissing
| SourceKeyRequired | SourceChanged | StaleRename | UnsupportedField | InvalidMigration | CanonicalConflict | CallFailed.

#[export] Instance ProjectRecord_eq_dec : EqDecision ProjectRecord.
Proof. solve_decision. Defined.
#[export] Instance state_error_eq_dec : EqDecision state_error.
Proof. solve_decision. Defined.

(** internal/state/service.go:224-224 [YardPath] *)
Definition YardPath (id : string) : string := PathJoin ["/srv/workspaces"; id; "src"].

(** internal/state/service.go:226-229 [SourceKey] *)
Definition SourceKey (source : string) : string := EncodeToString (Sum256 source).

Definition hex_text (s : string) : bool := forallb (ContainsRune "0123456789abcdef") (runes s).

(** internal/domain/types.go:240-287 [ProjectRecord.Validate] *)
Definition ProjectRecord_Validate (record : ProjectRecord) (expectedID : string) : result state_error unit :=
  refuse (negb (pr_Schema record =? 1)) RecordSchema;;
  refuse (negb (SafeID (pr_ProjectID record))) RecordID;;
  refuse (negb (pr_IdentityVersion record =? 0) && negb (pr_IdentityVersion record =? 2)) RecordVersion;;
  refuse ((pr_IdentityVersion record =? 2) &&
          (bool_decide (pr_ProjectID record ≠ pr_Name record) || negb (SafeProjectName (pr_Name record)))) RecordCanonical;;
  refuse (bool_decide (expectedID ≠ "") && bool_decide (pr_ProjectID record ≠ expectedID)) RecordFilename;;
  refuse (bool_decide (pr_Name record = "") || bool_decide (pr_YardPath record = "") || bool_decide (pr_SSHHost record = "")) RecordRequired;;
  refuse (bool_decide (pr_SourceKey record ≠ "") &&
          (negb (len (pr_SourceKey record) =? 64) || negb (hex_text (pr_SourceKey record)))) RecordSourceKey;;
  refuse (bool_decide (pr_YardPath record ≠ PathJoin ["/srv/workspaces"; pr_ProjectID record; "src"])) RecordYardPath;;
  refuse (negb (known_mode (pr_Mode record))) RecordMode;;
  refuse (bool_decide (pr_Target record ≠ "") && bool_decide (pr_Target record ≠ "yard") && negb (SafeName (pr_Target record))) RecordTarget;;
  refuse (bool_decide (pr_Profile record ≠ "") && negb (SafeName (pr_Profile record))) RecordProfile;;
  refuse (bool_decide (pr_RegistrySource record ≠ "") && bool_decide (pr_RegistrySource record ≠ "yard")) RecordRegistry.

(** internal/state/admission.go:21-31 [ProjectReservation]: times in nanoseconds, the zero time is 0. *)
Record ProjectReservation := mkProjectReservation {
  rv_Schema : Z; rv_OperationID : string; rv_ProjectID : string; rv_Name : string; rv_Source : string; rv_Mode : string;
  rv_Requested : string; rv_Explicit : bool; rv_CreatedAt : Z }.

#[export] Instance ProjectReservation_eq_dec : EqDecision ProjectReservation.
Proof. solve_decision. Defined.

(** internal/state/admission.go:33-38 [Admission] *)
Record Admission := mkAdmission {
  ad_ProjectID : string; ad_Name : string; ad_Existing : option ProjectRecord; ad_Reservation : option ProjectReservation }.

(** internal/state/admission.go:19-19 [reservationTTL] *)
Definition reservationTTL : Z := 6 * 3600 * 1000000000.

(** ** Files *)

(** A file of a record: not a readable record, a record that others may read (written by the former
    shell store), or a private record. *)
Inductive record_file := Unreadable | Legacy (record : ProjectRecord) | Private (record : ProjectRecord).

Inductive call_fault := Works | FailsBefore | FailsAfter.

(** internal/state/migration.go:24-28 [projectNameMigrationTarget] *)
Record projectNameMigrationTarget := mkTarget { mt_ProjectID : string; mt_Name : string; mt_SourceKey : string }.

(** internal/state/migration.go:19-22 [projectNameMigration] *)
Record projectNameMigration := mkMigration { mg_Schema : Z; mg_Targets : list projectNameMigrationTarget }.

(** internal/state/store.go:21-23 [FileStore]: what is in its directory, records by project, reservations
    by operation and the journal of a rename of projects (the last two [None] when not decodable), and what
    the next calls that write do; they work when the list is exhausted. *)
Record directory := mkDirectory {
  d_records : gmap string record_file; d_reservations : gmap string (option ProjectReservation);
  d_migration : option (option projectNameMigration); d_faults : list call_fault }.

#[export] Instance directory_eta : Eta directory := λ d,
  mkDirectory (d_records d) (d_reservations d) (d_migration d) (d_faults d).

Definition project_io (A : Type) : Type := eff directory state_error A.

(** A call that writes. *)
Definition write_call (change : directory → directory) : project_io unit := λ d,
  match d_faults d with
  | FailsBefore :: rest => (d <| d_faults := rest |>, Err CallFailed)
  | FailsAfter :: rest => (change d <| d_faults := rest |>, Err CallFailed)
  | Works :: rest => (change d <| d_faults := rest |>, Ok tt)
  | [] => (change d, Ok tt)
  end.

(** A computation that only reads the directory. *)
Definition reading {A} (f : directory → result state_error A) : project_io A := λ d, (d, f d).

(** internal/state/store.go:478-492 [decodeRecord]: with the checks of [readRecord] on the kind and the
    permissions of the file. *)
Definition decodeRecord (id : string) (file : record_file) : result state_error ProjectRecord :=
  match file with
  | Private record => ProjectRecord_Validate record id;; Ok record
  | _ => Err InvalidState
  end.

(** internal/state/store.go:407-427 [readRecord] *)
Definition readProjectRecord (id : string) (d : directory) : result state_error ProjectRecord :=
  match d_records d !! id with
  | None => Err StateNotFound
  | Some file => decodeRecord id file
  end.

(** internal/state/store.go:116-138 [listUnlocked] *)
Definition listUnlocked (d : directory) : result state_error (list ProjectRecord) :=
  records ← mapM (λ f, decodeRecord f.1 f.2) (map_to_list (d_records d));
  Ok (sort_by_key pr_ProjectID records).

(** ** Reservations *)

(** internal/state/admission.go:371-391 [readReservation] *)
Definition readReservation (operationID : string) (d : directory) : result state_error ProjectReservation :=
  refuse (negb (SafeID operationID)) InvalidReservation;;
  match d_reservations d !! operationID with
  | None => Err ReservationMissing
  | Some None => Err InvalidReservation
  | Some (Some reservation) =>
      refuse (negb (rv_Schema reservation =? 1) || bool_decide (rv_OperationID reservation ≠ operationID) ||
              negb (SafeProjectName (rv_ProjectID reservation)) || bool_decide (rv_ProjectID reservation ≠ rv_Name reservation) ||
              bool_decide (rv_Source reservation = "") || negb (SafeProjectName (rv_Requested reservation)) ||
              (rv_CreatedAt reservation =? 0)) InvalidReservation;;
      Ok reservation
  end.

(** internal/state/admission.go:393-401 [removeReservation] *)
Definition removeReservation (operationID : string) : project_io unit := λ d,
  match d_reservations d !! operationID with
  | None => (d, Ok tt)
  | Some _ => write_call (λ d, d <| d_reservations := delete operationID (d_reservations d) |>) d
  end.

(** The reservation was made six hours ago or earlier. *)
Definition expired (now : Z) (reservation : ProjectReservation) : bool := reservationTTL <=? now - rv_CreatedAt reservation.

(** internal/state/admission.go:287-309 [readReservations]: the loop over the files; [prune] removes
    those that are expired. *)
Fixpoint read_reservations (now : Z) (prune : bool) (operations : list string) : project_io (list ProjectReservation) :=
  match operations with
  | [] => mret []
  | operationID :: rest =>
      reservation ← reading (readReservation operationID);
      if expired now reservation then
        when prune (removeReservation operationID);;
        read_reservations now prune rest
      else
        others ← read_reservations now prune rest;
        mret (reservation :: others)
  end.

(** internal/state/admission.go:277-312 [readReservations]: files in the order of their names. *)
Definition readReservations (now : Z) (prune : bool) : project_io (list ProjectReservation) :=
  operations ← reading (λ d, Ok (sort_by_key (λ id, id +:+ ".json") (map_to_list (d_reservations d)).*1));
  reservations ← read_reservations now prune operations;
  mret (sort_by_key rv_OperationID reservations).

(** The text that the decoder gives for a string that the encoder wrote. *)
Definition reservation_text (r : ProjectReservation) : ProjectReservation :=
  mkProjectReservation (rv_Schema r) (ToValidText (rv_OperationID r)) (ToValidText (rv_ProjectID r)) (ToValidText (rv_Name r))
    (ToValidText (rv_Source r)) (ToValidText (rv_Mode r)) (ToValidText (rv_Requested r)) (rv_Explicit r) (rv_CreatedAt r).

(** internal/state/admission.go:359-368 [writeReservation]: a link does not replace a file.  ([Admit] gets here
    with a reservation of another source only, so that no time is compared.) *)
Definition link_reservation (reservation : ProjectReservation) : project_io unit := λ d,
  let operationID := rv_OperationID reservation in
  match d_reservations d !! operationID with
  | Some _ =>
      match readReservation operationID d with
      | Ok current => if bool_decide (current = reservation) then (d, Ok tt) else (d, Err ReservationExists)
      | Err _ => (d, Err ReservationExists)
      end
  | None => write_call (λ d, d <| d_reservations := <[operationID := Some (reservation_text reservation)]> (d_reservations d) |>) d
  end.

(** internal/state/admission.go:322-369 [writeReservation] *)
Definition writeReservation (reservation : ProjectReservation) : project_io unit :=
  fail_if (negb (SafeID (rv_OperationID reservation))) InvalidReservation;;
  link_reservation reservation.

(** ** Free names *)

(** internal/state/migration.go:206-219 [nextAvailableProjectName]: a number of candidates, from a suffix on. *)
Definition name_candidate (base : string) (suffix : Z) : string :=
  let tail := "-" +:+ pretty suffix in
  let keep := 50 - len tail in
  (if keep <? len base then string_take (Z.to_nat keep) base else base) +:+ tail.

Fixpoint next_available (candidates : nat) (suffix : Z) (base : string) (available : string → bool) : option string :=
  match candidates with
  | O => None
  | S candidates =>
      let candidate := name_candidate base suffix in
      if available candidate then Some candidate else next_available candidates (suffix + 1) base available
  end.

Section names.
Context (unicode_lower : string → string).
#[local] Notation key := (ProjectNameKey unicode_lower).

(** internal/state/admission.go:403-408 [nextProjectName]: one candidate more than there are names. *)
Definition nextProjectName (base : string) (occupied : gmap string string) : string :=
  default base (next_available (S (size occupied)) 2 base (λ candidate, bool_decide (occupied !! key candidate = None))).

(** internal/state/admission.go:202-212 [Admit]: the names that are taken, with their owners. *)
Definition occupied_names (records : list ProjectRecord) (reservations : list ProjectReservation) (workspaceNames : list string) :
    gmap string string :=
  let occupied := foldl (λ m r, <[key (pr_Name r) := pr_ProjectID r]> (<[key (pr_ProjectID r) := pr_ProjectID r]> m)) ∅ records in
  let occupied := foldl (λ m r, <[key (rv_ProjectID r) := rv_ProjectID r]> m) occupied reservations in
  foldl (λ m n, <[key n := n]> m) occupied workspaceNames.

(** internal/state/admission.go:152-175 [Admit]: a project of the source that is there. *)
Fixpoint find_source (source mode requestedName : string) (explicit : bool) (records : list ProjectRecord) :
    result state_error (option ProjectRecord) :=
  match records with
  | [] => Ok None
  | record :: rest =>
      if bool_decide (pr_SourceKey record ≠ SourceKey source) &&
         (bool_decide (pr_SourceKey record ≠ "") || bool_decide (pr_HostPath record ≠ source))
      then find_source source mode requestedName explicit rest
      else if bool_decide (pr_Mode record ≠ mode) then Err ModeChanged
      else if bool_decide (mode = ProjectSync) || bool_decide (mode = ProjectGit)
      then find_source source mode requestedName explicit rest
      else if explicit && bool_decide (pr_Name record ≠ requestedName) then Err ImplicitRename
      else Ok (Some record)
  end.

(** internal/state/admission.go:181-200 [Admit]: a reservation of the source that is there. *)
Fixpoint find_reservation (operationID source mode requestedName : string) (explicit : bool) (reservations : list ProjectReservation) :
    result state_error (option ProjectReservation) :=
  match reservations with
  | [] => Ok None
  | reservation :: rest =>
      if bool_decide (rv_Source reservation = source) then
        if bool_decide (rv_OperationID reservation = operationID) then
          if bool_decide (rv_Mode reservation ≠ mode) || bool_decide (rv_Requested reservation ≠ requestedName) ||
             negb (Bool.eqb (rv_Explicit reservation) explicit)
          then Err AdmissionDiffers else Ok (Some reservation)
        else if bool_decide (mode = ProjectBind) || bool_decide (rv_Mode reservation ≠ mode) then Err AdmissionPending
        else find_reservation operationID source mode requestedName explicit rest
      else find_reservation operationID source mode requestedName explicit rest
  end.

(** internal/state/admission.go:213-222 [Admit]: the requested name, or the next free one. *)
Definition choose_name (requestedName : string) (explicit : bool) (occupied : gmap string string) : result state_error string :=
  match occupied !! key requestedName with
  | None => Ok requestedName
  | Some owner => if explicit then Err (NameConflict owner) else Ok (nextProjectName requestedName occupied)
  end.

(** internal/state/admission.go:130-141 [Admit] *)
Definition check_admission (source mode requestedName : string) : result state_error unit :=
  refuse (bool_decide (source = "")) SourceRequired;;
  refuse (negb (known_mode mode)) ModeRequired;;
  refuse (negb (SafeProjectName requestedName)) InvalidProjectName.

(** internal/state/admission.go:119-232 [Admit]: with one reading of the clock. *)
Definition Admit (now : Z) (operationID source mode requestedName : string) (explicit : bool) (workspaceNames : list string) :
    project_io Admission :=
  fail_if (bool_decide (operationID = "") || negb (SafeID operationID)) UnsafeOperation;;
  pure (check_admission source mode requestedName);;
  records ← reading listUnlocked;
  existing ← pure (find_source source mode requestedName explicit records);
  match existing with
  | Some record => mret (mkAdmission (pr_ProjectID record) (pr_Name record) (Some record) None)
  | None =>
      reservations ← readReservations now true;
      pending ← pure (find_reservation operationID source mode requestedName explicit reservations);
      match pending with
      | Some reservation => mret (mkAdmission (rv_ProjectID reservation) (rv_Name reservation) None (Some reservation))
      | None =>
          name ← pure (choose_name requestedName explicit (occupied_names records reservations workspaceNames));
          let reservation := mkProjectReservation 1 operationID name name source mode requestedName explicit now in
          writeReservation reservation;;
          mret (mkAdmission name name None (Some reservation))
      end
  end.

(** ** Operations of the store *)

Definition names_equal (left right : string) : bool := ProjectNamesEqual unicode_lower left right.

(** internal/state/store.go:245-257 [validateProjectNameUnlocked]: another project with the name. *)
Definition record_conflict (record candidate : ProjectRecord) : bool :=
  bool_decide (pr_ProjectID candidate ≠ pr_ProjectID record) &&
  (names_equal (pr_ProjectID candidate) (pr_Name record) || names_equal (pr_Name candidate) (pr_Name record) ||
   names_equal (pr_Name candidate) (pr_ProjectID record)).

(** internal/state/store.go:262-273 [validateProjectNameUnlocked]: a reservation of the name. *)
Definition reservation_conflict (record : ProjectRecord) (ignoredOperation : string) (reservation : ProjectReservation) : bool :=
  bool_decide (rv_OperationID reservation ≠ ignoredOperation) &&
  (names_equal (rv_Name reservation) (pr_Name record) || names_equal (rv_Name reservation) (pr_ProjectID record)).

(** internal/state/store.go:234-275 [validateProjectNameUnlocked] *)
Definition validateProjectName (now : Z) (record : ProjectRecord) (ignoredOperation : string) : project_io unit :=
  fail_if (negb (SafeProjectName (pr_Name record))) InvalidProjectName;;
  records ← reading listUnlocked;
  pure (for_each (λ candidate, refuse (record_conflict record candidate) (NameConflict (pr_ProjectID candidate))) records);;
  reservations ← readReservations now true;
  pure (for_each (λ reservation, refuse (reservation_conflict record ignoredOperation reservation)
                    (PendingConflict (rv_OperationID reservation))) reservations).

(** A record as it is read back. *)
Definition record_text (r : ProjectRecord) : ProjectRecord :=
  mkProjectRecord (pr_Schema r) (pr_IdentityVersion r) (ToValidText (pr_ProjectID r)) (ToValidText (pr_Name r))
    (ToValidText (pr_HostPath r)) (ToValidText (pr_SourceKey r)) (ToValidText (pr_YardPath r)) (ToValidText (pr_Mode r))
    (ToValidText (pr_SSHHost r)) (ToValidText (pr_ImportedAt r)) (ToValidText (pr_Target r)) (ToValidText (pr_Profile r))
    (ToValidText (pr_RegistrySource r)).

(** internal/state/store.go:277-312 [putUnlocked]: the candidate is read back before it replaces the record. *)
Definition putUnlocked (record : ProjectRecord) : project_io unit :=
  pure (ProjectRecord_Validate (record_text record) (pr_ProjectID record));;
  write_call (λ d, d <| d_records := <[pr_ProjectID record := Private (record_text record)]> (d_records d) |>).

(** internal/state/store.go:219-232 [Put] *)
Definition Put (now : Z) (record : ProjectRecord) : project_io unit :=
  pure (ProjectRecord_Validate record (pr_ProjectID record));;
  validateProjectName now record "";;
  putUnlocked record.

(** internal/state/store.go:314-327 [Delete] *)
Definition Delete (id : string) : project_io unit :=
  fail_if (negb (SafeID id)) InvalidProjectID;;
  write_call (λ d, d <| d_records := delete id (d_records d) |>).

(** internal/state/store.go:140-159 [Get] *)
Definition Get (id : string) : project_io ProjectRecord :=
  fail_if (negb (SafeID id)) InvalidProjectID;;
  reading (readProjectRecord id).

(** internal/state/admission.go:234-263 [FinalizeOperation] *)
Definition FinalizeOperation (now : Z) (operationID : string) (record : ProjectRecord) : project_io unit :=
  pure (ProjectRecord_Validate record (pr_ProjectID record));;
  reservation ← reading (readReservation operationID);
  fail_if (bool_decide (pr_ProjectID record ≠ rv_ProjectID reservation) || bool_decide (pr_Name record ≠ rv_Name reservation) ||
           bool_decide (pr_HostPath record ≠ rv_Source reservation) || bool_decide (pr_Mode record ≠ rv_Mode reservation) ||
           bool_decide (pr_SourceKey record ≠ SourceKey (rv_Source reservation))) ReservationMismatch;;
  validateProjectName now record (rv_OperationID reservation);;
  putUnlocked record;;
  removeReservation (rv_OperationID reservation).

(** internal/state/admission.go:265-275 [AbortAdmission] *)
Definition AbortAdmission (operationID : string) : project_io unit :=
  if bool_decide (operationID = "") then mret tt else removeReservation operationID.

(** internal/state/store.go:429-476 [repairLegacyRecord]: whether the file was made private. *)
Definition repairLegacyRecord (id : string) (file : record_file) : project_io bool :=
  match file with
  | Private _ => mret false
  | Unreadable => pure (Err InvalidState)
  | Legacy record =>
      pure (ProjectRecord_Validate record id);;
      write_call (λ d, d <| d_records := <[id := Private record]> (d_records d) |>);;
      mret true
  end.

Fixpoint repair_records (files : list (string * record_file)) : project_io bool :=
  match files with
  | [] => mret false
  | (id, file) :: rest =>
      repaired ← repairLegacyRecord id file;
      others ← repair_records rest;
      mret (repaired || others)
  end.

(** internal/state/store.go:38-72 [RepairLegacyPermissions]: files in the order of their names. *)
Definition RepairLegacyPermissions : project_io bool :=
  files ← reading (λ d, Ok (sort_by_key (λ f, f.1 +:+ ".json") (map_to_list (d_records d))));
  repair_records files.

(** internal/state/store.go:161-194 [readRecordReadOnly] *)
Definition readRecordReadOnly (id : string) (file : record_file) : result state_error ProjectRecord :=
  match file with
  | Private record | Legacy record => ProjectRecord_Validate record id;; Ok record
  | Unreadable => Err InvalidState
  end.

(** internal/state/store.go:88-114 [ListReadOnly] *)
Definition ListReadOnly (d : directory) : result state_error (list ProjectRecord) :=
  records ← mapM (λ f, readRecordReadOnly f.1 f.2) (map_to_list (d_records d));
  Ok (sort_by_key pr_ProjectID records).

(** internal/state/admission.go:43-117 [PreviewAdmission] *)
Definition PreviewAdmission (now : Z) (source mode requestedName : string) (explicit : bool) (workspaceNames : list string) :
    project_io Admission :=
  pure (check_admission source mode requestedName);;
  records ← reading ListReadOnly;
  existing ← pure (find_source source mode requestedName explicit records);
  match existing with
  | Some record => mret (mkAdmission (pr_ProjectID record) (pr_Name record) (Some record) None)
  | None =>
      reservations ← readReservations now false;
      name ← pure (choose_name requestedName explicit (occupied_names records reservations workspaceNames));
      mret (mkAdmission name name None None)
  end.

(** ** The service *)

(** internal/state/service.go:27-42 [Service.Write] *)
Definition Write (now : Z) (id name hostPath yardPath mode sshHost importedAt : string) : project_io unit :=
  Put now (mkProjectRecord 1 0 id name hostPath "" yardPath mode sshHost importedAt "" "" "").

(** internal/state/service.go:44-60 [Service.Set] *)
Definition Set_field (now : Z) (id field value : string) : project_io unit :=
  record ← Get id;
  if bool_decide (field = "target") then Put now (record <| pr_Target := value |>)
  else if bool_decide (field = "profile") then Put now (record <| pr_Profile := value |>)
  else if bool_decide (field = "registrySource") then Put now (record <| pr_RegistrySource := value |>)
  else pure (Err UnsupportedField).

(** internal/state/service.go:110-119 [Service.UpsertProject]: another project with the name. *)
Definition upsert_conflict (id name : string) (candidate : ProjectRecord) : bool :=
  bool_decide (pr_ProjectID candidate ≠ id) &&
  (names_equal (pr_Name candidate) name || names_equal (pr_ProjectID candidate) name || names_equal (pr_Name candidate) id).

(** internal/state/service.go:135-158 [Service.UpsertProject]: the fields that are set. *)
Definition upserted (record : ProjectRecord) (id name mode target sshHost hostPath importedAt : string) (identityVersion : Z) : ProjectRecord :=
  let hostPath' := if bool_decide (hostPath ≠ "") then hostPath else pr_HostPath record in
  mkProjectRecord (pr_Schema record) (if negb (identityVersion =? 0) then identityVersion else pr_IdentityVersion record)
    (pr_ProjectID record) name hostPath' (if bool_decide (hostPath ≠ "") then SourceKey hostPath else pr_SourceKey record)
    (YardPath id) mode sshHost (if bool_decide (importedAt ≠ "") then importedAt else pr_ImportedAt record) target
    (if bool_decide (target ≠ "") && bool_decide (target ≠ "yard") then target else "")
    (if bool_decide (hostPath' = "") then "yard" else "").

(** A record, or none when there is no file of it. *)
Definition find_record (id : string) : project_io (option ProjectRecord) := λ d,
  match Get id d with
  | (d, Ok record) => (d, Ok (Some record))
  | (d, Err e) => if bool_decide (e = StateNotFound) then (d, Ok None) else (d, Err e)
  end.

(** internal/state/service.go:92-160 [Service.UpsertProject] *)
Definition UpsertProject (now : Z) (id name mode target sshHost hostPath importedAt : string) (identityVersion : Z) : project_io unit :=
  fail_if (negb (SafeProjectName name)) InvalidProjectName;;
  records ← reading listUnlocked;
  pure (for_each (λ candidate, refuse (upsert_conflict id name candidate) (NameConflict (pr_ProjectID candidate))) records);;
  found ← find_record id;
  match found with
  | Some record =>
      fail_if (bool_decide (pr_Name record ≠ name)) StaleRename;;
      Put now (upserted record id name mode target sshHost hostPath importedAt identityVersion)
  | None =>
      Put now (upserted (mkProjectRecord 1 0 id "" "" "" "" "" "" "" "" "" "yard") id name mode target sshHost hostPath importedAt identityVersion)
  end.

(** internal/state/service.go:62-71 [Service.UpsertYard] *)
Definition UpsertYard (now : Z) (id name mode target sshHost : string) : project_io unit :=
  UpsertProject now id name mode target sshHost "" "" 0.

(** internal/state/service.go:162-174 [Service.UnregisterYard] *)
Definition UnregisterYard (id : string) : project_io unit :=
  found ← find_record id;
  match found with
  | Some record => if bool_decide (pr_HostPath record ≠ "") then mret tt else Delete id
  | None => mret tt
  end.

(** internal/state/service.go:187-190 [Service.RemoveProject]: the source key that the record stands for. *)
Definition record_source_key (record : ProjectRecord) : string :=
  if bool_decide (pr_SourceKey record = "") && bool_decide (pr_HostPath record ≠ "") then SourceKey (pr_HostPath record)
  else pr_SourceKey record.

(** internal/state/service.go:176-195 [Service.RemoveProject] *)
Definition RemoveProject (id sourceKey : string) : project_io unit :=
  fail_if (negb (len sourceKey =? 64) || bool_decide (Trim sourceKey "0123456789abcdef" ≠ "")) SourceKeyRequired;;
  found ← find_record id;
  match found with
  | Some record => fail_if (bool_decide (record_source_key record ≠ sourceKey)) SourceChanged;; Delete id
  | None => mret tt
  end.

End names.

(** internal/state/service.go:197-222 [Field] *)
Definition Field (record : ProjectRecord) (name : string) : option string :=
  if bool_decide (name = "projectId") then Some (pr_ProjectID record)
  else if bool_decide (name = "name") then Some (pr_Name record)
  else if bool_decide (name = "hostPath") then Some (pr_HostPath record)
  else if bool_decide (name = "yardPath") then Some (pr_YardPath record)
  else if bool_decide (name = "mode") then Some (pr_Mode record)
  else if bool_decide (name = "sshHost") then Some (pr_SSHHost record)
  else if bool_decide (name = "importedAt") then Some (pr_ImportedAt record)
  else if bool_decide (name = "target") then Some (pr_Target record)
  else if bool_decide (name = "profile") then Some (pr_Profile record)
  else if bool_decide (name = "registrySource") then Some (pr_RegistrySource record)
  else None.

(** ** Technical names *)

Definition hex_escape (b : Z) : string := "_" +:+ EncodeToString [b].

(** internal/state/service.go:241-253 [TechnicalID] *)
Definition TechnicalID (id : string) : string :=
  String.concat "" (map (λ b, if is_lower b || is_upper b || is_digit b || (b =? 45) then of_bytes [b] else hex_escape b) (bytes id)).

(** internal/state/service.go:255-267 [DockerImageID] *)
Definition DockerImageID (id : string) : string :=
  "p" +:+ String.concat "" (map (λ b, if is_lower b || is_digit b then of_bytes [b] else hex_escape b) (bytes id)).

(** internal/state/service.go:231-239 [WorkspaceDevice] *)
Definition WorkspaceDevice (id : string) : string :=
  "ws-" +:+ of_bytes (map (λ r, if is_lower r || is_upper r || is_digit r then r else 45) (runes id)).

(** internal/state/service.go:269-274 [ProjectTechnicalID] *)
Definition ProjectTechnicalID (record : ProjectRecord) : string :=
  if pr_IdentityVersion record =? 2 then TechnicalID (pr_ProjectID record)
  else TrimPrefix (WorkspaceDevice (pr_ProjectID record)) "ws-".

(** internal/state/service.go:276-281 [ProjectDockerImageID] *)
Definition ProjectDockerImageID (record : ProjectRecord) : string :=
  if pr_IdentityVersion record =? 2 then DockerImageID (pr_ProjectID record) else pr_ProjectID record.

(** internal/state/service.go:283-285 [WorkspaceDeviceFor] *)
Definition WorkspaceDeviceFor (record : ProjectRecord) : string := "ws-" +:+ ProjectTechnicalID record.
