(* ===== verification/ProjectNames.v ===== *)
(** * Renaming projects

    internal/state/migration.go: records of older versions may share a name.  A plan gives every record
    a name of its own; it is saved before the first record changes, so that an interrupted pass can be
    resumed.  The same plan admits a project that was found in the yard. *)

From S2P Require Import Prelude GoStrings GoSort GoPath Sha256 Names GoJson GoJsonDecode Effects ProjectState.

Section migration.
Context (unicode_lower : string → string).
#[local] Notation key := (ProjectNameKey unicode_lower).

(** [time.Parse] of an import time (internal/state/migration.go:469-475 [importedTime]). *)
Context (importedTime : string → option Z).

(** ** The plan *)

(** internal/state/migration.go:102-112 [planProjectNameMigration]: the order of the records. *)
Definition imported_before (left right : ProjectRecord) : bool :=
  match importedTime (pr_ImportedAt left), importedTime (pr_ImportedAt right) with
  | Some a, Some b => if negb (a =? b) then a <? b else string_lt (pr_ProjectID left) (pr_ProjectID right)
  | None, None => string_lt (pr_ProjectID left) (pr_ProjectID right)
  | Some _, None => true
  | None, Some _ => false
  end.

Definition imported_le : relation ProjectRecord := λ left right, imported_before right left = false.

#[global] Instance imported_le_dec : RelDecision imported_le.
Proof. intros x y. unfold imported_le. apply _. Defined.

(** internal/state/migration.go:118-124 [planProjectNameMigration] *)
Definition base_name (record : ProjectRecord) : string :=
  if SafeProjectName (pr_Name record) then pr_Name record
  else if 50 <? len (pr_ProjectID record) then string_take 50 (pr_ProjectID record) else pr_ProjectID record.

(** The record at an index of the plan; [none] is never reached. *)
Definition base_at (records : list ProjectRecord) (index : nat) : string :=
  match records !! index with Some record => base_name record | None => "" end.

(** internal/state/migration.go:117-138 [planProjectNameMigration]: who keeps a name, the first record
    with it or the last canonical one. *)
Definition first_keepers (records : list ProjectRecord) : gmap string nat :=
  foldl (λ m '(index, record), if bool_decide (m !! key (base_name record) = None) then <[key (base_name record) := index]> m else m)
    ∅ (imap pair records).

Definition keepers_of (records : list ProjectRecord) : gmap string nat :=
  foldl (λ m '(index, record), if pr_IdentityVersion record =? 2 then <[key (base_name record) := index]> m else m)
    (first_keepers records) (imap pair records).

(** internal/state/migration.go:130-131 [planProjectNameMigration]: the projects with an identifier. *)
Definition id_owners (records : list ProjectRecord) : gmap string (list string) :=
  foldl (λ m record, <[key (pr_ProjectID record) := default [] (m !! key (pr_ProjectID record)) ++ [pr_ProjectID record]]> m) ∅ records.

(** internal/state/migration.go:197-204 [hasForeignProjectID] *)
Definition hasForeignProjectID (owners : list string) (projectID : string) : bool :=
  existsb (λ owner, bool_decide (owner ≠ projectID)) owners.

(** internal/state/migration.go:140-148 [planProjectNameMigration]: names that will be kept; a keeper is
    entered under its own key, so that the order of the map does not show. *)
Definition protected_names (records : list ProjectRecord) (keepers : gmap string nat) (idOwners : gmap string (list string)) :
    gmap string string :=
  foldl (λ m '(_, index),
           match records !! index with
           | Some record =>
               if hasForeignProjectID (default [] (idOwners !! key (base_name record))) (pr_ProjectID record) then m
               else <[key (base_name record) := pr_ProjectID record]> m
           | None => m
           end) ∅ (map_to_list keepers).

Definition foreign_owner (owners : gmap string string) (name projectID : string) : bool :=
  match owners !! key name with Some owner => bool_decide (owner ≠ projectID) | None => false end.

(** internal/state/migration.go:179-195 [projectNameUnavailable] *)
Definition projectNameUnavailable (name projectID : string) (idOwners : gmap string (list string)) (protected assigned : gmap string string) : bool :=
  hasForeignProjectID (default [] (idOwners !! key name)) projectID ||
  foreign_owner protected name projectID || foreign_owner assigned name projectID.

(** internal/state/migration.go:152-165 [planProjectNameMigration]: the name of one record; one
    candidate more than there are names. *)
Definition assign_name (records : list ProjectRecord) (keepers : gmap string nat) (idOwners : gmap string (list string))
    (protected assigned : gmap string string) (index : nat) (record : ProjectRecord) : string :=
  let base := match keepers !! key (base_name record) with Some keeper => base_at records keeper | None => base_name record end in
  let unavailable name := projectNameUnavailable name (pr_ProjectID record) idOwners protected assigned in
  if bool_decide (keepers !! key base ≠ Some index) || unavailable base then
    default base (next_available (S (size idOwners + size protected + size assigned)) 2 base (λ candidate, negb (unavailable candidate)))
  else base.

(** internal/state/migration.go:167-175 [planProjectNameMigration]: the target, where the record changes. *)
Definition target_of (record : ProjectRecord) (name : string) : list projectNameMigrationTarget :=
  let sourceKey := record_source_key record in
  if bool_decide (pr_Name record ≠ name) || bool_decide (pr_SourceKey record ≠ sourceKey)
  then [mkTarget (pr_ProjectID record) name sourceKey] else [].

(** internal/state/migration.go:150-176 [planProjectNameMigration]: the loop, over what is left, with
    the names that were assigned. *)
Fixpoint plan_names (records : list ProjectRecord) (keepers : gmap string nat) (idOwners : gmap string (list string))
    (protected assigned : gmap string string) (index : nat) (rest : list ProjectRecord) : list (ProjectRecord * string) :=
  match rest with
  | [] => []
  | record :: rest =>
      let name := assign_name records keepers idOwners protected assigned index record in
      (record, name) ::
      plan_names records keepers idOwners protected (<[key name := pr_ProjectID record]> assigned) (S index) rest
  end.

(** The records in the order of the plan, each with its name. *)
Definition planned (records : list ProjectRecord) : list (ProjectRecord * string) :=
  let records := sort_by imported_le records in
  let keepers := keepers_of records in
  let idOwners := id_owners records in
  plan_names records keepers idOwners (protected_names records keepers idOwners) ∅ 0 records.

(** internal/state/migration.go:101-177 [planProjectNameMigration] *)
Definition planProjectNameMigration (records : list ProjectRecord) : list projectNameMigrationTarget :=
  concat (map (λ '(record, name), target_of record name) (planned records)).

(** internal/state/migration.go:351-368 [validateCanonicalMigrationTargets] *)
Definition validateCanonicalMigrationTargets (records : list ProjectRecord) (targets : list projectNameMigrationTarget) : result state_error unit :=
  let versions : gmap string Z := foldl (λ m record, <[pr_ProjectID record := pr_IdentityVersion record]> m) ∅ records in
  for_each (λ target, refuse (bool_decide (versions !! mt_ProjectID target = Some 2) && bool_decide (mt_Name target ≠ mt_ProjectID target))
                        CanonicalConflict) targets.

(** ** The journal *)

(** internal/state/migration.go:375-386 [validateProjectNameMigration]: one target. *)
Definition check_target (seen : gset string) (target : projectNameMigrationTarget) : result state_error (gset string) :=
  refuse (negb (SafeID (mt_ProjectID target)) || negb (SafeProjectName (mt_Name target)) || bool_decide (mt_ProjectID target ∈ seen)) InvalidMigration;;
  refuse (bool_decide (mt_SourceKey target ≠ "") &&
          (negb (len (mt_SourceKey target) =? 64) || bool_decide (Trim (mt_SourceKey target) "0123456789abcdef" ≠ ""))) InvalidMigration;;
  Ok ({[mt_ProjectID target]} ∪ seen).

(** internal/state/migration.go:370-388 [validateProjectNameMigration] *)
Definition validateProjectNameMigration (journal : projectNameMigration) : result state_error unit :=
  refuse (negb (mg_Schema journal =? 1) || bool_decide (mg_Targets journal = [])) InvalidMigration;;
  for_range check_target (mg_Targets journal) ∅;; Ok tt.

(** internal/state/migration.go:238-264 [readProjectNameMigration] *)
Definition readProjectNameMigration (d : directory) : result state_error (option projectNameMigration) :=
  match d_migration d with
  | None => Ok None
  | Some None => Err InvalidMigration
  | Some (Some journal) => validateProjectNameMigration journal;; Ok (Some journal)
  end.

(** internal/state/migration.go:417-455 [writeProjectNameMigration]: the strings of a valid journal are ASCII. *)
Definition writeProjectNameMigration (journal : projectNameMigration) : project_io unit :=
  pure (validateProjectNameMigration journal);;
  write_call (λ d, d <| d_migration := Some (Some journal) |>).

(** internal/state/migration.go:457-463 [removeProjectNameMigration] *)
Definition removeProjectNameMigration : project_io unit := write_call (λ d, d <| d_migration := None |>).

(** internal/state/migration.go:401-412 [applyProjectNameMigration]: one target. *)
Definition apply_target (byID : gmap string ProjectRecord) (target : projectNameMigrationTarget) : project_io unit :=
  match byID !! mt_ProjectID target with
  | None => mret tt
  | Some record =>
      if bool_decide (pr_Name record = mt_Name target) && bool_decide (pr_SourceKey record = mt_SourceKey target) then mret tt
      else putUnlocked (record <| pr_Name := mt_Name target |> <| pr_SourceKey := mt_SourceKey target |>)
  end.

(** internal/state/migration.go:390-415 [applyProjectNameMigration] *)
Definition applyProjectNameMigration (journal : projectNameMigration) : project_io unit :=
  records ← reading listUnlocked;
  for_list (apply_target (foldl (λ m record, <[pr_ProjectID record := record]> m) ∅ records)) (mg_Targets journal).

(** internal/state/migration.go:221-236 [resumeProjectNameMigration] *)
Definition resumeProjectNameMigration : project_io bool :=
  found ← reading readProjectNameMigration;
  match found with
  | None => mret false
  | Some journal => applyProjectNameMigration journal;; removeProjectNameMigration;; mret true
  end.

(** internal/state/migration.go:33-68 [MigrateLegacyNames] *)
Definition MigrateLegacyNames : project_io bool :=
  resumed ← resumeProjectNameMigration;
  records ← reading listUnlocked;
  let targets := planProjectNameMigration records in
  if bool_decide (targets = []) then mret resumed
  else
    pure (validateCanonicalMigrationTargets records targets);;
    let journal := mkMigration 1 targets in
    writeProjectNameMigration journal;;
    applyProjectNameMigration journal;;
    removeProjectNameMigration;;
    mret true.

(** internal/state/migration.go:72-99 [LegacyNameMigrationPending] *)
Definition LegacyNameMigrationPending : project_io bool :=
  records ← reading listUnlocked;
  found ← reading readProjectNameMigration;
  match found with
  | Some journal => pure (validateCanonicalMigrationTargets records (mg_Targets journal));; mret true
  | None =>
      let targets := planProjectNameMigration records in
      pure (validateCanonicalMigrationTargets records targets);; mret (negb (bool_decide (targets = [])))
  end.

(** internal/state/migration.go:299-308 [ConvergeObserved]: the record of a project that was found. *)
Definition observed_record (observed : ProjectRecord) (sshHost : string) : ProjectRecord :=
  mkProjectRecord (pr_Schema observed) (pr_IdentityVersion observed) (pr_ProjectID observed) (pr_Name observed) "" ""
    (pr_YardPath observed) (pr_Mode observed) sshHost (pr_ImportedAt observed) (pr_Target observed)
    (if bool_decide (pr_Target observed ≠ "") && bool_decide (pr_Target observed ≠ "yard") then pr_Target observed else "") "yard".

(** internal/state/migration.go:317-324 [ConvergeObserved]: a reservation as a record of the plan. *)
Definition reserved_record (sshHost : string) (reservation : ProjectReservation) : ProjectRecord :=
  mkProjectRecord 1 2 (rv_ProjectID reservation) (rv_Name reservation) "" "" (YardPath (rv_ProjectID reservation)) (rv_Mode reservation)
    sshHost "" "" "" "".

(** internal/state/migration.go:339-345 [ConvergeObserved] *)
Definition retarget (targets : list projectNameMigrationTarget) (record : ProjectRecord) : ProjectRecord :=
  match list_find (λ target, mt_ProjectID target = pr_ProjectID record) targets with
  | Some (_, target) => record <| pr_Name := mt_Name target |> <| pr_SourceKey := mt_SourceKey target |>
  | None => record
  end.

(** internal/state/migration.go:271-349 [ConvergeObserved] *)
Definition ConvergeObserved (now : Z) (observed : ProjectRecord) (sshHost : string) : project_io unit :=
  present ← reading (λ d, match readProjectRecord (pr_ProjectID observed) d with
                          | Ok _ => Ok true
                          | Err e => if bool_decide (e = StateNotFound) then Ok false else Err e
                          end);
  if (present : bool) then mret tt
  else
    reservations ← readReservations now true;
    pure (for_each (λ reservation, refuse (names_equal unicode_lower (rv_ProjectID reservation) (pr_ProjectID observed)) AdmissionPending) reservations);;
    let record := observed_record observed sshHost in
    pure (ProjectRecord_Validate record (pr_ProjectID record));;
    records ← reading listUnlocked;
    let plannedRecords := records ++ [record] ++ map (reserved_record sshHost) reservations in
    let targets := planProjectNameMigration plannedRecords in
    if bool_decide (targets = []) then putUnlocked record
    else
      pure (validateCanonicalMigrationTargets plannedRecords targets);;
      let journal := mkMigration 1 targets in
      writeProjectNameMigration journal;;
      applyProjectNameMigration journal;;
      putUnlocked (retarget targets record);;
      removeProjectNameMigration.

End migration.
