(* ===== verification/ProjectProofs.v ===== *)
(** * Properties of the project state

    Names stay unique under every operation, whatever call fails; a reservation keeps its name until it
    is used; the preview of an admission agrees with it. *)

From S2P Require Import Prelude GoStrings GoSort GoPath Sha256 Names GoJson GoJsonDecode Effects ProjectState.

(** ** Candidates *)

Lemma split_unique {A} (x : A) a b c d : x ∉ a → x ∉ b → a ++ x :: c = b ++ x :: d → a = b.
Proof.
  revert b. induction a as [|y a IH]; intros [|z b] Ha Hb H; simpl in *; [done|..]; injection H as H1 H2.
  - destruct Hb. rewrite H1. left.
  - destruct Ha. rewrite H1. left.
  - subst z. f_equal. apply IH; [set_solver..|done].
Qed.

Lemma suffix_unique {A} (x : A) a b c d : x ∉ c → x ∉ d → a ++ x :: c = b ++ x :: d → c = d.
Proof.
  intros Hc Hd H. apply (f_equal reverse) in H. rewrite !reverse_app, !reverse_cons, <-!app_assoc in H.
  apply (inj reverse). apply (split_unique x _ _ (reverse a) (reverse b)); [by rewrite elem_of_reverse..|done].
Qed.

Lemma string_map_app f s t : string_map f (s +:+ t) = string_map f s +:+ string_map f t.
Proof. induction s as [|a s IH]; [done|]. simpl. by rewrite IH. Qed.

Lemma string_map_id f s : (∀ b, b ∈ bytes s → ∀ a, byteZ a = b → f a = a) → string_map f s = s.
Proof.
  induction s as [|a s IH]; intros H; [done|]. simpl. rewrite (H (byteZ a)) by (simpl; set_solver). f_equal. apply IH.
  intros b Hb. apply H. simpl. by right.
Qed.

Lemma lower_ascii_id a : is_upper (byteZ a) = false → lower_ascii a = a.
Proof. unfold lower_ascii. by intros ->. Qed.

Lemma all_chars_bytes f s b : all_chars f s = true → b ∈ bytes s → ∃ a, b = byteZ a ∧ f a = true.
Proof.
  induction s as [|a s IH]; simpl; intros H Hb; [by apply elem_of_nil in Hb|]. apply andb_true_iff in H as [Ha H].
  apply elem_of_cons in Hb as [-> |Hb]; [by exists a|by apply IH].
Qed.

Lemma pretty_digits (n : Z) b : 0 ≤ n → b ∈ bytes (pretty n) → 48 ≤ b ≤ 57.
Proof.
  intros Hn Hb. assert (all_chars decimal_char (pretty n) = true) as H.
  { destruct n as [|p|p]; [done|exact (proj1 (proj1 (pretty_decimal (N.pos p))))|lia]. }
  destruct (all_chars_bytes _ _ b H Hb) as (a & -> & Ha). by apply is_digit_true in Ha.
Qed.

Section names.
Context (unicode_lower : string → string).
#[local] Notation key := (ProjectNameKey unicode_lower).

Lemma key_ascii s : is_ascii s = true → key s = string_map lower_ascii s.
Proof. unfold ProjectNameKey, ToLower. by intros ->. Qed.

Lemma name_ascii_app s t : is_ascii (s +:+ t) = is_ascii s && is_ascii t.
Proof. unfold is_ascii. by rewrite bytes_app, forallb_app. Qed.

Lemma is_ascii_take n s : is_ascii s = true → is_ascii (string_take n s) = true.
Proof. intros H. rewrite <-(string_take_drop n s), name_ascii_app in H. by apply andb_true_iff in H as [? _]. Qed.

Lemma pretty_ascii (n : Z) : 0 ≤ n → is_ascii (pretty n) = true.
Proof. intros Hn. apply bytes_ascii. intros b Hb. pose proof (pretty_digits n b Hn Hb). lia. Qed.

(** A candidate is the beginning of the base, a dash and the number. *)
Lemma candidate_key base n : is_ascii base = true → 0 ≤ n → ∃ p, key (name_candidate base n) = p +:+ "-" +:+ pretty n.
Proof.
  intros Hb Hn. unfold name_candidate. set (p := if _ <? _ then _ else _).
  assert (is_ascii p = true) as Hp by (subst p; destruct (_ <? _); [by apply is_ascii_take|done]).
  exists (string_map lower_ascii p). rewrite key_ascii.
  - rewrite !string_map_app. do 2 f_equal. apply string_map_id. intros b Hbn a <-. apply lower_ascii_id.
    pose proof (pretty_digits n _ Hn Hbn). unfold is_upper, between. rewrite (proj2 (Z.leb_gt 65 _)) by lia. done.
  - rewrite !name_ascii_app, Hp, pretty_ascii by done. done.
Qed.

Lemma candidate_key_inj base n m :
  is_ascii base = true → 0 ≤ n → 0 ≤ m → key (name_candidate base n) = key (name_candidate base m) → n = m.
Proof.
  intros Hb Hn Hm H. destruct (candidate_key base n Hb Hn) as [p Hp], (candidate_key base m Hb Hm) as [q Hq].
  rewrite Hp, Hq in H. apply (f_equal bytes) in H. rewrite !bytes_app in H.
  apply (suffix_unique 45 (bytes p) (bytes q)) in H.
  - apply bytes_inj in H. by apply (inj pretty) in H.
  - intros Hin. pose proof (pretty_digits n 45 Hn Hin). lia.
  - intros Hin. pose proof (pretty_digits m 45 Hm Hin). lia.
Qed.

(** ** The search for a free name *)

(** The search returns the first candidate that is free, unless all of them are taken. *)
Lemma next_available_cases k suffix base available :
  (∃ i, (i < k)%nat ∧ next_available k suffix base available = Some (name_candidate base (suffix + Z.of_nat i)) ∧
     available (name_candidate base (suffix + Z.of_nat i)) = true ∧
     ∀ j, (j < i)%nat → available (name_candidate base (suffix + Z.of_nat j)) = false) ∨
  (next_available k suffix base available = None ∧ ∀ j, (j < k)%nat → available (name_candidate base (suffix + Z.of_nat j)) = false).
Proof.
  revert suffix. induction k as [|k IH]; intros suffix; [right; split; [done|lia]|]. cbn [next_available].
  destruct (available (name_candidate base suffix)) eqn:Ha.
  - left. exists 0%nat. rewrite Z.add_0_r. split_and!; [lia|done|done|lia].
  - assert (∀ j, suffix + Z.of_nat (S j) = suffix + 1 + Z.of_nat j) as E by lia.
    destruct (IH (suffix + 1)) as [(i & Hi & H1 & H2 & H3)|[H1 H2]].
    + left. exists (S i). rewrite E. split_and!; [lia|done..|]. intros [|j] Hj; [by rewrite Z.add_0_r|]. rewrite E. apply H3. lia.
    + right. split; [done|]. intros [|j] Hj; [by rewrite Z.add_0_r|]. rewrite E. apply H2. lia.
Qed.

(** Whenever the taken names are fewer than the candidates, one is found. *)
Lemma next_available_total k base available (taken : gset string) :
  is_ascii base = true → (∀ c, available c = false → key c ∈ taken) → (size taken < k)%nat →
  ∃ i, next_available k 2 base available = Some (name_candidate base (2 + Z.of_nat i)) ∧
    available (name_candidate base (2 + Z.of_nat i)) = true ∧
    ∀ j, (j < i)%nat → available (name_candidate base (2 + Z.of_nat j)) = false.
Proof.
  intros Hb Ht Hk. destruct (next_available_cases k 2 base available) as [(i & _ & H)|[_ H]]; [by exists i|exfalso].
  set (keys := (λ j, key (name_candidate base (2 + Z.of_nat j))) <$> seq 0 k).
  assert (NoDup keys) as Hnd.
  { apply NoDup_fmap_2_strong; [|apply NoDup_seq]. intros x y _ _ E. apply candidate_key_inj in E; [lia|done|lia..]. }
  assert (list_to_set keys ⊆ taken) as Hsub.
  { intros x Hx. apply elem_of_list_to_set, list_elem_of_fmap in Hx as (j & -> & Hj). apply Ht, H. apply elem_of_seq in Hj. lia. }
  apply subseteq_size in Hsub. rewrite size_list_to_set in Hsub by done. unfold keys in Hsub. rewrite length_fmap, length_seq in Hsub. lia.
Qed.

(** ** Reading the directory *)

Lemma mapM_Ok {E A B} (f : A → result E B) l k : mapM f l = Ok k → Forall2 (λ x y, f x = Ok y) l k.
Proof.
  revert k. induction l as [|x l IH]; intros k; simpl.
  - intros [= <-]. constructor.
  - intros (y & Hy & (k' & Hk & [= <-])%bind_Ok)%bind_Ok. constructor; [done|by apply IH].
Qed.

Lemma decodeRecord_Ok id file r : decodeRecord id file = Ok r ↔ file = Private r ∧ ProjectRecord_Validate r id = Ok tt.
Proof.
  destruct file as [| |r']; simpl; [split; [done|by intros [? _]]..|]. split.
  - intros ([] & Hv & [= <-])%bind_Ok. done.
  - intros [[= ->] ->]. done.
Qed.

(** A listing has every record, and every file was a valid record. *)
Lemma listUnlocked_Ok d l :
  listUnlocked d = Ok l →
  (∀ id file, d_records d !! id = Some file → ∃ r, file = Private r ∧ r ∈ l ∧ ProjectRecord_Validate r id = Ok tt) ∧
  (∀ r, r ∈ l → ∃ id, d_records d !! id = Some (Private r)).
Proof.
  unfold listUnlocked. intros (k & Hk%mapM_Ok & [= <-])%bind_Ok. split.
  - intros id file Hf. apply elem_of_map_to_list in Hf. apply list_elem_of_lookup in Hf as [i Hi].
    destruct (Forall2_lookup_l _ _ _ _ _ Hk Hi) as (r & Hr & Hd). apply decodeRecord_Ok in Hd as [Hp Hv]. simpl in *. exists r. split_and!; [done| |done].
    apply elem_of_sort_by. by eapply list_elem_of_lookup_2.
  - intros r Hr. apply elem_of_sort_by in Hr. apply list_elem_of_lookup in Hr as [i Hi].
    destruct (Forall2_lookup_r _ _ _ _ _ Hk Hi) as ([id file] & Hf & Hd). apply decodeRecord_Ok in Hd as [Hp _]. simpl in *. subst file.
    exists id. apply elem_of_map_to_list. by eapply list_elem_of_lookup_2.
Qed.

Lemma readReservation_Ok op d rv :
  readReservation op d = Ok rv →
  d_reservations d !! op = Some (Some rv) ∧ rv_OperationID rv = op ∧ rv_ProjectID rv = rv_Name rv ∧ SafeProjectName (rv_ProjectID rv) = true ∧
  SafeID op = true.
Proof.
  unfold readReservation. intros H. ok_inv. destruct (d_reservations d !! op) as [[rv'|]|]; [|done..]. ok_inv. bools. subst rv'.
  split_and!; [done|by apply dec_stable..|done|done].
Qed.

Lemma readReservation_same op d d' : d_reservations d' !! op = d_reservations d !! op → readReservation op d' = readReservation op d.
Proof. unfold readReservation. by intros ->. Qed.

(** The files after expired reservations were removed. *)
Definition pruned (now : Z) (d d' : directory) : Prop :=
  d_records d' = d_records d ∧ d_migration d' = d_migration d ∧
  (∀ op x, d_reservations d' !! op = Some x → d_reservations d !! op = Some x) ∧
  (∀ op rv, d_reservations d !! op = Some (Some rv) → expired now rv = false → d_reservations d' !! op = Some (Some rv)).

#[local] Instance pruned_reflexive now : Reflexive (pruned now).
Proof. by intros d. Qed.

#[local] Instance pruned_transitive now : Transitive (pruned now).
Proof.
  intros d1 d2 d3 (A1 & A2 & A3 & A4) (B1 & B2 & B3 & B4). split_and!; [congruence..|by auto|by auto].
Qed.

(** A call that writes leaves the files, changed or not. *)
Lemma write_call_cases f d : ∃ faults, (write_call f d).1 = d <| d_faults := faults |> ∨ (write_call f d).1 = f d <| d_faults := faults |>.
Proof.
  unfold write_call. destruct (d_faults d) as [|[] l] eqn:E; simpl; eauto.
  exists (d_faults (f d)). right. by destruct (f d).
Qed.

Lemma write_call_ok f d : (write_call f d).2 = Ok tt → ∃ faults, (write_call f d).1 = f d <| d_faults := faults |>.
Proof.
  unfold write_call. destruct (d_faults d) as [|[] l] eqn:E; simpl; try done; eauto. intros _.
  exists (d_faults (f d)). by destruct (f d).
Qed.

Lemma remove_pruned now op rv d :
  d_reservations d !! op = Some (Some rv) → expired now rv = true → pruned now d (removeReservation op d).1.
Proof.
  intros Hop Hexp. unfold removeReservation. rewrite Hop. destruct (write_call_cases (λ d, d <| d_reservations := delete op (d_reservations d) |>) d)
    as [faults [-> | ->]]; [done|]. split_and!; try done; simpl.
  - intros op' x Hx. by apply lookup_delete_Some in Hx as [_ ?].
  - intros op' rv' Hrv He. rewrite lookup_delete_ne; [done|]. intros <-. congruence.
Qed.

Lemma read_reservations_spec now ops d :
  NoDup ops →
  pruned now d (read_reservations now true ops d).1 ∧
  match (read_reservations now true ops d).2 with
  | Ok l => (∀ op, op ∈ ops → ∃ rv, readReservation op d = Ok rv ∧ (expired now rv = false → rv ∈ l)) ∧
            (∀ rv, rv ∈ l → expired now rv = false ∧ readReservation (rv_OperationID rv) d = Ok rv)
  | Err _ => True
  end.
Proof.
  revert d. induction ops as [|op ops IH]; intros d Hnd; [split; [done|split; [intros ? H|intros ? H]; by apply elem_of_nil in H]|].
  apply NoDup_cons in Hnd as [Hop Hnd]. cbn [read_reservations]. unfold mbind, eff_bind, reading.
  destruct (readReservation op d) as [rv|e] eqn:Hr; [|done]. pose proof (readReservation_Ok _ _ _ Hr) as (Hl & Hid & _).
  destruct (expired now rv) eqn:Hexp; cbn [when].
  - pose proof (remove_pruned now op rv d Hl Hexp) as Hp. destruct (removeReservation op d) as [d1 [[]|e]] eqn:Hrm; simpl in Hp; [|done].
    assert (∀ op', op' ≠ op → readReservation op' d1 = readReservation op' d) as Hsame.
    { intros op' Hne. apply readReservation_same. unfold removeReservation in Hrm. rewrite Hl in Hrm.
      destruct (write_call_cases (λ d, d <| d_reservations := delete op (d_reservations d) |>) d) as [faults [E|E]];
        rewrite Hrm in E; simpl in E; subst d1; [done|]. simpl. by rewrite lookup_delete_ne. }
    specialize (IH d1 Hnd). destruct (read_reservations now true ops d1) as [d2 [l|e]]; simpl in *; (split; [by etrans; [|apply IH]|]); [|done].
    destruct IH as (_ & IH1 & IH2). split.
    + intros op' [-> |Hop']%elem_of_cons; [by exists rv; rewrite Hexp|]. rewrite <-Hsame by (intros ->; done). by apply IH1.
    + intros rv' Hrv'. destruct (IH2 rv' Hrv') as [? Hr']. split; [done|]. rewrite <-Hsame; [done|]. intros E.
      apply readReservation_Ok in Hr' as (Hr' & _). rewrite E in Hr'.
      assert (d_reservations d !! op = Some (Some rv')) by (by apply Hp). congruence.
  - specialize (IH d Hnd). destruct (read_reservations now true ops d) as [d2 [l|e]]; simpl in *; (split; [by apply IH|]); [|done].
    destruct IH as (_ & IH1 & IH2). split.
    + intros op' [-> |Hop']%elem_of_cons; [exists rv; split; [done|by left]|]. destruct (IH1 op' Hop') as (rv' & ? & Hin). exists rv'. split; [done|]. right. auto.
    + intros rv' [-> |Hrv']%elem_of_cons; [by rewrite Hid|by apply IH2].
Qed.

(** The reservations that are read are those that are not expired; each was readable. *)
Lemma readReservations_spec now d :
  pruned now d (readReservations now true d).1 ∧
  match (readReservations now true d).2 with
  | Ok l => (∀ op x, d_reservations d !! op = Some x → ∃ rv, x = Some rv ∧ readReservation op d = Ok rv ∧ (expired now rv = false → rv ∈ l)) ∧
            (∀ rv, rv ∈ l → expired now rv = false ∧ readReservation (rv_OperationID rv) d = Ok rv)
  | Err _ => True
  end.
Proof.
  unfold readReservations. unfold mbind at 1, eff_bind at 1, reading. unfold mbind, eff_bind.
  set (ops := sort_by_key _ _).
  assert (NoDup ops) as Hnd.
  { unfold ops, sort_by_key. rewrite sort_by_perm. apply NoDup_fst_map_to_list. }
  pose proof (read_reservations_spec now ops d Hnd) as H. destruct (read_reservations now true ops d) as [d' [l|e]]; simpl in *; [|done].
  destruct H as (Hp & H1 & H2). split; [done|]. split.
  - intros op x Hx. destruct (H1 op) as (rv & Hr & Hin).
    { unfold ops, sort_by_key. apply elem_of_sort_by. apply list_elem_of_fmap. exists (op, x). split; [done|]. by apply elem_of_map_to_list. }
    exists rv. split_and!; [|done|intros; apply elem_of_sort_by; auto]. apply readReservation_Ok in Hr as (Hr & _). congruence.
  - intros rv Hrv. apply elem_of_sort_by in Hrv. by apply H2.
Qed.

(** ** Names are unique *)

(** At the time [now]: records of different projects have different names, none is the identifier of
    the other; no project but the reserved one has a reserved name; reservations are of different names. *)
Record well_named (now : Z) (d : directory) : Prop := {
  n_records id1 id2 r1 r2 :
    d_records d !! id1 = Some (Private r1) → d_records d !! id2 = Some (Private r2) → pr_ProjectID r1 ≠ pr_ProjectID r2 →
    key (pr_ProjectID r1) ≠ key (pr_Name r2) ∧ key (pr_Name r1) ≠ key (pr_Name r2);
  n_reserved op rv id r :
    d_reservations d !! op = Some (Some rv) → expired now rv = false → d_records d !! id = Some (Private r) →
    pr_ProjectID r ≠ rv_ProjectID rv → key (rv_ProjectID rv) ≠ key (pr_Name r) ∧ key (rv_ProjectID rv) ≠ key (pr_ProjectID r);
  n_reservations op1 op2 rv1 rv2 :
    d_reservations d !! op1 = Some (Some rv1) → d_reservations d !! op2 = Some (Some rv2) → op1 ≠ op2 →
    expired now rv1 = false → expired now rv2 = false → key (rv_ProjectID rv1) ≠ key (rv_ProjectID rv2) }.

Lemma expired_later now now' rv : now ≤ now' → expired now' rv = false → expired now rv = false.
Proof. unfold expired. intros H. rewrite !Z.leb_gt. lia. Qed.

Lemma named_later now now' d : now ≤ now' → well_named now d → well_named now' d.
Proof.
  intros Hle []. split; [done|..].
  - intros op rv id r H1 H2. eapply n_reserved0; [done|by eapply expired_later].
  - intros op1 op2 rv1 rv2 H1 H2 H3 H4 H5. eapply n_reservations0; [done..|by eapply expired_later|by eapply expired_later].
Qed.

(** Fewer files keep the names apart. *)
Lemma named_fewer now d d' :
  well_named now d → (∀ id r, d_records d' !! id = Some (Private r) → d_records d !! id = Some (Private r)) →
  (∀ op rv, d_reservations d' !! op = Some (Some rv) → d_reservations d !! op = Some (Some rv)) → well_named now d'.
Proof. intros [] H1 H2. split; eauto. Qed.

Lemma named_faults now d faults : well_named now d → well_named now (d <| d_faults := faults |>).
Proof. intros H. by eapply named_fewer. Qed.

Lemma named_pruned now d d' : well_named now d → pruned now d d' → well_named now d'.
Proof. intros H (E & _ & Hr & _). eapply named_fewer; [done|by rewrite E|eauto]. Qed.

Lemma named_write now f d : well_named now d → well_named now (f d) → well_named now (write_call f d).1.
Proof. intros H1 H2. destruct (write_call_cases f d) as [faults [-> | ->]]; by apply named_faults. Qed.

Lemma ascii_valid s : is_ascii s = true → ValidString s = true.
Proof.
  intros H. unfold ValidString. rewrite segments_ascii by done. apply forallb_forall. intros [r enc] Hin.
  apply list_elem_of_In, list_elem_of_fmap in Hin as (a & [= -> ->] & Ha). simpl.
  assert (byteZ a ≠ RuneError) as Hne by (pose proof (byteZ_range a); unfold RuneError; lia).
  by rewrite (proj2 (Z.eqb_neq _ _) Hne).
Qed.

Lemma safe_text s : SafeID s = true → ToValidText s = s.
Proof. intros H. by apply ToValidText_id, ascii_valid, SafeID_ascii. Qed.

Lemma SafeProjectName_ID s : SafeProjectName s = true → SafeID s = true.
Proof. unfold SafeProjectName. by intros [_ ?]%andb_true_iff. Qed.

Lemma Validate_ID r id : ProjectRecord_Validate r id = Ok tt → SafeID (pr_ProjectID r) = true.
Proof. unfold ProjectRecord_Validate. intros H. ok_inv. bools. done. Qed.

Lemma names_equal_false a b : names_equal unicode_lower a b = false ↔ key a ≠ key b.
Proof. unfold names_equal, ProjectNamesEqual. apply bool_decide_eq_false. Qed.

(** *** Putting a record *)

(** The record fits the names of the directory; the reservation of the operation [ignored] is its own. *)
Definition fits (now : Z) (d : directory) (record : ProjectRecord) (ignored : string) : Prop :=
  SafeProjectName (pr_Name record) = true ∧
  (∀ id r, d_records d !! id = Some (Private r) → record_conflict unicode_lower record r = false) ∧
  (∀ op rv, d_reservations d !! op = Some (Some rv) → expired now rv = false →
     SafeID op = true ∧ rv_OperationID rv = op ∧ rv_Name rv = rv_ProjectID rv ∧ reservation_conflict unicode_lower record ignored rv = false).

Lemma for_each_refuse {E A} (bad : A → bool) (e : A → E) l :
  for_each (λ x, refuse (bad x) (e x)) l = Ok tt → ∀ x, x ∈ l → bad x = false.
Proof. intros H x Hx. rewrite for_each_Ok in H. specialize (H x Hx). by apply refuse_Ok in H. Qed.

Lemma validateProjectName_spec now record ignored d :
  pruned now d (validateProjectName unicode_lower now record ignored d).1 ∧
  ((validateProjectName unicode_lower now record ignored d).2 = Ok tt →
   fits now (validateProjectName unicode_lower now record ignored d).1 record ignored).
Proof.
  unfold validateProjectName. unfold mbind, eff_bind, fail_if, pure, reading.
  destruct (refuse (negb (SafeProjectName (pr_Name record))) InvalidProjectName) as [[]|] eqn:Hn; [|done]. apply refuse_Ok in Hn.
  destruct (listUnlocked d) as [records|] eqn:Hl; [|done]. apply listUnlocked_Ok in Hl as [Hl _].
  destruct (for_each _ records) as [[]|] eqn:Hc; [|done].
  pose proof (readReservations_spec now d) as Hr. destruct (readReservations now true d) as [d' [l|e]]; simpl in *; [|by destruct Hr].
  destruct Hr as (Hp & H1 & _). split; [done|]. intros Hrc. pose proof Hp as (E & _ & Hsub & _). split_and!.
  - by apply negb_false_iff.
  - intros id r Hr. rewrite E in Hr. destruct (Hl id _ Hr) as (r' & [= <-] & Hin & _). by apply (for_each_refuse _ _ _ Hc).
  - intros op rv Hrv Hexp. destruct (H1 op _ (Hsub _ _ Hrv)) as (rv' & [= <-] & Hread & Hin). apply readReservation_Ok in Hread as (_ & ? & ? & _ & ?).
    split_and!; [done..|]. apply (for_each_refuse _ _ _ Hrc). auto.
Qed.

Lemma fits_named now d record ignored r' :
  well_named now d → fits now d record ignored →
  pr_ProjectID r' = pr_ProjectID record → pr_Name r' = pr_Name record →
  (∀ rv, d_reservations d !! ignored = Some (Some rv) → SafeID ignored = true → rv_ProjectID rv = pr_ProjectID record) →
  well_named now (d <| d_records := <[pr_ProjectID record := Private r']> (d_records d) |>).
Proof.
  intros [] (_ & Hc & Hr) Eid En Hown.
  assert (∀ id r, d_records d !! id = Some (Private r) → pr_ProjectID r ≠ pr_ProjectID record →
    key (pr_ProjectID r) ≠ key (pr_Name record) ∧ key (pr_Name r) ≠ key (pr_Name record) ∧ key (pr_Name r) ≠ key (pr_ProjectID record)) as Hfree.
  { intros id r Hid Hne. specialize (Hc id r Hid). unfold record_conflict in Hc. rewrite bool_decide_true in Hc by done.
    apply orb_false_iff in Hc as [[H1 H2]%orb_false_iff H3]. by rewrite !names_equal_false in *. }
  split; simpl.
  - intros id1 id2 r1 r2 [[<- [= ->]]|[_ H1]]%lookup_insert_Some [[<- [= ->]]|[_ H2]]%lookup_insert_Some Hne; rewrite ?Eid, ?En in *; [done|..].
    + destruct (Hfree id2 r2 H2) as (? & ? & ?); [done|]. split; congruence.
    + destruct (Hfree id1 r1 H1) as (? & ? & ?); [done|]. split; congruence.
    + by eapply n_records0.
  - intros op rv id r Hrv Hexp [[<- [= ->]]|[_ H]]%lookup_insert_Some Hne; [|by eapply n_reserved0]. rewrite Eid, En in *.
    destruct (Hr op rv Hrv Hexp) as (Hsafe & Hop & Enm & Hno). unfold reservation_conflict in Hno.
    destruct (decide (op = ignored)) as [-> |Hni]; [destruct Hne; symmetry; by apply Hown|].
    rewrite bool_decide_true in Hno by congruence. apply orb_false_iff in Hno as [H1 H2]. rewrite !names_equal_false, Enm in *. done.
  - done.
Qed.

Lemma put_named now d record ignored :
  well_named now d → fits now d record ignored → SafeID (pr_ProjectID record) = true →
  (∀ rv, d_reservations d !! ignored = Some (Some rv) → SafeID ignored = true → rv_ProjectID rv = pr_ProjectID record) →
  well_named now (putUnlocked record d).1.
Proof.
  intros Hw Hf Hid Hown. unfold putUnlocked, mbind, eff_bind, pure. destruct (ProjectRecord_Validate (record_text record) _) as [[]|]; [|done].
  apply named_write; [done|]. eapply fits_named; [exact Hw|exact Hf|by apply safe_text| |exact Hown].
  apply safe_text, SafeProjectName_ID, Hf.
Qed.

Lemma Put_named now d record : well_named now d → well_named now (Put unicode_lower now record d).1.
Proof.
  intros Hw. unfold Put. unfold mbind, eff_bind, pure. destruct (ProjectRecord_Validate record _) as [[]|] eqn:Hv; [|done].
  pose proof (validateProjectName_spec now record "" d) as [Hp Hf]. destruct (validateProjectName unicode_lower now record "" d) as [d' [[]|e]]; simpl in *.
  - apply (put_named now d' record ""); [by eapply named_pruned|by apply Hf|by eapply Validate_ID|].
    done.
  - by eapply named_pruned.
Qed.

(** *** Admission *)

Lemma foldl_insert_None {A} (f : A → string) (g : A → string) (m : gmap string string) l k :
  foldl (λ m x, <[f x := g x]> m) m l !! k = None ↔ m !! k = None ∧ ∀ x, x ∈ l → f x ≠ k.
Proof.
  revert m. induction l as [|x l IH]; intros m; simpl.
  - split; [intros H; split; [done|]; by intros x Hx%elem_of_nil|by intros [? _]].
  - rewrite IH, lookup_insert_None. split.
    + intros [[H1 H2] H3]. split; [done|]. intros y [-> |Hy]%elem_of_cons; auto.
    + intros [H1 H2]. split; [split; [done|]; apply H2; by left|]. intros y Hy. apply H2. by right.
Qed.

Lemma occupied_None records reservations names k :
  occupied_names unicode_lower records reservations names !! k = None ↔
  (∀ r, r ∈ records → key (pr_ProjectID r) ≠ k ∧ key (pr_Name r) ≠ k) ∧ (∀ rv, rv ∈ reservations → key (rv_ProjectID rv) ≠ k) ∧
  (∀ n, n ∈ names → key n ≠ k).
Proof.
  unfold occupied_names. rewrite (foldl_insert_None key (λ n, n)), (foldl_insert_None (λ r, key (rv_ProjectID r)) rv_ProjectID).
  assert (∀ (m : gmap string string) l, foldl (λ m r, <[key (pr_Name r) := pr_ProjectID r]> (<[key (pr_ProjectID r) := pr_ProjectID r]> m)) m l !! k = None ↔
    m !! k = None ∧ ∀ r, r ∈ l → key (pr_ProjectID r) ≠ k ∧ key (pr_Name r) ≠ k) as H.
  { intros m l. revert m. induction l as [|x l IH]; intros m; simpl.
    - split; [intros H; split; [done|]; by intros x Hx%elem_of_nil|by intros [? _]].
    - rewrite IH, !lookup_insert_None. split.
      + intros [[[H1 H2] H3] H4]. split; [done|]. intros y [-> |Hy]%elem_of_cons; auto.
      + intros [H1 H2]. destruct (H2 x) as [??]; [by left|]. split; [done|]. intros y Hy. apply H2. by right. }
  rewrite H, lookup_empty. split; [by intros [[[_ ?] ?] ?]|]. by intros (? & ? & ?).
Qed.

(** The name that is chosen is free, and it is the requested one or the first free candidate. *)
Lemma choose_name_Ok requested explicit occupied name :
  SafeProjectName requested = true → choose_name unicode_lower requested explicit occupied = Ok name →
  occupied !! key name = None ∧ is_ascii name = true ∧
  (name = requested ∨ explicit = false ∧ occupied !! key requested ≠ None ∧
   ∃ i, name = name_candidate requested (2 + Z.of_nat i) ∧ ∀ j, (j < i)%nat → occupied !! key (name_candidate requested (2 + Z.of_nat j)) ≠ None).
Proof.
  intros Hs. assert (is_ascii requested = true) as Ha by (by apply SafeID_ascii, SafeProjectName_ID). unfold choose_name.
  destruct (occupied !! key requested) as [owner|] eqn:Ho; [|intros [= <-]; by split_and!; [..|left]].
  destruct explicit; [done|]. intros [= <-]. unfold nextProjectName.
  destruct (next_available_total (S (size occupied)) requested (λ c, bool_decide (occupied !! key c = None)) (dom occupied)) as (i & -> & H1 & H2); [done|..].
  - intros c Hc%bool_decide_eq_false. apply elem_of_dom. by apply not_eq_None_Some.
  - rewrite size_dom. lia.
  - apply bool_decide_eq_true in H1. simpl. split_and!; [done| |right; split_and!; [done..|]].
    + unfold name_candidate. rewrite !name_ascii_app, pretty_ascii by lia. rewrite andb_true_r. destruct (_ <? _); [|by rewrite Ha].
      by rewrite is_ascii_take.
    + exists i. split; [done|]. intros j Hj. exact (proj1 (bool_decide_eq_false _) (H2 j Hj)).
Qed.

Lemma reserve_named now d rv :
  well_named now d → is_ascii (rv_ProjectID rv) = true →
  (∀ id r, d_records d !! id = Some (Private r) → key (rv_ProjectID rv) ≠ key (pr_Name r) ∧ key (rv_ProjectID rv) ≠ key (pr_ProjectID r)) →
  (∀ op rv', d_reservations d !! op = Some (Some rv') → expired now rv' = false → key (rv_ProjectID rv) ≠ key (rv_ProjectID rv')) →
  well_named now (link_reservation rv d).1.
Proof.
  intros Hw Ha Hr Hv. unfold link_reservation. destruct (d_reservations d !! rv_OperationID rv) eqn:E.
  { destruct (readReservation _ d); [|done]. by case_bool_decide. }
  apply named_write; [done|]. destruct Hw as [W1 W2 W3]. assert (rv_ProjectID (reservation_text rv) = rv_ProjectID rv) as Et by (by apply ToValidText_id, ascii_valid).
  split; [done|..]; simpl.
  - intros op rv' id r [[<- [= <-]]|[_ H]]%lookup_insert_Some; [|by eapply W2]. rewrite Et. intros _ Hid _. by eapply Hr.
  - intros op1 op2 rv1 rv2 [[<- [= <-]]|[_ H1]]%lookup_insert_Some [[<- [= <-]]|[_ H2]]%lookup_insert_Some Hne He1 He2; rewrite ?Et; [done|..].
    + by eapply Hv.
    + intros H. symmetry in H. revert H. by eapply Hv.
    + by eapply W3.
Qed.

Lemma Admit_named now op source mode requested explicit names d :
  well_named now d → well_named now (Admit unicode_lower now op source mode requested explicit names d).1.
Proof.
  intros Hw. unfold Admit. unfold mbind, eff_bind, fail_if, pure, reading.
  destruct (refuse _ UnsafeOperation) as [[]|]; [|done].
  destruct (check_admission source mode requested) as [[]|] eqn:Hch; [|done].
  destruct (listUnlocked d) as [records|] eqn:Hl; [|done]. apply listUnlocked_Ok in Hl as [Hl _].
  destruct (find_source source mode requested explicit records) as [[existing|]|]; [done| |done].
  pose proof (readReservations_spec now d) as Hr. destruct (readReservations now true d) as [d' [l|e]]; simpl in *; [|eapply named_pruned; [done|by destruct Hr]].
  destruct Hr as (Hp & H1 & _). pose proof (named_pruned _ _ _ Hw Hp) as Hw'.
  destruct (find_reservation op source mode requested explicit l) as [[pending|]|]; [done| |done].
  destruct (choose_name _ requested explicit _) as [name|] eqn:Hn; [|done].
  assert (SafeProjectName requested = true) as Hsafe by (unfold check_admission in Hch; ok_inv; by bools).
  apply choose_name_Ok in Hn as (Hfree & Ha & _); [|done]. apply occupied_None in Hfree as (F1 & F2 & _).
  set (rv := mkProjectReservation 1 op name name source mode requested explicit now). unfold writeReservation.
  unfold mbind, eff_bind, fail_if, pure. destruct (refuse _ InvalidReservation) as [[]|]; [|done]. destruct Hp as (E & _ & Hsub & _).
  assert (well_named now (link_reservation rv d').1) as Hlink.
  { apply reserve_named; [done|done|..].
    - intros id r Hid. rewrite E in Hid. destruct (Hl id _ Hid) as (r' & [= <-] & Hin & _). destruct (F1 r Hin). subst rv. simpl. split; congruence.
    - intros op' rv' Hrv Hexp. destruct (H1 op' _ (Hsub _ _ Hrv)) as (rv'' & [= <-] & _ & Hin). subst rv. simpl. specialize (F2 rv' (Hin Hexp)). congruence. }
  destruct (link_reservation rv d') as [d'' [[]|]]; simpl in *; done.
Qed.

Lemma remove_named now op d : well_named now d → well_named now (removeReservation op d).1.
Proof.
  intros Hw. unfold removeReservation. destruct (d_reservations d !! op); [|done]. apply named_write; [done|].
  eapply named_fewer; [done..|]. simpl. by intros op' rv [_ ?]%lookup_delete_Some.
Qed.

Lemma Finalize_named now op record d : well_named now d → well_named now (FinalizeOperation unicode_lower now op record d).1.
Proof.
  intros Hw. unfold FinalizeOperation. unfold mbind, eff_bind, fail_if, pure, reading.
  destruct (ProjectRecord_Validate record _) as [[]|] eqn:Hv; [|done].
  destruct (readReservation op d) as [rv|] eqn:Hr; [|done]. apply readReservation_Ok in Hr as (Hr & Hop & _ & _ & Hsafe).
  destruct (refuse _ ReservationMismatch) as [[]|] eqn:Hm; [|done]. apply refuse_Ok in Hm. bools.
  pose proof (validateProjectName_spec now record (rv_OperationID rv) d) as [Hp Hf].
  destruct (validateProjectName unicode_lower now record (rv_OperationID rv) d) as [d' [[]|e]]; simpl in *; [|by eapply named_pruned].
  pose proof (named_pruned _ _ _ Hw Hp) as Hw'.
  assert (well_named now (putUnlocked record d').1) as Hput.
  { eapply put_named; [done|by apply Hf|by eapply Validate_ID|]. rewrite Hop. intros rv' Hrv' _. destruct Hp as (_ & _ & Hsub & _).
    assert (rv' = rv) as -> by (apply Hsub in Hrv'; congruence). symmetry. by apply dec_stable. }
  destruct (putUnlocked record d') as [d'' [[]|]]; simpl in *; [|done]. by apply remove_named.
Qed.

Lemma Delete_named now id d : well_named now d → well_named now (Delete id d).1.
Proof.
  intros Hw. unfold Delete. unfold mbind, eff_bind, fail_if, pure. destruct (refuse _ InvalidProjectID) as [[]|]; [|done].
  apply named_write; [done|]. eapply named_fewer; [done|..|done]. simpl. by intros id' r [_ ?]%lookup_delete_Some.
Qed.

Lemma Abort_named now op d : well_named now d → well_named now (AbortAdmission op d).1.
Proof. intros Hw. unfold AbortAdmission. case_bool_decide; [done|by apply remove_named]. Qed.

Lemma find_record_state id d : (find_record id d).1 = d.
Proof.
  unfold find_record, Get. unfold mbind, eff_bind, fail_if, pure, reading. destruct (refuse _ _) as [[]|e]; [|by case_bool_decide].
  destruct (readProjectRecord id d); [done|]. by case_bool_decide.
Qed.

Lemma Upsert_named now d id name mode target sshHost hostPath importedAt version :
  well_named now d → well_named now (UpsertProject unicode_lower now id name mode target sshHost hostPath importedAt version d).1.
Proof.
  intros Hw. unfold UpsertProject. unfold mbind, eff_bind, fail_if, pure, reading. destruct (refuse _ InvalidProjectName) as [[]|]; [|done].
  destruct (listUnlocked d); [|done]. destruct (for_each _ _) as [[]|]; [|done].
  pose proof (find_record_state id d) as Hfs. destruct (find_record id d) as [d' [[r|]|]]; simpl in Hfs; subst d'; [|by apply Put_named|done].
  destruct (refuse _ StaleRename) as [[]|]; [|done]. by apply Put_named.
Qed.

Lemma Set_named now d id field value : well_named now d → well_named now (Set_field unicode_lower now id field value d).1.
Proof.
  intros Hw. unfold Set_field, Get. unfold mbind, eff_bind, fail_if, pure, reading. destruct (refuse _ InvalidProjectID) as [[]|]; [|done].
  destruct (readProjectRecord id d); [|done]. repeat case_bool_decide; try by apply Put_named. done.
Qed.

Lemma Remove_named now d id sourceKey : well_named now d → well_named now (RemoveProject id sourceKey d).1.
Proof.
  intros Hw. unfold RemoveProject. unfold mbind, eff_bind, fail_if, pure. destruct (refuse _ SourceKeyRequired) as [[]|]; [|done].
  pose proof (find_record_state id d) as Hfs. destruct (find_record id d) as [d' [[r|]|]]; simpl in Hfs; subst d'; [|done..].
  destruct (refuse _ SourceChanged) as [[]|]; [|done]. by apply Delete_named.
Qed.

Lemma Unregister_named now d id : well_named now d → well_named now (UnregisterYard id d).1.
Proof.
  intros Hw. unfold UnregisterYard. unfold mbind, eff_bind.
  pose proof (find_record_state id d) as Hfs. destruct (find_record id d) as [d' [[r|]|]]; simpl in Hfs; subst d'; [|done..].
  case_bool_decide; [done|]. by apply Delete_named.
Qed.

(** ** Steps *)

(** One operation of the store or the service at some time, with whatever calls failing, and the
    admission that it ends. *)
Inductive project_step (now : Z) : option string → directory → directory → Prop :=
| step_put d record : project_step now None d (Put unicode_lower now record d).1
| step_admit d op source mode requested explicit names :
    project_step now None d (Admit unicode_lower now op source mode requested explicit names d).1
| step_finalize d op record : project_step now (Some op) d (FinalizeOperation unicode_lower now op record d).1
| step_abort d op : project_step now (Some op) d (AbortAdmission op d).1
| step_delete d id : project_step now None d (Delete id d).1
| step_set d id field value : project_step now None d (Set_field unicode_lower now id field value d).1
| step_upsert d id name mode target sshHost hostPath importedAt version :
    project_step now None d (UpsertProject unicode_lower now id name mode target sshHost hostPath importedAt version d).1
| step_remove d id sourceKey : project_step now None d (RemoveProject id sourceKey d).1
| step_unregister d id : project_step now None d (UnregisterYard id d).1
| step_faults d faults : project_step now None d (d <| d_faults := faults |>).

(** Operations one after another, the clock not going back; some admissions are not ended. *)
Inductive project_run (ends : option string → Prop) : Z → directory → Z → directory → Prop :=
| run_nil now d : project_run ends now d now d
| run_cons now now1 now2 e d d1 d2 :
    now ≤ now1 → ends e → project_step now1 e d d1 → project_run ends now1 d1 now2 d2 → project_run ends now d now2 d2.

Lemma step_named now e d d' : well_named now d → project_step now e d d' → well_named now d'.
Proof.
  intros Hw Hs. revert Hw. destruct Hs; intros Hw;
    [by apply Put_named|by apply Admit_named|by apply Finalize_named|by apply Abort_named|by apply Delete_named
    |by apply Set_named|by apply Upsert_named|by apply Remove_named|by apply Unregister_named|by apply named_faults].
Qed.

Lemma run_named ends now d now' d' : well_named now d → project_run ends now d now' d' → well_named now' d'.
Proof.
  intros Hw Hr. induction Hr as [|now now1 now2 e d d1 d2 Hle _ Hs Hr IH]; [done|]. apply IH. eapply step_named; [|done]. by eapply named_later.
Qed.

(** *** Reservations are kept *)

(** The reservation of [op] is there and unchanged. *)
Definition keeps_reservation (op : string) (rv : ProjectReservation) (d d' : directory) : Prop :=
  d_reservations d !! op = Some (Some rv) → d_reservations d' !! op = Some (Some rv).

Lemma write_keeps op rv f d :
  (d_reservations (f d) !! op = d_reservations d !! op) → keeps_reservation op rv d (write_call f d).1.
Proof. intros Hf H. destruct (write_call_cases f d) as [faults [-> | ->]]; simpl; [done|by rewrite Hf]. Qed.

Lemma pruned_keeps now op rv d d' : pruned now d d' → expired now rv = false → keeps_reservation op rv d d'.
Proof. intros (_ & _ & _ & H) He Hrv. by apply H. Qed.

Lemma put_keeps op rv record d : keeps_reservation op rv d (putUnlocked record d).1.
Proof.
  unfold putUnlocked, mbind, eff_bind, pure. destruct (ProjectRecord_Validate _ _) as [[]|]; [|by intros ?]. by apply write_keeps.
Qed.

Lemma Put_keeps now op rv record d : expired now rv = false → keeps_reservation op rv d (Put unicode_lower now record d).1.
Proof.
  intros He H. unfold Put. unfold mbind, eff_bind, pure. destruct (ProjectRecord_Validate record _) as [[]|]; [|done].
  pose proof (validateProjectName_spec now record "" d) as [Hp _]. destruct (validateProjectName unicode_lower now record "" d) as [d' [[]|]]; simpl in *;
    pose proof (pruned_keeps _ _ _ _ _ Hp He H); [by apply put_keeps|done].
Qed.

Lemma Delete_keeps op rv id d : keeps_reservation op rv d (Delete id d).1.
Proof.
  unfold Delete. unfold mbind, eff_bind, fail_if, pure. destruct (refuse _ InvalidProjectID) as [[]|]; [|by intros ?]. by apply write_keeps.
Qed.

Lemma remove_keeps op op' rv d : op' ≠ op → keeps_reservation op rv d (removeReservation op' d).1.
Proof.
  intros Hne. unfold removeReservation. destruct (d_reservations d !! op'); [|by intros ?]. apply write_keeps. simpl. by rewrite lookup_delete_ne.
Qed.

Lemma link_keeps op rv rv' d : keeps_reservation op rv d (link_reservation rv' d).1.
Proof.
  intros H. unfold link_reservation. destruct (d_reservations d !! rv_OperationID rv') eqn:E.
  - destruct (readReservation _ d); [|done]. by case_bool_decide.
  - apply write_keeps; [|done]. simpl. rewrite lookup_insert_ne; [done|]. intros <-. congruence.
Qed.

Lemma Admit_keeps now op rv op' source mode requested explicit names d :
  expired now rv = false → keeps_reservation op rv d (Admit unicode_lower now op' source mode requested explicit names d).1.
Proof.
  intros He H. unfold Admit. unfold mbind, eff_bind, fail_if, pure, reading.
  destruct (refuse _ UnsafeOperation) as [[]|]; [|done]. destruct (check_admission source mode requested) as [[]|]; [|done].
  destruct (listUnlocked d) as [records|]; [|done]. destruct (find_source source mode requested explicit records) as [[existing|]|]; [done| |done].
  pose proof (readReservations_spec now d) as [Hp _]. destruct (readReservations now true d) as [d' [l|e]]; simpl in *;
    pose proof (pruned_keeps _ _ _ _ _ Hp He H) as Hk; [|done].
  destruct (find_reservation op' source mode requested explicit l) as [[pending|]|]; [done| |done].
  destruct (choose_name _ requested explicit _) as [name|]; [|done]. unfold writeReservation. unfold mbind, eff_bind, fail_if, pure.
  destruct (refuse _ InvalidReservation) as [[]|]; [|done].
  pose proof (link_keeps op rv (mkProjectReservation 1 op' name name source mode requested explicit now) d' Hk).
  destruct (link_reservation _ d') as [d'' [[]|]]; done.
Qed.

Lemma Finalize_keeps now op rv op' record d :
  op' ≠ op → expired now rv = false → keeps_reservation op rv d (FinalizeOperation unicode_lower now op' record d).1.
Proof.
  intros Hne He H. unfold FinalizeOperation. unfold mbind, eff_bind, fail_if, pure, reading.
  destruct (ProjectRecord_Validate record _) as [[]|]; [|done]. destruct (readReservation op' d) as [rv'|] eqn:Hr; [|done].
  apply readReservation_Ok in Hr as (_ & Hop & _). destruct (refuse _ ReservationMismatch) as [[]|]; [|done].
  pose proof (validateProjectName_spec now record (rv_OperationID rv') d) as [Hp _].
  destruct (validateProjectName unicode_lower now record (rv_OperationID rv') d) as [d' [[]|e]]; simpl in *;
    pose proof (pruned_keeps _ _ _ _ _ Hp He H) as Hk; [|done].
  pose proof (put_keeps op rv record d' Hk). destruct (putUnlocked record d') as [d'' [[]|]]; simpl in *; [|done].
  by apply remove_keeps; [rewrite Hop|].
Qed.

Lemma step_keeps now e op rv d d' :
  project_step now e d d' → e ≠ Some op → expired now rv = false → keeps_reservation op rv d d'.
Proof.
  intros Hs He Hx. destruct Hs.
  - by apply Put_keeps.
  - by apply Admit_keeps.
  - apply Finalize_keeps; [congruence|done].
  - unfold AbortAdmission. case_bool_decide; [by intros ?|]. apply remove_keeps. congruence.
  - apply Delete_keeps.
  - intros H. unfold Set_field, Get. unfold mbind, eff_bind, fail_if, pure, reading. destruct (refuse _ InvalidProjectID) as [[]|]; [|done].
    destruct (readProjectRecord id d); [|done]. repeat case_bool_decide; try by apply Put_keeps. done.
  - intros H. unfold UpsertProject. unfold mbind, eff_bind, fail_if, pure, reading. destruct (refuse _ InvalidProjectName) as [[]|]; [|done].
    destruct (listUnlocked d); [|done]. destruct (for_each _ _) as [[]|]; [|done].
    pose proof (find_record_state id d) as Hfs. destruct (find_record id d) as [d' [[r|]|]]; simpl in Hfs; subst d'; [|by apply Put_keeps|done].
    destruct (refuse _ StaleRename) as [[]|]; [|done]. by apply Put_keeps.
  - intros H. unfold RemoveProject. unfold mbind, eff_bind, fail_if, pure. destruct (refuse _ SourceKeyRequired) as [[]|]; [|done].
    pose proof (find_record_state id d) as Hfs. destruct (find_record id d) as [d' [[r|]|]]; simpl in Hfs; subst d'; [|done..].
    destruct (refuse _ SourceChanged) as [[]|]; [|done]. by apply Delete_keeps.
  - intros H. unfold UnregisterYard. unfold mbind, eff_bind.
    pose proof (find_record_state id d) as Hfs. destruct (find_record id d) as [d' [[r|]|]]; simpl in Hfs; subst d'; [|done..].
    case_bool_decide; [done|]. by apply Delete_keeps.
  - by intros ?.
Qed.

Lemma run_later ends now d now' d' : project_run ends now d now' d' → now ≤ now'.
Proof. induction 1; lia. Qed.

Lemma run_keeps now d now' d' op rv :
  project_run (λ e, e ≠ Some op) now d now' d' → expired now' rv = false → keeps_reservation op rv d d'.
Proof.
  induction 1 as [|now now1 now2 e d d1 d2 Hle He Hs Hr IH]; [by intros _ ?|]. intros Hx H. apply IH; [done|].
  eapply step_keeps; [done..| |done]. eapply expired_later; [by eapply run_later|done].
Qed.

(** *** A reservation is honoured *)

Definition quiet_calls (d : directory) : Prop := d_faults d = [].

Lemma remove_works op d : quiet_calls d →
  removeReservation op d = (d <| d_reservations := delete op (d_reservations d) |>, Ok tt).
Proof.
  intros Hq. unfold removeReservation. destruct (d_reservations d !! op) eqn:E.
  - unfold write_call. by rewrite Hq.
  - rewrite delete_id by done. by destruct d.
Qed.

Lemma read_reservations_quiet now ops d : quiet_calls d → quiet_calls (read_reservations now true ops d).1.
Proof.
  revert d. induction ops as [|op ops IH]; intros d Hq; [done|]. cbn [read_reservations]. unfold mbind, eff_bind, reading.
  destruct (readReservation op d) as [rv|]; [|done]. destruct (expired now rv); cbn [when].
  - rewrite remove_works by done. apply IH. done.
  - specialize (IH d Hq). by destruct (read_reservations now true ops d) as [d' []].
Qed.

Lemma readReservations_quiet now d : quiet_calls d → quiet_calls (readReservations now true d).1.
Proof.
  intros Hq. unfold readReservations. unfold mbind at 1, eff_bind at 1, reading. unfold mbind, eff_bind.
  pose proof (read_reservations_quiet now (sort_by_key (λ id, id +:+ ".json") (map_to_list (d_reservations d)).*1) d Hq) as H.
  by destruct (read_reservations _ _ _ _) as [d' []].
Qed.

Lemma validateProjectName_works now record ignored d l k :
  SafeProjectName (pr_Name record) = true → listUnlocked d = Ok l → (readReservations now true d).2 = Ok k →
  (∀ r, r ∈ l → record_conflict unicode_lower record r = false) →
  (∀ rv, rv ∈ k → reservation_conflict unicode_lower record ignored rv = false) →
  validateProjectName unicode_lower now record ignored d = ((readReservations now true d).1, Ok tt).
Proof.
  intros Hn Hl Hk H1 H2. unfold validateProjectName. unfold mbind, eff_bind, fail_if, pure, reading. rewrite Hn, Hl. cbn [negb refuse].
  destruct (readReservations now true d) as [d' []]; [|done]. simpl in Hk. injection Hk as ->.
  rewrite (proj2 (for_each_Ok _ _ tt)) by (intros r Hr; rewrite H1; done). rewrite (proj2 (for_each_Ok _ _ tt)) by (intros r Hr; rewrite H2; done). done.
Qed.

Lemma find_reservation_Some op source mode requested explicit l pending :
  find_reservation op source mode requested explicit l = Ok (Some pending) → pending ∈ l ∧ rv_OperationID pending = op.
Proof.
  induction l as [|x l IH]; intros Hf; [done|]. cbn [find_reservation] in Hf. case_bool_decide; [|destruct (IH Hf); split; [by right|done]].
  case_bool_decide; [destruct (_ || _); [done|]; injection Hf as <-; split; [left|done]|].
  destruct (_ || _); [done|]. destruct (IH Hf). split; [by right|done].
Qed.

Lemma removal_elsewhere op rv d :
  d_reservations d !! op = Some (Some rv) →
  ∀ op', op' ≠ op → d_reservations (removeReservation op d).1 !! op' = d_reservations d !! op'.
Proof.
  intros Hop op' Hne. unfold removeReservation. rewrite Hop.
  destruct (write_call_cases (λ d, d <| d_reservations := delete op (d_reservations d) |>) d) as [faults [-> | ->]]; [done|].
  simpl. by rewrite lookup_delete_ne.
Qed.

Lemma Admit_reserves now op source mode requested explicit names d d1 adm rv :
  ValidString source = true →
  Admit unicode_lower now op source mode requested explicit names d = (d1, Ok adm) → ad_Reservation adm = Some rv →
  d_reservations d1 !! op = Some (Some rv) ∧ rv_OperationID rv = op.
Proof.
  intros Hsrc. unfold Admit. unfold mbind, eff_bind, fail_if, pure, reading.
  destruct (refuse _ UnsafeOperation) as [[]|] eqn:Hop; [|done]. apply refuse_Ok in Hop. destruct (check_admission source mode requested) as [[]|] eqn:Hch; [|done].
  destruct (listUnlocked d) as [records|]; [|done]. destruct (find_source source mode requested explicit records) as [[existing|]|]; [by intros [= <- <-]| |done].
  pose proof (readReservations_spec now d) as Hr. destruct (readReservations now true d) as [d' [l|e]]; simpl in *; [|done]. destruct Hr as (Hp & _ & H2).
  destruct (find_reservation op source mode requested explicit l) as [[pending|]|] eqn:Hf; [|..|done].
  - intros [= <- <-] [= <-]. apply find_reservation_Some in Hf as [Hin Hid].
    destruct (H2 _ Hin) as [He Hread]. rewrite Hid in Hread. apply readReservation_Ok in Hread as (Hread & _). split; [|done]. by apply Hp.
  - destruct (choose_name _ requested explicit _) as [name|] eqn:Hn; [|done]. unfold writeReservation. unfold mbind, eff_bind, fail_if, pure.
    unfold check_admission in Hch. ok_inv. bools. apply choose_name_Ok in Hn as (_ & Ha & _); [|done].
    destruct (refuse _ InvalidReservation) as [[]|] eqn:Hs; [|done]. apply refuse_Ok in Hs. simpl in Hs. bools.
    set (new := mkProjectReservation 1 op name name source mode requested explicit now).
    assert (reservation_text new = new) as Et.
    { unfold reservation_text, new. simpl. rewrite !(ToValidText_id name) by (by apply ascii_valid). rewrite (ToValidText_id source) by done.
      rewrite (safe_text op), (safe_text requested); [|by apply SafeProjectName_ID|done]. f_equal.
      match goal with H : known_mode mode = true |- _ => unfold known_mode in H; apply bool_decide_eq_true in H; rename H into Hm end.
      apply elem_of_cons in Hm as [-> |Hm]; [reflexivity|]. apply elem_of_cons in Hm as [-> |Hm]; [reflexivity|].
      apply list_elem_of_singleton in Hm as ->. reflexivity. }
    unfold link_reservation. change (rv_OperationID new) with op. destruct (d_reservations d' !! op) eqn:E.
    + destruct (readReservation op d') as [cur|] eqn:Hcur; [|done]. apply readReservation_Ok in Hcur as (Hcur & Hid & _).
      case_bool_decide as Ec; [|done]. intros [= <- <-] [= <-]. subst cur. done.
    + rewrite Et. pose proof (write_call_ok (λ d, d <| d_reservations := <[op := Some new]> (d_reservations d) |>) d') as Hw.
      destruct (write_call _ d') as [d'' [[]|]]; simpl in *; [|done]. destruct (Hw eq_refl) as [faults ->]. intros [= <- <-] [= <-].
      split; [|done]. simpl. by rewrite lookup_insert_eq.
Qed.


(** *** The preview *)

Lemma mapM_mono {E A B} (f g : A → result E B) l k : (∀ x y, f x = Ok y → g x = Ok y) → mapM f l = Ok k → mapM g l = Ok k.
Proof.
  intros Hfg. revert k. induction l as [|x l IH]; intros k; [done|]. cbn [mapM]. intros (y & Hy & (k' & Hk & Heq)%bind_Ok)%bind_Ok.
  apply bind_Ok. exists y. split; [by apply Hfg|]. apply bind_Ok. exists k'. split; [by apply IH|done].
Qed.

Lemma ListReadOnly_agrees d l : listUnlocked d = Ok l → ListReadOnly d = Ok l.
Proof.
  unfold listUnlocked, ListReadOnly. intros (k & Hk & Heq)%bind_Ok. apply bind_Ok. exists k. split; [|done]. eapply mapM_mono; [|done].
  intros [id [|r|r]] y; done.
Qed.

Lemma read_only_reservations now ops d d' d0 l :
  NoDup ops → (∀ op, op ∈ ops → readReservation op d = readReservation op d0) →
  read_reservations now true ops d = (d', Ok l) → read_reservations now false ops d0 = (d0, Ok l).
Proof.
  revert d d' l. induction ops as [|op ops IH]; intros d d' l Hnd Hsame; [by intros [= _ <-]|]. apply NoDup_cons in Hnd as [Hnot Hnd].
  cbn [read_reservations]. unfold mbind, eff_bind, reading. rewrite <-(Hsame op) by left.
  destruct (readReservation op d) as [rv|] eqn:Hrv; [|done]. apply readReservation_Ok in Hrv as (Hrv & _). destruct (expired now rv); cbn [when].
  - pose proof (removal_elsewhere op rv d Hrv) as Hr. destruct (removeReservation op d) as [d1 [[]|]]; [|done]. simpl in Hr |- *. apply IH; [done|].
    intros op' Hop'. rewrite <-Hsame by (by right). unfold readReservation. rewrite Hr; [done|]. by intros ->.
  - destruct (read_reservations now true ops d) as [d1 [l1|]] eqn:E; [|done]. intros [= _ <-].
    rewrite (IH d d1 l1); [done..| |done]. intros op' Hop'. apply Hsame. by right.
Qed.

Lemma readReservations_agrees now d d' l : readReservations now true d = (d', Ok l) → readReservations now false d = (d, Ok l).
Proof.
  unfold readReservations. unfold mbind, eff_bind, reading. set (ops := sort_by_key _ _).
  destruct (read_reservations now true ops d) as [d1 [l1|]] eqn:E; [|done]. intros [= _ <-].
  rewrite (read_only_reservations now ops d d1 d l1); [done|..|done|done]. unfold ops, sort_by_key. rewrite sort_by_perm. apply NoDup_fst_map_to_list.
Qed.

(** The preview of an admission says what the admission does: for an operation that has no reservation
    yet, when the admission succeeds, the preview of it over the same directory at the same time shows
    the same project, the same name and the same record, and leaves the directory as it is. *)
Theorem preview_agrees now op source mode requested explicit names d d1 adm :
  d_reservations d !! op = None →
  Admit unicode_lower now op source mode requested explicit names d = (d1, Ok adm) →
  PreviewAdmission unicode_lower now source mode requested explicit names d =
    (d, Ok (mkAdmission (ad_ProjectID adm) (ad_Name adm) (ad_Existing adm) None)).
Proof.
  intros Hnew. unfold Admit, PreviewAdmission. unfold mbind, eff_bind, fail_if, pure, reading.
  destruct (refuse _ UnsafeOperation) as [[]|]; [|done]. destruct (check_admission source mode requested) as [[]|]; [|done].
  destruct (listUnlocked d) as [records|] eqn:Hl; [|done]. rewrite (ListReadOnly_agrees _ _ Hl).
  destruct (find_source source mode requested explicit records) as [[existing|]|]; [by intros [= _ <-]| |done].
  pose proof (readReservations_spec now d) as [_ Hspec]. destruct (readReservations now true d) as [d' [l|]] eqn:Hr; [|done]. destruct Hspec as [_ Hspec].
  rewrite (readReservations_agrees _ _ _ _ Hr). destruct (find_reservation op source mode requested explicit l) as [[pending|]|] eqn:Hf; [..|done].
  - apply find_reservation_Some in Hf as [Hin Hid]. apply Hspec in Hin as [_ (Hin & _)%readReservation_Ok]. congruence.
  - destruct (choose_name _ requested explicit _) as [name|]; [|done]. destruct (writeReservation _ d') as [d'' [[]|]]; [|done]. by intros [= _ <-].
Qed.

(** ** Names stay unique *)


End names.

(** *** Concrete directories *)

Definition sample_lower (s : string) : string := s.

Definition empty_directory : directory := mkDirectory ∅ ∅ None [].

Definition other_project : ProjectRecord :=
  mkProjectRecord 1 0 "other" "Other" "" "" "/srv/workspaces/other/src" "sync" "yard" "" "" "" "yard".

(** A directory with a project and, for an hour, the reservation of a second one of the name. *)
Definition after_put : directory := (Put sample_lower 0 other_project empty_directory).1.
Definition after_admission : directory * result state_error Admission := Admit sample_lower 1 "op-1" "/home/u/demo" "bind" "OTHER" false [] after_put.

Definition demo_reservation : ProjectReservation := mkProjectReservation 1 "op-1" "OTHER-2" "OTHER-2" "/home/u/demo" "bind" "OTHER" false 1.

Definition demo_record : ProjectRecord :=
  mkProjectRecord 1 2 "OTHER-2" "OTHER-2" "/home/u/demo" (SourceKey "/home/u/demo") "/srv/workspaces/OTHER-2/src" "bind" "yard" "" "" "" "".

Lemma empty_named now : well_named sample_lower now empty_directory.
Proof. by split. Qed.

Lemma after_put_named : well_named sample_lower 0 after_put.
Proof. apply Put_named, empty_named. Qed.


(** The project is finalized although another one was added under the name that was asked for. *)
Definition late_directory : directory :=
  (Put sample_lower 3 (mkProjectRecord 1 0 "third" "other-3" "" "" "/srv/workspaces/third/src" "git" "yard" "" "" "" "yard") after_admission.1).1.


Lemma preview_agrees_witness :
  PreviewAdmission sample_lower 1 "/home/u/demo" "bind" "OTHER" false [] after_put = (after_put, Ok (mkAdmission "OTHER-2" "OTHER-2" None None)).
Proof.
  apply (preview_agrees sample_lower 1 "op-1" "/home/u/demo" "bind" "OTHER" false [] after_put after_admission.1
           (mkAdmission "OTHER-2" "OTHER-2" None (Some demo_reservation))); vm_compute; reflexivity.
Defined.
