(* ===== verification/ProjectNamesProofs.v ===== *)
(** * Properties of the rename of projects

    The plan gives every project a name of its own and is stable; a rename that is interrupted is
    resumed by the next one with the same result. *)

From S2P Require Import Prelude GoStrings GoSort GoPath Sha256 Names GoJson GoJsonDecode Effects ProjectState ProjectNames ProjectProofs.

Section names.
Context (unicode_lower : string → string).
#[local] Notation key := (ProjectNameKey unicode_lower).

(** ** The plan of a rename *)

Lemma pretty_N_go_length k x s : (x < 10 ^ N.of_nat k)%N → (String.length (pretty_N_go x s) ≤ k + String.length s)%nat.
Proof.
  revert x s. induction k as [|k IH]; intros x s Hx.
  - assert (x = 0)%N as -> by (simpl in Hx; lia). rewrite pretty_N_go_0. lia.
  - destruct (decide (x = 0)%N) as [-> |Hne]; [rewrite pretty_N_go_0; lia|]. rewrite pretty_N_go_step by lia.
    specialize (IH (x `div` 10)%N (String (pretty_N_char (x `mod` 10)%N) s)). simpl in IH.
    assert (x `div` 10 < 10 ^ N.of_nat k)%N; [|specialize (IH ltac:(done)); lia].
    apply N.Div0.div_lt_upper_bound. rewrite Nat2N.inj_succ, N.pow_succ_r' in Hx. lia.
Qed.

Lemma pretty_length (n : Z) k : 0 ≤ n < 10 ^ Z.of_nat (S k) → (String.length (pretty n) ≤ S k)%nat.
Proof.
  intros Hn. destruct n as [|p|p]; [simpl; lia| |lia]. change (pretty (Z.pos p)) with (pretty_N_go (N.pos p) "").
  pose proof (pretty_N_go_length (S k) (N.pos p) "") as H. rewrite Nat.add_0_r in H. apply H. apply N2Z.inj_lt. rewrite N2Z.inj_pow, nat_N_Z. simpl. lia.
Qed.

Lemma prefix_head a s t : HasPrefix (String a s) "-" = false → HasPrefix (String a t) "-" = false.
Proof. unfold HasPrefix. cbn [String.prefix]. destruct (ascii_dec "-" a); [by destruct s|done]. Qed.

Lemma safe_prefix s n : SafeID s = true → (0 < n)%nat → string_take n s = "." ∨ string_take n s = ".." ∨ SafeID (string_take n s) = true.
Proof.
  intros (H1 & _ & _ & H4 & H5)%SafeID_bytes Hn. destruct (decide (string_take n s = ".")); [by left|right].
  destruct (decide (string_take n s = "..")); [by left|right]. apply SafeID_bytes. destruct s as [|a s]; [done|]. destruct n as [|n]; [lia|].
  split_and!; [done..| |].
  - by apply (prefix_head a s).
  - intros b Hb. apply H5. rewrite bytes_string_take in Hb. apply elem_of_take in Hb as (? & ? & _). by eapply list_elem_of_lookup_2.
Qed.

Lemma candidate_safe base n :
  SafeProjectName base = true → 0 ≤ n < 10 ^ 40 → SafeProjectName (name_candidate base n) = true.
Proof.
  unfold SafeProjectName. intros [Hlen (H1 & _ & _ & H4 & H5)%SafeID_bytes]%andb_true_iff Hn. apply Z.leb_le in Hlen.
  assert (String.length (pretty n) ≤ 40)%nat as Hp by (apply (pretty_length n 39); exact Hn).
  unfold name_candidate. set (t := "-" +:+ pretty n). assert (len t ≤ 41) as Ht by (unfold t; rewrite len_app; unfold len; change (String.length "-") with 1%nat; lia).
  set (p := if _ <? _ then _ else _).
  assert (p ≠ "" ∧ HasPrefix p "-" = false ∧ (∀ b, b ∈ bytes p → safe_id_rune b = true) ∧ len p + len t ≤ 50) as (P1 & P2 & P3 & P4).
  { subst p. destruct (50 - len t <? len base) eqn:E; [apply Z.ltb_lt in E|apply Z.ltb_ge in E; by split_and!; [..|lia]].
    destruct (Z.to_nat (50 - len t)) as [|k] eqn:Ek; [lia|]. destruct base as [|a base]; [done|]. split_and!.
    - done.
    - by apply (prefix_head a base).
    - intros b Hb. apply H5. rewrite bytes_string_take in Hb. apply elem_of_take in Hb as (? & ? & _). by eapply list_elem_of_lookup_2.
    - unfold len at 1. rewrite length_string_take by (unfold len in *; lia). unfold len in *. lia. }
  apply andb_true_iff. split; [apply Z.leb_le; by rewrite len_app|]. apply SafeID_bytes.
  assert (45 ∈ bytes (p +:+ t)) as Hdash by (rewrite bytes_app; apply elem_of_app; right; left).
  split_and!.
  - by destruct p.
  - intros E. rewrite E in Hdash. vm_compute in Hdash. apply list_elem_of_singleton in Hdash. done.
  - intros E. rewrite E in Hdash. apply elem_of_cons in Hdash as [Hd|Hd]; [done|]. apply list_elem_of_singleton in Hd. done.
  - destruct p as [|a p]; [done|]. by apply (prefix_head a p).
  - intros b. rewrite bytes_app. intros [Hb|Hb]%elem_of_app; [by apply P3|]. unfold t in Hb. simpl in Hb. apply elem_of_cons in Hb as [-> |Hb]; [done|].
    apply safe_id_rune_true. pose proof (pretty_digits n b ltac:(lia) Hb). lia.
Qed.

Lemma base_name_safe r : SafeID (pr_ProjectID r) = true → SafeProjectName (base_name r) = true.
Proof.
  intros Hid. unfold base_name. destruct (SafeProjectName (pr_Name r)) eqn:E; [done|]. unfold SafeProjectName.
  destruct (50 <? len (pr_ProjectID r)) eqn:El.
  - apply Z.ltb_lt in El. assert (String.length (string_take 50 (pr_ProjectID r)) = 50)%nat as Hl by (apply length_string_take; unfold len in El; lia).
    apply andb_true_iff. split; [unfold len; by rewrite Hl|]. destruct (safe_prefix (pr_ProjectID r) 50) as [H|[H|H]]; [done|lia|..|done]; by rewrite H in Hl.
  - apply Z.ltb_ge in El. apply andb_true_iff. split; [by apply Z.leb_le|done].
Qed.

Definition ids_safe (records : list ProjectRecord) : Prop := ∀ r, r ∈ records → SafeID (pr_ProjectID r) = true.

Lemma base_at_ascii records i : ids_safe records → is_ascii (base_at records i) = true.
Proof.
  intros Hs. unfold base_at. destruct (records !! i) as [r|] eqn:E; [|done].
  apply SafeID_ascii, SafeProjectName_ID, base_name_safe, Hs. by eapply list_elem_of_lookup_2.
Qed.

(** The owners of an identifier are the projects with it. *)
Lemma id_owners_spec records k o :
  o ∈ default [] (id_owners unicode_lower records !! k) ↔ ∃ r, r ∈ records ∧ pr_ProjectID r = o ∧ key o = k.
Proof.
  unfold id_owners. induction records as [|r records IH] using rev_ind.
  - simpl. rewrite lookup_empty. simpl. split; [by intros ?%elem_of_nil|]. by intros (r & ?%elem_of_nil & _).
  - rewrite foldl_snoc. destruct (decide (key (pr_ProjectID r) = k)) as [<- |Hne].
    + rewrite lookup_insert_eq. cbn [default from_option id]. rewrite elem_of_app, IH, list_elem_of_singleton. split.
      * intros [(r' & Hr' & H)| ->]; [exists r'; split; [apply elem_of_app; by left|done]|exists r; split; [apply elem_of_app; right; left|done]].
      * intros (r' & [Hr'| ->%list_elem_of_singleton]%elem_of_app & <- & Hk); [left; by exists r'|by right].
    + rewrite lookup_insert_ne by done. rewrite IH. split.
      * intros (r' & Hr' & H). exists r'. split; [apply elem_of_app; by left|done].
      * intros (r' & [Hr'| ->%list_elem_of_singleton]%elem_of_app & Ho & Hk); [by exists r'|]. subst o. done.
Qed.

Lemma foreign_false owners id : hasForeignProjectID owners id = false ↔ ∀ o, o ∈ owners → o = id.
Proof.
  unfold hasForeignProjectID. induction owners as [|o owners IH]; simpl.
  - split; [by intros _ o ?%elem_of_nil|done].
  - rewrite orb_false_iff, IH, bool_decide_eq_false. split.
    + intros [H1 H2] o' [-> |Ho]%elem_of_cons; [by apply dec_stable|by apply H2].
    + intros H. split; [intros Hne; apply Hne, H; by left|]. intros o' Ho. apply H. by right.
Qed.

(** What a search for a name has to avoid is a finite set. *)
Lemma unavailable_taken name id idOwners protected assigned :
  projectNameUnavailable unicode_lower name id idOwners protected assigned = true →
  key name ∈ dom idOwners ∪ dom protected ∪ dom assigned.
Proof.
  unfold projectNameUnavailable, foreign_owner. rewrite !orb_true_iff, !elem_of_union, !elem_of_dom. intros [[H|H]|H].
  - left. left. destruct (idOwners !! key name); [by eexists|done].
  - left. right. destruct (protected !! key name); [by eexists|done].
  - right. destruct (assigned !! key name); [by eexists|done].
Qed.

Lemma assign_name_free records keepers idOwners protected assigned index r :
  ids_safe records → SafeID (pr_ProjectID r) = true →
  projectNameUnavailable unicode_lower (assign_name unicode_lower records keepers idOwners protected assigned index r) (pr_ProjectID r)
    idOwners protected assigned = false ∧
  (Z.of_nat (size idOwners + size protected + size assigned) < 10 ^ 39 → (∀ i, keepers !! key (base_name r) = Some i → is_Some (records !! i)) →
   SafeProjectName (assign_name unicode_lower records keepers idOwners protected assigned index r) = true).
Proof.
  intros Hs Hid. unfold assign_name. set (base := match keepers !! _ with Some _ => _ | None => _ end).
  assert (is_ascii base = true) as Ha.
  { subst base. destruct (keepers !! _); [by apply base_at_ascii|]. by apply SafeID_ascii, SafeProjectName_ID, base_name_safe. }
  assert ((∀ i, keepers !! key (base_name r) = Some i → is_Some (records !! i)) → SafeProjectName base = true) as Hsafe.
  { intros Hk. subst base. destruct (keepers !! _) as [i|]; [|by apply base_name_safe]. destruct (Hk i eq_refl) as [r' Hr']. unfold base_at. rewrite Hr'.
    apply base_name_safe, Hs. by eapply list_elem_of_lookup_2. }
  destruct (bool_decide _ || _) eqn:E; [|apply orb_false_iff in E as [_ ?]; auto].
  set (unavailable := λ name, projectNameUnavailable unicode_lower name (pr_ProjectID r) idOwners protected assigned).
  set (n := (size idOwners + size protected + size assigned)%nat).
  pose proof (size_union_alt (dom idOwners ∪ dom protected) (dom assigned)) as U1. pose proof (size_union_alt (dom idOwners) (dom protected)) as U2.
  assert (size (dom idOwners ∪ dom protected ∪ dom assigned) ≤ n)%nat as Hn.
  { pose proof (subseteq_size (dom assigned ∖ (dom idOwners ∪ dom protected)) (dom assigned) ltac:(set_solver)).
    pose proof (subseteq_size (dom protected ∖ dom idOwners) (dom protected) ltac:(set_solver)). rewrite !size_dom in *. unfold n. lia. }
  destruct (next_available_cases (S n) 2 base (λ c, negb (unavailable c))) as [(i & Hi & Hc & H1 & _)|[Hno _]].
  - unfold unavailable in Hc. rewrite Hc. simpl. split; [by apply negb_true_iff|]. intros Hb Hk. apply candidate_safe; [by apply Hsafe|]. lia.
  - exfalso. destruct (next_available_total unicode_lower (S n) base (λ c, negb (unavailable c)) (dom idOwners ∪ dom protected ∪ dom assigned)) as (i & Hnext & _);
      [done|intros c Hc; apply unavailable_taken with (pr_ProjectID r); by apply negb_false_iff|lia|congruence].
Qed.

Lemma imap_pair_snoc {A} (l : list A) x : imap pair (l ++ [x]) = imap pair l ++ [(length l, x)].
Proof. rewrite imap_app. simpl. by rewrite Nat.add_0_r. Qed.

Lemma elem_of_imap_pair {A} (l : list A) i x : (i, x) ∈ imap pair l ↔ l !! i = Some x.
Proof. rewrite elem_of_lookup_imap. split; [by intros (j & y & [= -> ->] & ?)|]. intros H. by exists i, x. Qed.

(** The keeper of a name is a record with that name, and every name has one. *)
Lemma first_keepers_spec records :
  (∀ k i, first_keepers unicode_lower records !! k = Some i → ∃ r, records !! i = Some r ∧ key (base_name r) = k) ∧
  (∀ r, r ∈ records → is_Some (first_keepers unicode_lower records !! key (base_name r))).
Proof.
  unfold first_keepers. induction records as [|r records [IH1 IH2]] using rev_ind; [split; [done|by intros r ?%elem_of_nil]|].
  rewrite imap_pair_snoc, foldl_snoc. set (m := foldl _ _ _) in *.
  assert (∀ i r', records !! i = Some r' → (records ++ [r]) !! i = Some r') as Hext by (intros; by apply lookup_app_l_Some).
  case_bool_decide as E; split.
  - intros k i [[<- <-]|[_ H]]%lookup_insert_Some; [exists r; split; [by apply list_lookup_middle|done]|].
    destruct (IH1 k i H) as (r' & ? & ?). exists r'. auto.
  - intros r' [Hr'| ->%list_elem_of_singleton]%elem_of_app; [|by rewrite lookup_insert_eq].
    destruct (decide (key (base_name r) = key (base_name r'))) as [-> |]; [by rewrite lookup_insert_eq|]. rewrite lookup_insert_ne by done. by apply IH2.
  - intros k i H. destruct (IH1 k i H) as (r' & ? & ?). exists r'. auto.
  - intros r' [Hr'| ->%list_elem_of_singleton]%elem_of_app; [by apply IH2|]. by apply not_eq_None_Some.
Qed.

Lemma keepers_spec records :
  (∀ k i, keepers_of unicode_lower records !! k = Some i → ∃ r, records !! i = Some r ∧ key (base_name r) = k) ∧
  (∀ r, r ∈ records → is_Some (keepers_of unicode_lower records !! key (base_name r))).
Proof.
  destruct (first_keepers_spec records) as [F1 F2]. unfold keepers_of.
  assert (∀ l (m : gmap string nat), (∀ i r, (i, r) ∈ l → records !! i = Some r) →
    (∀ k i, m !! k = Some i → ∃ r, records !! i = Some r ∧ key (base_name r) = k) →
    (∀ k i, foldl (λ m '(index, record), if pr_IdentityVersion record =? 2 then <[key (base_name record) := index]> m else m) m l !! k = Some i →
       ∃ r, records !! i = Some r ∧ key (base_name r) = k) ∧
    (∀ k, is_Some (m !! k) → is_Some (foldl (λ m '(index, record), if pr_IdentityVersion record =? 2 then <[key (base_name record) := index]> m else m) m l !! k))) as H.
  { induction l as [|[i r] l IH]; intros m Hl Hm; [done|]. cbn [foldl]. destruct (pr_IdentityVersion r =? 2).
    - destruct (IH (<[key (base_name r) := i]> m)) as [I1 I2].
      + intros j r' Hin. apply Hl. by right.
      + intros k j [[<- <-]|[_ H]]%lookup_insert_Some; [exists r; split; [apply Hl; left|done]|by apply Hm].
      + split; [done|]. intros k Hk. apply I2. destruct (decide (key (base_name r) = k)) as [-> |]; [by rewrite lookup_insert_eq|by rewrite lookup_insert_ne].
    - apply IH; [intros j r' Hin; apply Hl; by right|done]. }
  destruct (H (imap pair records) (first_keepers unicode_lower records)) as [H1 H2]; [intros i r; apply elem_of_imap_pair|done|].
  split; [done|]. intros r Hr. by apply H2, F2.
Qed.

(** A protected name belongs to a record with it. *)
Lemma protected_spec records keepers idOwners k o :
  protected_names unicode_lower records keepers idOwners !! k = Some o → ∃ r, r ∈ records ∧ pr_ProjectID r = o ∧ key (base_name r) = k.
Proof.
  unfold protected_names. generalize (map_to_list keepers). intros l. induction l as [|[k' i] l IH] using rev_ind; [done|]. rewrite foldl_snoc.
  destruct (records !! i) as [r|] eqn:E; [|done]. destruct (hasForeignProjectID _ _); [done|].
  intros [[<- <-]|[_ H]]%lookup_insert_Some; [|by apply IH]. exists r. split; [by eapply list_elem_of_lookup_2|done].
Qed.

Lemma foldl_size {A V} (f : gmap string V → A → gmap string V) m l :
  (∀ m x, (size (f m x) ≤ S (size m))%nat) → (size (foldl f m l) ≤ size m + length l)%nat.
Proof. intros Hf. revert m. induction l as [|x l IH]; intros m; simpl; [lia|]. specialize (IH (f m x)). specialize (Hf m x). lia. Qed.

Lemma insert_size {V} (m : gmap string V) k v : (size (<[k := v]> m) ≤ S (size m))%nat.
Proof. rewrite map_size_insert. destruct (m !! k); simpl; lia. Qed.

Lemma plan_sizes records :
  (size (id_owners unicode_lower records) + size (protected_names unicode_lower records (keepers_of unicode_lower records) (id_owners unicode_lower records)) ≤
   3 * length records)%nat.
Proof.
  pose proof (foldl_size (λ m record, <[key (pr_ProjectID record) := default [] (m !! key (pr_ProjectID record)) ++ [pr_ProjectID record]]> m)
    ∅ records (λ m x, insert_size _ _ _)) as H1. fold (id_owners unicode_lower records) in H1. rewrite map_size_empty in H1.
  assert (size (first_keepers unicode_lower records) ≤ length records)%nat as H2.
  { unfold first_keepers. etrans; [apply foldl_size|rewrite map_size_empty, length_imap; lia]. intros m [i r]. case_bool_decide; [apply insert_size|lia]. }
  assert (size (keepers_of unicode_lower records) ≤ 2 * length records)%nat as H3.
  { unfold keepers_of. etrans; [apply foldl_size|rewrite length_imap; lia]. intros m [i r]. destruct (_ =? _); [apply insert_size|lia]. }
  assert (size (protected_names unicode_lower records (keepers_of unicode_lower records) (id_owners unicode_lower records)) ≤ 2 * length records)%nat.
  { unfold protected_names. etrans; [apply foldl_size|rewrite map_size_empty, length_map_to_list; lia]. intros m [k i].
    destruct (records !! i); [|lia]. destruct (hasForeignProjectID _ _); [lia|apply insert_size]. }
  lia.
Qed.

(** The names of a plan are free for their records and different for different projects. *)
Lemma plan_names_unique records keepers idOwners protected assigned index rest :
  ids_safe records → ids_safe rest →
  (∀ r n, (r, n) ∈ plan_names unicode_lower records keepers idOwners protected assigned index rest →
     (∀ o, o ∈ default [] (idOwners !! key n) → o = pr_ProjectID r) ∧ foreign_owner unicode_lower assigned n (pr_ProjectID r) = false) ∧
  (∀ r1 n1 r2 n2, (r1, n1) ∈ plan_names unicode_lower records keepers idOwners protected assigned index rest →
     (r2, n2) ∈ plan_names unicode_lower records keepers idOwners protected assigned index rest →
     pr_ProjectID r1 ≠ pr_ProjectID r2 → key n1 ≠ key n2).
Proof.
  intros Hs. revert assigned index. induction rest as [|r rest IH]; intros assigned index Hr; cbn [plan_names].
  { split; [by intros ?? ?%elem_of_nil|by intros ???? ?%elem_of_nil]. }
  set (name := assign_name _ _ _ _ _ _ _ _). destruct (IH (<[key name := pr_ProjectID r]> assigned) (S index)) as [I1 I2]; [intros x Hx; apply Hr; by right|].
  destruct (assign_name_free records keepers idOwners protected assigned index r Hs (Hr r ltac:(left))) as [Hfree _]. fold name in Hfree.
  unfold projectNameUnavailable in Hfree. apply orb_false_iff in Hfree as [[Hf1 Hf2]%orb_false_iff Hf3].
  assert (∀ r' n', (r', n') ∈ plan_names unicode_lower records keepers idOwners protected (<[key name := pr_ProjectID r]> assigned) (S index) rest →
    key n' = key name → pr_ProjectID r' = pr_ProjectID r) as Hsame.
  { intros r' n' Hin Hk. destruct (I1 r' n' Hin) as [_ Hf]. unfold foreign_owner in Hf. rewrite Hk, lookup_insert_eq in Hf.
    symmetry. by apply bool_decide_eq_false, dec_stable in Hf. }
  split.
  - intros r' n' [[= -> ->]|Hin]%elem_of_cons; [split; [by apply foreign_false|done]|]. destruct (I1 r' n' Hin) as [Ho Hf]. split; [done|].
    destruct (decide (key n' = key name)) as [Hk|Hk].
    + rewrite (Hsame r' n' Hin Hk). unfold foreign_owner in *. by rewrite Hk.
    + unfold foreign_owner in *. by rewrite lookup_insert_ne in Hf.
  - intros r1 n1 r2 n2 [[= -> ->]|H1]%elem_of_cons [[= -> ->]|H2]%elem_of_cons Hne; [done|..].
    + intros Hk. apply Hne. symmetry. by apply (Hsame r2 n2).
    + intros Hk. apply Hne. by apply (Hsame r1 n1).
    + by eapply I2.
Qed.

Lemma plan_names_safe records idOwners protected assigned index rest :
  ids_safe records → ids_safe rest → Z.of_nat (size idOwners + size protected + size assigned + length rest) < 10 ^ 39 →
  ∀ r n, (r, n) ∈ plan_names unicode_lower records (keepers_of unicode_lower records) idOwners protected assigned index rest → SafeProjectName n = true.
Proof.
  intros Hs. revert assigned index. induction rest as [|r rest IH]; intros assigned index Hr Hb r' n'; cbn [plan_names]; [by intros ?%elem_of_nil|].
  simpl in Hb. intros [[= -> ->]|Hin]%elem_of_cons.
  - apply (assign_name_free records _ idOwners protected assigned index r Hs (Hr r ltac:(left))); [lia|].
    intros i Hi. destruct (keepers_spec records) as [K _]. destruct (K _ i Hi) as (x & Hx & _). by exists x.
  - revert Hin. apply IH; [intros x Hx; apply Hr; by right|]. pose proof (insert_size assigned (key (assign_name unicode_lower records
      (keepers_of unicode_lower records) idOwners protected assigned index r)) (pr_ProjectID r)). lia.
Qed.

Lemma plan_names_fst records keepers idOwners protected assigned index rest :
  (plan_names unicode_lower records keepers idOwners protected assigned index rest).*1 = rest.
Proof. revert assigned index. induction rest as [|r rest IH]; intros assigned index; [done|]. cbn [plan_names]. rewrite fmap_cons. simpl. by rewrite IH. Qed.

Context (importedTime : string → option Z).

(** Every record gets a name; names are safe, differ for different projects, and are no identifier of another. *)
Lemma planned_unique records :
  ids_safe records → Z.of_nat (length records) < 10 ^ 30 →
  (planned unicode_lower importedTime records).*1 ≡ₚ records ∧
  (∀ r n, (r, n) ∈ planned unicode_lower importedTime records → SafeProjectName n = true) ∧
  (∀ r1 n1 r2 n2, (r1, n1) ∈ planned unicode_lower importedTime records → (r2, n2) ∈ planned unicode_lower importedTime records →
     pr_ProjectID r1 ≠ pr_ProjectID r2 → key n1 ≠ key n2 ∧ key (pr_ProjectID r1) ≠ key n2).
Proof.
  intros Hs Hlen. unfold planned. set (l := sort_by (imported_le importedTime) records).
  assert (l ≡ₚ records) as Hperm by (apply merge_sort_Permutation).
  assert (ids_safe l) as Hl by (intros r Hr; apply Hs; by rewrite <-Hperm).
  assert (length l = length records) as Elen by (by apply Permutation_length).
  pose proof (plan_sizes l) as Hsz. rewrite plan_names_fst. split; [done|]. split.
  - intros r n. apply plan_names_safe; [done..|]. rewrite map_size_empty. lia.
  - intros r1 n1 r2 n2 H1 H2 Hne.
    destruct (plan_names_unique l (keepers_of unicode_lower l) (id_owners unicode_lower l)
      (protected_names unicode_lower l (keepers_of unicode_lower l) (id_owners unicode_lower l)) ∅ 0 l Hl Hl) as [P1 P2].
    split; [by eapply P2|]. intros Hk. destruct (P1 r2 n2 H2) as [Ho _]. apply Hne, Ho, id_owners_spec.
    exists r1. split_and!; [|done..]. apply (list_elem_of_fmap_2 fst) in H1. by rewrite plan_names_fst in H1.
Qed.

(** Records whose names are unique. *)
Record settled_names (records : list ProjectRecord) : Prop := {
  s_safe r : r ∈ records → SafeID (pr_ProjectID r) = true ∧ SafeProjectName (pr_Name r) = true;
  s_distinct r1 r2 : r1 ∈ records → r2 ∈ records → pr_ProjectID r1 ≠ pr_ProjectID r2 →
    key (pr_Name r1) ≠ key (pr_Name r2) ∧ key (pr_ProjectID r1) ≠ key (pr_Name r2);
  s_ids : NoDup (pr_ProjectID <$> records) }.

Lemma settled_same records r1 r2 : settled_names records → r1 ∈ records → r2 ∈ records → pr_ProjectID r1 = pr_ProjectID r2 → r1 = r2.
Proof.
  intros [_ _ Hnd] H1 H2 E. apply list_elem_of_lookup in H1 as [i Hi], H2 as [j Hj].
  assert (i = j) as -> by (eapply NoDup_lookup; [exact Hnd|rewrite list_lookup_fmap, Hi; done|rewrite list_lookup_fmap, Hj; simpl; by rewrite E]). congruence.
Qed.

Lemma settled_base r : SafeProjectName (pr_Name r) = true → base_name r = pr_Name r.
Proof. unfold base_name. by intros ->. Qed.

Lemma settled_name_id records r r' :
  settled_names records → r ∈ records → r' ∈ records → key (base_name r') = key (pr_Name r) → pr_ProjectID r' = pr_ProjectID r.
Proof.
  intros S Hr Hr' Hk. rewrite settled_base in Hk by (by apply S). destruct (decide (pr_ProjectID r' = pr_ProjectID r)); [done|].
  by destruct (s_distinct _ S r' r Hr' Hr n) as [? _].
Qed.

(** The plan leaves such records alone. *)
Lemma plan_settled l pre rest assigned :
  settled_names l → l = pre ++ rest →
  (∀ k o, assigned !! k = Some o → ∃ r, r ∈ l ∧ pr_ProjectID r = o ∧ key (pr_Name r) = k) →
  plan_names unicode_lower l (keepers_of unicode_lower l) (id_owners unicode_lower l)
    (protected_names unicode_lower l (keepers_of unicode_lower l) (id_owners unicode_lower l)) assigned (length pre) rest =
  (λ r, (r, pr_Name r)) <$> rest.
Proof.
  intros S. revert pre assigned. induction rest as [|r rest IH]; intros pre assigned El Ha; [done|]. cbn [plan_names].
  assert (r ∈ l) as Hr by (rewrite El; apply elem_of_app; right; left).
  assert (l !! length pre = Some r) as Hi by (rewrite El; by apply list_lookup_middle).
  assert (keepers_of unicode_lower l !! key (base_name r) = Some (length pre)) as Hk.
  { destruct (keepers_spec l) as [K1 K2]. destruct (K2 r Hr) as [j Hj]. rewrite Hj. f_equal. destruct (K1 _ _ Hj) as (r' & Hr' & Hkey).
    rewrite (settled_base r) in Hkey by (by apply S). pose proof (list_elem_of_lookup_2 _ _ _ Hr') as Hin.
    pose proof (settled_name_id l r r' S Hr Hin Hkey) as E. pose proof (settled_same l r' r S Hin Hr E) as ->.
    eapply NoDup_lookup; [exact (s_ids _ S)|by rewrite list_lookup_fmap, Hr'|by rewrite list_lookup_fmap, Hi]. }
  assert (assign_name unicode_lower l (keepers_of unicode_lower l) (id_owners unicode_lower l)
    (protected_names unicode_lower l (keepers_of unicode_lower l) (id_owners unicode_lower l)) assigned (length pre) r = pr_Name r) as Hname.
  { unfold assign_name. rewrite Hk. assert (base_at l (length pre) = pr_Name r) as -> by (unfold base_at; rewrite Hi; by apply settled_base, S).
    rewrite (settled_base r) in Hk by (by apply S). rewrite Hk, bool_decide_false by (by intros []). cbn [orb].
    assert (projectNameUnavailable unicode_lower (pr_Name r) (pr_ProjectID r) (id_owners unicode_lower l)
      (protected_names unicode_lower l (keepers_of unicode_lower l) (id_owners unicode_lower l)) assigned = false) as ->; [|done].
    unfold projectNameUnavailable. rewrite !orb_false_iff. split_and!.
    - apply foreign_false. intros o (r' & Hr' & <- & Hkey)%id_owners_spec. destruct (decide (pr_ProjectID r' = pr_ProjectID r)) as [|Hne]; [done|].
      by destruct (s_distinct _ S r' r Hr' Hr Hne) as [_ ?].
    - unfold foreign_owner. destruct (protected_names _ _ _ _ !! key (pr_Name r)) as [o|] eqn:E; [|done]. apply protected_spec in E as (r' & Hr' & <- & Hkey).
      apply bool_decide_eq_false. intros Hne. by apply Hne, (settled_name_id l).
    - unfold foreign_owner. destruct (assigned !! key (pr_Name r)) as [o|] eqn:E; [|done]. apply Ha in E as (r' & Hr' & <- & Hkey).
      apply bool_decide_eq_false. intros Hne. apply Hne, (settled_name_id l); [done..|]. by rewrite settled_base by (by apply S). }
  rewrite Hname, fmap_cons. f_equal. replace (Datatypes.S (length pre)) with (length (pre ++ [r])) by (rewrite length_app; simpl; lia).
  apply IH; [by rewrite <-app_assoc|]. intros k o [[<- <-]|[_ H]]%lookup_insert_Some; [by exists r|by apply Ha].
Qed.

Lemma plan_stable records :
  settled_names records → (∀ r, r ∈ records → record_source_key r = pr_SourceKey r) → planProjectNameMigration unicode_lower importedTime records = [].
Proof.
  intros S Hk. unfold planProjectNameMigration, planned. set (l := sort_by (imported_le importedTime) records).
  assert (l ≡ₚ records) as Hperm by (apply merge_sort_Permutation).
  assert (settled_names l) as Sl.
  { destruct S as [S1 S2 S3]. split.
    - intros r. rewrite Hperm. apply S1.
    - intros r1 r2. rewrite Hperm. apply S2.
    - by rewrite Hperm. }
  rewrite (plan_settled l [] l ∅ Sl) by done. assert (∀ r, r ∈ l → record_source_key r = pr_SourceKey r) as Hkl by (intros r; rewrite Hperm; apply Hk).
  clear -Hkl. induction l as [|r l IH]; [done|]. simpl. unfold target_of at 1. rewrite Hkl by (by left).
  rewrite !bool_decide_false by (by intros []). simpl. apply IH. intros r' Hr'. apply Hkl. by right.
Qed.

(** ** Applying a plan *)

Lemma retarget_cons t ts r :
  retarget (t :: ts) r = if decide (mt_ProjectID t = pr_ProjectID r)
    then r <| pr_Name := mt_Name t |> <| pr_SourceKey := mt_SourceKey t |> else retarget ts r.
Proof. unfold retarget. simpl. case_decide; [done|]. by destruct (list_find _ ts) as [[i t']|]. Qed.

Lemma retarget_none ts r : (∀ t, t ∈ ts → mt_ProjectID t ≠ pr_ProjectID r) → retarget ts r = r.
Proof.
  induction ts as [|t ts IH]; intros H; [done|]. rewrite retarget_cons, decide_False by (apply H; left). apply IH. intros t' Ht'. apply H. by right.
Qed.

Lemma target_of_spec r n t : t ∈ target_of r n → t = mkTarget (pr_ProjectID r) n (record_source_key r).
Proof. unfold target_of. destruct (_ || _); [by intros ->%list_elem_of_singleton|by intros ?%elem_of_nil]. Qed.

Lemma retarget_targets P r n :
  NoDup (pr_ProjectID <$> P.*1) → (r, n) ∈ P →
  retarget (concat (map (λ '(r, n), target_of r n) P)) r = r <| pr_Name := n |> <| pr_SourceKey := record_source_key r |>.
Proof.
  induction P as [|[r0 n0] P IH]; intros Hnd Hin; [by apply elem_of_nil in Hin|]. rewrite !fmap_cons in Hnd. apply NoDup_cons in Hnd as [Hnew Hnd]. cbn [map concat].
  assert (∀ t, t ∈ concat (map (λ '(r, n), target_of r n) P) → ∃ r' n', (r', n') ∈ P ∧ mt_ProjectID t = pr_ProjectID r') as Hrest.
  { intros t Ht. apply list_elem_of_In, in_concat in Ht as (ts & Hts & Ht). apply in_map_iff in Hts as ([r' n'] & <- & Hin').
    apply list_elem_of_In in Hin', Ht. apply target_of_spec in Ht as ->. by exists r', n'. }
  apply elem_of_cons in Hin as [[= -> ->]|Hin].
  - unfold target_of at 1. destruct (_ || _) eqn:E; [simpl; rewrite retarget_cons, decide_True by done; done|]. simpl. apply orb_false_iff in E as [E1 E2].
    apply bool_decide_eq_false, dec_stable in E1. apply bool_decide_eq_false, dec_stable in E2. rewrite retarget_none.
    + rewrite <-E1, <-E2. by destruct r0.
    + intros t Ht. destruct (Hrest t Ht) as (r' & n' & Hin' & ->). intros E. apply Hnew. simpl. rewrite <-E. apply list_elem_of_fmap_2.
      by apply (list_elem_of_fmap_2 fst _ (r', n')).
  - assert (pr_ProjectID r0 ≠ pr_ProjectID r) as Hne.
    { intros E. apply Hnew. simpl. rewrite E. apply list_elem_of_fmap_2. by apply (list_elem_of_fmap_2 fst _ (r, n)). }
    unfold target_of at 1. destruct (_ || _); simpl; [rewrite retarget_cons, decide_False by done|]; by apply IH.
Qed.

Lemma Validate_filename r id : ProjectRecord_Validate r id = Ok tt → id ≠ "" → pr_ProjectID r = id.
Proof.
  unfold ProjectRecord_Validate. intros H Hid. ok_inv.
  match goal with H : bool_decide (id ≠ "") && _ = false |- _ => rewrite bool_decide_true in H by done; cbn [andb] in H;
    by apply bool_decide_eq_false, dec_stable in H end.
Qed.

Lemma mapM_total {E A B} (f : A → result E B) l : (∀ x, x ∈ l → ∃ y, f x = Ok y) → ∃ k, mapM f l = Ok k.
Proof.
  induction l as [|x l IH]; intros H; [by exists []|]. destruct (H x) as [y Hy]; [left|]. destruct IH as [k Hk]; [intros z Hz; apply H; by right|].
  exists (y :: k). simpl. by rewrite Hy, Hk.
Qed.

(** A directory of valid records is listed: each record once. *)
Lemma listing d :
  d_records d !! "" = None → (∀ id file, d_records d !! id = Some file → ∃ r, decodeRecord id file = Ok r) →
  ∃ l, listUnlocked d = Ok l ∧ NoDup (pr_ProjectID <$> l) ∧
    ∀ id r, d_records d !! id = Some (Private r) ↔ r ∈ l ∧ pr_ProjectID r = id.
Proof.
  intros Hne Hall. unfold listUnlocked.
  destruct (mapM_total (λ f : string * record_file, decodeRecord f.1 f.2) (map_to_list (d_records d))) as [k Hk].
  { intros [id file] Hin. apply elem_of_map_to_list in Hin. by apply Hall. }
  rewrite Hk. cbn [mbind result_bind]. apply mapM_Ok in Hk. eexists. split; [done|].
  assert (pr_ProjectID <$> k = (map_to_list (d_records d)).*1) as Eids.
  { assert (∀ f, f ∈ map_to_list (d_records d) → f.1 ≠ "") as Hn by (intros [id file] Hin E; apply elem_of_map_to_list in Hin; simpl in *; congruence).
    clear -Hk Hn. induction Hk as [|[id file] r fs k Hd _ IH]; [done|]. rewrite !fmap_cons. f_equal; [|apply IH; intros f Hf; apply Hn; by right].
    apply decodeRecord_Ok in Hd as [_ Hv]. eapply Validate_filename; [done|]. apply (Hn (id, file)). left. }
  assert (NoDup (pr_ProjectID <$> sort_by_key pr_ProjectID k)) as Hnd.
  { unfold sort_by_key. rewrite (fmap_Permutation pr_ProjectID _ _ (sort_by_perm (key_le pr_ProjectID) k)), Eids. apply NoDup_fst_map_to_list. }
  split; [done|]. intros id r. unfold sort_by_key. rewrite elem_of_sort_by. split.
  - intros Hid. apply elem_of_map_to_list, list_elem_of_lookup in Hid as [i Hi]. destruct (Forall2_lookup_l _ _ _ _ _ Hk Hi) as (r' & Hr' & Hd).
    apply decodeRecord_Ok in Hd as [[= ->] Hv]. simpl in Hv. split; [by eapply list_elem_of_lookup_2|]. eapply Validate_filename; [done|].
    intros ->. apply list_elem_of_lookup_2, elem_of_map_to_list in Hi. congruence.
  - intros [Hr <-]. apply list_elem_of_lookup in Hr as [i Hi]. destruct (Forall2_lookup_r _ _ _ _ _ Hk Hi) as ([id' file] & Hf & Hd).
    simpl in Hd. apply decodeRecord_Ok in Hd as [-> Hv]. apply list_elem_of_lookup_2, elem_of_map_to_list in Hf.
    erewrite Validate_filename; [done..|]. intros ->. congruence.
Qed.

Lemma by_id_spec l id r :
  NoDup (pr_ProjectID <$> l) →
  foldl (λ m record, <[pr_ProjectID record := record]> m) (∅ : gmap string ProjectRecord) l !! id = Some r ↔ r ∈ l ∧ pr_ProjectID r = id.
Proof.
  induction l as [|x l IH] using rev_ind; intros Hnd.
  - simpl. rewrite lookup_empty. split; [done|]. by intros [?%elem_of_nil _].
  - rewrite foldl_snoc, lookup_insert_Some. rewrite fmap_app in Hnd. apply NoDup_app in Hnd as (Hnd & Hdis & _). rewrite IH by done.
    rewrite elem_of_app, list_elem_of_singleton. split.
    + intros [[<- ->]|[Hne [Hr Hid]]]; auto.
    + intros [[Hr| ->] Hid]; [|by left]. right. split; [|done]. intros E. apply (Hdis (pr_ProjectID r)).
      * by apply list_elem_of_fmap_2.
      * apply list_elem_of_singleton. congruence.
Qed.

(** *** A plan is applied record by record *)

Section applying.
Context (recs0 : gmap string record_file) (T : list projectNameMigrationTarget).
Hypothesis A0 : recs0 !! "" = None.
Hypothesis A1 : ∀ id f, recs0 !! id = Some f → ∃ r, f = Private r ∧ ProjectRecord_Validate r id = Ok tt.
Hypothesis A2 : ∀ id r, recs0 !! id = Some (Private r) →
  ProjectRecord_Validate (retarget T r) id = Ok tt ∧ record_text (retarget T r) = retarget T r ∧ pr_ProjectID (retarget T r) = id.
Hypothesis A3 : ∀ t, t ∈ T → ∃ r, recs0 !! mt_ProjectID t = Some (Private r) ∧
  retarget T r = r <| pr_Name := mt_Name t |> <| pr_SourceKey := mt_SourceKey t |>.

Definition mig_file (f : record_file) : record_file := match f with Private r => Private (retarget T r) | f => f end.

(** Some records have got their names. *)
Definition moved (recs recs' : gmap string record_file) : Prop :=
  ∀ id, recs' !! id = recs !! id ∨ recs' !! id = mig_file <$> recs0 !! id.

#[local] Instance moved_reflexive : Reflexive moved.
Proof. intros recs id. by left. Qed.

#[local] Instance moved_transitive : Transitive moved.
Proof. intros a b c H1 H2 id. destruct (H2 id) as [-> | ->]; [apply H1|by right]. Qed.

Lemma moved_record recs id r :
  moved recs0 recs → recs !! id = Some (Private r) → ∃ r0, recs0 !! id = Some (Private r0) ∧ (r = r0 ∨ r = retarget T r0).
Proof.
  intros Hm Hr. destruct (Hm id) as [E|E]; rewrite Hr in E; [exists r; split; [done|by left]|].
  destruct (recs0 !! id) as [f|] eqn:Hf; [|done]. destruct (A1 id f Hf) as (r0 & -> & _). injection E as ->. exists r0. split; [done|by right].
Qed.

Lemma moved_valid recs id file : moved recs0 recs → recs !! id = Some file → ∃ r, decodeRecord id file = Ok r.
Proof.
  intros Hm Hf. destruct (Hm id) as [E|E]; rewrite Hf in E.
  - destruct (A1 id file) as (r & -> & Hv); [done|]. exists r. by apply decodeRecord_Ok.
  - destruct (recs0 !! id) as [f|] eqn:H0; [|done]. destruct (A1 id f H0) as (r0 & -> & _). injection E as ->. exists (retarget T r0).
    apply decodeRecord_Ok. split; [done|]. by apply A2.
Qed.

Lemma moved_empty recs : moved recs0 recs → recs !! "" = None.
Proof. intros Hm. destruct (Hm "") as [-> | ->]; [done|by rewrite A0]. Qed.

(** What a call leaves of the rest of the directory. *)
Definition rest_same (d d' : directory) : Prop := d_migration d' = d_migration d ∧ d_reservations d' = d_reservations d.

Lemma apply_target_spec byID recs t d :
  moved recs0 recs → (∀ id r, byID !! id = Some r ↔ recs !! id = Some (Private r)) → t ∈ T → moved recs (d_records d) →
  moved recs (d_records (apply_target byID t d).1) ∧ moved (d_records d) (d_records (apply_target byID t d).1) ∧ rest_same d (apply_target byID t d).1 ∧
  ((apply_target byID t d).2 = Ok tt → d_records (apply_target byID t d).1 !! mt_ProjectID t = mig_file <$> recs0 !! mt_ProjectID t) ∧
  (quiet_calls d → (apply_target byID t d).2 = Ok tt ∧ quiet_calls (apply_target byID t d).1).
Proof.
  intros Hm HB Ht Hd. destruct (A3 t Ht) as (r0 & H0 & Hr0). destruct (A2 _ _ H0) as (V1 & V2 & V3).
  assert (∃ r, recs !! mt_ProjectID t = Some (Private r) ∧ (r = r0 ∨ r = retarget T r0)) as (r & Hr & Hcase).
  { destruct (Hm (mt_ProjectID t)) as [E|E]; rewrite H0 in E; [exists r0; auto|exists (retarget T r0); auto]. }
  assert (r <| pr_Name := mt_Name t |> <| pr_SourceKey := mt_SourceKey t |> = retarget T r0) as Hset.
  { destruct Hcase as [-> | ->]; [done|]. rewrite Hr0. by destruct r0. }
  unfold apply_target. rewrite (proj2 (HB _ _) Hr). destruct (bool_decide _ && bool_decide _) eqn:E.
  - apply andb_true_iff in E as [E1%bool_decide_eq_true E2%bool_decide_eq_true]. simpl. split_and!; try done.
    intros _. rewrite H0. simpl. rewrite <-Hset. assert (r <| pr_Name := mt_Name t |> <| pr_SourceKey := mt_SourceKey t |> = r) as E by (rewrite <-E1, <-E2; by destruct r).
    destruct (Hd (mt_ProjectID t)) as [E'|E']; rewrite E'; [by rewrite Hr, E|]. rewrite H0. simpl. by rewrite <-Hset.
  - rewrite Hset. unfold putUnlocked. unfold mbind, eff_bind, pure. rewrite V2, V3, V1.
    set (f := λ d, d <| d_records := <[mt_ProjectID t := Private (retarget T r0)]> (d_records d) |>).
    assert (moved (d_records d) (d_records (f d))) as Hf.
    { intros id. unfold f. simpl. destruct (decide (id = mt_ProjectID t)) as [-> |]; [right; by rewrite lookup_insert_eq, H0|left; by rewrite lookup_insert_ne]. }
    assert (moved (d_records d) (d_records (write_call f d).1) ∧ rest_same d (write_call f d).1) as [M1 M2].
    { destruct (write_call_cases f d) as [faults [-> | ->]]; done. }
    split_and!; [by etrans|done|done|..].
    + intros Hok. destruct (write_call_ok f d Hok) as [faults ->]. unfold f. simpl. by rewrite lookup_insert_eq, H0.
    + unfold quiet_calls. intros Hq. unfold write_call. by rewrite Hq.
Qed.

Lemma apply_targets_spec byID recs ts d :
  moved recs0 recs → (∀ id r, byID !! id = Some r ↔ recs !! id = Some (Private r)) → (∀ t, t ∈ ts → t ∈ T) → moved recs (d_records d) →
  moved (d_records d) (d_records (for_list (apply_target byID) ts d).1) ∧ rest_same d (for_list (apply_target byID) ts d).1 ∧
  ((for_list (apply_target byID) ts d).2 = Ok tt →
     ∀ t, t ∈ ts → d_records (for_list (apply_target byID) ts d).1 !! mt_ProjectID t = mig_file <$> recs0 !! mt_ProjectID t) ∧
  (quiet_calls d → (for_list (apply_target byID) ts d).2 = Ok tt ∧ quiet_calls (for_list (apply_target byID) ts d).1).
Proof.
  intros Hm HB. revert d. induction ts as [|t ts IH]; intros d Hts Hd; cbn [for_list].
  { split_and!; [done..|by intros _ t ?%elem_of_nil|done]. }
  destruct (apply_target_spec byID recs t d Hm HB (Hts t ltac:(left)) Hd) as (M1 & M2 & M3 & M4 & M5).
  unfold mbind, eff_bind. destruct (apply_target byID t d) as [d1 [[]|e]]; simpl in *.
  - destruct (IH d1) as (N1 & N2 & N3 & N4); [intros t' Ht'; apply Hts; by right|done|].
    split_and!; [by etrans|destruct M3, N2; split; congruence| |].
    + intros Hok t' [-> |Ht']%elem_of_cons; [|by apply N3]. destruct (N1 (mt_ProjectID t)) as [-> | ->]; [by apply M4|done].
    + intros Hq. apply N4, M5, Hq.
  - split_and!; [done|done|done|]. intros Hq. by destruct (M5 Hq).
Qed.

Lemma apply_journal_spec d :
  moved recs0 (d_records d) →
  moved recs0 (d_records (applyProjectNameMigration (mkMigration 1 T) d).1) ∧ rest_same d (applyProjectNameMigration (mkMigration 1 T) d).1 ∧
  ((applyProjectNameMigration (mkMigration 1 T) d).2 = Ok tt → d_records (applyProjectNameMigration (mkMigration 1 T) d).1 = mig_file <$> recs0) ∧
  (quiet_calls d → (applyProjectNameMigration (mkMigration 1 T) d).2 = Ok tt ∧ quiet_calls (applyProjectNameMigration (mkMigration 1 T) d).1).
Proof.
  intros Hm. unfold applyProjectNameMigration. unfold mbind, eff_bind, reading.
  destruct (listing d) as (l & -> & Hnd & Hl); [by apply moved_empty|intros id file; by apply moved_valid|].
  set (byID := foldl _ _ l). assert (∀ id r, byID !! id = Some r ↔ d_records d !! id = Some (Private r)) as HB.
  { intros id r. unfold byID. by rewrite by_id_spec, Hl. }
  destruct (apply_targets_spec byID (d_records d) T d Hm HB (λ t Ht, Ht) ltac:(done)) as (M1 & M2 & M3 & M4). cbn [mg_Targets]. split_and!; [by etrans|apply M2| |done].
  intros Hok. apply map_eq. intros id. rewrite lookup_fmap. specialize (M3 Hok).
  destruct (decide (Exists (λ t, mt_ProjectID t = id) T)) as [(t & Ht & <-)%Exists_exists|Hno]; [by apply M3|].
  assert (mig_file <$> recs0 !! id = recs0 !! id) as Hid.
  { destruct (recs0 !! id) as [f|] eqn:E; [|done]. destruct (A1 id f E) as (r & -> & Hv). simpl. do 2 f_equal. apply retarget_none.
    intros t Ht E'. apply Hno, Exists_exists. exists t. split; [done|]. rewrite E'. eapply Validate_filename; [done|]. intros ->. congruence. }
  assert (moved recs0 (d_records (for_list (apply_target byID) T d).1)) as Hall by (by etrans).
  destruct (Hall id) as [-> | ->]; [by rewrite Hid|done].
Qed.
End applying.

(** *** A rename is resumed *)

Lemma SourceKey_text source : ToValidText (SourceKey source) = SourceKey source.
Proof.
  apply ToValidText_id, ascii_valid, bytes_ascii. intros b Hb. unfold SourceKey in Hb.
  pose proof (EncodeToString_hex (Sum256 source) (Sum256_bytes source)) as H. rewrite forallb_forall in H. apply list_elem_of_In in Hb. specialize (H b Hb).
  unfold between in H. bools. lia.
Qed.

Lemma retext r n :
  record_text r = r → SafeProjectName n = true →
  record_text (r <| pr_Name := n |> <| pr_SourceKey := record_source_key r |>) = r <| pr_Name := n |> <| pr_SourceKey := record_source_key r |>.
Proof.
  intros Ht Hn. pose proof (f_equal pr_SourceKey Ht) as Hk. simpl in Hk. unfold record_text. simpl.
  rewrite (safe_text n) by (by apply SafeProjectName_ID).
  assert (ToValidText (record_source_key r) = record_source_key r) as -> by (unfold record_source_key; destruct (_ && _); [apply SourceKey_text|done]).
  generalize (record_source_key r). intros k. destruct r. unfold record_text in Ht. simpl in *. injection Ht. intros. by f_equal.
Qed.

Lemma listUnlocked_ext d d' : d_records d = d_records d' → listUnlocked d = listUnlocked d'.
Proof. unfold listUnlocked. by intros ->. Qed.

Lemma apply_ok_valid byID ts d :
  (for_list (apply_target byID) ts d).2 = Ok tt →
  ∀ t r, t ∈ ts → byID !! mt_ProjectID t = Some r →
    pr_Name r = mt_Name t ∧ pr_SourceKey r = mt_SourceKey t ∨
    ProjectRecord_Validate (record_text (r <| pr_Name := mt_Name t |> <| pr_SourceKey := mt_SourceKey t |>)) (pr_ProjectID r) = Ok tt.
Proof.
  revert d. induction ts as [|t ts IH]; intros d H t' r; [by intros ?%elem_of_nil|]. cbn [for_list] in H. unfold mbind, eff_bind in H.
  intros [-> |Ht']%elem_of_cons Hr.
  - unfold apply_target at 1 in H. rewrite Hr in H. destruct (bool_decide _ && bool_decide _) eqn:E.
    + apply andb_true_iff in E as [E1%bool_decide_eq_true E2%bool_decide_eq_true]. by left.
    + right. unfold putUnlocked in H. unfold mbind, eff_bind, pure in H. simpl in H |- *.
      destruct (ProjectRecord_Validate (record_text _) _) as [[]|]; [done|done].
  - destruct (apply_target byID t d) as [d1 [[]|]]; [|done]. by eapply IH.
Qed.

(** What a plan does to a directory that can be listed. *)
Record plan_for (d : directory) (l : list ProjectRecord) (T : list projectNameMigrationTarget) : Prop := {
  p_list : listUnlocked d = Ok l;
  p_files id r : d_records d !! id = Some (Private r) ↔ r ∈ l ∧ pr_ProjectID r = id;
  p_private id f : d_records d !! id = Some f → ∃ r, f = Private r ∧ ProjectRecord_Validate r id = Ok tt;
  p_record r : r ∈ l → ∃ n, SafeProjectName n = true ∧ retarget T r = r <| pr_Name := n |> <| pr_SourceKey := record_source_key r |> ∧
    record_text (retarget T r) = retarget T r;
  p_target t : t ∈ T → ∃ r, r ∈ l ∧ mt_ProjectID t = pr_ProjectID r ∧ retarget T r = r <| pr_Name := mt_Name t |> <| pr_SourceKey := mt_SourceKey t |>;
  p_distinct r1 r2 : r1 ∈ l → r2 ∈ l → pr_ProjectID r1 ≠ pr_ProjectID r2 →
    key (pr_Name (retarget T r1)) ≠ key (pr_Name (retarget T r2)) ∧ key (pr_ProjectID r1) ≠ key (pr_Name (retarget T r2)) }.

Lemma plan_for_listing d l :
  d_records d !! "" = None → (∀ id r, d_records d !! id = Some (Private r) → record_text r = r) → listUnlocked d = Ok l →
  Z.of_nat (length l) < 10 ^ 30 → plan_for d l (planProjectNameMigration unicode_lower importedTime l).
Proof.
  intros Hne Htext Hl Hlen. pose proof (listUnlocked_Ok d l Hl) as [F1 F2].
  destruct (listing d Hne) as (l' & Hl' & Hnd & Hfiles).
  { intros id file Hf. destruct (F1 id file Hf) as (r & -> & _ & Hv). exists r. by apply decodeRecord_Ok. }
  assert (l' = l) as -> by congruence. set (T := planProjectNameMigration _ _ _).
  assert (ids_safe l) as Hs. { intros r Hr. destruct (F2 r Hr) as [id Hid]. destruct (F1 id _ Hid) as (r' & [= <-] & _ & Hv). by eapply Validate_ID. }
  destruct (planned_unique l Hs Hlen) as (Hperm & Hsafe & Huniq). set (P := planned unicode_lower importedTime l) in *.
  assert (NoDup (pr_ProjectID <$> P.*1)) as HndP by (by rewrite Hperm).
  assert (∀ r, r ∈ l → ∃ n, (r, n) ∈ P) as Hplan.
  { intros r Hr. rewrite <-Hperm in Hr. apply list_elem_of_fmap in Hr as ([r' n] & -> & Hin). by exists n. }
  assert (∀ r n, (r, n) ∈ P → retarget T r = r <| pr_Name := n |> <| pr_SourceKey := record_source_key r |>) as Hret.
  { intros r n Hin. unfold T, planProjectNameMigration. fold P. by apply retarget_targets. }
  assert (∀ r n, (r, n) ∈ P → r ∈ l) as HinP.
  { intros r n Hin. rewrite <-Hperm. by apply (list_elem_of_fmap_2 fst _ (r, n)). }
  split; try done.
  - intros id f Hf. destruct (F1 id f Hf) as (r & -> & _ & Hv). by exists r.
  - intros r Hr. destruct (Hplan r Hr) as [n Hn]. exists n. rewrite (Hret r n Hn). split_and!; [by eapply Hsafe|done|].
    apply retext; [|by eapply Hsafe]. destruct (F2 r Hr) as [id Hid]. by eapply Htext.
  - intros t Ht. unfold T, planProjectNameMigration in Ht. apply list_elem_of_In, in_concat in Ht as (ts & Hts & Ht).
    apply in_map_iff in Hts as ([r n] & <- & Hin). apply list_elem_of_In in Hin, Ht. apply target_of_spec in Ht as ->.
    exists r. split_and!; [by eapply HinP|done|by apply Hret].
  - intros r1 r2 H1 H2 Hd. destruct (Hplan r1 H1) as [n1 Hn1], (Hplan r2 H2) as [n2 Hn2]. rewrite (Hret _ _ Hn1), (Hret _ _ Hn2). simpl. by eapply Huniq.
Qed.

(** A directory whose records have got their names needs no more. *)
Lemma plan_done d l T d' :
  plan_for d l T → d_records d !! "" = None →
  (∀ id r, d_records d !! id = Some (Private r) → ProjectRecord_Validate (retarget T r) id = Ok tt) →
  d_records d' = mig_file T <$> d_records d →
  ∃ l', listUnlocked d' = Ok l' ∧ settled_names l' ∧ planProjectNameMigration unicode_lower importedTime l' = [].
Proof.
  intros [] Hne Hval E. destruct (listing d') as (l' & Hl' & Hnd & Hfiles).
  { by rewrite E, lookup_fmap, Hne. }
  { intros id file. rewrite E, lookup_fmap. destruct (d_records d !! id) as [f|] eqn:Hf; [|done]. destruct (p_private0 id f Hf) as (r & -> & _).
    intros [= <-]. exists (retarget T r). apply decodeRecord_Ok. split; [done|by apply Hval]. }
  assert (∀ r', r' ∈ l' → ∃ r, r ∈ l ∧ r' = retarget T r ∧ pr_ProjectID r' = pr_ProjectID r) as Hback.
  { intros r' Hr'. assert (d_records d' !! pr_ProjectID r' = Some (Private r')) as Hf by (by apply Hfiles). rewrite E, lookup_fmap in Hf.
    destruct (d_records d !! pr_ProjectID r') as [f|] eqn:Hf0; [|done]. destruct (p_private0 _ f Hf0) as (r & -> & _). injection Hf as <-.
    apply p_files0 in Hf0 as [Hr Hid]. exists r. split_and!; [done..|]. done. }
  exists l'. split; [done|]. assert (settled_names l') as S.
  { split; [|..|done].
    - intros r' Hr'. destruct (Hback r' Hr') as (r & Hr & -> & Hid). destruct (p_record0 r Hr) as (n & Hn & Eq & _). rewrite Eq. simpl. split; [|done].
      eapply Validate_ID. destruct (p_private0 (pr_ProjectID r) (Private r)) as (x & [= <-] & Hv); [by apply p_files0|done].
    - intros r1 r2 H1 H2 Hd. destruct (Hback r1 H1) as (x1 & X1 & -> & I1), (Hback r2 H2) as (x2 & X2 & -> & I2).
      destruct (p_distinct0 x1 x2 X1 X2) as [D1 D2]; [congruence|]. split; [done|]. by rewrite I1. }
  split; [done|]. apply plan_stable; [done|]. intros r' Hr'. destruct (Hback r' Hr') as (r & Hr & -> & _). destruct (p_record0 r Hr) as (n & _ & Eq & _). rewrite Eq.
  unfold record_source_key at 1. simpl. unfold record_source_key. destruct (bool_decide (pr_SourceKey r = "") && bool_decide (pr_HostPath r ≠ "")) eqn:Eb; [|by rewrite Eb].
  apply andb_true_iff in Eb as [_ ->]. rewrite andb_true_r. by destruct (bool_decide _).
Qed.

(** A pass with nothing to do. *)
Lemma migrate_idle d l :
  d_migration d = None → listUnlocked d = Ok l → planProjectNameMigration unicode_lower importedTime l = [] →
  MigrateLegacyNames unicode_lower importedTime d = (d, Ok false).
Proof.
  intros Em Hl Hp. unfold MigrateLegacyNames, resumeProjectNameMigration, readProjectNameMigration. unfold mbind, eff_bind, reading.
  rewrite Em. simpl. by rewrite Hl, Hp.
Qed.

Section renaming.
Context (d0 : directory) (l : list ProjectRecord).
#[local] Notation T := (planProjectNameMigration unicode_lower importedTime l).
#[local] Notation migrate := (MigrateLegacyNames unicode_lower importedTime).
Hypothesis Hplan : plan_for d0 l T.
Hypothesis Hempty : d_records d0 !! "" = None.
Hypothesis Hvalid : ∀ id r, d_records d0 !! id = Some (Private r) → ProjectRecord_Validate (retarget T r) id = Ok tt.
Hypothesis Hneeded : T ≠ [].
Hypothesis Hcanonical : validateCanonicalMigrationTargets l T = Ok tt.
Hypothesis Hjournal : validateProjectNameMigration (mkMigration 1 T) = Ok tt.

Lemma journal_applied d :
  moved (d_records d0) T (d_records d0) (d_records d) →
  moved (d_records d0) T (d_records d0) (d_records (applyProjectNameMigration (mkMigration 1 T) d).1) ∧
  rest_same d (applyProjectNameMigration (mkMigration 1 T) d).1 ∧
  ((applyProjectNameMigration (mkMigration 1 T) d).2 = Ok tt →
   d_records (applyProjectNameMigration (mkMigration 1 T) d).1 = mig_file T <$> d_records d0) ∧
  (quiet_calls d → (applyProjectNameMigration (mkMigration 1 T) d).2 = Ok tt ∧ quiet_calls (applyProjectNameMigration (mkMigration 1 T) d).1).
Proof.
  destruct Hplan. apply apply_journal_spec; [done|done|..].
  - intros id r Hr. pose proof (proj1 (p_files0 id r) Hr) as [Hin Hid]. destruct (p_record0 r Hin) as (n & _ & Eq & Ht). split_and!; [by apply Hvalid|done|].
    rewrite Eq. done.
  - intros t Ht. destruct (p_target0 t Ht) as (r & Hr & -> & Eq). exists r. split; [by apply p_files0|done].
Qed.

Lemma done_again d :
  d_records d = mig_file T <$> d_records d0 → d_migration d = None → migrate d = (d, Ok false).
Proof.
  intros E Em. destruct (plan_done d0 l T d Hplan Hempty Hvalid E) as (l' & Hl' & _ & Hp).
  by apply (migrate_idle d l').
Qed.

(** A pass that was interrupted after the journal was saved. *)
Lemma resumes d :
  moved (d_records d0) T (d_records d0) (d_records d) → d_migration d = Some (Some (mkMigration 1 T)) → quiet_calls d →
  ∃ d', migrate d = (d', Ok true) ∧ d_records d' = mig_file T <$> d_records d0 ∧ d_migration d' = None.
Proof.
  intros Hm Em Hq. destruct (journal_applied d Hm) as (_ & _ & Hfin & Hok). destruct (Hok Hq) as [Ho Hq'].
  unfold MigrateLegacyNames, resumeProjectNameMigration, readProjectNameMigration. unfold mbind, eff_bind, reading. rewrite Em, Hjournal. cbn [mbind result_bind].
  destruct (applyProjectNameMigration (mkMigration 1 T) d) as [d1 r1]. simpl in *. subst r1. unfold removeProjectNameMigration.
  set (d2 := d1 <| d_migration := None |>). assert (write_call (λ d : directory, d <| d_migration := None |>) d1 = (d2, Ok tt)) as ->.
  { unfold write_call. by rewrite Hq'. }
  cbv beta iota zeta. unfold mret, eff_ret. assert (d_records d2 = mig_file T <$> d_records d0) as E2 by (by apply Hfin).
  destruct (plan_done d0 l T d2 Hplan Hempty Hvalid E2) as (l' & Hl' & _ & Hp). rewrite Hl', Hp. exists d2. done.
Qed.

(** A pass, interrupted or not. *)
Lemma migrate_cases d :
  d_records d = d_records d0 → d_migration d = None →
  (d_records (migrate d).1 = d_records d0 ∧ d_migration (migrate d).1 = None ∨
   moved (d_records d0) T (d_records d0) (d_records (migrate d).1) ∧ d_migration (migrate d).1 = Some (Some (mkMigration 1 T)) ∨
   d_records (migrate d).1 = mig_file T <$> d_records d0 ∧ d_migration (migrate d).1 = None) ∧
  (quiet_calls d → (migrate d).2 = Ok true ∧ d_records (migrate d).1 = mig_file T <$> d_records d0 ∧ d_migration (migrate d).1 = None).
Proof.
  intros Er Em. unfold MigrateLegacyNames at 1 2 3 4 5 6 7 8 9. unfold resumeProjectNameMigration, readProjectNameMigration.
  unfold mbind, eff_bind, reading, pure. rewrite Em. cbn [mret eff_ret]. rewrite (listUnlocked_ext d d0 Er), (p_list _ _ _ Hplan).
  rewrite bool_decide_false by done. rewrite Hcanonical. unfold writeProjectNameMigration. unfold mbind, eff_bind, pure. rewrite Hjournal.
  set (f := λ d, d <| d_migration := Some (Some (mkMigration 1 T)) |>).
  assert (∀ recs, moved (d_records d0) T (d_records d0) recs ∨ True) as _ by (by right).
  pose proof (write_call_cases f d) as [faults Hw]. pose proof (write_call_ok f d) as Hwok.
  assert (quiet_calls d → write_call f d = (f d, Ok tt)) as Hwq by (unfold quiet_calls, write_call; by intros ->).
  assert (moved (d_records d0) T (d_records d0) (d_records d0)) as Hrefl by (intros id; by left).
  destruct (write_call f d) as [d1 [[]|e]]; simpl in *.
  2:{ split; [|intros Hq; discriminate (Hwq Hq)]. destruct Hw as [-> | ->]; [left; done|right; left]. simpl. by rewrite Er. }
  destruct (Hwok eq_refl) as [faults' Ed1]. assert (d_records d1 = d_records d0 ∧ d_migration d1 = Some (Some (mkMigration 1 T))) as [E1 E2] by (subst d1; done).
  assert (quiet_calls d → quiet_calls d1) as Hq1 by (intros Hq; injection (Hwq Hq) as ->; done).
  destruct (journal_applied d1) as (M1 & [M2 _] & M3 & M4); [by rewrite E1|].
  destruct (applyProjectNameMigration (mkMigration 1 T) d1) as [d2 [[]|e]]; simpl in *.
  2:{ split; [right; left; split; [done|congruence]|]. intros Hq. destruct (M4 (Hq1 Hq)) as [M5 _]; discriminate M5. }
  specialize (M3 eq_refl). unfold removeProjectNameMigration. set (g := λ d : directory, d <| d_migration := None |>).
  pose proof (write_call_cases g d2) as [faults2 Hw2]. assert (quiet_calls d2 → write_call g d2 = (g d2, Ok tt)) as Hwq2 by (unfold quiet_calls, write_call; by intros ->).
  pose proof (write_call_ok g d2) as Hwok2. destruct (write_call g d2) as [d3 [[]|e]]; simpl in *.
  - destruct (Hwok2 eq_refl) as [f2 ->]. split; [right; right; done|]. intros _. done.
  - split; [|intros Hq; destruct (M4 (Hq1 Hq)) as [_ Hq2]; discriminate (Hwq2 Hq2)].
    destruct Hw2 as [-> | ->]; simpl; [right; left; split; [done|congruence]|right; right; done].
Qed.
End renaming.

(** The targets of a pass that ran give valid records. *)
Lemma applied_valid d0 l d1 :
  let T := planProjectNameMigration unicode_lower importedTime l in
  plan_for d0 l T → d_records d0 !! "" = None → d_records d1 = d_records d0 → (applyProjectNameMigration (mkMigration 1 T) d1).2 = Ok tt →
  ∀ id r, d_records d0 !! id = Some (Private r) → ProjectRecord_Validate (retarget T r) id = Ok tt.
Proof.
  intros T [] Hne E1 Hok id r Hr. destruct (p_private0 id _ Hr) as (x & [= <-] & Hv). pose proof (proj1 (p_files0 id r) Hr) as [Hin <-].
  destruct (decide (Exists (λ t, mt_ProjectID t = pr_ProjectID r) T)) as [(t & Ht & Et)%Exists_exists|Hno].
  2:{ rewrite retarget_none; [done|]. intros t Ht E. apply Hno, Exists_exists. by exists t. }
  destruct (p_target0 t Ht) as (r' & Hr' & Er' & Eq).
  assert (r' = r) as ->.
  { assert (d_records d0 !! pr_ProjectID r = Some (Private r')) as H' by (apply p_files0; split; [done|congruence]). congruence. }
  unfold applyProjectNameMigration in Hok. unfold mbind, eff_bind, reading in Hok. rewrite (listUnlocked_ext d1 d0 E1), p_list0 in Hok.
  destruct (listing d0 Hne) as (l' & Hl' & Hnd & Hl).
  { intros i file Hf. destruct (p_private0 i file Hf) as (y & -> & Hy). exists y. by apply decodeRecord_Ok. }
  assert (l' = l) as -> by congruence.
  destruct (apply_ok_valid _ _ _ Hok t r Ht) as [[N K]|V].
  - rewrite by_id_spec by done. rewrite Et. done.
  - rewrite Eq, <-N, <-K. by destruct r.
  - destruct (p_record0 r Hin) as (n & _ & _ & Htext). rewrite <-Eq, Htext in V. done.
Qed.

(** What a pass that succeeded did. *)
Lemma migrate_ok d0 d3 changed l :
  let T := planProjectNameMigration unicode_lower importedTime l in
  plan_for d0 l T → d_records d0 !! "" = None → d_migration d0 = None → quiet_calls d0 →
  MigrateLegacyNames unicode_lower importedTime d0 = (d3, Ok changed) →
  d_records d3 = mig_file T <$> d_records d0 ∧
  (∀ id r, d_records d0 !! id = Some (Private r) → ProjectRecord_Validate (retarget T r) id = Ok tt) ∧
  (T ≠ [] → validateCanonicalMigrationTargets l T = Ok tt ∧ validateProjectNameMigration (mkMigration 1 T) = Ok tt).
Proof.
  intros T Hp Hne Em Hq Hrun. destruct (decide (T = [])) as [E|E].
  - rewrite (migrate_idle d0 l Em (p_list _ _ _ Hp) E) in Hrun. injection Hrun as <- <-. rewrite E. split_and!; [|..|done].
    + symmetry. rewrite <-(map_fmap_id (d_records d0)) at 2. apply map_fmap_ext. by intros i [|r|r] _.
    + intros id r Hr. destruct (p_private _ _ _ Hp id _ Hr) as (x & [= <-] & Hv). done.
  - assert (validateCanonicalMigrationTargets l T = Ok tt ∧ validateProjectNameMigration (mkMigration 1 T) = Ok tt ∧
            ∃ d1, d_records d1 = d_records d0 ∧ (applyProjectNameMigration (mkMigration 1 T) d1).2 = Ok tt) as (Hc & Hj & d1 & E1 & Ha).
    { unfold MigrateLegacyNames, resumeProjectNameMigration, readProjectNameMigration in Hrun. unfold mbind, eff_bind, reading, pure in Hrun.
      rewrite Em in Hrun. cbn [mret eff_ret] in Hrun. rewrite (p_list _ _ _ Hp), bool_decide_false in Hrun by done. fold T in Hrun.
      destruct (validateCanonicalMigrationTargets l T) as [[]|]; [|done]. unfold writeProjectNameMigration in Hrun. unfold mbind, eff_bind, pure in Hrun.
      destruct (validateProjectNameMigration (mkMigration 1 T)) as [[]|]; [|done]. split_and!; [done..|].
      unfold write_call at 1 in Hrun. rewrite Hq in Hrun. eexists. split; [|destruct (applyProjectNameMigration _ _) as [? [[]|]] eqn:Ea in Hrun; [|done]; by rewrite Ea]. done. }
    pose proof (applied_valid d0 l d1 Hp Hne E1 Ha) as Hval. split_and!; [|done|done].
    destruct (migrate_cases d0 l Hp Hne Hval E Hc Hj d0 eq_refl Em) as [_ Hok]. destruct (Hok Hq) as (_ & Hr & _). by rewrite Hrun in Hr.
Qed.

(** A pass over the directory, interrupted or not, and one over what it left that is not. *)
Lemma migrate_retry d0 d3 l x y :
  let T := planProjectNameMigration unicode_lower importedTime l in
  plan_for d0 l T → d_records d0 !! "" = None →
  d_records d3 = mig_file T <$> d_records d0 →
  (∀ id r, d_records d0 !! id = Some (Private r) → ProjectRecord_Validate (retarget T r) id = Ok tt) →
  (T ≠ [] → validateCanonicalMigrationTargets l T = Ok tt ∧ validateProjectNameMigration (mkMigration 1 T) = Ok tt) →
  d_records x = d_records d0 → d_migration x = None →
  d_records y = d_records (MigrateLegacyNames unicode_lower importedTime x).1 →
  d_migration y = d_migration (MigrateLegacyNames unicode_lower importedTime x).1 → quiet_calls y →
  ∃ d2 changed', MigrateLegacyNames unicode_lower importedTime y = (d2, Ok changed') ∧ d_records d2 = d_records d3 ∧ d_migration d2 = None.
Proof.
  intros T Hp Hne E3 Hval Hneed Ex Mx Ey My Hq. rewrite E3. destruct (decide (T = [])) as [ET|ET].
  - assert (listUnlocked x = Ok l) as Hlx by (rewrite (listUnlocked_ext x d0 Ex); apply Hp).
    rewrite (migrate_idle x l Mx Hlx ET) in Ey, My. cbn [fst] in *.
    assert (listUnlocked y = Ok l) as Hly by (by rewrite (listUnlocked_ext y x Ey)).
    rewrite (migrate_idle y l) by (try done; by rewrite My). exists y, false. split_and!; [done|..|by rewrite My].
    rewrite Ey, Ex, ET. rewrite <-(map_fmap_id (d_records d0)) at 1. apply map_fmap_ext. by intros i [|r|r] _.
  - destruct (Hneed ET) as [Hc Hj]. destruct (migrate_cases d0 l Hp Hne Hval ET Hc Hj x Ex Mx) as [Hcases _]. rewrite <-Ey, <-My in Hcases.
    destruct Hcases as [[C1 C2]|[[C1 C2]|[C1 C2]]].
    + destruct (migrate_cases d0 l Hp Hne Hval ET Hc Hj y C1 C2) as [_ Hok]. destruct (Hok Hq) as (O1 & O2 & O3).
      destruct (MigrateLegacyNames _ _ y) as [d2 r2]. cbn [fst snd] in *. subst r2. by exists d2, true.
    + destruct (resumes d0 l Hp Hne Hval Hj y C1 C2 Hq) as (d2 & R1 & R2 & R3). by exists d2, true.
    + exists y, false. split_and!; [|done..]. by apply (done_again d0 l Hp Hne Hval).
Qed.

(** C25: A rename of projects is resumed.  When a pass over a directory succeeds, then a pass that is
    interrupted at whatever call, before or after its effect, followed by one that is not, ends with
    the same records and no journal.  Each record keeps everything but its name and its source key;
    the names are safe, unique without regard to case, no identifier of another project, and a further
    pass finds nothing to do. *)
Theorem migrate_resumes faults d0 d3 changed :
  d_migration d0 = None → d_faults d0 = [] → d_records d0 !! "" = None →
  (∀ id r, d_records d0 !! id = Some (Private r) → record_text r = r) →
  (∀ l, listUnlocked d0 = Ok l → Z.of_nat (length l) < 10 ^ 30) →
  MigrateLegacyNames unicode_lower importedTime d0 = (d3, Ok changed) →
  (∃ d2 changed', MigrateLegacyNames unicode_lower importedTime
       ((MigrateLegacyNames unicode_lower importedTime (d0 <| d_faults := faults |>)).1 <| d_faults := [] |>) = (d2, Ok changed') ∧
     d_records d2 = d_records d3 ∧ d_migration d2 = None) ∧
  (∀ id r, d_records d0 !! id = Some (Private r) →
     ∃ n, d_records d3 !! id = Some (Private (r <| pr_Name := n |> <| pr_SourceKey := record_source_key r |>))) ∧
  (∃ l, listUnlocked d3 = Ok l ∧ settled_names l ∧ planProjectNameMigration unicode_lower importedTime l = []).
Proof.
  intros Em Hq Hne Htext Hlen Hrun.
  assert (∃ l, listUnlocked d0 = Ok l) as [l Hl].
  { unfold MigrateLegacyNames, resumeProjectNameMigration, readProjectNameMigration in Hrun. unfold mbind, eff_bind, reading in Hrun.
    rewrite Em in Hrun. simpl in Hrun. destruct (listUnlocked d0) as [l|]; [by exists l|done]. }
  pose proof (plan_for_listing d0 l Hne Htext Hl (Hlen l Hl)) as Hp.
  destruct (migrate_ok d0 d3 changed l Hp Hne Em Hq Hrun) as (E3 & Hval & Hneed). split; [|split].
  - by eapply (migrate_retry d0 d3 l (d0 <| d_faults := faults |>)).
  - intros id r Hr. rewrite E3, lookup_fmap, Hr. pose proof (proj1 (p_files _ _ _ Hp id r) Hr) as [Hin _].
    destruct (p_record _ _ _ Hp r Hin) as (n & _ & Eq & _). exists n. simpl. by rewrite Eq.
  - by eapply (plan_done d0 l).
Qed.

End names.

(** *** Projects of one name *)

Definition no_time (s : string) : option Z := None.

Definition legacy_project (id name hostPath : string) : ProjectRecord :=
  mkProjectRecord 1 0 id name hostPath "" ("/srv/workspaces/" +:+ id +:+ "/src") "sync" "yard" "" "" "" "".

(** Two projects of one name; an operation that reserved a name. *)
Definition twins : gmap string record_file :=
  {["a" := Private (legacy_project "a" "demo" "/home/u/demo"); "b" := Private (legacy_project "b" "Demo" "")]}.
Definition twin_directory : directory := mkDirectory twins ∅ None [].

Definition renamed_twins : directory := (MigrateLegacyNames sample_lower no_time twin_directory).1.

Lemma twins_text id r : twins !! id = Some (Private r) → record_text r = r.
Proof.
  unfold twins. intros [[_ [= <-]]|[_ [_ [= <-]]%lookup_singleton_Some]]%lookup_insert_Some; reflexivity.
Qed.

Lemma migrate_resumes_witness :
  d_records renamed_twins !! "b" = Some (Private (legacy_project "b" "demo-2" "")) ∧
  (∃ d2 changed, MigrateLegacyNames sample_lower no_time
       ((MigrateLegacyNames sample_lower no_time (twin_directory <| d_faults := [Works; Works; FailsAfter] |>)).1 <| d_faults := [] |>) = (d2, Ok changed) ∧
     d_records d2 = d_records renamed_twins ∧ d_migration d2 = None).
Proof.
  split; [vm_compute; reflexivity|].
  refine (proj1 (migrate_resumes sample_lower no_time [Works; Works; FailsAfter] twin_directory renamed_twins true eq_refl eq_refl _ twins_text _ _)).
  - vm_compute. reflexivity.
  - intros l Hl. vm_compute in Hl. injection Hl as <-. vm_compute. reflexivity.
  - vm_compute. reflexivity.
Defined.

(** ** A rename does not look at reservations *)

Definition twin_reservation : ProjectReservation := mkProjectReservation 1 "op-1" "demo-2" "demo-2" "/home/u/new" "bind" "demo-2" true 1.

